(* ===== verification/_CoqProject ===== *)
-Q . S2P
Prelude.v
Str.v
Bytes.v
Nom.v
Timer.v
Headers.v
Uri.v
Message.v
Via.v
Parser.v
UriRoundTrip.v
MessageRoundTrip.v
ViaRoundTrip.v
NameAddr.v
Route.v
Transport.v
Cancel.v
TxState.v
ClientTx.v
ServerTx.v
TxManager.v
TxSystem.v
ProxyCore.v
RouteTermination.v
ProxyRouting.v
Fork.v
Replies.v
ForkProofs.v
Blank.v
Framer.v
FramerAgree.v
FramerStream.v
ProxyProtocol.v
ProxyProtocolProofs.v
Limiter.v
LimiterProofs.v
AutoBan.v
AutoBanProofs.v
Digest.v
DigestServer.v
AuthVerdict.v
DigestProofs.v
DigestExchange.v
AuthVerdictProofs.v
Bencode.v
BencodeProofs.v
AvpTable.v
Dictionary.v
Diameter.v
DiameterProofs.v
DiameterJson.v
DiameterRelay.v
DiameterValues.v
Binding.v
ContactIndex.v
Registrar.v
RegistrarProofs.v
RegistrarAliases.v
RegistrarBindings.v
RegistrarSweeps.v
WriteQueue.v
WriteQueueProofs.v
WriteThrough.v
