(* ===== verification/Prelude.v ===== *)
(** * siphon-sip: a verification development of the SIP protocol core

    siphon-sip is a SIP proxy, B2BUA and IMS platform in Rust.  A message comes
    from a transport, is parsed ([src/src/sip]), matched to a transaction
    ([src/src/transaction]), handed by the dispatcher to a script or to the
    proxy ([src/src/proxy]), forked to the targets, and written out again.  This
    library models that core: the framing of a byte stream into messages, text
    and messages, the transaction layer, the forwarding and forking logic of the
    proxy, the registrar that says where a user is reached, the digest
    authentication and the limits and bans that guard them; and the wire codecs
    of the protocols it speaks beside SIP.

    ** Representation

    - Rust strings and byte vectors are [string]s of bytes ([Str]); a [char] is
      the UTF-8 text of one scalar value.  Unsigned integers are [N], with the
      parsers refusing what their width cannot hold ([parse_uint] takes the
      maximum of the type).  A [Duration] is a number of nanoseconds in [N], an
      [Instant] one in [Z], or in [N] where it is only compared with later ones
      ([AutoBan], [AuthVerdict]).
    - [Result] is [result E A] of this file, with stdpp's monad notation;
      [Option] is [option].  Error texts are constructors of an error type.
    - A method on [&mut self] is a function to the new value.  [IndexMap] is an
      association list, [DashMap] a [gmap].
    - The clock and random identifiers are arguments ([now], [uuid]).
    - Code outside the repository is a class whose fields are the operations
      used and their documented behaviour: [Nom] (the nom parser combinators),
      [Unicode] (the Unicode tables of the standard library), [Float32] (the
      text conversions of [f32]), [Float32Order] (its order), [RandomState] (a
      keyed hash), [DigestHash] (MD5 and the two SHA-2 hashes, of which nothing
      is assumed).  The trait [WriteSink] of the store behind the registrar is
      such a class too.  Each has an instance that runs ([nom_reference],
      [unicode_ascii], [float_whole], [float_whole_order], [finish_length],
      [memory_sink], [last_octets], [polynomial]), used by the witnesses.

    ** Files

    - [Prelude]: results, tactics, list and integer lemmas.  [Str]: the [str]
      methods of Rust.  [Bytes]: big-endian numbers, slices, hexadecimal.
      [Nom]: the combinators.
    - [Timer] ([transaction/timer.rs]): the timers.  The retransmit intervals
      double up to T2 and never pass it; the RFC 4320 delay is the sum of the
      intervals before T2.
    - [Headers] ([sip/headers/mod.rs]): the header container.  Reading after
      each way of writing, case and compact forms included; the serializer's
      insertion sort is a stable sort by rank.
    - [Uri], [Message], [Via], [NameAddr], [Route], [Parser] ([sip/uri.rs],
      [sip/message.rs], [sip/builder.rs], [sip/headers/*.rs], [sip/parser.rs]):
      types, printers and parsers.  [UriRoundTrip], [MessageRoundTrip] and
      [ViaRoundTrip]: a well-formed URI, message, Via or CSeq is read back as it
      was written; every parsed message has single-line header values, and a
      body of the length Content-Length says.
    - [Transport] ([transport/mod.rs], [hold.rs], [ue_sockets.rs]): transport
      names, IP addresses, the connection holds.
    - [Cancel] ([transaction/cancel.rs]): the CANCEL of an INVITE matches it.
    - [TxState] ([transaction/state.rs], [state/no_response.rs]): the four
      transaction machines, each a record with a [process] function.
      [ClientTx]: the INVITE client machine refines an abstract machine; a
      CANCEL goes out at most once, only after a provisional and before a final;
      the transaction user sees provisionals, then one final, then nothing but
      2xx; what it sends is the INVITE, its CANCEL or the ACK of its response;
      Timer C never fires early.  [ServerTx]: an interface [ServerMachine] with
      both server machines as instances; one To-tag per transaction, and one
      final response.
    - [TxManager] ([transaction/mod.rs], [key.rs]): all transactions by key.
      [TxSystem]: the manager and its callers as a step relation; in every
      reachable state the stored transactions have not ended, and a connection
      is held exactly while a transaction is pending on it; a retransmitted
      request finds its transaction, a response has the key of its request, an
      ACK reaches the INVITE it acknowledges.
    - [ProxyCore] ([proxy/core.rs]): the header work of forwarding.
      [RouteTermination]: the loop that pops our own routes ends on any text.
      [ProxyRouting]: a pushed Via comes off again, hops are bounded by
      Max-Forwards, the proxy knows exactly its recorded addresses, exactly the
      leading entries that name it are consumed.
    - [Fork] ([proxy/fork/mod.rs], [sip/best_response.rs]): the aggregator of a
      forked request.  [ForkProofs]: what goes upstream over any sequence of
      operations, the best failure of RFC 3261 section 16.7, and that a fork
      whose branches all ended has answered.
    - [Framer] ([transport/tcp.rs], [stream.rs], [crlf_keepalive.rs]): the
      framing of a TCP stream, from the scan for Content-Length to the read
      task.  [Blank]: white space around numbers.  [FramerAgree]: where framer
      and parser both accept a buffer they agree on the length of the message,
      line folding included.  [FramerStream]: a stream of messages and
      keep-alives delivers the same messages however the peer segments it.
    - [ProxyProtocol] ([transport/proxy_protocol.rs]): the PROXY header in front
      of a connection, both versions, and the accept site that replays what it
      read too much.  [ProxyProtocolProofs]: what is accepted and what is
      replayed do not depend on the segments of the stream, and a header is read
      within the largest length a header can have.
    - [Limiter] ([security.rs], [ConnectionLimiter]): the limits on connections
      and handshakes, per source and in total, as functions and as a system of
      tasks that interleave at every access to the shared counters.
      [LimiterProofs]: in every reachable state the counters cover the slots
      held, the limits hold, and when all tasks rest the counters are exact and
      no row of a source without connections is left.
    - [AutoBan] ([security.rs], [AutoBanStore]): failure windows and bans.
      [AutoBanProofs]: for each source the store behaves as an abstract judge of
      that source alone; a ban is raised exactly at the threshold, slides with
      further signals and ends at its deadline at the latest.
    - [Digest] ([auth/mod.rs]): the client of digest authentication.
      [DigestServer] ([script/api/auth.rs]): nonces, the reading of a response
      and its check.  [AuthVerdict] ([auth/credential_cache.rs],
      [auth/server.rs], [script/api/auth.rs]): the credential cache, the backends
      and the challenge handler.  [DigestProofs]: what the client writes the
      server reads.  [DigestExchange]: an honest client that answers the
      challenge it got is let in; a wrong password gets in only by a collision of
      the hash; which nonces are accepted; and runs that show where the two sides
      disagree.  [AuthVerdictProofs]: a verdict rests on a credential the source
      gave within the lifetime of the cache, a changed password works at once,
      and only responses judged wrong lead to a ban.
    - [Bencode] ([rtpengine/bencode.rs]): the control protocol of rtpengine.
      [BencodeProofs]: a value is read back as it was written, the decoder
      always returns, and exactly which string lengths make it panic.
    - [AvpTable], [Dictionary] ([diameter/dictionary.rs], [dictionary/policy.rs]):
      the Diameter dictionary; every search finds exactly the definitions of the
      tables.  [Diameter] ([diameter/codec.rs]): framing, the decoder to JSON and
      the lossless tree.  [DiameterProofs]: a relayed message decodes to the tree
      it had.  [DiameterJson]: the JSON object is a view of the tree and is typed
      by the dictionary.  [DiameterValues]: values and digit texts read back.
      [DiameterRelay] ([diameter/forward.rs]): a request never passes a relay
      twice; the result of an answer reads the same from both decodings.
    - [Binding] ([registrar/mod.rs]): a contact binding, its lifetime, the
      canonical identity, the order of preference.  [ContactIndex]
      ([registrar/contact_index.rs]): the counted reverse index.  [Registrar]
      ([registrar/mod.rs], [update.rs], [event_hold.rs],
      [restore_eviction.rs]): the store and every operation on it.
      [RegistrarProofs]: over any sequence of operations the contact index is
      exact, so that a lookup through it is a scan of all bindings.
      [RegistrarAliases]: aliases reflect the implicit registration sets; a
      de-registration leaves nothing behind.  [RegistrarBindings]: the outcome
      of a REGISTER on every branch, its bounds, the order of a lookup.
      [RegistrarSweeps]: what the expiry sweep and the close of a connection
      remove and what they leave, and runs that show where the connection index
      and the expiry fall short.
    - [WriteQueue] ([registrar/backend/coalesce.rs]): the write-behind queue to
      the backend, with its drainer.  [WriteQueueProofs]: whatever order writes
      arrive in and whatever the sink refuses, the newest write of a key is
      pending, in the sink or counted as dropped, and one attempt against a sink
      that is up catches up.  [WriteThrough] ([registrar/backend/writer.rs]): the
      registrar composed with the queue; the backend comes to hold the bindings.

    ** Fuel

    Loops of the source that are not structural take fuel.  The header-line and
    folding loops of [Parser] get one turn per input byte and one more, each
    turn consuming input ([headers_loop_enough], [header_value_loop_enough]).
    [pop_local_routes] gets one turn per opening bracket of the Route values
    and one more; [pop_local_routes_ends] is the proof that it returns.
    [frame_loop] gets one turn per byte and one more ([framing_chunk_independent]
    has it return); the bencode decoder two per byte and two more
    ([bencode_decode_total]); the AVP loops one per byte and one more, a turn
    taking at least eight bytes ([parse_enough], [decode_parsed]).
    [timer_e_reaches_t2] doubles an interval below T2, one turn per bit of T2.
    [trim_end_str] gets one turn per byte, each turn removing the pattern.
    [drain_loop] gets one turn per write of the backlog, each turn taking at
    least one out ([drain_loop_end]).
    The TLV walks of [ProxyProtocol] get one turn per octet, a turn taking at
    least three ([nested_version_enough], [parse_ssl_tlv_enough]); [find_param]
    and [replace_all] one per octet and one more, a turn passing the needle
    ([find_param_enough], [replace_all_enough]).

    ** Not modelled

    Sockets, TLS and async tasks; the Python script engine; the dispatcher's
    handlers, which only call what is modelled here; the B2BUA, the stores
    behind the registrar and its documents, the Diameter peers and applications,
    media control and the further IMS functions, of authentication the AKA
    vectors and the clients of the backends; of the security filters the trust
    lists and the scanner detection.  The operations of the transaction manager,
    of the registrar, of the auto-ban store and of the credential cache are
    atomic steps; those of the connection limiter are not.  The source of the manager releases the
    lock of an entry between ending a transaction and removing it; that of the
    registrar updates its indexes after it releases the entry of the list.  One
    operation of the registrar reads the clock once.  [WriteThrough] leaves out
    the operations that can change bindings without a write: pending bindings,
    AS records, the expiry sweep, a restore, a connection closed with bindings
    to keep. *)

From Stdlib Require Export Ascii.
From stdpp Require Export prelude gmap strings pretty.

Declare Scope sip_scope.
Delimit Scope sip_scope with sip.
#[global] Open Scope sip_scope.

(** ** Results

    Rust's [Result<T, E>].  The error type comes first, so that [result E] is a
    monad for stdpp's bind notation [x ← e; k], which is the [?] operator. *)
Inductive result (E A : Type) : Type :=
  | Ok (a : A)
  | Err (e : E).
Arguments Ok {E A} a.
Arguments Err {E A} e.

#[export] Instance result_ret {E} : MRet (result E) := @Ok E.
#[export] Instance result_bind {E} : MBind (result E) := λ _ _ f r,
  match r with Ok a => f a | Err e => Err e end.
#[export] Instance result_fmap {E} : FMap (result E) := λ _ _ f r,
  match r with Ok a => Ok (f a) | Err e => Err e end.

(** [Option::ok_or] and [Result::map_err], [Result::ok]. *)
Definition ok_or {E A} (e : E) (o : option A) : result E A :=
  match o with Some a => Ok a | None => Err e end.

Definition map_err {E F A} (f : E → F) (r : result E A) : result F A :=
  match r with Ok a => Ok a | Err e => Err (f e) end.

Definition ok {E A} (r : result E A) : option A :=
  match r with Ok a => Some a | Err _ => None end.

Definition is_ok {E A} (r : result E A) : bool :=
  match r with Ok _ => true | Err _ => false end.

(** [iter().map(f).collect::<Result<Vec<_>, _>>()], and the loops of the form
    [for x in xs { out.push(f(x)?) }]: stops at the first error. *)
Fixpoint result_mapM {E A B} (f : A → result E B) (l : list A) : result E (list B) :=
  match l with
  | [] => Ok []
  | x :: l => y ← f x; ys ← result_mapM f l; Ok (y :: ys)
  end.

Lemma bind_Ok {E A B} (r : result E A) (f : A → result E B) b :
  (r ≫= f) = Ok b ↔ ∃ a, r = Ok a ∧ f a = Ok b.
Proof. destruct r; naive_solver. Qed.

Lemma ok_or_Ok {E A} (e : E) (o : option A) a : ok_or e o = Ok a ↔ o = Some a.
Proof. destruct o; naive_solver. Qed.

Lemma result_mapM_Ok {E A B} (f : A → result E B) l k :
  result_mapM f l = Ok k ↔ Forall2 (λ x y, f x = Ok y) l k.
Proof.
  revert k. induction l as [|x l IH]; intros k; simpl.
  - split; [intros [= <-]; constructor|by inversion 1].
  - rewrite bind_Ok. setoid_rewrite bind_Ok. split.
    + intros (y & Hy & ys & Hys & [= <-]). constructor; [done|by apply IH].
    + inversion 1 as [|? y ? ys Hy Hys]; subst. exists y. split; [done|].
      exists ys. by rewrite IH.
Qed.

(** ** Automation *)

(** Inverts the binds of a hypothesis that says a fallible computation
    succeeded. *)
Ltac inv_ok :=
  repeat match goal with
  | H : _ ≫= _ = Ok _ |- _ =>
      let a := fresh "a" in let Ha := fresh "Ha" in
      apply bind_Ok in H as (a & Ha & H)
  | H : ok_or _ _ = Ok _ |- _ => apply ok_or_Ok in H
  | H : Ok _ = Ok _ |- _ => injection H as H; try subst
  | H : Err _ = Ok _ |- _ => discriminate H
  | H : Ok _ = Err _ |- _ => discriminate H
  end.

(** Splits every [match] and [if] of the goal and simplifies. *)
Ltac cases :=
  repeat (case_match || case_decide || case_bool_decide); simplify_eq/=.

Create HintDb sip discriminated.

(** ** Lists *)

(** The elements of a list split at the first one that fails [p]. *)
Fixpoint span {A} (p : A → bool) (l : list A) : list A * list A :=
  match l with
  | [] => ([], [])
  | x :: l => if p x then let '(a, b) := span p l in (x :: a, b) else ([], x :: l)
  end.

Lemma span_app {A} (p : A → bool) l1 l2 :
  forallb p l1 = true → span p (l1 ++ l2) = (l1 ++ (span p l2).1, (span p l2).2).
Proof.
  induction l1 as [|x l1 IH]; simpl; [by destruct (span p l2)|].
  intros [-> Hl]%andb_prop. by rewrite (IH Hl).
Qed.

Lemma span_concat {A} (p : A → bool) l : (span p l).1 ++ (span p l).2 = l.
Proof.
  induction l as [|x l IH]; [done|]. simpl.
  destruct (p x); [|done]. destruct (span p l); simpl in *. by f_equal.
Qed.

Lemma forallb_elem {A} (p : A → bool) l x : forallb p l = true → x ∈ l → p x = true.
Proof. rewrite forallb_forall. intros Hl Hx. by apply Hl, list_elem_of_In. Qed.

(** Proves the goal for each element of the list literal [H] says [x] is in. *)
Tactic Notation "each_of" hyp(H) "by" tactic3(t) :=
  repeat (apply elem_of_cons in H as [->|H]; [t|]); by apply elem_of_nil in H.
