(* ===== verification/Str.v ===== *)
(** * Rust strings

    A Rust [&str] / [String] is the sequence of its UTF-8 bytes, and so is a
    [Vec<u8>] / [Bytes]: both are a [string] here, whose characters are the
    bytes.  This file has the [str] methods the SIP code calls, with ASCII
    needles working on bytes, as they do in Rust, and the character predicates
    working on whole scalar values. *)

From S2P Require Import Prelude.

(** ** Bytes and characters *)

Abbreviation byte := ascii (only parsing).
Abbreviation bytes := string (only parsing).

(** A Rust [char], as its UTF-8 encoding. *)
Abbreviation char := string (only parsing).

Definition code (a : byte) : N := N_of_ascii a.

Definition in_range (lo hi : N) (a : byte) : bool := (lo <=? code a)%N && (code a <=? hi)%N.

Definition is_ascii_digit (a : byte) : bool := in_range 48 57 a.
Definition is_ascii_upper (a : byte) : bool := in_range 65 90 a.
Definition is_ascii_lower (a : byte) : bool := in_range 97 122 a.
Definition is_ascii_alphabetic (a : byte) : bool := is_ascii_upper a || is_ascii_lower a.
Definition is_ascii_alphanumeric (a : byte) : bool := is_ascii_alphabetic a || is_ascii_digit a.
Definition is_ascii_hexdigit (a : byte) : bool :=
  is_ascii_digit a || in_range 65 70 a || in_range 97 102 a.

(** [u8::is_ascii_whitespace] / [char::is_ascii_whitespace]: no vertical tab. *)
Definition is_ascii_whitespace (a : byte) : bool :=
  bool_decide (code a ∈ [9; 10; 12; 13; 32]%N).

Definition is_ascii_byte (a : byte) : bool := (code a <? 128)%N.

(** [to_ascii_lowercase] / [to_ascii_uppercase] of one byte. *)
Definition byte_lower (a : byte) : byte :=
  if is_ascii_upper a then ascii_of_N (code a + 32) else a.
Definition byte_upper (a : byte) : byte :=
  if is_ascii_lower a then ascii_of_N (code a - 32) else a.

Definition CR : byte := "013".
Definition LF : byte := "010".
Definition HT : byte := "009".
Definition DQUOTE : byte := "034".
Definition CRLF : string := String CR (String LF "").

(** ** Whole strings *)

Fixpoint str_map (f : byte → byte) (s : string) : string :=
  match s with "" => "" | String a s => String (f a) (str_map f s) end.

Fixpoint str_forall (p : byte → bool) (s : string) : bool :=
  match s with "" => true | String a s => p a && str_forall p s end.

Definition str_exists (p : byte → bool) (s : string) : bool :=
  negb (str_forall (λ a, negb (p a)) s).

Definition is_ascii : string → bool := str_forall is_ascii_byte.
Definition to_ascii_lowercase : string → string := str_map byte_lower.
Definition to_ascii_uppercase : string → string := str_map byte_upper.

Fixpoint str_concat (l : list string) : string :=
  match l with [] => "" | s :: l => s +:+ str_concat l end.

(** [[String]::join(sep)]. *)
Fixpoint join (sep : string) (l : list string) : string :=
  match l with
  | [] => ""
  | [s] => s
  | s :: l => s +:+ sep +:+ join sep l
  end.

(** [len()], as a [usize]. *)
Definition blen (s : bytes) : N := N.of_nat (String.length s).

Definition is_empty (s : string) : bool := match s with "" => true | _ => false end.

Definition byte_in (l : list byte) (a : byte) : bool := bool_decide (a ∈ l).

(** The characters of a valid UTF-8 string ([str::chars]): the lead byte gives
    the length of the encoding. *)
Fixpoint chars (s : string) : list char :=
  match s with
  | "" => []
  | String a s1 =>
      if (code a <? 192)%N then String a "" :: chars s1 else
      match s1 with
      | "" => [String a ""]
      | String b s2 =>
          if (code a <? 224)%N then String a (String b "") :: chars s2 else
          match s2 with
          | "" => [String a (String b "")]
          | String c s3 =>
              if (code a <? 240)%N then String a (String b (String c "")) :: chars s3 else
              match s3 with
              | "" => [String a (String b (String c ""))]
              | String d s4 => String a (String b (String c (String d ""))) :: chars s4
              end
          end
      end
  end.

(** [std::str::from_utf8]: well-formed byte sequences (Unicode Table 3-7). *)
Definition is_continuation : byte → bool := in_range 128 191.

Fixpoint utf8_valid (s : bytes) : bool :=
  match s with
  | "" => true
  | String a s1 =>
      if (code a <? 128)%N then utf8_valid s1 else
      match s1 with
      | "" => false
      | String b s2 =>
          if in_range 194 223 a then is_continuation b && utf8_valid s2 else
          match s2 with
          | "" => false
          | String c s3 =>
              if in_range 224 239 a then
                (if (code a =? 224)%N then in_range 160 191 b
                 else if (code a =? 237)%N then in_range 128 159 b
                 else is_continuation b) && is_continuation c && utf8_valid s3
              else
              match s3 with
              | "" => false
              | String d s4 =>
                  in_range 240 244 a &&
                  (if (code a =? 240)%N then in_range 144 191 b
                   else if (code a =? 244)%N then in_range 128 143 b
                   else is_continuation b) &&
                  is_continuation c && is_continuation d && utf8_valid s4
              end
          end
      end
  end.

(** [String::from_utf8_lossy]: each maximal part of a sequence that does not
    continue becomes one replacement character. *)
Definition REPLACEMENT : string := String "239" (String "191" (String "189" "")).

(** The second bytes a three- or four-byte sequence can have. *)
Definition second_byte (a b : byte) : bool :=
  if (code a =? 224)%N then in_range 160 191 b
  else if (code a =? 237)%N then in_range 128 159 b
  else if (code a =? 240)%N then in_range 144 191 b
  else if (code a =? 244)%N then in_range 128 143 b
  else is_continuation b.

Fixpoint from_utf8_lossy (s : bytes) : string :=
  match s with
  | "" => ""
  | String a s1 =>
      if (code a <? 128)%N then String a (from_utf8_lossy s1) else
      if negb (in_range 194 244 a) then REPLACEMENT +:+ from_utf8_lossy s1 else
      match s1 with
      | "" => REPLACEMENT
      | String b s2 =>
          if in_range 194 223 a then
            if is_continuation b then String a (String b (from_utf8_lossy s2))
            else REPLACEMENT +:+ from_utf8_lossy s1
          else if negb (second_byte a b) then REPLACEMENT +:+ from_utf8_lossy s1 else
          match s2 with
          | "" => REPLACEMENT
          | String c s3 =>
              if negb (is_continuation c) then REPLACEMENT +:+ from_utf8_lossy s2 else
              if in_range 224 239 a then String a (String b (String c (from_utf8_lossy s3))) else
              match s3 with
              | "" => REPLACEMENT
              | String d s4 =>
                  if is_continuation d
                  then String a (String b (String c (String d (from_utf8_lossy s4))))
                  else REPLACEMENT +:+ from_utf8_lossy s3
              end
          end
      end
  end.

(** The Unicode tables of the Rust standard library that the code consults for
    characters outside ASCII.  For ASCII text the functions below never consult
    them. *)
Class Unicode := {
  uni_alphanumeric : char → bool;
  uni_lowercase : string → string;
  uni_uppercase : string → string;
}.

(** [char::is_whitespace]: the Unicode White_Space property. *)
Definition is_whitespace (c : char) : bool :=
  bool_decide (code <$> String.list_ascii_of_string c ∈
    [[9]; [10]; [11]; [12]; [13]; [32]; [194; 133]; [194; 160]; [225; 154; 128];
     [226; 128; 128]; [226; 128; 129]; [226; 128; 130]; [226; 128; 131];
     [226; 128; 132]; [226; 128; 133]; [226; 128; 134]; [226; 128; 135];
     [226; 128; 136]; [226; 128; 137]; [226; 128; 138]; [226; 128; 168];
     [226; 128; 169]; [226; 128; 175]; [226; 129; 159]; [227; 128; 128]]%N).

(** A test on a character that holds of the ASCII bytes [p] accepts and, outside
    ASCII, of the characters [q] accepts. *)
Definition char_test (p : byte → bool) (q : char → bool) (c : char) : bool :=
  match c with
  | String a "" => if is_ascii_byte a then p a else q c
  | _ => q c
  end.

Section unicode.
Context {U : Unicode}.

Definition is_alphanumeric : char → bool := char_test is_ascii_alphanumeric uni_alphanumeric.

Definition to_lowercase (s : string) : string :=
  if is_ascii s then to_ascii_lowercase s else uni_lowercase s.
Definition to_uppercase (s : string) : string :=
  if is_ascii s then to_ascii_uppercase s else uni_uppercase s.
End unicode.

(** ** Searching and splitting *)

(** The longest prefix with no byte that [p] accepts, and the rest: [s[..i]] and
    [s[i..]] for [i = s.find(p).unwrap_or(s.len())]. *)
Fixpoint break (p : byte → bool) (s : string) : string * string :=
  match s with
  | "" => ("", "")
  | String a t => if p a then ("", s) else let '(x, y) := break p t in (String a x, y)
  end.

Definition is_byte (a b : byte) : bool := bool_decide (a = b).

Definition contains (a : byte) (s : string) : bool := str_exists (is_byte a) s.

(** [str::split_once] with a predicate or a character. *)
Definition split_once_by (p : byte → bool) (s : string) : option (string * string) :=
  match break p s with
  | (x, String _ y) => Some (x, y)
  | (_, "") => None
  end.
Definition split_once (a : byte) : string → option (string * string) :=
  split_once_by (is_byte a).

(** [str::rsplit_once]. *)
Fixpoint rsplit_once (a : byte) (s : string) : option (string * string) :=
  match s with
  | "" => None
  | String b t =>
      match rsplit_once a t with
      | Some (x, y) => Some (String b x, y)
      | None => if is_byte a b then Some ("", t) else None
      end
  end.

(** [str::split]: one more piece than there are separators. *)
Fixpoint split (a : byte) (s : string) : list string :=
  match s with
  | "" => [""]
  | String b t =>
      if is_byte a b then "" :: split a t else
      match split a t with
      | [] => [String b ""]
      | x :: l => String b x :: l
      end
  end.

Fixpoint strip_prefix (p s : string) : option string :=
  match p, s with
  | "", _ => Some s
  | String a p, String b s => if is_byte a b then strip_prefix p s else None
  | String _ _, "" => None
  end.
Definition starts_with (p s : string) : bool := bool_decide (is_Some (strip_prefix p s)).
Definition starts_with_byte (p : byte → bool) (s : string) : bool :=
  match s with String a _ => p a | "" => false end.

(** [&s[n..]], empty past the end. *)
Fixpoint str_drop (n : nat) (s : string) : string :=
  match n, s with
  | S n, String _ s => str_drop n s
  | _, _ => s
  end.

(** [ends_with] and [strip_suffix] of a text. *)
Definition ends_with (p s : bytes) : bool :=
  (String.length p <=? String.length s)%nat &&
  bool_decide (String.substring (String.length s - String.length p) (String.length p) s = p).

Definition strip_suffix (p s : string) : option string :=
  if ends_with p s then Some (String.substring 0 (String.length s - String.length p) s) else None.

(** [str::strip_suffix] of one character. *)
Fixpoint strip_suffix_byte (a : byte) (s : string) : option string :=
  match s with
  | "" => None
  | String b "" => if is_byte a b then Some "" else None
  | String b t => String b <$> strip_suffix_byte a t
  end.

(** What precedes the first occurrence of [pat], and the rest from there on. *)
Fixpoint find_str (pat s : string) : option (string * string) :=
  if starts_with pat s then Some ("", s) else
  match s with
  | "" => None
  | String a t => '(x, y) ← find_str pat t; Some (String a x, y)
  end.

(** ** Trimming *)

Fixpoint drop_while {A} (p : A → bool) (l : list A) : list A :=
  match l with [] => [] | x :: l' => if p x then drop_while p l' else l end.

Fixpoint drop_while_end {A} (p : A → bool) (l : list A) : list A :=
  match l with
  | [] => []
  | x :: l => match drop_while_end p l with [] => if p x then [] else [x] | l' => x :: l' end
  end.

Definition trim_start (s : string) : string := str_concat (drop_while is_whitespace (chars s)).
Definition trim_end (s : string) : string := str_concat (drop_while_end is_whitespace (chars s)).
Definition trim (s : string) : string :=
  str_concat (drop_while_end is_whitespace (drop_while is_whitespace (chars s))).

(** [trim_start_matches] / [trim_matches] with a set of ASCII characters. *)
Definition trim_start_matches (p : byte → bool) (s : string) : string :=
  String.string_of_list_ascii (drop_while p (String.list_ascii_of_string s)).
Definition trim_matches (p : byte → bool) (s : string) : string :=
  String.string_of_list_ascii (drop_while_end p (drop_while p (String.list_ascii_of_string s))).

(** [str::trim_ascii]. *)
Definition trim_ascii : string → string := trim_matches is_ascii_whitespace.

(** [split_whitespace().next()]. *)
Definition first_word (s : string) : option string :=
  match span (λ c, negb (is_whitespace c)) (drop_while is_whitespace (chars s)) with
  | ([], _) => None
  | (w, _) => Some (str_concat w)
  end.

(** ** Decimal numbers *)

(** The value of a string of decimal digits read after [acc]. *)
Fixpoint digits_value (acc : N) (s : string) : option N :=
  match s with
  | "" => Some acc
  | String a s => if is_ascii_digit a then digits_value (10 * acc + (code a - 48)) s else None
  end.

(** [s.parse::<uN>()], for the type whose largest value is [max]: an optional
    plus sign, then at least one digit, and the value has to fit. *)
Definition parse_uint (max : N) (s : string) : option N :=
  let ds := default s (strip_prefix "+" s) in
  if is_empty ds then None else
  v ← digits_value 0 ds; if (v <=? max)%N then Some v else None.

Definition U8_MAX : N := 255.
Definition U16_MAX : N := 65535.
Definition U32_MAX : N := 4294967295.
Definition USIZE_MAX : N := 18446744073709551615.

(** [to_string] of an unsigned integer. *)
Definition dec (n : N) : string := pretty n.

(** ** Lemmas *)

Lemma append_cons a s1 s2 : String a s1 +:+ s2 = String a (s1 +:+ s2).
Proof. done. Qed.

Lemma append_nil_l s : "" +:+ s = s.
Proof. done. Qed.

Lemma append_assoc s1 s2 s3 : (s1 +:+ s2) +:+ s3 = s1 +:+ (s2 +:+ s3).
Proof. induction s1 as [|a s1 IH]; [done|]. rewrite !append_cons. by f_equal. Qed.

Lemma append_nil_r s : s +:+ "" = s.
Proof. induction s as [|a s IH]; [done|]. rewrite append_cons. by f_equal. Qed.

Create Rewrite HintDb str.
#[export] Hint Rewrite append_assoc append_nil_r append_nil_l append_cons : str.

Lemma str_forall_app p s1 s2 : str_forall p (s1 +:+ s2) = str_forall p s1 && str_forall p s2.
Proof.
  induction s1 as [|a s1 IH]; [done|]. rewrite append_cons. cbn.
  by rewrite IH, andb_assoc.
Qed.

Lemma str_forall_impl (p q : byte → bool) s :
  (∀ a, p a = true → q a = true) → str_forall p s = true → str_forall q s = true.
Proof.
  intros Hpq. induction s as [|a s IH]; [done|]. cbn.
  intros [Ha Hs]%andb_prop. by rewrite (Hpq a Ha), (IH Hs).
Qed.

Lemma str_exists_app p s1 s2 : str_exists p (s1 +:+ s2) = str_exists p s1 || str_exists p s2.
Proof. unfold str_exists. by rewrite str_forall_app, negb_andb. Qed.

Lemma str_exists_cons p a s : str_exists p (String a s) = p a || str_exists p s.
Proof. unfold str_exists. cbn. by rewrite negb_andb, negb_involutive. Qed.

Lemma str_exists_false p s :
  str_exists p s = false ↔ str_forall (λ a, negb (p a)) s = true.
Proof. unfold str_exists. by destruct (str_forall _ s). Qed.

(** Every ASCII string is the list of its bytes as characters. *)
Lemma concat_chars s : str_concat (chars s) = s.
Proof.
  enough (∀ n s, String.length s ≤ n → str_concat (chars s) = s) by eauto.
  clear s. induction n as [|n IH]; intros s Hn; [by destruct s; cbn in *; [|lia]|].
  destruct s as [|a s1]; [done|]. cbn [chars]. case_match.
  { cbn. rewrite ?append_cons, append_nil_l, IH; [done|cbn in *; lia]. }
  destruct s1 as [|b s2]; [done|]. case_match.
  { cbn. rewrite ?append_cons, append_nil_l, IH; [done|cbn in *; lia]. }
  destruct s2 as [|c s3]; [done|]. case_match.
  { cbn. rewrite ?append_cons, append_nil_l, IH; [done|cbn in *; lia]. }
  destruct s3 as [|d s4]; [done|]. cbn. rewrite ?append_cons, append_nil_l, IH; [done|cbn in *; lia].
Qed.

Lemma chars_cons_ascii a s :
  is_ascii_byte a = true → chars (String a s) = String a "" :: chars s.
Proof.
  unfold is_ascii_byte. intros ?%N.ltb_lt. cbn [chars].
  destruct (N.ltb_spec (code a) 192); [done|lia].
Qed.

Lemma chars_app_ascii t s : is_ascii t = true → chars (t +:+ s) = chars t ++ chars s.
Proof.
  induction t as [|a t IH]; [done|]. unfold is_ascii. cbn [str_forall].
  intros [Ha Ht]%andb_prop. rewrite append_cons, !chars_cons_ascii by done.
  rewrite (IH Ht). done.
Qed.

Lemma str_concat_app l1 l2 : str_concat (l1 ++ l2) = str_concat l1 +:+ str_concat l2.
Proof. induction l1 as [|s l1 IH]; [done|]. cbn. by rewrite IH, append_assoc. Qed.

(** Breaking at the first byte in a set. *)
Lemma break_app p t s :
  str_forall (λ a, negb (p a)) t = true →
  break p (t +:+ s) = (t +:+ (break p s).1, (break p s).2).
Proof.
  induction t as [|a t IH]; [rewrite !append_nil_l; by destruct (break p s)|].
  rewrite append_cons. cbn.
  intros [Ha Ht]%andb_prop. apply negb_true_iff in Ha. rewrite Ha.
  rewrite (IH Ht). by rewrite append_cons.
Qed.

Lemma break_stop p t a s :
  str_forall (λ a, negb (p a)) t = true → p a = true →
  break p (t +:+ String a s) = (t, String a s).
Proof. intros Ht Ha. rewrite break_app by done. cbn. by rewrite Ha, append_nil_r. Qed.

Lemma break_none p t :
  str_forall (λ a, negb (p a)) t = true → break p t = (t, "").
Proof.
  intros Ht. rewrite <-(append_nil_r t) at 1. rewrite break_app by done. cbn.
  by rewrite append_nil_r.
Qed.

Lemma break_concat p s : (break p s).1 +:+ (break p s).2 = s.
Proof.
  induction s as [|a s IH]; [done|]. cbn. destruct (p a); [done|].
  destruct (break p s); cbn in *. by rewrite append_cons, IH.
Qed.

Lemma is_byte_refl a : is_byte a a = true.
Proof. by apply bool_decide_eq_true. Qed.

Lemma strip_prefix_app p s : strip_prefix p (p +:+ s) = Some s.
Proof.
  induction p as [|a p IH]; [done|]. rewrite append_cons. cbn. by rewrite is_byte_refl.
Qed.

Lemma strip_prefix_Some p s t : strip_prefix p s = Some t ↔ s = p +:+ t.
Proof.
  split; [|intros ->; apply strip_prefix_app].
  revert s. induction p as [|a p IH]; intros s; [by intros [= ->]|].
  destruct s as [|b s]; [done|]. cbn. unfold is_byte.
  case_bool_decide; [|done]. intros Hs%IH. by subst.
Qed.

Lemma starts_with_app p s : starts_with p (p +:+ s) = true.
Proof. unfold starts_with. by rewrite strip_prefix_app. Qed.

Lemma str_length_app x y : String.length (x +:+ y) = String.length x + String.length y.
Proof. induction x as [|a x IH]; [done|]. rewrite append_cons. cbn. by rewrite IH. Qed.

Lemma blen_app s t : (blen (s +:+ t) = blen s + blen t)%N.
Proof. unfold blen. rewrite str_length_app. lia. Qed.

Lemma find_str_Some pat s x r :
  find_str pat s = Some (x, r) → s = x +:+ r ∧ ∃ r', r = pat +:+ r'.
Proof.
  revert x r. induction s as [|a s IH]; intros x r; cbn; unfold starts_with; case_bool_decide as Hp.
  - intros [= <- <-]. split; [done|]. destruct Hp as [r' ?%strip_prefix_Some]. eauto.
  - done.
  - intros [= <- <-]. split; [done|]. destruct Hp as [r' ?%strip_prefix_Some]. eauto.
  - intros ([y z] & [-> Hr]%IH & [= <- <-])%bind_Some. split; [|done].
    by rewrite append_cons.
Qed.

(** Decimal round trip. *)
Lemma digits_value_go n s : digits_value 0 (pretty_N_go n s) = digits_value n s.
Proof.
  revert s. induction (N.lt_wf_0 n) as [n _ IH]; intros s.
  destruct (decide (n = 0%N)) as [->|Hn]; [done|].
  rewrite pretty_N_go_step by lia. rewrite IH by (apply N.div_lt; lia).
  cbn [digits_value].
  assert (Hmod : (n mod 10 < 10)%N) by (apply N.mod_lt; lia).
  pose proof (N.div_mod n 10 ltac:(lia)) as Hdm.
  assert (Hc : ∀ k, (k < 10)%N → is_ascii_digit (pretty_N_char k) = true ∧
                                  (code (pretty_N_char k) - 48 = k)%N).
  { intros k Hk. assert (k = 0 ∨ k = 1 ∨ k = 2 ∨ k = 3 ∨ k = 4 ∨ k = 5 ∨ k = 6
      ∨ k = 7 ∨ k = 8 ∨ k = 9)%N as Hcase by lia.
    by repeat destruct Hcase as [->|Hcase]; subst. }
  destruct (Hc _ Hmod) as [-> ->]. f_equal. lia.
Qed.

Lemma digits_value_dec n : digits_value 0 (dec n) = Some n.
Proof.
  unfold dec, pretty, pretty_N. case_decide as Hn; [by subst|].
  by rewrite digits_value_go.
Qed.

Lemma dec_digits n : str_forall is_ascii_digit (dec n) = true.
Proof.
  assert (Hgo : ∀ n s, str_forall is_ascii_digit s = true →
                       str_forall is_ascii_digit (pretty_N_go n s) = true).
  { clear n. intros n. induction (N.lt_wf_0 n) as [n _ IH]; intros s Hs.
    destruct (decide (n = 0%N)) as [->|Hn]; [done|].
    rewrite pretty_N_go_step by lia. apply IH; [apply N.div_lt; lia|].
    cbn. rewrite Hs, andb_true_r. unfold pretty_N_char. by repeat case_match. }
  unfold dec, pretty, pretty_N. case_decide; [done|]. by apply Hgo.
Qed.

Lemma dec_not_empty n : dec n ≠ "".
Proof.
  intros Hn. pose proof (digits_value_dec n) as Hd. rewrite Hn in Hd. cbn in Hd.
  injection Hd as <-. discriminate Hn.
Qed.

Lemma parse_uint_dec max n : (n ≤ max)%N → parse_uint max (dec n) = Some n.
Proof.
  intros Hle. unfold parse_uint.
  assert (default (dec n) (strip_prefix "+" (dec n)) = dec n) as ->.
  { pose proof (dec_digits n) as Hd. destruct (dec n) as [|a s]; [done|].
    cbn in Hd |- *. unfold is_byte. case_bool_decide; [subst|done].
    by apply andb_prop in Hd as [? _]. }
  rewrite digits_value_dec. pose proof (dec_not_empty n).
  destruct (dec n); [done|]. cbn. by destruct (N.leb_spec n max); [|lia].
Qed.

(** A number that parses is within the range of its type. *)
Lemma parse_uint_bound max s n : parse_uint max s = Some n → (n ≤ max)%N.
Proof.
  unfold parse_uint. case_match; [done|].
  intros (v & _ & Hv)%bind_Some. case_match; simplify_eq. by apply N.leb_le.
Qed.

(** ** UTF-8 *)

Lemma in_range_true lo hi a : in_range lo hi a = true ↔ (lo ≤ code a ≤ hi)%N.
Proof. unfold in_range. by rewrite andb_true_iff, !N.leb_le. Qed.

Lemma not_ascii_byte a : (128 ≤ code a)%N → negb (is_ascii_byte a) = true.
Proof. unfold is_ascii_byte. intros ?%N.ltb_ge. by apply negb_true_iff. Qed.

(** Decides the comparisons of byte codes a goal branches on. *)
Ltac split_codes :=
  repeat match goal with
  | |- context [(?x <? ?y)%N] => destruct (N.ltb_spec x y); try lia
  | |- context [in_range ?lo ?hi ?a] =>
      let E := fresh in
      destruct (in_range lo hi a) eqn:E;
      [apply in_range_true in E|apply not_true_iff_false in E; rewrite in_range_true in E];
      try lia
  end.

(** Induction over the characters of a well-formed string: each is one ASCII
    byte, or a sequence of bytes outside ASCII. *)
Lemma utf8_ind (Q : string → Prop) :
  Q "" →
  (∀ a s, is_ascii_byte a = true → utf8_valid s = true → Q s → Q (String a s)) →
  (∀ c s, str_forall (λ a, negb (is_ascii_byte a)) c = true → utf8_valid s = true →
     (∀ t, chars (c +:+ t) = c :: chars t) → (∀ t, utf8_valid (c +:+ t) = utf8_valid t) →
     Q s → Q (c +:+ s)) →
  ∀ s, utf8_valid s = true → Q s.
Proof.
  intros Hnil Hasc Hmulti.
  enough (∀ n s, String.length s ≤ n → utf8_valid s = true → Q s) by eauto.
  induction n as [|n IH]; intros s Hn; [by destruct s; [|cbn in Hn; lia]|].
  destruct s as [|a s1]; [done|]. cbn [utf8_valid].
  destruct (N.ltb_spec (code a) 128) as [Ha|Ha]; intros Hv.
  { apply Hasc; [by apply N.ltb_lt|done|]. apply IH; [cbn in Hn; lia|done]. }
  destruct s1 as [|b s2]; [done|]. unfold is_continuation in Hv.
  destruct (in_range 194 223 a) eqn:Ha2.
  { apply andb_prop in Hv as [Hb Hv]. apply in_range_true in Ha2.
    apply (Hmulti (String a (String b "")) s2); [|done| | |apply IH; [cbn in Hn; lia|done]].
    - apply in_range_true in Hb. cbn. by rewrite !not_ascii_byte by lia.
    - intros t. rewrite !append_cons, append_nil_l. cbn [chars]. by split_codes.
    - intros t. rewrite !append_cons, append_nil_l. cbn [utf8_valid].
      unfold is_continuation. rewrite Hb. by split_codes. }
  destruct s2 as [|c s3]; [done|]. destruct (in_range 224 239 a) eqn:Ha3.
  { apply andb_prop in Hv as [[Hb Hc]%andb_prop Hv].
    apply (Hmulti (String a (String b (String c ""))) s3); [|done| | |apply IH; [cbn in Hn; lia|done]].
    - assert (128 ≤ code b)%N by (revert Hb; repeat case_match; rewrite in_range_true; lia).
      apply in_range_true in Hc, Ha3. cbn. by rewrite !not_ascii_byte by lia.
    - apply in_range_true in Ha3. intros t. rewrite !append_cons, append_nil_l.
      cbn [chars]. by split_codes.
    - intros t. rewrite !append_cons, append_nil_l. cbn [utf8_valid].
      unfold is_continuation. rewrite Ha2, Ha3, Hb, Hc. by split_codes. }
  destruct s3 as [|d s4]; [done|].
  apply andb_prop in Hv as [[[[Ha4 Hb]%andb_prop Hc]%andb_prop Hd]%andb_prop Hv].
  apply (Hmulti (String a (String b (String c (String d "")))) s4);
    [|done| | |apply IH; [cbn in Hn; lia|done]].
  - assert (128 ≤ code b)%N by (revert Hb; repeat case_match; rewrite in_range_true; lia).
    apply in_range_true in Hc, Hd. cbn. by rewrite !not_ascii_byte by lia.
  - apply in_range_true in Ha4. intros t. rewrite !append_cons, append_nil_l.
    cbn [chars]. by split_codes.
  - intros t. rewrite !append_cons, append_nil_l. cbn [utf8_valid].
    unfold is_continuation. rewrite Ha2, Ha3, Ha4, Hb, Hc, Hd. by split_codes.
Qed.

Lemma utf8_valid_ascii_cons a s :
  is_ascii_byte a = true → utf8_valid (String a s) = utf8_valid s.
Proof. unfold is_ascii_byte. intros Ha. cbn. by rewrite Ha. Qed.

Lemma utf8_valid_app s t : utf8_valid s = true → utf8_valid (s +:+ t) = utf8_valid t.
Proof.
  revert s. apply (utf8_ind (λ s, utf8_valid (s +:+ t) = utf8_valid t)); [done| |].
  - intros a s Ha _ IH. by rewrite append_cons, utf8_valid_ascii_cons.
  - intros c s _ _ _ Hc IH. by rewrite append_assoc, Hc.
Qed.

Lemma is_ascii_utf8 s : is_ascii s = true → utf8_valid s = true.
Proof.
  induction s as [|a s IH]; [done|]. unfold is_ascii. cbn [str_forall].
  intros [Ha Hs]%andb_prop. rewrite utf8_valid_ascii_cons by done. by apply IH.
Qed.

(** The characters of a well-formed string: ASCII ones and multi-byte ones with
    no ASCII byte in them; and cutting at a character keeps it well formed. *)
Definition utf8_char (c : char) : Prop :=
  (∃ a, c = String a "" ∧ is_ascii_byte a = true) ∨
  str_forall (λ a, negb (is_ascii_byte a)) c = true.

Lemma utf8_chars s : utf8_valid s = true → Forall utf8_char (chars s).
Proof.
  revert s. apply (utf8_ind (λ s, Forall utf8_char (chars s))); [constructor| |].
  - intros a s Ha _ IH. rewrite chars_cons_ascii by done. constructor; [left; eauto|done].
  - intros c s Hc _ Hch _ IH. rewrite Hch. constructor; [by right|done].
Qed.

Lemma utf8_chars_suffix s l1 l2 :
  utf8_valid s = true → chars s = l1 ++ l2 → utf8_valid (str_concat l2) = true.
Proof.
  intros Hs. revert l1. revert s Hs.
  apply (utf8_ind (λ s, ∀ l1, chars s = l1 ++ l2 → utf8_valid (str_concat l2) = true)).
  - intros l1 Hl. by apply eq_sym, app_eq_nil in Hl as [_ ->].
  - intros a s Ha Hv IH [|c l1] Hl; cbn [app] in Hl.
    + rewrite <-Hl, concat_chars. by rewrite utf8_valid_ascii_cons.
    + rewrite chars_cons_ascii in Hl by done. injection Hl as _ Hl. by eapply IH.
  - intros c s _ Hv Hch Hc IH [|c' l1] Hl; cbn [app] in Hl.
    + rewrite <-Hl, concat_chars. by rewrite Hc.
    + rewrite Hch in Hl. injection Hl as _ Hl. by eapply IH.
Qed.

(** Cutting after an ASCII byte keeps a string well formed. *)
Lemma utf8_valid_after a x y :
  is_ascii_byte a = true → utf8_valid (x +:+ String a y) = true → utf8_valid y = true.
Proof.
  intros Ha. remember (x +:+ String a y) as s eqn:Hs. intros Hv. revert x Hs. revert s Hv.
  apply (utf8_ind (λ s, ∀ x, s = x +:+ String a y → utf8_valid y = true)).
  - intros [|b x]; [done|]. by rewrite append_cons.
  - intros b s _ Hv IH [|b' x]; rewrite ?append_nil_l, ?append_cons; intros [= -> ->]; [done|].
    by eapply IH.
  - intros c s Hc Hv _ _ IH. revert Hc. induction c as [|b c IHc]; intros Hc x.
    + rewrite append_nil_l. apply IH.
    + cbn in Hc. apply andb_prop in Hc as [Hb Hc].
      destruct x as [|b' x]; rewrite ?append_nil_l, !append_cons; intros [= -> Hx].
      * by rewrite Ha in Hb.
      * by eapply IHc.
Qed.

(** ** Trimming removes bytes only *)

Lemma drop_while_suffix {A} (p : A → bool) l : ∃ k, l = k ++ drop_while p l.
Proof.
  induction l as [|x l [k IH]]; cbn; [by exists []|]. destruct (p x); [|by exists []].
  exists (x :: k). cbn. by f_equal.
Qed.

Lemma drop_while_end_prefix {A} (p : A → bool) l : ∃ k, l = drop_while_end p l ++ k.
Proof.
  induction l as [|x l [k IH]]; cbn; [by exists []|].
  destruct (drop_while_end p l) as [|y l'] eqn:Hd; cbn in *.
  - destruct (p x); [by exists (x :: l)|by exists l].
  - exists k. by f_equal.
Qed.

Lemma str_forall_trim p s : str_forall p s = true → str_forall p (trim s) = true.
Proof.
  rewrite <-(concat_chars s) at 1. unfold trim.
  destruct (drop_while_suffix is_whitespace (chars s)) as [k1 Hk1]. rewrite Hk1 at 1.
  destruct (drop_while_end_prefix is_whitespace (drop_while is_whitespace (chars s))) as [k2 Hk2].
  rewrite Hk2 at 1. rewrite !str_concat_app, !str_forall_app.
  by intros [_ [? _]%andb_prop]%andb_prop.
Qed.

Lemma str_forall_list p s :
  str_forall p s = forallb p (String.list_ascii_of_string s).
Proof. induction s as [|a s IH]; cbn; [done|]. by rewrite IH. Qed.

Lemma str_forall_trim_matches p q s :
  str_forall p s = true → str_forall p (trim_matches q s) = true.
Proof.
  rewrite !str_forall_list. unfold trim_matches.
  rewrite String.list_ascii_of_string_of_list_ascii.
  set (l := String.list_ascii_of_string s).
  destruct (drop_while_suffix q l) as [k1 Hk1]. rewrite Hk1 at 1.
  destruct (drop_while_end_prefix q (drop_while q l)) as [k2 Hk2].
  rewrite Hk2 at 1. rewrite !forallb_app. by intros [_ [? _]%andb_prop]%andb_prop.
Qed.

(** ** Text with nothing to trim *)

(** Visible ASCII characters. *)
Definition is_graphic : byte → bool := in_range 33 126.
Definition graphic : string → bool := str_forall is_graphic.

Lemma graphic_ascii a : is_graphic a = true → is_ascii_byte a = true.
Proof. unfold is_graphic, is_ascii_byte. rewrite in_range_true, N.ltb_lt. lia. Qed.

Lemma is_ascii_graphic s : graphic s = true → is_ascii s = true.
Proof. apply str_forall_impl, graphic_ascii. Qed.

Lemma graphic_not_whitespace a : is_graphic a = true → is_whitespace (String a "") = false.
Proof.
  unfold is_graphic. rewrite in_range_true. intros Ha. unfold is_whitespace.
  apply bool_decide_eq_false. cbn. intros Hin.
  repeat (apply elem_of_cons in Hin as [Hin|Hin]; [simplify_eq; lia|]). by apply elem_of_nil in Hin.
Qed.

Lemma graphic_chars s :
  graphic s = true → Forall (λ c, is_whitespace c = false) (chars s).
Proof.
  induction s as [|a s IH]; [constructor|]. intros [Ha Hs]%andb_prop.
  rewrite chars_cons_ascii by by apply graphic_ascii.
  constructor; [by apply graphic_not_whitespace|by apply IH].
Qed.

Lemma drop_while_app {A} (p : A → bool) l1 l2 :
  Forall (λ x, p x = false) l1 → l1 ≠ [] → drop_while p (l1 ++ l2) = l1 ++ l2.
Proof. intros [|x l Hx _] ?; [done|]. cbn. by rewrite Hx. Qed.

Lemma drop_while_end_app {A} (p : A → bool) l1 l2 :
  Forall (λ x, p x = false) l2 → l2 ≠ [] → drop_while_end p (l1 ++ l2) = l1 ++ l2.
Proof.
  intros Hl Hne. induction l1 as [|x l1 IH]; cbn.
  - induction Hl as [|x l Hx Hl IH]; [done|]. cbn. destruct l as [|y l]; [by cbn; rewrite Hx|].
    by rewrite IH.
  - rewrite IH. by destruct l1, l2.
Qed.

Lemma chars_not_nil s : s ≠ "" → chars s ≠ [].
Proof. intros Hs Hc. apply Hs. by rewrite <-(concat_chars s), Hc. Qed.

(** Text that starts and ends with a visible character is not changed by
    [trim]. *)
Lemma trim_between x m y :
  graphic x = true → x ≠ "" → is_ascii m = true → graphic y = true → y ≠ "" →
  trim (x +:+ m +:+ y) = x +:+ m +:+ y.
Proof.
  intros Hx Hxne Hm Hy Hyne. unfold trim.
  rewrite chars_app_ascii by by apply is_ascii_graphic.
  rewrite drop_while_app by auto using graphic_chars, chars_not_nil.
  rewrite chars_app_ascii, app_assoc by done.
  rewrite drop_while_end_app by auto using graphic_chars, chars_not_nil.
  by rewrite !str_concat_app, !concat_chars, append_assoc.
Qed.

Lemma trim_graphic s : graphic s = true → trim s = s.
Proof.
  intros Hs. destruct s as [|a s]; [done|]. unfold trim.
  rewrite <-(app_nil_r (chars (String a s))).
  rewrite drop_while_app by (by apply graphic_chars || by apply chars_not_nil).
  rewrite app_nil_r, <-(app_nil_l (chars (String a s))).
  rewrite drop_while_end_app by (by apply graphic_chars || by apply chars_not_nil).
  by rewrite app_nil_l, concat_chars.
Qed.

Lemma trim_start_graphic s : graphic s = true → trim_start s = s.
Proof.
  intros Hs. destruct s as [|a s]; [done|]. unfold trim_start.
  rewrite <-(app_nil_r (chars (String a s))).
  rewrite drop_while_app by (by apply graphic_chars || by apply chars_not_nil).
  by rewrite app_nil_r, concat_chars.
Qed.

Lemma graphic_dec n : graphic (dec n) = true.
Proof.
  eapply str_forall_impl; [|apply dec_digits]. intros a. unfold is_ascii_digit, is_graphic.
  rewrite !in_range_true. lia.
Qed.

(** ** Slices *)

Lemma substring_length n s :
  n ≤ String.length s → String.length (String.substring 0 n s) = n.
Proof.
  revert s. induction n as [|n IH]; intros [|a s]; cbn; intros; [done|done|lia|].
  by rewrite IH by lia.
Qed.

Lemma substring_whole s : String.substring 0 (String.length s) s = s.
Proof. induction s as [|a s IH]; cbn; [done|]. by rewrite IH. Qed.

Lemma substring_split n s :
  n ≤ String.length s →
  String.substring 0 n s +:+ String.substring n (String.length s - n) s = s.
Proof.
  revert n. induction s as [|a s IH]; intros [|n]; cbn [String.substring String.length]; intros Hn.
  - done.
  - lia.
  - rewrite append_nil_l. cbn. by rewrite substring_whole.
  - rewrite append_cons. f_equal. by rewrite IH by lia.
Qed.

Lemma substring_app s t : String.substring 0 (String.length s) (s +:+ t) = s.
Proof.
  induction s as [|a s IH]; [by destruct t|]. rewrite append_cons. cbn. by rewrite IH.
Qed.

(** ** Prefixes and searches in a part of a text *)

Lemma strip_prefix_within p u t :
  String.length p ≤ String.length u → strip_prefix p (u +:+ t) = (λ r, r +:+ t) <$> strip_prefix p u.
Proof.
  revert u. induction p as [|a p IH]; intros u Hp; [done|]. destruct u as [|b u]; [cbn in Hp; lia|].
  rewrite append_cons. cbn. destruct (is_byte a b); [|done]. apply IH. cbn in Hp. lia.
Qed.

Lemma starts_with_within p u t :
  String.length p ≤ String.length u → starts_with p (u +:+ t) = starts_with p u.
Proof.
  intros Hp. unfold starts_with. rewrite strip_prefix_within by done.
  by destruct (strip_prefix p u).
Qed.

Lemma find_str_app pat s t x y :
  find_str pat s = Some (x, y) → find_str pat (s +:+ t) = Some (x, y +:+ t).
Proof.
  revert x. induction s as [|a s IH]; intros x Hf.
  - cbn [find_str] in Hf. destruct (starts_with pat "") eqn:Hp; [|done]. simplify_eq.
    rewrite append_nil_l. destruct pat; [by destruct t|done].
  - pose proof (find_str_Some _ _ _ _ Hf) as [Hs [z Hy]].
    assert (String.length pat ≤ String.length (String a s)) as Hlen.
    { rewrite Hs, Hy, !str_length_app. lia. }
    pose proof (starts_with_within pat (String a s) t Hlen) as Hw. rewrite append_cons in Hw |- *.
    cbn [find_str] in Hf |- *. rewrite Hw. destruct (starts_with pat (String a s)).
    + injection Hf as <- <-. by rewrite append_cons.
    + apply bind_Some in Hf as ([x' y'] & Hf & [= <- <-]). by rewrite (IH _ Hf).
Qed.

Lemma starts_with_spec p s : starts_with p s = true ↔ ∃ t, s = p +:+ t.
Proof.
  unfold starts_with. rewrite bool_decide_eq_true. split.
  - intros [t ?%strip_prefix_Some]. by exists t.
  - intros [t ->]. rewrite strip_prefix_app. by exists t.
Qed.

Lemma starts_with_mono p s x : starts_with p s = true → starts_with p (s +:+ x) = true.
Proof. rewrite !starts_with_spec. intros [t ->]. exists (t +:+ x). apply append_assoc. Qed.

Lemma append_prefix a b c d :
  a +:+ b = c +:+ d → String.length a ≤ String.length c → ∃ t, c = a +:+ t ∧ b = t +:+ d.
Proof.
  revert c. induction a as [|y a IH]; intros c; [intros; by exists c|].
  destruct c as [|z c]; cbn [String.length]; [lia|]. rewrite !append_cons.
  intros [= -> H] Hl. destruct (IH c H ltac:(lia)) as (t & -> & ->). exists t. by rewrite append_cons.
Qed.

Lemma starts_with_long p s x :
  (blen p <= blen s)%N → starts_with p (s +:+ x) = true → starts_with p s = true.
Proof.
  rewrite !starts_with_spec. intros Hl [t Ht]. symmetry in Ht.
  apply append_prefix in Ht as (u & -> & _); [by exists u|unfold blen in Hl; lia].
Qed.

Lemma starts_with_short p s x :
  (blen s <= blen p)%N → starts_with p (s +:+ x) = true → starts_with s p = true.
Proof.
  rewrite !starts_with_spec. intros Hl [t Ht].
  apply append_prefix in Ht as (u & -> & _); [by exists u|unfold blen in Hl; lia].
Qed.

Lemma starts_with_trans s x p : starts_with (s +:+ x) p = true → starts_with s p = true.
Proof. rewrite !starts_with_spec. intros [t ->]. exists (x +:+ t). apply append_assoc. Qed.

Lemma find_str_occurs pat u v : find_str pat (u +:+ pat +:+ v) ≠ None.
Proof.
  induction u as [|a u IH].
  - rewrite append_nil_l. destruct (pat +:+ v) eqn:E; cbn; rewrite <-E, starts_with_app; done.
  - rewrite append_cons. cbn. destruct (starts_with _ _); [done|].
    by destruct (find_str pat (u +:+ pat +:+ v)) as [[]|].
Qed.

(** An occurrence that was not there before ends after what was there. *)
Lemma find_str_new pat s x l r :
  find_str pat s = None → find_str pat (s +:+ x) = Some (l, r) → (blen s < blen l + blen pat)%N.
Proof.
  intros Hn (Hs & t & ->)%find_str_Some. apply N.nle_gt. intros Hl. rewrite <-append_assoc in Hs.
  symmetry in Hs. apply append_prefix in Hs as (u & -> & _).
  - rewrite append_assoc in Hn. by apply find_str_occurs in Hn.
  - rewrite str_length_app. unfold blen in Hl. lia.
Qed.

Lemma split_app a x t y l :
  str_forall (λ b, negb (is_byte a b)) x = true → split a t = y :: l →
  split a (x +:+ t) = (x +:+ y) :: l.
Proof.
  intros Hx Ht. induction x as [|b x IH]; [by rewrite !append_nil_l|].
  cbn in Hx. apply andb_prop in Hx as [Hb Hx]. apply negb_true_iff in Hb.
  rewrite !append_cons. cbn. by rewrite Hb, IH.
Qed.

Lemma split_once_Some a s x y :
  split_once a s = Some (x, y) → s = x +:+ String a y ∧ contains a x = false.
Proof.
  unfold split_once, split_once_by, contains. revert x.
  induction s as [|c s IH]; intros x; cbn [break]; [done|]. destruct (is_byte a c) eqn:Hac.
  - intros [= <- <-]. by apply bool_decide_eq_true in Hac as <-.
  - destruct (break (is_byte a) s) as [u [|b v]]; [done|]. intros [= <- <-].
    destruct (IH u eq_refl) as [-> Hu]. by rewrite append_cons, str_exists_cons, Hac, Hu.
Qed.

(** A text without [a] has no pattern with [a]. *)
Lemma find_str_without a pat s : contains a pat = true → contains a s = false → find_str pat s = None.
Proof.
  intros Hp Hs. destruct (find_str pat s) as [[x y]|] eqn:Hf; [|done]. exfalso.
  apply find_str_Some in Hf as (-> & z & ->). unfold contains in *.
  rewrite !str_exists_app, Hp, orb_true_r in Hs. done.
Qed.

(** A pattern without [a] is looked for on either side of an [a]. *)
Lemma find_str_skip pat s a t :
  find_str pat s = None → contains a pat = false →
  find_str pat (s +:+ String a t) = '(x, y) ← find_str pat t; Some (s +:+ String a x, y).
Proof.
  intros Hs Ha. induction s as [|b s IH].
  - rewrite append_nil_l. cbn [find_str] in Hs |- *. destruct pat as [|c pat]; [done|].
    destruct (starts_with (String c pat) (String a t)) eqn:Hp; [|done]. exfalso.
    apply starts_with_spec in Hp as [z Hz]. rewrite append_cons in Hz. injection Hz as <- _.
    unfold contains in Ha. by rewrite str_exists_cons, is_byte_refl in Ha.
  - rewrite append_cons. cbn [find_str] in Hs |- *.
    destruct (starts_with pat (String b s)) eqn:Hp; [done|].
    destruct (starts_with pat (String b (s +:+ String a t))) eqn:Hq; [exfalso|].
    + rewrite <-append_cons in Hq. destruct (Nat.le_gt_cases (String.length pat) (String.length (String b s))) as [Hl|Hl].
      * rewrite starts_with_within in Hq by done. congruence.
      * apply starts_with_spec in Hq as [z Hz]. apply append_prefix in Hz as (u & -> & Hu); [|lia].
        destruct u as [|c u]; [rewrite append_nil_r in Hl; lia|]. rewrite append_cons in Hu. injection Hu as <- _.
        unfold contains in Ha. by rewrite str_exists_app, (str_exists_cons _ _ u), is_byte_refl, orb_true_r in Ha.
    + apply bind_None in Hs. rewrite IH by (destruct Hs as [?|([] & ? & ?)]; done).
      by destruct (find_str pat t) as [[]|].
Qed.

(** ** [from_utf8_lossy]: the identity on UTF-8 text, and always UTF-8 text *)

#[local] Open Scope N_scope.

Lemma second_byte_3 a b : in_range 224 239 a = true →
  second_byte a b = (if code a =? 224 then in_range 160 191 b
                     else if code a =? 237 then in_range 128 159 b else is_continuation b).
Proof.
  intros Ha%in_range_true. unfold second_byte. rewrite (proj2 (N.eqb_neq _ 240)), (proj2 (N.eqb_neq _ 244)) by lia. done.
Qed.
Lemma second_byte_4 a b : in_range 240 244 a = true →
  second_byte a b = (if code a =? 240 then in_range 144 191 b
                     else if code a =? 244 then in_range 128 143 b else is_continuation b).
Proof.
  intros Ha%in_range_true. unfold second_byte. by rewrite (proj2 (N.eqb_neq _ 224)), (proj2 (N.eqb_neq _ 237)) by lia.
Qed.
Lemma in_range_false lo hi a : in_range lo hi a = false ↔ code a < lo ∨ hi < code a.
Proof. unfold in_range. destruct (N.leb_spec lo (code a)), (N.leb_spec (code a) hi); cbn; (split; [intros|]); try done; lia. Qed.

Lemma lossy_valid s : utf8_valid s = true → from_utf8_lossy s = s.
Proof.
  enough (∀ n s, (String.length s ≤ n)%nat → utf8_valid s = true → from_utf8_lossy s = s) by eauto.
  clear s. induction n as [|n IH]; intros s Hn; [by destruct s; [|cbn in Hn; lia]|].
  destruct s as [|a s1]; [done|]. cbn [utf8_valid from_utf8_lossy String.length] in *.
  destruct (N.ltb_spec (code a) 128) as [Ha|Ha]; intros Hv; [rewrite IH by (done || lia); done|].
  destruct s1 as [|b s2]; [done|]. cbn [String.length] in Hn. destruct (in_range 194 223 a) eqn:Ha2.
  { apply andb_prop in Hv as [Hb Hv]. apply in_range_true in Ha2.
    rewrite (proj2 (in_range_true 194 244 a)) by lia. cbn [negb]. by rewrite Hb, IH by (done || lia). }
  destruct s2 as [|c s3]; [done|]. cbn [String.length] in Hn. destruct (in_range 224 239 a) eqn:Ha3.
  { apply andb_prop in Hv as [[Hb Hc]%andb_prop Hv]. rewrite second_byte_3, Hb, Hc by done.
    apply in_range_true in Ha3. rewrite (proj2 (in_range_true 194 244 a)) by lia. cbn [negb].
    by rewrite IH by (done || lia). }
  destruct s3 as [|d s4]; [done|]. cbn [String.length] in Hn.
  apply andb_prop in Hv as [[[[Ha4 Hb]%andb_prop Hc]%andb_prop Hd]%andb_prop Hv].
  rewrite second_byte_4, Hb, Hc, Hd by done. apply in_range_true in Ha4.
  rewrite (proj2 (in_range_true 194 244 a)) by lia. cbn [negb]. by rewrite IH by (done || lia).
Qed.

Lemma replacement_valid t : utf8_valid (REPLACEMENT +:+ t) = utf8_valid t.
Proof. done. Qed.

Lemma lossy_is_valid s : utf8_valid (from_utf8_lossy s) = true.
Proof.
  enough (∀ n s, (String.length s ≤ n)%nat → utf8_valid (from_utf8_lossy s) = true) by eauto.
  clear s. induction n as [|n IH]; intros s Hn; [by destruct s; [|cbn in Hn; lia]|].
  destruct s as [|a s1]; [done|]. cbn [from_utf8_lossy String.length] in *.
  destruct (N.ltb_spec (code a) 128) as [Ha|Ha].
  { rewrite utf8_valid_ascii_cons by by apply N.ltb_lt. apply IH. lia. }
  destruct (in_range 194 244 a) eqn:Hr; cbn [negb]; [|rewrite replacement_valid; apply IH; lia].
  destruct s1 as [|b s2]; [done|]. cbn [String.length] in Hn. destruct (in_range 194 223 a) eqn:Ha2.
  { destruct (is_continuation b) eqn:Hb; [|rewrite replacement_valid; apply IH; cbn; lia].
    cbn [utf8_valid]. rewrite (proj2 (N.ltb_ge _ _)), Ha2, Hb by done. apply IH. lia. }
  destruct (second_byte a b) eqn:Hb; cbn [negb]; [|rewrite replacement_valid; apply IH; cbn; lia].
  destruct s2 as [|c s3]; [done|]. cbn [String.length] in Hn.
  destruct (is_continuation c) eqn:Hc; cbn [negb]; [|rewrite replacement_valid; apply IH; cbn; lia].
  destruct (in_range 224 239 a) eqn:Ha3.
  { rewrite second_byte_3 in Hb by done. cbn [utf8_valid].
    rewrite (proj2 (N.ltb_ge _ _)), Ha2, Ha3, Hb, Hc by done. apply IH. lia. }
  destruct s3 as [|d s4]; [done|]. cbn [String.length] in Hn.
  destruct (is_continuation d) eqn:Hd; [|rewrite replacement_valid; apply IH; cbn; lia].
  assert (Ha4 : in_range 240 244 a = true).
  { apply in_range_true in Hr. apply in_range_false in Ha2, Ha3. apply in_range_true. lia. }
  rewrite second_byte_4 in Hb by done. cbn [utf8_valid].
  rewrite (proj2 (N.ltb_ge _ _)), Ha2, Ha3, Ha4, Hb, Hc, Hd by done. apply IH. lia.
Qed.
