(* ===== verification/Bytes.v ===== *)
(** * Binary fields

    Big-endian integers and slices of byte strings, shared by the binary
    protocols. *)

From S2P Require Import Prelude Str.

#[local] Open Scope N_scope.

(** ** Big-endian numbers *)

Fixpoint be_value (acc : N) (s : bytes) : N :=
  match s with "" => acc | String a s => be_value (256 * acc + code a) s end.

(** [uN::from_be_bytes], and the shifts that read a 24-bit field. *)
Definition from_be (s : bytes) : N := be_value 0 s.

(** [n.to_be_bytes()] of an integer of [k] bytes, and the shifts and masks that
    write a 24-bit field. *)
Fixpoint to_be (k : nat) (n : N) : bytes :=
  match k with
  | O => ""
  | S k => String (ascii_of_N (N.land (N.shiftr n (8 * N.of_nat k)) 255)) (to_be k n)
  end.

(** [&s[i..i + n]], cut short at the end. *)
Abbreviation sub := String.substring.

Lemma code_of_N n : n < 256 → code (ascii_of_N n) = n.
Proof. intros H. unfold code. by apply N_ascii_embedding. Qed.

Lemma code_bound a : code a < 256.
Proof. apply N_ascii_bounded. Qed.

Lemma be_value_to_be k n acc : be_value acc (to_be k n) = acc * 256 ^ N.of_nat k + n mod 256 ^ N.of_nat k.
Proof.
  revert acc. induction k as [|k IH]; intros acc; cbn [to_be be_value].
  { rewrite N.mod_1_r. cbn. lia. }
  change 255 with (N.ones 8). rewrite N.land_ones, N.shiftr_div_pow2, code_of_N by (apply N.mod_lt; done).
  rewrite IH. replace (2 ^ (8 * N.of_nat k)) with (256 ^ N.of_nat k) by by rewrite N.pow_mul_r.
  rewrite Nat2N.inj_succ, N.pow_succ_r'. change (2 ^ 8) with 256.
  rewrite (N.mul_comm 256 (256 ^ _)), N.Div0.mod_mul_r. lia.
Qed.

Lemma from_to_be k n : n < 256 ^ N.of_nat k → from_be (to_be k n) = n.
Proof. intros H. unfold from_be. by rewrite be_value_to_be, N.mod_small. Qed.

Lemma be_value_bound s acc : be_value acc s < (acc + 1) * 256 ^ blen s.
Proof.
  unfold blen. revert acc. induction s as [|a s IH]; intros acc; cbn [be_value String.length]; [cbn; lia|].
  eapply N.lt_le_trans; [apply IH|]. rewrite Nat2N.inj_succ, N.pow_succ_r'.
  pose proof (code_bound a). nia.
Qed.

Lemma substring_le i n s : (String.length (sub i n s) ≤ n)%nat.
Proof.
  revert i n. induction s as [|a s IH]; intros [|i] [|n]; cbn; try lia.
  - specialize (IH O n). lia.
  - apply IH.
  - apply IH.
Qed.

Lemma from_be_bound i n s : from_be (sub i n s) < 256 ^ N.of_nat n.
Proof.
  unfold from_be. eapply N.lt_le_trans; [apply be_value_bound|]. rewrite N.mul_1_l.
  apply N.pow_le_mono_r; [done|]. unfold blen. pose proof (substring_le i n s). lia.
Qed.

Lemma to_be_length k n : String.length (to_be k n) = k.
Proof. induction k as [|k IH]; cbn; [done|by rewrite IH]. Qed.

Lemma blen_to_be k n : blen (to_be k n) = N.of_nat k.
Proof. unfold blen. by rewrite to_be_length. Qed.

Lemma field_read k n t : n < 256 ^ N.of_nat k → from_be (sub 0 k (to_be k n +:+ t)) = n.
Proof.
  intros H. rewrite <- (to_be_length k n) at 1. rewrite substring_app. by apply from_to_be.
Qed.

Lemma str_drop_app s t : str_drop (String.length s) (s +:+ t) = t.
Proof. induction s as [|a s IH]; [by destruct t|]. rewrite append_cons. exact IH. Qed.

Lemma str_drop_length n s : String.length (str_drop n s) = (String.length s - n)%nat.
Proof. revert s. induction n as [|n IH]; intros [|a s]; cbn; [done..|apply IH]. Qed.

Lemma sub_drop n s : sub n (String.length s - n) s = str_drop n s.
Proof.
  revert s. induction n as [|n IH]; intros [|a s]; cbn; [done|by rewrite substring_whole|done|apply IH].
Qed.

Lemma sub_skip i n s t : sub (String.length s + i) n (s +:+ t) = sub i n t.
Proof. induction s as [|a s IH]; [done|]. rewrite append_cons. exact IH. Qed.

Lemma ends_with_app x p : ends_with p (x +:+ p) = true.
Proof.
  unfold ends_with. rewrite str_length_app, (proj2 (Nat.leb_le _ _)) by lia. cbn [andb].
  apply bool_decide_eq_true. replace (String.length x + String.length p - String.length p)%nat
    with (String.length x + 0)%nat by lia. by rewrite sub_skip, substring_whole.
Qed.

(** ** Hexadecimal *)

Definition hex_char (n : N) : byte := ascii_of_N (if n <? 10 then 48 + n else 87 + n).

Fixpoint hex_encode (data : bytes) : string :=
  match data with
  | "" => ""
  | String b s => String (hex_char (N.shiftr (code b) 4)) (String (hex_char (N.land (code b) 15)) (hex_encode s))
  end.

Definition hex_digit (b : byte) : option N :=
  if in_range 48 57 b then Some (code b - 48)
  else if in_range 97 102 b then Some (code b - 97 + 10)
  else if in_range 65 70 b then Some (code b - 65 + 10)
  else None.

(** An odd number of digits is refused. *)
Fixpoint hex_decode (s : string) : option bytes :=
  match s with
  | "" => Some ""
  | String _ "" => None
  | String a (String b s) =>
      hi ← hex_digit a; lo ← hex_digit b;
      rest ← hex_decode s; Some (String (ascii_of_N (N.lor (N.shiftl hi 4) lo)) rest)
  end.

Lemma hex_encode_digits s : str_forall is_ascii_hexdigit (hex_encode s) = true.
Proof.
  induction s as [|b s IH]; [done|]. cbn [hex_encode str_forall]. rewrite IH, !andb_true_r.
  destruct b as [[] [] [] [] [] [] [] []]; vm_compute; reflexivity.
Qed.
