(* ===== verification/Nom.v ===== *)
(** * The parser combinators the SIP parser is built with

    [src/src/sip/parser.rs] is written with the nom crate (version 8, complete
    parsers).  Its combinators are an interface here: a record of the operations
    the parser uses with the equations the nom documentation gives for them.
    The parser is defined, and its theorems proved, for every implementation of
    the interface; [nom_reference] is one, which runs.

    An [IResult<&str, O>] is an [option] of the remaining input and the output:
    all parsers are complete ones, so the only error is [nom::Err::Error], whose
    position and kind end up in log text alone. *)

From S2P Require Import Prelude Str.

Definition parser (A : Type) : Type := string → option (string * A).

(** A parser that never returns more input than it was given. *)
Definition consuming {A} (p : parser A) : Prop :=
  ∀ s r x, p s = Some (r, x) → String.length r ≤ String.length s.

Definition char_span (p : char → bool) (s : string) : string * string :=
  let '(a, b) := span p (chars s) in (str_concat a, str_concat b).

Class Nom := {
  tag : string → parser string;
  nchar : byte → parser byte;
  take_while : (char → bool) → parser string;
  take_while1 : (char → bool) → parser string;
  take_until : string → parser string;
  digit1 : parser string;
  space1 : parser string;
  opt : ∀ {A}, parser A → parser (option A);
  alt : ∀ {A}, parser A → parser A → parser A;
  map_res : ∀ {A B}, parser A → (A → option B) → parser B;
  preceded : ∀ {A B}, parser A → parser B → parser B;
  delimited : ∀ {A B C}, parser A → parser B → parser C → parser B;
  tuple2 : ∀ {A B}, parser A → parser B → parser (A * B);
  many0 : ∀ {A}, parser A → parser (list A);

  tag_eq t s : tag t s = (λ r, (r, t)) <$> strip_prefix t s;
  nchar_eq a s :
    nchar a s = match s with
                | String b r => if is_byte a b then Some (r, a) else None
                | "" => None
                end;
  take_while_eq p s : take_while p s = Some ((char_span p s).2, (char_span p s).1);
  take_while1_eq p s :
    take_while1 p s = if is_empty (char_span p s).1 then None
                      else Some ((char_span p s).2, (char_span p s).1);
  take_until_eq t s : take_until t s = '(x, r) ← find_str t s; Some (r, x);
  digit1_eq s : digit1 s = take_while1 (char_test is_ascii_digit (λ _, false)) s;
  space1_eq s : space1 s = take_while1 (char_test (byte_in [" "%char; HT]) (λ _, false)) s;
  opt_eq {A} (p : parser A) s :
    opt p s = match p s with Some (r, x) => Some (r, Some x) | None => Some (s, None) end;
  alt_eq {A} (p q : parser A) s : alt p q s = match p s with Some x => Some x | None => q s end;
  map_res_eq {A B} (p : parser A) (f : A → option B) s :
    map_res p f s = '(r, x) ← p s; y ← f x; Some (r, y);
  preceded_eq {A B} (p : parser A) (q : parser B) s : preceded p q s = '(r, _) ← p s; q r;
  delimited_eq {A B C} (p : parser A) (q : parser B) (t : parser C) s :
    delimited p q t s = '(r, _) ← p s; '(r, x) ← q r; '(r, _) ← t r; Some (r, x);
  tuple2_eq {A B} (p : parser A) (q : parser B) s :
    tuple2 p q s = '(r, x) ← p s; '(r, y) ← q r; Some (r, (x, y));
  (** [many0] stops at the first failure, and refuses a parser that succeeds
      without consuming. *)
  many0_eq {A} (p : parser A) s :
    consuming p →
    many0 p s = match p s with
                | None => Some (s, [])
                | Some (r, x) =>
                    if bool_decide (String.length r = String.length s) then None
                    else '(r', l) ← many0 p r; Some (r', x :: l)
                end;
}.

(** ** A reference implementation *)

Fixpoint many0_fuel {A} (fuel : nat) (p : parser A) (s : string) : option (string * list A) :=
  match fuel with
  | O => None
  | S fuel =>
      match p s with
      | None => Some (s, [])
      | Some (r, x) =>
          if bool_decide (String.length r = String.length s) then None
          else '(r', l) ← many0_fuel fuel p r; Some (r', x :: l)
      end
  end.

Lemma many0_fuel_enough {A} (p : parser A) n m s :
  consuming p → String.length s < n → String.length s < m →
  many0_fuel n p s = many0_fuel m p s.
Proof.
  intros Hp. revert m s. induction n as [|n IH]; intros [|m] s Hn Hm; [lia..|]. cbn.
  destruct (p s) as [[r x]|] eqn:Hr; [|done]. case_bool_decide; [done|].
  pose proof (Hp _ _ _ Hr). by rewrite (IH m r) by lia.
Qed.

Definition ref_while1 (p : char → bool) : parser string := λ s,
  if is_empty (char_span p s).1 then None else Some ((char_span p s).2, (char_span p s).1).

Lemma many0_fuel_step {A} (p : parser A) s :
  consuming p →
  many0_fuel (S (String.length s)) p s =
    match p s with
    | None => Some (s, [])
    | Some (r, x) =>
        if bool_decide (String.length r = String.length s) then None
        else '(r', l) ← many0_fuel (S (String.length r)) p r; Some (r', x :: l)
    end.
Proof.
  intros Hp. cbn [many0_fuel].
  destruct (p s) as [[r x]|] eqn:Hr; [|done]. case_bool_decide; [done|].
  pose proof (Hp _ _ _ Hr).
  by rewrite (many0_fuel_enough p (String.length s) (S (String.length r)) r) by (done || lia).
Qed.

Definition nom_reference : Nom := {|
  tag t s := (λ r, (r, t)) <$> strip_prefix t s;
  nchar a s := match s with
               | String b r => if is_byte a b then Some (r, a) else None
               | "" => None
               end;
  take_while p s := Some ((char_span p s).2, (char_span p s).1);
  take_while1 := ref_while1;
  take_until t s := '(x, r) ← find_str t s; Some (r, x);
  digit1 := ref_while1 (char_test is_ascii_digit (λ _, false));
  space1 := ref_while1 (char_test (byte_in [" "%char; HT]) (λ _, false));
  opt A p s := match p s with Some (r, x) => Some (r, Some x) | None => Some (s, None) end;
  alt A p q s := match p s with Some x => Some x | None => q s end;
  map_res A B p f s := '(r, x) ← p s; y ← f x; Some (r, y);
  preceded A B p q s := '(r, _) ← p s; q r;
  delimited A B C p q t s := '(r, _) ← p s; '(r, x) ← q r; '(r, _) ← t r; Some (r, x);
  tuple2 A B p q s := '(r, x) ← p s; '(r, y) ← q r; Some (r, (x, y));
  many0 A p s := many0_fuel (S (String.length s)) p s;
  tag_eq _ _ := eq_refl;
  nchar_eq _ _ := eq_refl;
  take_while_eq _ _ := eq_refl;
  take_while1_eq _ _ := eq_refl;
  take_until_eq _ _ := eq_refl;
  digit1_eq _ := eq_refl;
  space1_eq _ := eq_refl;
  opt_eq _ _ _ := eq_refl;
  alt_eq _ _ _ _ := eq_refl;
  map_res_eq _ _ _ _ _ := eq_refl;
  preceded_eq _ _ _ _ _ := eq_refl;
  delimited_eq _ _ _ _ _ _ _ := eq_refl;
  tuple2_eq _ _ _ _ _ := eq_refl;
  many0_eq _ := many0_fuel_step;
|}.

(** The Unicode tables restricted to ASCII: nothing outside ASCII is
    alphanumeric or has a case. *)
Definition unicode_ascii : Unicode := {|
  uni_alphanumeric _ := false;
  uni_lowercase s := s;
  uni_uppercase s := s;
|}.

(** ** Running a parser over text it was meant for *)

Section lemmas.
Context {P : Nom}.

(** What a character predicate says of every byte of an ASCII string. *)
Definition chars_all (p : char → bool) (s : string) : bool :=
  is_ascii s && str_forall (λ a, p (String a "")) s.

Lemma chars_all_app p s t : chars_all p (s +:+ t) = chars_all p s && chars_all p t.
Proof.
  unfold chars_all, is_ascii. rewrite !str_forall_app.
  by destruct (str_forall is_ascii_byte s), (str_forall is_ascii_byte t),
    (str_forall _ s), (str_forall _ t).
Qed.

Lemma chars_all_forallb p s :
  chars_all p s = true → forallb p (chars s) = true ∧ is_ascii s = true.
Proof.
  unfold chars_all. intros [Ha Hp]%andb_prop. split; [|done].
  induction s as [|a s IH]; [done|]. unfold is_ascii in *. cbn in Ha, Hp.
  apply andb_prop in Ha as [Ha Has]. apply andb_prop in Hp as [Hp Hps].
  rewrite chars_cons_ascii by done. cbn. rewrite Hp. by apply IH.
Qed.

(** What stops a scan: the end, or a character the predicate refuses. *)
Definition stops (p : char → bool) (s : string) : bool :=
  match chars s with [] => true | c :: _ => negb (p c) end.

Lemma stops_ascii p a s :
  is_ascii_byte a = true → p (String a "") = false → stops p (String a s) = true.
Proof. intros Ha Hp. unfold stops. by rewrite chars_cons_ascii, Hp. Qed.

Lemma char_span_app p t s :
  chars_all p t = true → stops p s = true → char_span p (t +:+ s) = (t, s).
Proof.
  intros [Ht Hasc]%chars_all_forallb Hs. unfold char_span.
  rewrite chars_app_ascii, span_app by done.
  assert (span p (chars s) = ([], chars s)) as ->.
  { unfold stops in Hs. destruct (chars s) as [|c l]; [done|]. cbn.
    by apply negb_true_iff in Hs as ->. }
  cbn. by rewrite app_nil_r, !concat_chars.
Qed.

Lemma take_while_app p t s :
  chars_all p t = true → stops p s = true → take_while p (t +:+ s) = Some (s, t).
Proof. intros Ht Hs. by rewrite take_while_eq, char_span_app. Qed.

Lemma take_while1_app p t s :
  t ≠ "" → chars_all p t = true → stops p s = true → take_while1 p (t +:+ s) = Some (s, t).
Proof.
  intros Hne Ht Hs. rewrite take_while1_eq, char_span_app by done. by destruct t.
Qed.

Lemma take_while_stop p s : stops p s = true → take_while p s = Some (s, "").
Proof. intros Hs. rewrite <-(append_nil_l s) at 1. by apply take_while_app. Qed.

Lemma take_while1_stop p s : stops p s = true → take_while1 p s = None.
Proof.
  intros Hs. rewrite take_while1_eq. by rewrite <-(append_nil_l s), char_span_app.
Qed.

Lemma nchar_cons a s : nchar a (String a s) = Some (s, a).
Proof. by rewrite nchar_eq, is_byte_refl. Qed.

Lemma nchar_ne a b s : a ≠ b → nchar a (String b s) = None.
Proof. intros. rewrite nchar_eq. unfold is_byte. by rewrite bool_decide_eq_false_2. Qed.

Lemma tag_app t s : tag t (t +:+ s) = Some (s, t).
Proof. by rewrite tag_eq, strip_prefix_app. Qed.

Lemma char_span_length p s :
  String.length (char_span p s).2 + String.length (char_span p s).1 = String.length s.
Proof.
  unfold char_span. pose proof (span_concat p (chars s)) as Hs.
  destruct (span p (chars s)) as [l r]. cbn in *.
  rewrite Nat.add_comm, <-str_length_app, <-str_concat_app, Hs, concat_chars. done.
Qed.

Lemma consuming_take_while1 p : consuming (take_while1 p).
Proof.
  intros s r x. rewrite take_while1_eq. case_match; [done|]. intros [= <- <-].
  pose proof (char_span_length p s). lia.
Qed.

Lemma consuming_take_while p : consuming (take_while p).
Proof.
  intros s r x. rewrite take_while_eq. intros [= <- <-].
  pose proof (char_span_length p s). lia.
Qed.

Lemma consuming_nchar a : consuming (nchar a).
Proof.
  intros s r x. rewrite nchar_eq. destruct s; [done|]. case_match; [|done].
  intros [= <- <-]. cbn. lia.
Qed.

Lemma consuming_opt {A} (p : parser A) : consuming p → consuming (opt p).
Proof.
  intros Hp s r x. rewrite opt_eq. destruct (p s) as [[r' y]|] eqn:Hs; intros [= <- <-].
  - by eapply Hp.
  - done.
Qed.

Lemma consuming_preceded {A B} (p : parser A) (q : parser B) :
  consuming p → consuming q → consuming (preceded p q).
Proof.
  intros Hp Hq s r x. rewrite preceded_eq. intros ([r' y] & Hps & Hqs)%bind_Some.
  pose proof (Hp _ _ _ Hps). pose proof (Hq _ _ _ Hqs). lia.
Qed.

Lemma consuming_tuple2 {A B} (p : parser A) (q : parser B) :
  consuming p → consuming q → consuming (tuple2 p q).
Proof.
  intros Hp Hq s r x. rewrite tuple2_eq.
  intros ([r1 y] & Hps & ([r2 z] & Hqs & [= <- <-])%bind_Some)%bind_Some.
  pose proof (Hp _ _ _ Hps). pose proof (Hq _ _ _ Hqs). lia.
Qed.

End lemmas.

#[export] Hint Resolve consuming_take_while consuming_take_while1 consuming_nchar
  consuming_opt consuming_preceded consuming_tuple2 : sip.
