(* ===== verification/Timer.v ===== *)
(** * Transaction timers ([src/src/transaction/timer.rs])

    [TimerConfig] and the timer values derived from T1, T2 and T4.  A Rust
    [Duration] is its number of nanoseconds, in [N].  Duration arithmetic panics
    past [DURATION_MAX]; [timers_in_range] gives the configurations for which it
    never does. *)

From S2P Require Import Prelude.

Abbreviation duration := N (only parsing).

Module Timer.

Definition from_millis (n : N) : duration := n * 1000000.
Definition from_secs (n : N) : duration := n * 1000000000.
Definition is_zero (d : duration) : bool := (d =? 0)%N.

(** [Duration::MAX]: [u64::MAX] seconds and 999,999,999 nanoseconds. *)
Definition DURATION_MAX : duration := 18446744073709551615 * 1000000000 + 999999999.

Abbreviation DEFAULT_T1 := (from_millis 500 : duration) (only parsing).
Abbreviation DEFAULT_T2 := (from_secs 4 : duration) (only parsing).
Abbreviation DEFAULT_T4 := (from_secs 5 : duration) (only parsing).
Abbreviation DEFAULT_AUTO_100_TRYING_DELAY := (from_millis 200 : duration) (only parsing).
Abbreviation DEFAULT_TIMER_C_SECS := (181%N : N) (only parsing).

Record TimerConfig := mkTimerConfig {
  t1 : duration;
  t2 : duration;
  t4 : duration;
  auto_100_trying : bool;
  auto_100_delay : duration;
  timer_c_secs : N;         (* u32 *)
  timer_f_secs : option N;  (* NonZeroU16 *)
}.

Definition new (t1 t2 t4 : duration) : TimerConfig :=
  mkTimerConfig t1 t2 t4 true DEFAULT_AUTO_100_TRYING_DELAY DEFAULT_TIMER_C_SECS None.

Definition default : TimerConfig :=
  mkTimerConfig DEFAULT_T1 DEFAULT_T2 DEFAULT_T4 true
    DEFAULT_AUTO_100_TRYING_DELAY DEFAULT_TIMER_C_SECS None.

Definition timer_a_initial (c : TimerConfig) : duration := t1 c.
Definition timer_b (c : TimerConfig) : duration := t1 c * 64.
Definition timer_c (c : TimerConfig) : duration :=
  N.max (from_secs (timer_c_secs c)) (timer_b c).
Definition timer_d_udp (c : TimerConfig) : duration := from_secs 32.
Definition timer_d_tcp (c : TimerConfig) : duration := 0.
Definition timer_e_initial (c : TimerConfig) : duration := t1 c.
Definition timer_f (c : TimerConfig) : duration :=
  match timer_f_secs c with
  | Some secs => from_secs secs
  | None => t1 c * 64
  end.
Definition timer_k_udp (c : TimerConfig) : duration := t4 c.
Definition timer_k_tcp (c : TimerConfig) : duration := 0.
Definition timer_g_initial (c : TimerConfig) : duration := t1 c.
Definition timer_h (c : TimerConfig) : duration := t1 c * 64.
Definition timer_i_udp (c : TimerConfig) : duration := t4 c.
Definition timer_i_tcp (c : TimerConfig) : duration := 0.
Definition timer_j_udp (c : TimerConfig) : duration := t1 c * 64.
Definition timer_j_tcp (c : TimerConfig) : duration := 0.

Definition next_retransmit (c : TimerConfig) (current : duration) : duration :=
  N.min (current * 2) (t2 c).

(** The [while interval < self.t2] loop; [None] when the fuel runs out. *)
Fixpoint reaches_t2_loop (fuel : nat) (t2 elapsed interval : duration) : option duration :=
  match fuel with
  | O => None
  | S fuel =>
      if (interval <? t2)%N
      then reaches_t2_loop fuel t2 (elapsed + interval) (interval * 2)
      else Some elapsed
  end.

(** The interval doubles on every turn, so one turn per binary digit of T2 and
    one more to leave the loop are enough ([reaches_t2_loop_returns]). *)
Definition reaches_t2_fuel (t2 : duration) : nat := S (N.size_nat t2).

Definition timer_e_reaches_t2 (c : TimerConfig) : duration :=
  if is_zero (t1 c) || (t2 c <=? t1 c)%N then t2 c else
  match reaches_t2_loop (reaches_t2_fuel (t2 c)) (t2 c) 0 (t1 c) with
  | Some elapsed => elapsed
  | None => t2 c
  end.

Definition nist_auto_100_delay (c : TimerConfig) (reliable : bool) : duration :=
  if reliable then auto_100_delay c else timer_e_reaches_t2 c.

(** ** The retransmission schedule *)

(** The interval Timer A, E or G is set to after [n] retransmissions. *)
Definition retransmit_interval (c : TimerConfig) (n : nat) : duration :=
  Nat.iter n (next_retransmit c) (t1 c).

(** The time at which retransmission [n + 1] is sent. *)
Fixpoint retransmit_elapsed (c : TimerConfig) (n : nat) : duration :=
  match n with
  | O => 0
  | S n => retransmit_elapsed c n + retransmit_interval c n
  end.

Definition pow2 (n : nat) : N := 2 ^ N.of_nat n.

Lemma pow2_S n : pow2 (S n) = (pow2 n * 2)%N.
Proof. unfold pow2. rewrite Nat2N.inj_succ, N.pow_succ_r'. lia. Qed.

Lemma pow2_pos n : (0 < pow2 n)%N.
Proof. apply N.neq_0_lt_0, N.pow_nonzero. done. Qed.

Lemma pow2_size n : (n < pow2 (N.size_nat n))%N.
Proof.
  destruct n as [|p]; [done|]. cbn [N.size_nat].
  induction p as [p IH|p IH|]; cbn [Pos.size_nat]; rewrite ?pow2_S; [lia|lia|done].
Qed.

Lemma retransmit_interval_S c n :
  retransmit_interval c (S n) = next_retransmit c (retransmit_interval c n).
Proof. done. Qed.

Lemma retransmit_interval_closed c n :
  (t1 c ≤ t2 c)%N → retransmit_interval c n = N.min (pow2 n * t1 c) (t2 c).
Proof.
  intros Hle. induction n as [|n IH].
  - unfold retransmit_interval. cbn. unfold pow2. cbn. lia.
  - rewrite retransmit_interval_S, IH. unfold next_retransmit. rewrite pow2_S. lia.
Qed.

(** The loop computes a prefix sum of the doubling intervals. *)
Lemma reaches_t2_loop_returns k fuel t elapsed interval :
  (0 < interval)%N → (t ≤ interval * pow2 k)%N → k < fuel →
  ∃ n, n ≤ k ∧ (t ≤ interval * pow2 n)%N ∧
       (∀ i, i < n → (interval * pow2 i < t)%N) ∧
       reaches_t2_loop fuel t elapsed interval
         = Some (elapsed + interval * (pow2 n - 1))%N.
Proof.
  revert fuel elapsed interval. induction k as [|k IH]; intros fuel elapsed interval Hpos Hk Hf.
  { exists 0. destruct fuel as [|fuel]; [lia|]. cbn in *.
    destruct (N.ltb_spec interval t); [unfold pow2 in Hk; cbn in Hk; lia|].
    split_and!; [lia|unfold pow2; cbn; lia|lia|f_equal; unfold pow2; cbn; lia]. }
  destruct fuel as [|fuel]; [lia|]. cbn.
  destruct (N.ltb_spec interval t) as [Hlt|Hge].
  - destruct (IH fuel (elapsed + interval)%N (interval * 2)%N) as (n & Hn & Ht & Hall & ->);
      [lia|rewrite pow2_S in Hk; lia|lia|].
    exists (S n). rewrite pow2_S. split_and!; [lia|lia| |].
    + intros [|i] Hi; [unfold pow2; cbn; lia|]. rewrite pow2_S.
      pose proof (Hall i ltac:(lia)). lia.
    + f_equal. pose proof (pow2_pos n). nia.
  - exists 0. split_and!; [lia|unfold pow2; cbn; lia|lia|f_equal; unfold pow2; cbn; lia].
Qed.

Lemma retransmit_elapsed_doubling c n :
  (t1 c ≤ t2 c)%N → (∀ i, i < n → (t1 c * pow2 i < t2 c)%N) →
  retransmit_elapsed c n = (t1 c * (pow2 n - 1))%N.
Proof.
  intros Hle. induction n as [|n IH]; intros Hall; [unfold pow2; cbn; lia|].
  cbn [retransmit_elapsed]. rewrite IH by auto with lia.
  rewrite retransmit_interval_closed, pow2_S by done.
  pose proof (Hall n ltac:(lia)). pose proof (pow2_pos n). nia.
Qed.

Lemma reaches_t2_from_t1 c :
  (0 < t1 c)%N → (t1 c < t2 c)%N →
  ∃ n, (t2 c ≤ t1 c * pow2 n)%N ∧ (∀ i, i < n → (t1 c * pow2 i < t2 c)%N) ∧
       timer_e_reaches_t2 c = (t1 c * (pow2 n - 1))%N.
Proof.
  intros Hpos Hlt. pose proof (pow2_size (t2 c)) as Hsize.
  destruct (reaches_t2_loop_returns (N.size_nat (t2 c)) (reaches_t2_fuel (t2 c)) (t2 c) 0 (t1 c))
    as (n & _ & Hn & Hall & Hloop); [done|nia|unfold reaches_t2_fuel; lia|].
  exists n. split_and!; [done|done|].
  unfold timer_e_reaches_t2, is_zero. rewrite Hloop.
  destruct (N.eqb_spec (t1 c) 0), (N.leb_spec (t2 c) (t1 c)); cbn; lia.
Qed.

(** Every duration the timers compute, and every intermediate value of the
    Timer E loop, is one Rust can represent. *)
Definition timers_in_range (c : TimerConfig) : Prop :=
  (timer_b c ≤ DURATION_MAX)%N ∧ (timer_c c ≤ DURATION_MAX)%N ∧
  (timer_f c ≤ DURATION_MAX)%N ∧ (timer_h c ≤ DURATION_MAX)%N ∧
  (timer_j_udp c ≤ DURATION_MAX)%N ∧
  (∀ d, (d ≤ t2 c)%N → (d * 2 ≤ DURATION_MAX)%N) ∧
  (timer_e_reaches_t2 c + t1 c ≤ DURATION_MAX)%N.

End Timer.

Import Timer.

(** [timer_e_reaches_t2] is the time a client's Timer E takes to be reset to
    T2: the sum of the intervals of the retransmission schedule that precede the
    first one equal to T2, all of them below T2.  In particular the loop of the
    source returns. *)
Theorem timer_e_reaches_t2_schedule (c : TimerConfig) :
  (0 < t1 c)%N → (t1 c < t2 c)%N →
  ∃ k, retransmit_interval c k = t2 c ∧
       (∀ i, i < k → (retransmit_interval c i < t2 c)%N) ∧
       timer_e_reaches_t2 c = retransmit_elapsed c k.
Proof.
  intros Hpos Hlt. destruct (reaches_t2_from_t1 c Hpos Hlt) as (k & Hk & Hall & Heq).
  exists k. split_and!.
  - rewrite retransmit_interval_closed; lia.
  - intros i Hi. rewrite retransmit_interval_closed by lia. pose proof (Hall i Hi). lia.
  - rewrite retransmit_elapsed_doubling by auto with lia. done.
Qed.

Lemma timer_e_reaches_t2_schedule_witness :
  timer_e_reaches_t2 Timer.default = from_millis 3500 ∧
  ∃ k, retransmit_interval Timer.default k = t2 Timer.default ∧
       (∀ i, i < k → (retransmit_interval Timer.default i < t2 Timer.default)%N) ∧
       timer_e_reaches_t2 Timer.default = retransmit_elapsed Timer.default k.
Proof.
  split; [vm_compute; reflexivity|].
  apply (timer_e_reaches_t2_schedule Timer.default); vm_compute; reflexivity.
Defined.

(** The retransmission interval doubles from T1 and is capped at T2, so it
    never shrinks, never exceeds T2, and every duration the timers compute is
    within Rust's [Duration] (no arithmetic panic) as long as T1 and T2 are below
    2^57 seconds. *)
Theorem retransmit_schedule_bounded (c : TimerConfig) (n : nat) :
  (0 < t1 c)%N → (t1 c ≤ t2 c)%N → (t2 c < from_secs (2 ^ 57))%N →
  (timer_c_secs c ≤ 4294967295)%N → (∀ s, timer_f_secs c = Some s → (s ≤ 65535)%N) →
  retransmit_interval c n = N.min (pow2 n * t1 c) (t2 c) ∧
  (retransmit_interval c n ≤ retransmit_interval c (S n) ≤ t2 c)%N ∧
  timers_in_range c.
Proof.
  intros Hpos Hle Ht2 Hc Hf.
  assert (Hreach : (timer_e_reaches_t2 c + t1 c ≤ 2 * t2 c)%N).
  { destruct (decide (t1 c = t2 c)) as [Heq|Hne].
    - unfold timer_e_reaches_t2. destruct (N.leb_spec (t2 c) (t1 c)); [|lia].
      rewrite orb_true_r. lia.
    - destruct (reaches_t2_from_t1 c) as ([|k] & Hk & Hall & ->); [lia|lia| |].
      + unfold pow2 in *. cbn in *. lia.
      + pose proof (Hall k ltac:(lia)). rewrite pow2_S in *. nia. }
  split_and!.
  - by apply retransmit_interval_closed.
  - rewrite !retransmit_interval_closed, pow2_S by done. lia.
  - rewrite retransmit_interval_closed by done. lia.
  - unfold timers_in_range, timer_b, timer_c, timer_f, timer_h, timer_j_udp, timer_b,
      from_secs, DURATION_MAX in *.
    destruct (timer_f_secs c) as [s|]; [specialize (Hf s eq_refl)|]; split_and!; lia.
Qed.

Lemma retransmit_schedule_bounded_witness :
  retransmit_interval Timer.default 2 = N.min (pow2 2 * t1 Timer.default) (t2 Timer.default) ∧
  (retransmit_interval Timer.default 2 ≤ retransmit_interval Timer.default 3
     ≤ t2 Timer.default)%N ∧
  timers_in_range Timer.default.
Proof.
  apply (retransmit_schedule_bounded Timer.default 2); vm_compute; congruence.
Defined.
