(* ===== verification/Headers.v ===== *)
(** * The header container ([src/src/sip/headers/mod.rs])

    [SipHeaders] is an insertion-ordered map from the canonical field name to
    the name as written and the values.  The Rust [IndexMap] is an association
    list with at most one entry per key: [insert] on a present key keeps its
    place, a new key goes to the end, [shift_remove] keeps the order of the
    rest.  Copy-on-write sharing ([Arc::make_mut]) is not observable: a clone is
    a value. *)

From stdpp Require Import sorting.
From S2P Require Import Prelude Str.

Module IndexMap.
Section index_map.
Context {V : Type}.
Implicit Types (m : list (string * V)) (k : string) (v : V).

Fixpoint get k m : option V :=
  match m with
  | [] => None
  | (k', v) :: m => if bool_decide (k = k') then Some v else get k m
  end.

Definition contains_key k m : bool := match get k m with Some _ => true | None => false end.

Fixpoint insert k v m : list (string * V) :=
  match m with
  | [] => [(k, v)]
  | (k', v') :: m => if bool_decide (k = k') then (k', v) :: m else (k', v') :: insert k v m
  end.

Fixpoint shift_remove k m : list (string * V) :=
  match m with
  | [] => []
  | (k', v') :: m => if bool_decide (k = k') then m else (k', v') :: shift_remove k m
  end.

Definition keys m : list string := m.*1.

Lemma get_insert k v m : get k (insert k v m) = Some v.
Proof.
  induction m as [|[k' v'] m IH]; cbn; [by rewrite bool_decide_eq_true_2|].
  case_bool_decide; cbn; [by rewrite bool_decide_eq_true_2|].
  by rewrite bool_decide_eq_false_2.
Qed.

Lemma get_insert_ne k k' v m : k ≠ k' → get k' (insert k v m) = get k' m.
Proof.
  intros Hne. induction m as [|[k'' v''] m IH]; cbn.
  - by rewrite bool_decide_eq_false_2.
  - case_bool_decide; cbn; [|by rewrite IH]. subst.
    by rewrite bool_decide_eq_false_2.
Qed.

Lemma get_shift_remove_ne k k' m : k ≠ k' → get k' (shift_remove k m) = get k' m.
Proof.
  intros Hne. induction m as [|[k'' v''] m IH]; cbn; [done|].
  case_bool_decide; cbn; [subst; by rewrite bool_decide_eq_false_2|]. by rewrite IH.
Qed.

Lemma get_None k m : get k m = None ↔ k ∉ keys m.
Proof.
  induction m as [|[k' v'] m IH]; cbn; [by split; [intros _ ?%elem_of_nil|]|].
  rewrite elem_of_cons. case_bool_decide; naive_solver.
Qed.

Lemma get_Some_elem k v m : get k m = Some v → (k, v) ∈ m.
Proof.
  induction m as [|[k' v'] m IH]; cbn; [done|]. case_bool_decide.
  - intros [= <-]. subst. by left.
  - intros ?%IH. by right.
Qed.

Lemma elem_of_keys_insert k v m k' : k' ∈ keys (insert k v m) ↔ k' = k ∨ k' ∈ keys m.
Proof.
  induction m as [|[k'' v''] m IH]; cbn; [by rewrite list_elem_of_singleton, elem_of_nil; naive_solver|].
  case_bool_decide; cbn; rewrite !elem_of_cons; [naive_solver|]. rewrite IH. naive_solver.
Qed.

Lemma elem_of_keys_remove k m k' : k' ∈ keys (shift_remove k m) → k' ∈ keys m.
Proof.
  induction m as [|[k'' v''] m IH]; cbn; [done|].
  case_bool_decide; cbn; rewrite !elem_of_cons; naive_solver.
Qed.

Lemma NoDup_keys_insert k v m : NoDup (keys m) → NoDup (keys (insert k v m)).
Proof.
  induction m as [|[k' v'] m IH]; cbn; intros Hnd; [by apply NoDup_singleton|].
  apply NoDup_cons in Hnd as [Hk' Hnd].
  case_bool_decide; cbn; apply NoDup_cons; [done|]. split; [|by apply IH].
  rewrite elem_of_keys_insert. naive_solver.
Qed.

Lemma NoDup_keys_remove k m : NoDup (keys m) → NoDup (keys (shift_remove k m)).
Proof.
  induction m as [|[k' v'] m IH]; cbn; intros Hnd; [done|].
  apply NoDup_cons in Hnd as [Hk' Hnd]. case_bool_decide; [done|].
  apply NoDup_cons. split; [|by apply IH]. by intros ?%elem_of_keys_remove.
Qed.

Lemma get_shift_remove k m : NoDup (keys m) → get k (shift_remove k m) = None.
Proof.
  induction m as [|[k' v'] m IH]; cbn; intros Hnd; [done|].
  apply NoDup_cons in Hnd as [Hk' Hnd]. case_bool_decide.
  - subst. by apply get_None.
  - cbn. rewrite bool_decide_eq_false_2 by done. by apply IH.
Qed.

(** Position is kept: replacing a present key does not reorder the keys. *)
Lemma keys_insert_present k v m : k ∈ keys m → keys (insert k v m) = keys m.
Proof.
  induction m as [|[k' v'] m IH]; cbn; [by intros ?%elem_of_nil|].
  rewrite elem_of_cons. case_bool_decide; cbn; [done|]. intros [?|?]; [done|].
  f_equal. by apply IH.
Qed.

Lemma keys_insert_absent k v m : k ∉ keys m → keys (insert k v m) = keys m ++ [k].
Proof.
  induction m as [|[k' v'] m IH]; cbn; [done|].
  rewrite elem_of_cons. intros Hne. rewrite bool_decide_eq_false_2 by naive_solver.
  cbn. f_equal. naive_solver.
Qed.

Lemma get_perm k m1 m2 : NoDup (keys m1) → m1 ≡ₚ m2 → get k m1 = get k m2.
Proof.
  intros Hnd Hp. induction Hp as [|[k1 v1] m1 m2 Hp IH|[k1 v1] [k2 v2] m|m1 m2 m3 Hp1 IH1 Hp2 IH2].
  - done.
  - cbn in *. apply NoDup_cons in Hnd as [_ Hnd]. by rewrite IH.
  - cbn in *. apply NoDup_cons in Hnd as [Hn _]. repeat case_bool_decide; try done. subst. set_solver.
  - rewrite IH1 by done. apply IH2. unfold keys in *. by rewrite <-Hp1.
Qed.

End index_map.
End IndexMap.

(** ** Field names *)

(** The compact forms of RFC 3261 §7.3.3, by their lowercase letter. *)
Definition compact_form (a : byte) : option string :=
  match byte_lower a with
  | "a"%char => Some "accept-contact"
  | "b"%char => Some "referred-by"
  | "c"%char => Some "content-type"
  | "d"%char => Some "request-disposition"
  | "e"%char => Some "content-encoding"
  | "f"%char => Some "from"
  | "i"%char => Some "call-id"
  | "j"%char => Some "reject-contact"
  | "k"%char => Some "supported"
  | "l"%char => Some "content-length"
  | "m"%char => Some "contact"
  | "o"%char => Some "event"
  | "r"%char => Some "refer-to"
  | "s"%char => Some "subject"
  | "t"%char => Some "to"
  | "u"%char => Some "allow-events"
  | "v"%char => Some "via"
  | "x"%char => Some "session-expires"
  | "y"%char => Some "identity"
  | _ => None
  end.

Definition canonical_key (name : string) : string :=
  match name with
  | String a "" =>
      match compact_form a with
      | Some full => full
      | None => to_ascii_lowercase name
      end
  | _ => to_ascii_lowercase name
  end.

#[global] Arguments canonical_key : simpl never.

Definition same_header_name (first second : string) : bool :=
  bool_decide (canonical_key first = canonical_key second).

Abbreviation MIDDLE_RANK := 128%N (only parsing).

(** The position of a field on the wire; [u8]. *)
Definition wire_rank (canonical : string) : N :=
  if decide (canonical = "via") then 0 else
  if decide (canonical = "max-forwards") then 1 else
  if decide (canonical = "record-route") then 2 else
  if decide (canonical = "route") then 3 else
  if decide (canonical = "proxy-require") then 4 else
  if decide (canonical = "proxy-authorization") then 5 else
  if decide (canonical = "from") then 6 else
  if decide (canonical = "to") then 7 else
  if decide (canonical = "call-id") then 8 else
  if decide (canonical = "cseq") then 9 else
  if decide (canonical = "contact") then 10 else
  if decide (canonical = "content-disposition") then 250 else
  if decide (canonical = "content-encoding") then 251 else
  if decide (canonical = "content-language") then 252 else
  if decide (canonical = "content-type") then 253 else
  if decide (canonical = "content-length") then 254 else
  MIDDLE_RANK.

(** ** The container *)

(** The canonical key, the name as written, the values. *)
Abbreviation entry := (string * (string * list string))%type (only parsing).

Record SipHeaders := mkHeaders { headers : list entry }.

Module Headers.

Definition new : SipHeaders := mkHeaders [].

Definition add (name value : string) (h : SipHeaders) : SipHeaders :=
  let key := canonical_key name in
  mkHeaders (match IndexMap.get key (headers h) with
             | Some (n, vs) => IndexMap.insert key (n, vs ++ [value]) (headers h)
             | None => IndexMap.insert key (name, [value]) (headers h)
             end).

Definition set_all (name : string) (values : list string) (h : SipHeaders) : SipHeaders :=
  mkHeaders (IndexMap.insert (canonical_key name) (name, values) (headers h)).

Definition set (name value : string) (h : SipHeaders) : SipHeaders :=
  mkHeaders (IndexMap.insert (canonical_key name) (name, [value]) (headers h)).

Definition get_all (name : string) (h : SipHeaders) : option (list string) :=
  snd <$> IndexMap.get (canonical_key name) (headers h).

Definition get (name : string) (h : SipHeaders) : option string :=
  '(_, values) ← IndexMap.get (canonical_key name) (headers h); head values.

Definition remove (name : string) (h : SipHeaders) : SipHeaders :=
  mkHeaders (IndexMap.shift_remove (canonical_key name) (headers h)).

Definition names (h : SipHeaders) : list string := (λ e : entry, e.2.1) <$> headers h.

Definition iter (h : SipHeaders) : list (string * list string) :=
  (λ e : entry, (e.1, e.2.2)) <$> headers h.

Definition via (h : SipHeaders) : option string := get "Via" h.
Definition to (h : SipHeaders) : option string := get "To" h.
Definition from (h : SipHeaders) : option string := get "From" h.
Definition call_id (h : SipHeaders) : option string := get "Call-ID" h.
Definition cseq (h : SipHeaders) : option string := get "CSeq" h.
Definition contact (h : SipHeaders) : option string := get "Contact" h.

Definition content_length (h : SipHeaders) : option N :=
  s ← get "Content-Length" h; parse_uint USIZE_MAX (trim s).
Definition max_forwards (h : SipHeaders) : option N :=
  s ← get "Max-Forwards" h; parse_uint U8_MAX (trim s).

(** *** Writing the header block *)

(** One [Name: value] row per value. *)
Fixpoint push_header_rows (name : string) (values : list string) : bytes :=
  match values with
  | [] => ""
  | value :: values => name +:+ ": " +:+ value +:+ CRLF +:+ push_header_rows name values
  end.

Definition entry_rows (e : entry) : bytes := push_header_rows e.2.1 e.2.2.
Definition entry_rank (e : entry) : N := wire_rank e.1.

(** The scan for an already ordered header block: no rank below the one before. *)
Fixpoint ranks_ordered (previous : N) (l : list entry) : bool :=
  match l with
  | [] => true
  | e :: l => if (entry_rank e <? previous)%N then false else ranks_ordered (entry_rank e) l
  end.

(** One turn of the insertion sort.  The sorted part is held last element first,
    as the loop sees it from [cursor]: the new element is swapped down past the
    elements of strictly greater rank. *)
Fixpoint sift_down (e : entry) (sorted_rev : list entry) : list entry :=
  match sorted_rev with
  | [] => [e]
  | x :: rest => if (entry_rank e <? entry_rank x)%N then x :: sift_down e rest else e :: sorted_rev
  end.

Definition insertion_sort (l : list entry) : list entry :=
  reverse (foldl (λ sorted_rev e, sift_down e sorted_rev) [] l).

Definition write_wire (h : SipHeaders) : bytes :=
  if ranks_ordered 0 (headers h)
  then str_concat (entry_rows <$> headers h)
  else str_concat (entry_rows <$> insertion_sort (headers h)).

(** The container invariant: one entry per canonical name, and the key of an
    entry is the canonical form of the name it was written with. *)
Definition wf (h : SipHeaders) : Prop :=
  NoDup (IndexMap.keys (headers h)) ∧
  Forall (λ e : entry, e.1 = canonical_key e.2.1) (headers h).

(** *** Lemmas *)

Lemma get_head name h : get name h = (get_all name h ≫= head).
Proof. unfold get, get_all. by destruct (IndexMap.get _ _) as [[??]|]. Qed.

Lemma get_all_add name name' value h :
  get_all name' (add name value h) =
    if same_header_name name name'
    then Some (default [] (get_all name h) ++ [value]) else get_all name' h.
Proof.
  unfold get_all, add, same_header_name. cbn. case_bool_decide as Hk.
  - rewrite <-Hk. destruct (IndexMap.get (canonical_key name) (headers h)) as [[n vs]|]; cbn; by rewrite IndexMap.get_insert.
  - destruct (IndexMap.get (canonical_key name) (headers h)) as [[n vs]|]; cbn;
      by rewrite IndexMap.get_insert_ne.
Qed.

Lemma get_all_set_all name name' values h :
  get_all name' (set_all name values h) =
    if same_header_name name name' then Some values else get_all name' h.
Proof.
  unfold get_all, set_all, same_header_name. cbn. case_bool_decide as Hk.
  - by rewrite <-Hk, IndexMap.get_insert.
  - by rewrite IndexMap.get_insert_ne.
Qed.

Lemma get_all_set name name' value h :
  get_all name' (set name value h) =
    if same_header_name name name' then Some [value] else get_all name' h.
Proof. apply get_all_set_all. Qed.

Lemma get_all_remove name name' h :
  wf h →
  get_all name' (remove name h) =
    if same_header_name name name' then None else get_all name' h.
Proof.
  intros [Hnd _]. unfold get_all, remove, same_header_name. cbn. case_bool_decide as Hk.
  - by rewrite <-Hk, IndexMap.get_shift_remove.
  - by rewrite IndexMap.get_shift_remove_ne.
Qed.

Lemma get_set name value h : get name (set name value h) = Some value.
Proof.
  rewrite get_head, get_all_set. unfold same_header_name. by rewrite bool_decide_eq_true_2.
Qed.

Lemma get_set_other name name' value h :
  same_header_name name name' = false → get name' (set name value h) = get name' h.
Proof. intros Hne. by rewrite !get_head, get_all_set, Hne. Qed.

Lemma Forall_insert (P : entry → Prop) k v m :
  P (k, v) → Forall P m → Forall P (IndexMap.insert k v m).
Proof.
  intros Hkv. induction 1 as [|[k' v'] m Hx Hm IH]; cbn; [by repeat constructor|].
  case_bool_decide; subst; by constructor.
Qed.

Lemma Forall_shift_remove (P : entry → Prop) k m :
  Forall P m → Forall P (IndexMap.shift_remove k m).
Proof.
  induction 1 as [|[k' v'] m Hx Hm IH]; cbn; [done|].
  case_bool_decide; subst; [done|by constructor].
Qed.

Lemma get_entry_key k v m :
  Forall (λ e : entry, e.1 = canonical_key e.2.1) m →
  IndexMap.get k m = Some v → k = canonical_key v.1.
Proof.
  induction 1 as [|[k' v'] m Hx Hm IH]; cbn; [done|].
  case_bool_decide; [|done]. intros [= <-]. by subst.
Qed.

Lemma wf_new : wf new.
Proof. split; constructor. Qed.

Lemma wf_add name value h : wf h → wf (add name value h).
Proof.
  intros [Hnd Hk]. unfold add. destruct (IndexMap.get _ _) as [[n vs]|] eqn:Hg; split; cbn.
  - by apply IndexMap.NoDup_keys_insert.
  - apply Forall_insert; [|done]. by apply (get_entry_key _ _ _ Hk Hg).
  - by apply IndexMap.NoDup_keys_insert.
  - by apply Forall_insert.
Qed.

Lemma wf_set_all name values h : wf h → wf (set_all name values h).
Proof.
  intros [Hnd Hk]. split; cbn; [by apply IndexMap.NoDup_keys_insert|by apply Forall_insert].
Qed.

Lemma wf_set name value h : wf h → wf (set name value h).
Proof. apply wf_set_all. Qed.

Lemma wf_remove name h : wf h → wf (remove name h).
Proof.
  intros [Hnd Hk]. split; cbn; [by apply IndexMap.NoDup_keys_remove|by apply Forall_shift_remove].
Qed.

#[export] Hint Resolve wf_new wf_add wf_set wf_set_all wf_remove : sip.

(** *** Repeated changes *)

Lemma byte_lower_idem a : byte_lower (byte_lower a) = byte_lower a.
Proof. by destruct a as [[] [] [] [] [] [] [] []]. Qed.

Lemma to_ascii_lowercase_idem s : to_ascii_lowercase (to_ascii_lowercase s) = to_ascii_lowercase s.
Proof.
  induction s as [|a s IH]; [done|]. unfold to_ascii_lowercase in *. cbn.
  by rewrite byte_lower_idem, IH.
Qed.

(** The key of a key is that key. *)
Lemma canonical_key_idem name : canonical_key (canonical_key name) = canonical_key name.
Proof.
  destruct name as [|a [|b s]]; [done| |].
  - unfold canonical_key at 2 3. destruct (compact_form a) as [full|] eqn:Hc.
    + unfold compact_form in Hc. repeat case_match; simplify_eq; vm_compute; reflexivity.
    + unfold to_ascii_lowercase, canonical_key. cbn. unfold compact_form in *.
      rewrite byte_lower_idem. by rewrite Hc.
  - exact (to_ascii_lowercase_idem (String a (String b s))).
Qed.

Lemma wf_foldl_remove l h : wf h → wf (foldl (λ h n, remove n h) h l).
Proof. revert h. induction l as [|n l IH]; intros h Hh; cbn; auto using wf_remove. Qed.

Lemma get_all_foldl_remove l name h :
  wf h →
  get_all name (foldl (λ h n, remove n h) h l) =
    if bool_decide (canonical_key name ∈ canonical_key <$> l) then None else get_all name h.
Proof.
  revert h. induction l as [|n l IH]; intros h Hh; cbn; [done|].
  rewrite IH, get_all_remove by auto using wf_remove. unfold same_header_name.
  repeat case_bool_decide; set_solver.
Qed.

Lemma wf_foldl_add name l h : wf h → wf (foldl (λ h v, add name v h) h l).
Proof. revert h. induction l as [|n l IH]; intros h Hh; cbn; auto using wf_add. Qed.

Lemma same_header_refl name : same_header_name name name = true.
Proof. by apply bool_decide_eq_true. Qed.

Lemma get_all_foldl_add name name' l h :
  get_all name' (foldl (λ h v, add name v h) h l) =
    if same_header_name name name' && negb (bool_decide (l = []))
    then Some (default [] (get_all name h) ++ l) else get_all name' h.
Proof.
  revert h. induction l as [|v l IH]; intros h; cbn.
  { by rewrite andb_false_r. }
  rewrite IH, !get_all_add, same_header_refl. destruct (same_header_name name name'); cbn; [|done].
  rewrite <-(assoc_L (++)). case_bool_decide; subst; done.
Qed.

(** A name whose key is not there has no values. *)
Lemma get_all_None name h : canonical_key name ∉ (iter h).*1 → get_all name h = None.
Proof.
  unfold get_all, iter. rewrite <-list_fmap_compose. intros Hk.
  by rewrite (proj2 (IndexMap.get_None _ _)).
Qed.

Lemma key_canonical h k : wf h → k ∈ (iter h).*1 → canonical_key k = k.
Proof.
  unfold wf, iter. rewrite <-list_fmap_compose. intros [_ Hall] (e & -> & He)%list_elem_of_fmap.
  rewrite Forall_forall in Hall. cbn. by rewrite (Hall e He), canonical_key_idem.
Qed.

(** *** The insertion sort is stable *)

Definition rank_le (x y : entry) : Prop := (entry_rank x ≤ entry_rank y)%N.
Definition rank_ge (x y : entry) : Prop := (entry_rank y ≤ entry_rank x)%N.

Definition of_rank (r : N) : list entry → list entry :=
  filter (λ e, entry_rank e = r).

Lemma sift_down_perm e l : sift_down e l ≡ₚ e :: l.
Proof.
  induction l as [|x l IH]; cbn; [done|]. case_match; [|done].
  rewrite IH. by apply Permutation_swap.
Qed.

Lemma sift_down_sorted e l : StronglySorted rank_ge l → StronglySorted rank_ge (sift_down e l).
Proof.
  induction 1 as [|x l Hl IH Hx]; cbn; [by repeat constructor|].
  destruct (N.ltb_spec (entry_rank e) (entry_rank x)) as [Hlt|Hge].
  - constructor; [done|]. rewrite sift_down_perm. constructor; [unfold rank_ge; lia|done].
  - constructor; [by constructor|]. constructor; [done|].
    eapply Forall_impl; [exact Hx|]. unfold rank_ge. intros y Hy. lia.
Qed.

Lemma sift_down_of_rank r e l :
  of_rank r (sift_down e l) = of_rank r (e :: l).
Proof.
  unfold of_rank. induction l as [|x l IH]; cbn; [done|].
  destruct (N.ltb_spec (entry_rank e) (entry_rank x)) as [Hlt|Hge]; [|done].
  rewrite !filter_cons, IH, filter_cons. repeat case_decide; [lia|done..].
Qed.

Lemma foldl_sift_down l acc :
  StronglySorted rank_ge acc →
  let res := foldl (λ sorted_rev e, sift_down e sorted_rev) acc l in
  StronglySorted rank_ge res ∧ res ≡ₚ reverse l ++ acc ∧
  ∀ r, of_rank r res = reverse (of_rank r l) ++ of_rank r acc.
Proof.
  revert acc. induction l as [|e l IH]; intros acc Hacc res; subst res; cbn [foldl]; [done|].
  destruct (IH (sift_down e acc)) as (Hs & Hp & Hr); [by apply sift_down_sorted|].
  split_and!; [done| |].
  - rewrite Hp, sift_down_perm, reverse_cons. by rewrite <-app_assoc.
  - intros r. rewrite Hr, sift_down_of_rank. unfold of_rank. rewrite !filter_cons.
    case_decide; [|done]. by rewrite reverse_cons, <-app_assoc.
Qed.

Lemma StronglySorted_reverse l :
  StronglySorted rank_ge l → StronglySorted rank_le (reverse l).
Proof.
  induction 1 as [|x l Hl IH Hx]; [constructor|]. rewrite reverse_cons.
  apply StronglySorted_app. split_and!; [|done|by repeat constructor].
  intros x1 x2 Hx1 ->%list_elem_of_singleton. rewrite elem_of_reverse in Hx1.
  rewrite Forall_forall in Hx. apply (Hx x1 Hx1).
Qed.

Lemma insertion_sort_stable l :
  StronglySorted rank_le (insertion_sort l) ∧ insertion_sort l ≡ₚ l ∧
  ∀ r, of_rank r (insertion_sort l) = of_rank r l.
Proof.
  destruct (foldl_sift_down l [] ltac:(constructor)) as (Hs & Hp & Hr).
  unfold insertion_sort. cbv zeta in Hs, Hp, Hr. split_and!.
  - by apply StronglySorted_reverse.
  - by rewrite reverse_Permutation, Hp, app_nil_r, reverse_Permutation.
  - intros r. unfold of_rank. rewrite filter_reverse.
    unfold of_rank in Hr. rewrite Hr. rewrite filter_nil, app_nil_r. by rewrite reverse_involutive.
Qed.

Lemma ranks_ordered_sorted prev l :
  ranks_ordered prev l = true →
  StronglySorted rank_le l ∧ Forall (λ e, (prev ≤ entry_rank e)%N) l.
Proof.
  revert prev. induction l as [|e l IH]; intros prev; cbn; [by repeat constructor|].
  destruct (N.ltb_spec (entry_rank e) prev) as [|Hge]; [done|].
  intros [Hs Hall]%IH. split; constructor; [done|done|done|].
  eapply Forall_impl; [exact Hall|]. cbn. lia.
Qed.

Lemma sorted_ranks_ordered prev l :
  StronglySorted rank_le l → Forall (λ e, (prev ≤ entry_rank e)%N) l → ranks_ordered prev l = true.
Proof.
  revert prev. induction l as [|e l IH]; intros prev; [done|]. intros [Hs He]%StronglySorted_inv Hp.
  cbn. inversion_clear Hp. destruct (N.ltb_spec (entry_rank e) prev); [lia|]. by apply IH.
Qed.

(** The entries in the order [write_wire] writes them. *)
Definition wire_order (h : SipHeaders) : list entry :=
  if ranks_ordered 0 (headers h) then headers h else insertion_sort (headers h).

Lemma write_wire_order h : write_wire h = str_concat (entry_rows <$> wire_order h).
Proof. unfold write_wire, wire_order. by destruct (ranks_ordered 0 (headers h)). Qed.

Lemma wire_order_spec h :
  wire_order h ≡ₚ headers h ∧ StronglySorted rank_le (wire_order h) ∧
  ∀ r, of_rank r (wire_order h) = of_rank r (headers h).
Proof.
  unfold wire_order. destruct (ranks_ordered 0 (headers h)) eqn:Hord.
  - by apply ranks_ordered_sorted in Hord as [Hs _].
  - by destruct (insertion_sort_stable (headers h)) as (Hs & Hp & Hr).
Qed.

Lemma wire_order_idem h : wire_order (mkHeaders (wire_order h)) = wire_order h.
Proof.
  destruct (wire_order_spec h) as (_ & Hs & _). unfold wire_order at 1. cbn [headers].
  rewrite sorted_ranks_ordered; [done|done|]. apply Forall_forall. intros. lia.
Qed.

End Headers.

Import Headers.

(** Decides which of the field names in the conclusion are the same header. *)
Ltac compare_names :=
  repeat match goal with
  | |- context [same_header_name ?a ?b] =>
      let v := eval vm_compute in (same_header_name a b) in
      change (same_header_name a b) with v
  end; cbn [andb]; cbv iota.

(** [write_wire] emits every header exactly once, in an order that is sorted
    by [wire_rank] and keeps headers of equal rank in insertion order, so the
    rows of one field name keep their relative order; the fast path for an
    already ordered block and the insertion sort give the same result. *)
Theorem write_wire_stable_sorted (h : SipHeaders) :
  ∃ l, write_wire h = str_concat (entry_rows <$> l) ∧
       l ≡ₚ headers h ∧ StronglySorted rank_le l ∧
       (∀ r, of_rank r l = of_rank r (headers h)).
Proof.
  exists (wire_order h). destruct (wire_order_spec h) as (Hp & Hs & Hr).
  split_and!; [apply write_wire_order|done..].
Qed.

(** Reads after writes, for any two spellings of a field name.  Two names
    that are the same header (case-insensitively, or compact and long form)
    address one entry: [add] appends to its values, [set] and [set_all] replace
    them, [remove] leaves none; every other header is untouched, and the
    container invariant is kept. *)
Theorem headers_read_write (h : SipHeaders) (name other value : string) (values : list string) :
  wf h →
  (get_all other (add name value h) =
     if same_header_name name other
     then Some (default [] (get_all name h) ++ [value]) else get_all other h) ∧
  (get_all other (set name value h) =
     if same_header_name name other then Some [value] else get_all other h) ∧
  (get_all other (set_all name values h) =
     if same_header_name name other then Some values else get_all other h) ∧
  (get_all other (remove name h) =
     if same_header_name name other then None else get_all other h) ∧
  wf (add name value h) ∧ wf (set name value h) ∧ wf (set_all name values h) ∧
  wf (remove name h).
Proof.
  intros Hwf. split_and!; auto using get_all_add, get_all_set, get_all_set_all,
    get_all_remove with sip.
Qed.

Lemma headers_read_write_witness :
  same_header_name "v" "Via" = true ∧
  get_all "Via" (add "v" "SIP/2.0/UDP b" (set "VIA" "SIP/2.0/UDP a" new))
    = Some ["SIP/2.0/UDP a"; "SIP/2.0/UDP b"].
Proof.
  split; [vm_compute; reflexivity|].
  destruct (headers_read_write (set "VIA" "SIP/2.0/UDP a" new) "v" "Via" "SIP/2.0/UDP b" [])
    as (-> & _); [apply wf_set, wf_new|]. vm_compute. reflexivity.
Defined.
