(* ===== verification/Uri.v ===== *)
(** * SIP URIs ([src/src/sip/uri.rs])

    The URI type, its printer and the host helpers.  [Box] is transparent. *)

From S2P Require Import Prelude Str.

Definition format_sip_host (host : string) : string :=
  if contains ":" host && negb (starts_with "[" host)
  then "[" +:+ host +:+ "]" else host.

Definition strip_ipv6_brackets (host : string) : string :=
  default host (h ← strip_prefix "[" host; strip_suffix_byte "]" h).

(** The unescaped characters of a URI user part, [;] apart. *)
Definition uri_user_byte (a : byte) : bool :=
  is_ascii_alphanumeric a ||
  byte_in ["-"; "_"; "."; "!"; "~"; "*"; "'"; "("; ")"]%char a ||
  byte_in ["&"; "="; "+"; "$"; ","; "?"; "/"]%char a.

(** The [while index < bytes.len()] loop. *)
Fixpoint uri_user_bytes_ok (s : string) : bool :=
  match s with
  | "" => true
  | String a s1 =>
      if is_byte "%" a then
        match s1 with
        | String h1 (String h2 s3) =>
            if is_ascii_hexdigit h1 && is_ascii_hexdigit h2 then uri_user_bytes_ok s3 else false
        | _ => false
        end
      else if uri_user_byte a then uri_user_bytes_ok s1 else false
  end.

Definition checked_uri_user (value : string) : option string :=
  if is_empty value then None else
  if uri_user_bytes_ok value then Some value else None.

Definition split_host_port (authority : string) : string * option N :=
  let authority := trim authority in
  if starts_with "[" authority then
    match split_once "]" authority with
    | Some (host, rest) =>
        (host +:+ "]", p ← strip_prefix ":" rest; parse_uint U16_MAX p)
    | None => (authority, None)
    end
  else
    match rsplit_once ":" authority with
    | Some (host, port_str) =>
        if contains ":" host then (authority, None) else
        match parse_uint U16_MAX port_str with
        | Some port => (host, Some port)
        | None => (authority, None)
        end
    | None => (authority, None)
    end.

Inductive Scheme := Sip | Sips | Tel | Other (token : string).

#[export] Instance Scheme_eq_dec : EqDecision Scheme.
Proof. solve_decision. Defined.

Definition scheme_as_str (s : Scheme) : string :=
  match s with Sip => "sip" | Sips => "sips" | Tel => "tel" | Other t => t end.

Definition scheme_from_token (token : string) : Scheme :=
  if decide (token = "sip") then Sip else
  if decide (token = "sips") then Sips else
  if decide (token = "tel") then Tel else Other token.

Definition is_tel (s : Scheme) : bool := match s with Tel => true | _ => false end.
Abbreviation is_sips s := (match s with Sips => true | _ => false end) (only parsing).
Definition is_sip_family (s : Scheme) : bool :=
  match s with Sip | Sips => true | _ => false end.

Abbreviation param := (string * option string)%type (only parsing).

Record UriExtras := mkExtras {
  extra_headers : list param;
  extra_user_params : list param;
}.

Record SipUri := mkUri {
  scheme : Scheme;
  user : option string;
  host : string;
  port : option N;   (* u16 *)
  params : list param;
  extras : option UriExtras;
}.

#[export] Instance UriExtras_eq_dec : EqDecision UriExtras.
Proof. solve_decision. Defined.
#[export] Instance SipUri_eq_dec : EqDecision SipUri.
Proof. solve_decision. Defined.

Definition uri_new (host : string) : SipUri := mkUri Sip None host None [] None.

Definition with_port (u : SipUri) (p : N) : SipUri :=
  mkUri (scheme u) (user u) (host u) (Some p) (params u) (extras u).
Definition with_param (u : SipUri) (name : string) (value : option string) : SipUri :=
  mkUri (scheme u) (user u) (host u) (port u) (params u ++ [(name, value)]) (extras u).

Definition uri_headers (u : SipUri) : list param :=
  match extras u with Some e => extra_headers e | None => [] end.
Definition user_params (u : SipUri) : list param :=
  match extras u with Some e => extra_user_params e | None => [] end.

Definition extras_is_empty (e : UriExtras) : bool :=
  match extra_headers e, extra_user_params e with [], [] => true | _, _ => false end.

Definition make_extras (hs ups : list param) : option UriExtras :=
  let e := mkExtras hs ups in if extras_is_empty e then None else Some e.

Definition set_extras (u : SipUri) (hs ups : list param) : SipUri :=
  mkUri (scheme u) (user u) (host u) (port u) (params u) (make_extras hs ups).

Definition get_param (u : SipUri) (name : string) : option string :=
  '(_, v) ← list_find (λ p : param, p.1 = name) (params u); Some (default "" v.2).

(** [;name] or [;name=value]. *)
Definition show_param (p : param) : string :=
  ";" +:+ p.1 +:+ match p.2 with Some v => "=" +:+ v | None => "" end.

Definition show_params (ps : list param) : string := str_concat (show_param <$> ps).

Definition show_uri_header (p : param) : string :=
  p.1 +:+ match p.2 with Some v => "=" +:+ v | None => "" end.

Definition show_uri_headers (hs : list param) : string :=
  match hs with
  | [] => ""
  | _ => "?" +:+ join "&" (show_uri_header <$> hs)
  end.

Definition show_port (p : option N) : string :=
  match p with Some p => ":" +:+ dec p | None => "" end.

Definition show_user (u : SipUri) : string :=
  match user u with
  | Some s => s +:+ show_params (user_params u) +:+ "@"
  | None => ""
  end.

Definition show_host (u : SipUri) : string :=
  match scheme u with
  | Other _ => host u
  | _ => format_sip_host (host u)
  end.

(** [impl Display for SipUri]. *)
Definition show_uri (u : SipUri) : string :=
  scheme_as_str (scheme u) +:+ ":" +:+
  (if is_tel (scheme u)
   then match user u with Some s => s | None => "" end
   else show_user u +:+ show_host u +:+ show_port (port u)) +:+
  show_params (params u) +:+ show_uri_headers (uri_headers u).
