(* ===== verification/Message.v ===== *)
(** * SIP messages ([src/src/sip/message.rs], [src/src/sip/builder.rs])

    The message types, the serializer [to_bytes], the builder and the response
    skeleton. *)

From S2P Require Import Prelude Str Headers Uri.

Inductive Method :=
  | Invite | Ack | Bye | Cancel | Options | Register
  | Info | Update | Prack | Subscribe | Notify | Refer | Message | Publish
  | Extension (name : string).

#[export] Instance Method_eq_dec : EqDecision Method.
Proof. solve_decision. Defined.

Definition method_as_str (m : Method) : string :=
  match m with
  | Invite => "INVITE" | Ack => "ACK" | Bye => "BYE" | Cancel => "CANCEL"
  | Options => "OPTIONS" | Register => "REGISTER" | Info => "INFO"
  | Update => "UPDATE" | Prack => "PRACK" | Subscribe => "SUBSCRIBE"
  | Notify => "NOTIFY" | Refer => "REFER" | Message => "MESSAGE"
  | Publish => "PUBLISH" | Extension s => s
  end.

(** The match of [Method::from_str] on the upper-cased token [up]. *)
Definition known_method (up : string) : option Method :=
  if decide (up = "INVITE") then Some Invite else
  if decide (up = "ACK") then Some Ack else
  if decide (up = "BYE") then Some Bye else
  if decide (up = "CANCEL") then Some Cancel else
  if decide (up = "OPTIONS") then Some Options else
  if decide (up = "REGISTER") then Some Register else
  if decide (up = "INFO") then Some Info else
  if decide (up = "UPDATE") then Some Update else
  if decide (up = "PRACK") then Some Prack else
  if decide (up = "SUBSCRIBE") then Some Subscribe else
  if decide (up = "NOTIFY") then Some Notify else
  if decide (up = "REFER") then Some Refer else
  if decide (up = "MESSAGE") then Some Message else
  if decide (up = "PUBLISH") then Some Publish else None.

Definition method_from_str {U : Unicode} (s : string) : Method :=
  default (Extension s) (known_method (to_uppercase s)).

Definition method_code (m : Method) : nat + string :=
  match m with
  | Invite => inl 0 | Ack => inl 1 | Bye => inl 2 | Cancel => inl 3
  | Options => inl 4 | Register => inl 5 | Info => inl 6 | Update => inl 7
  | Prack => inl 8 | Subscribe => inl 9 | Notify => inl 10 | Refer => inl 11
  | Message => inl 12 | Publish => inl 13 | Extension s => inr s
  end.

Definition method_decode (c : nat + string) : Method :=
  match c with
  | inl 0 => Invite | inl 1 => Ack | inl 2 => Bye | inl 3 => Cancel
  | inl 4 => Options | inl 5 => Register | inl 6 => Info | inl 7 => Update
  | inl 8 => Prack | inl 9 => Subscribe | inl 10 => Notify | inl 11 => Refer
  | inl 12 => Message | inl _ => Publish | inr s => Extension s
  end.

#[export] Instance Method_countable : Countable Method.
Proof. apply (inj_countable' method_code method_decode). by intros []. Defined.

Record Version := mkVersion { major : N; minor : N }.  (* u8 *)

Definition sip_2_0 : Version := mkVersion 2 0.
Definition show_version (v : Version) : string := "SIP/" +:+ dec (major v) +:+ "." +:+ dec (minor v).

Record RequestLine := mkRequestLine {
  method : Method;
  request_uri : SipUri;
  req_version : Version;
}.

Record StatusLine := mkStatusLine {
  resp_version : Version;
  status_code : N;   (* u16 *)
  reason_phrase : string;
  generated_locally : bool;
}.

Inductive StartLine :=
  | Request (line : RequestLine)
  | Response (line : StatusLine).

Record SipMessage := mkMessage {
  start_line : StartLine;
  msg_headers : SipHeaders;
  body : bytes;
}.

Definition with_headers (m : SipMessage) (h : SipHeaders) : SipMessage :=
  mkMessage (start_line m) h (body m).

Definition is_request (m : SipMessage) : bool :=
  match start_line m with Request _ => true | Response _ => false end.

Definition mark_generated_locally (m : SipMessage) : SipMessage :=
  match start_line m with
  | Response line =>
      mkMessage (Response (mkStatusLine (resp_version line) (status_code line)
                             (reason_phrase line) true)) (msg_headers m) (body m)
  | Request _ => m
  end.

Definition msg_method (m : SipMessage) : option Method :=
  match start_line m with Request line => Some (method line) | Response _ => None end.
Definition msg_status_code (m : SipMessage) : option N :=
  match start_line m with Request _ => None | Response line => Some (status_code line) end.

(** [impl SipMessage { fn to_bytes }]. *)
Definition show_start_line (l : StartLine) : bytes :=
  match l with
  | Request req =>
      method_as_str (method req) +:+ " " +:+ show_uri (request_uri req) +:+ " " +:+
      show_version (req_version req) +:+ CRLF
  | Response resp =>
      show_version (resp_version resp) +:+ " " +:+ dec (status_code resp) +:+ " " +:+
      reason_phrase resp +:+ CRLF
  end.

Definition to_bytes (m : SipMessage) : bytes :=
  show_start_line (start_line m) +:+ Headers.write_wire (msg_headers m) +:+ CRLF +:+ body m.

(** ** The builder *)

Module Builder.

Record SipMessageBuilder := mkBuilder {
  b_start_line : option StartLine;
  b_headers : SipHeaders;
  b_body : bytes;
}.

Definition new : SipMessageBuilder := mkBuilder None Headers.new "".

Definition request (m : Method) (u : SipUri) (b : SipMessageBuilder) : SipMessageBuilder :=
  mkBuilder (Some (Request (mkRequestLine m u sip_2_0))) (b_headers b) (b_body b).
Definition response (status : N) (reason : string) (b : SipMessageBuilder) : SipMessageBuilder :=
  mkBuilder (Some (Response (mkStatusLine sip_2_0 status reason false))) (b_headers b) (b_body b).
Definition header (name value : string) (b : SipMessageBuilder) : SipMessageBuilder :=
  mkBuilder (b_start_line b) (Headers.add name value (b_headers b)) (b_body b).
Definition set_header (name value : string) (b : SipMessageBuilder) : SipMessageBuilder :=
  mkBuilder (b_start_line b) (Headers.set name value (b_headers b)) (b_body b).
Abbreviation via := (header "Via") (only parsing).
Abbreviation to := (header "To") (only parsing).
Abbreviation from := (header "From") (only parsing).
Abbreviation call_id := (header "Call-ID") (only parsing).
Abbreviation cseq := (header "CSeq") (only parsing).
Abbreviation contact := (header "Contact") (only parsing).
Abbreviation content_length n := (set_header "Content-Length" (dec n)) (only parsing).
Abbreviation content_type := (set_header "Content-Type") (only parsing).
Abbreviation max_forwards n := (set_header "Max-Forwards" (dec n)) (only parsing).
Definition set_body (s : bytes) (b : SipMessageBuilder) : SipMessageBuilder :=
  mkBuilder (b_start_line b)
    (Headers.set "Content-Length" (dec (N.of_nat (String.length s))) (b_headers b)) s.

Definition build (b : SipMessageBuilder) : option SipMessage :=
  line ← b_start_line b; Some (mkMessage line (b_headers b) (b_body b)).

End Builder.

Definition build_response_skeleton (request : SipMessage) (status : N) (reason : string)
    : SipMessage :=
  let h := msg_headers request in
  let opt (f : string → Builder.SipMessageBuilder → Builder.SipMessageBuilder)
      (v : option string) b := match v with Some v => f v b | None => b end in
  let b := Builder.response status reason Builder.new in
  let b := foldl (λ b v, Builder.via v b) b (default [] (Headers.get_all "Via" h)) in
  let b := opt Builder.from (Headers.from h) b in
  let b := opt Builder.to (Headers.to h) b in
  let b := opt Builder.call_id (Headers.call_id h) b in
  let b := opt Builder.cseq (Headers.cseq h) b in
  let b := Builder.content_length 0 b in
  default (mkMessage (Response (mkStatusLine sip_2_0 status reason false)) Headers.new "")
    (Builder.build b).

Lemma skeleton_start_line request status reason :
  start_line (build_response_skeleton request status reason) =
    Response (mkStatusLine sip_2_0 status reason false).
Proof.
  unfold build_response_skeleton.
  assert (Hfold : ∀ vs b, Builder.b_start_line (foldl (λ b v, Builder.via v b) b vs) =
                          Builder.b_start_line b).
  { induction vs as [|v vs IH]; intros b; [done|]. cbn [foldl]. by rewrite IH. }
  set (b := foldl _ _ _). assert (Builder.b_start_line b =
    Some (Response (mkStatusLine sip_2_0 status reason false))) as Hb by (unfold b; by rewrite Hfold).
  clearbody b. unfold Builder.build.
  destruct (Headers.from _), (Headers.to _), (Headers.call_id _), (Headers.cseq _); cbn; by rewrite Hb.
Qed.

Lemma skeleton_status request status reason :
  msg_status_code (build_response_skeleton request status reason) = Some status.
Proof. unfold msg_status_code. by rewrite skeleton_start_line. Qed.

(** The headers of a response skeleton, one field at a time. *)
Definition add_option (name : string) (v : option string) (h : SipHeaders) : SipHeaders :=
  match v with Some v => Headers.add name v h | None => h end.

Lemma get_all_add_option name name' v h :
  Headers.get_all name' (add_option name v h) =
    if Headers.same_header_name name name'
    then match v with Some v => Some (default [] (Headers.get_all name h) ++ [v])
                    | None => Headers.get_all name' h end
    else Headers.get_all name' h.
Proof.
  destruct v; cbn [add_option]; [by rewrite Headers.get_all_add|].
  by destruct (Headers.same_header_name _ _).
Qed.

Lemma skeleton_headers request status reason :
  let h := msg_headers request in
  msg_headers (build_response_skeleton request status reason) =
    Headers.set "Content-Length" (dec 0)
      (add_option "CSeq" (Headers.cseq h)
      (add_option "Call-ID" (Headers.call_id h)
      (add_option "To" (Headers.to h)
      (add_option "From" (Headers.from h)
      (foldl (λ h v, Headers.add "Via" v h) Headers.new (default [] (Headers.get_all "Via" h))))))).
Proof.
  intros h. unfold build_response_skeleton. fold h.
  assert (Hfold : ∀ vs b, foldl (λ b v, Builder.via v b) b vs =
    Builder.mkBuilder (Builder.b_start_line b)
      (foldl (λ h v, Headers.add "Via" v h) (Builder.b_headers b) vs) (Builder.b_body b)).
  { induction vs as [|v vs IH]; intros [l hs s]; [done|]. cbn [foldl]. by rewrite IH. }
  rewrite Hfold.
  destruct (Headers.from h), (Headers.to h), (Headers.call_id h), (Headers.cseq h); reflexivity.
Qed.

Lemma skeleton_via request status reason :
  Headers.get "Via" (msg_headers (build_response_skeleton request status reason)) =
    Headers.get "Via" (msg_headers request).
Proof.
  rewrite !Headers.get_head, skeleton_headers, Headers.get_all_set, !get_all_add_option.
  compare_names. rewrite Headers.get_all_foldl_add. compare_names.
  by destruct (Headers.get_all "Via" (msg_headers request)) as [[|v vs]|].
Qed.

Lemma skeleton_cseq request status reason :
  Headers.get "CSeq" (msg_headers (build_response_skeleton request status reason)) =
    Headers.get "CSeq" (msg_headers request).
Proof.
  rewrite Headers.get_head, skeleton_headers, Headers.get_all_set, !get_all_add_option.
  compare_names. rewrite Headers.get_all_foldl_add. compare_names.
  unfold Headers.cseq. by destruct (Headers.get "CSeq" (msg_headers request)).
Qed.
