(* ===== verification/Via.v ===== *)
(** * Via and CSeq values ([src/src/sip/headers/via.rs], [cseq.rs])

    The typed header values that identify a transaction, their parsers and
    printers. *)

From S2P Require Import Prelude Str Uri Message.

(** [param.split_once('=')] with both halves trimmed and the name lowered, as the
    header parsers read a parameter. *)
Definition header_param {U : Unicode} (p : string) : param :=
  match split_once "=" p with
  | Some (name, value) => (to_lowercase (trim name), Some (trim value))
  | None => (to_lowercase (trim p), None)
  end.

(** [split(';').filter(|s| !s.trim().is_empty())]. *)
Definition split_params (input : string) : list string :=
  filter (λ s, trim s ≠ "") (split ";" input).

Module Via.

Record Via := mkVia {
  transport : string;
  host : string;
  port : option N;   (* u16 *)
  branch : option string;
  received : option string;
  rport : option (option N);
  other_params : list param;
}.

#[global] Instance Via_eq_dec : EqDecision Via.
Proof. solve_decision. Defined.

Inductive ViaError :=
  | MissingPrefix | MissingSentBy | BadPort | UnterminatedBracket | BadRport | EmptyHeader.

(** The sent-by: host and port. *)
Definition parse_sent_by (sent_by : string) : result ViaError (string * option N) :=
  if starts_with "[" sent_by then
    match split_once "]" sent_by with
    | Some (host, after) =>
        match strip_prefix ":" after with
        | Some port_str =>
            port ← ok_or BadPort (parse_uint U16_MAX port_str); Ok (host +:+ "]", Some port)
        | None => Ok (host +:+ "]", None)
        end
    | None => Err UnterminatedBracket
    end
  else
    match rsplit_once ":" sent_by with
    | Some (host, port_str) =>
        match parse_uint U16_MAX port_str with
        | Some port => Ok (host, Some port)
        | None => Ok (sent_by, None)
        end
    | None => Ok (sent_by, None)
    end.

(** One turn of the loop over the parameters. *)
Definition add_param (v : Via) (p : param) : result ViaError Via :=
  let '(name, value) := p in
  if decide (name = "branch") then
    Ok (mkVia (transport v) (host v) (port v) value (received v) (rport v) (other_params v))
  else if decide (name = "received") then
    Ok (mkVia (transport v) (host v) (port v) (branch v) value (rport v) (other_params v))
  else if decide (name = "rport") then
    rport ← match value with
            | Some s => p ← ok_or BadRport (parse_uint U16_MAX s); Ok (Some (Some p))
            | None => Ok (Some None)
            end;
    Ok (mkVia (transport v) (host v) (port v) (branch v) (received v) rport (other_params v))
  else
    Ok (mkVia (transport v) (host v) (port v) (branch v) (received v) (rport v)
          (other_params v ++ [p])).

Fixpoint add_params (v : Via) (ps : list param) : result ViaError Via :=
  match ps with
  | [] => Ok v
  | p :: ps => v ← add_param v p; add_params v ps
  end.

Section parse.
Context {U : Unicode}.

Definition parse (input : string) : result ViaError Via :=
  let input := trim input in
  rest ← ok_or MissingPrefix (strip_prefix "SIP/2.0/" input);
  '(transport, rest) ← ok_or MissingSentBy (split_once_by is_ascii_whitespace rest);
  let transport := to_uppercase transport in
  let rest := trim_start rest in
  let '(sent_by, params_str) := break (is_byte ";") rest in
  let sent_by := trim sent_by in
  '(host, port) ← parse_sent_by sent_by;
  add_params (mkVia transport host port None None None [])
    (if is_empty params_str then [] else header_param <$> split_params params_str).

Definition split_comma_values (input : string) : list string :=
  filter (λ s, s ≠ "") (trim <$> split "," input).

Definition parse_multi (input : string) : result ViaError (list Via) :=
  vs ← result_mapM parse (split_comma_values input);
  if decide (vs = []) then Err EmptyHeader else Ok vs.
End parse.

Definition show (v : Via) : string :=
  "SIP/2.0/" +:+ transport v +:+ " " +:+ host v +:+ show_port (port v) +:+
  match branch v with Some b => ";branch=" +:+ b | None => "" end +:+
  match received v with Some r => ";received=" +:+ r | None => "" end +:+
  match rport v with
  | Some (Some p) => ";rport=" +:+ dec p
  | Some None => ";rport"
  | None => ""
  end +:+
  show_params (other_params v).

End Via.

Module CSeq.

Record CSeq := mkCSeq { sequence : N (* u32 *); cseq_method : Method }.

Inductive CSeqError := MissingSpace | BadSequence.

Definition parse {U : Unicode} (input : string) : result CSeqError CSeq :=
  let input := trim input in
  '(seq_str, method_str) ← ok_or MissingSpace (split_once_by is_ascii_whitespace input);
  sequence ← ok_or BadSequence (parse_uint U32_MAX (trim seq_str));
  Ok (mkCSeq sequence (method_from_str (trim method_str))).

Definition show (c : CSeq) : string :=
  dec (sequence c) +:+ " " +:+ method_as_str (cseq_method c).

End CSeq.
