(* ===== verification/Parser.v ===== *)
(** * The SIP message parser ([src/src/sip/parser.rs])

    One definition per parser function of the source, over the combinators of
    [Nom] and the string operations of [Str].  Slices at a found position
    ([&s[..i]], [&s[i..]]) are the two halves [break], [split_once] or
    [find_str] return.  The two loops (header lines, folded values) take fuel;
    every turn consumes input, and [parse_headers] / [parse_header_line] give
    them one turn per byte and one more, which is enough
    ([header_value_loop_enough], [headers_loop_enough]). *)

From S2P Require Import Prelude Str Nom Headers Uri Message.

(** Why a message is refused ([Err(String)] in the source, whose text only
    goes to the log). *)
Inductive ParseError :=
  | NoBoundary
  | BareLf (offset : nat)
  | BareCr (offset : nat)
  | NonUtf8
  | StartLineError
  | HeaderError
  | InvalidContentLength
  | ContentLengthExceeds (declared available : N)
  | UriError.

(** ** Bytes *)

(** [validate_header_line_endings], from byte [index] on; [prev] is the byte
    before it. *)
Fixpoint line_endings_from (index : nat) (prev : option byte) (s : bytes) : result ParseError unit :=
  match s with
  | "" => Ok tt
  | String a t =>
      if is_byte LF a && negb (bool_decide (prev = Some CR)) then Err (BareLf index) else
      if is_byte CR a && negb (starts_with_byte (is_byte LF) t) then Err (BareCr index) else
      line_endings_from (S index) (Some a) t
  end.

Definition validate_header_line_endings (header_bytes : bytes) : result ParseError unit :=
  line_endings_from 0 None header_bytes.

(** The input past the leading CRLF pairs ([&input[leading_crlf_len(input)..]]). *)
Fixpoint skip_leading_crlf (s : bytes) : bytes :=
  match s with
  | String a (String b t) => if is_byte CR a && is_byte LF b then skip_leading_crlf t else s
  | _ => s
  end.

(** [find_header_boundary]: the bytes before the first CRLFCRLF and those after
    it. *)
Definition find_header_boundary (input : bytes) : option (bytes * bytes) :=
  '(x, y) ← find_str (CRLF +:+ CRLF) input;
  rest ← strip_prefix (CRLF +:+ CRLF) y; Some (x, rest).

(** ** Character classes *)

(** A character that is none of the given ASCII ones. *)
Definition none_of (l : list byte) : char → bool :=
  char_test (λ a, negb (byte_in l a)) (λ _, true).

Definition ascii_char (p : byte → bool) : char → bool := char_test p (λ _, false).

Definition token_punct : list byte := ["-"; "."; "!"; "%"; "*"; "_"; "+"; "`"; "'"; "~"]%char.

Definition SP : byte := " ".
Definition is_wsp (a : byte) : bool := byte_in [SP; HT] a.

Section parser.
Context {U : Unicode} {P : Nom}.

Definition method_char (c : char) : bool :=
  is_alphanumeric c || ascii_char (byte_in token_punct) c.

Definition host_char (c : char) : bool :=
  is_alphanumeric c || ascii_char (byte_in ["."; "-"]%char) c.

(** ** The start line *)

Definition parse_crlf : parser string := alt (tag CRLF) (tag (String LF "")).

Definition parse_version : parser Version := λ input,
  '(input, _) ← tag "SIP/" input;
  '(input, major) ← map_res digit1 (parse_uint U8_MAX) input;
  '(input, _) ← nchar "." input;
  '(input, minor) ← map_res digit1 (parse_uint U8_MAX) input;
  Some (input, mkVersion major minor).

(** [many0(preceded(char(';'), (name, opt(preceded(char('='), value)))))]. *)
Definition uri_param : parser param :=
  preceded (nchar ";")
    (tuple2 (take_while1 (none_of ["="; ";"; "?"; SP; CR; LF]%char))
       (opt (preceded (nchar "=") (take_while (none_of [";"; "?"; SP; CR; LF]%char))))).
Definition parse_uri_params : parser (list param) := many0 uri_param.

Definition uri_header : parser param :=
  preceded (opt (nchar "&"))
    (tuple2 (take_while1 (none_of ["="; "&"; SP; CR; LF]%char))
       (opt (preceded (nchar "=") (take_while (none_of ["&"; SP; CR; LF]%char))))).
Definition parse_uri_headers : parser (list param) := many0 uri_header.

Definition parse_tel_uri : parser SipUri := λ input,
  '(input, subscriber) ←
    take_while1 (ascii_char (λ a, is_ascii_digit a || byte_in ["+"; "-"; "."; "("; ")"]%char a)) input;
  '(input, ps) ← opt parse_uri_params input;
  let ps := default [] ps in
  let host := default "" ('(_, p) ← list_find (λ p : param, p.1 = "phone-context") ps; p.2) in
  Some (input, mkUri Tel (Some subscriber) host None ps None).

Definition scheme_is_valid (s : string) : bool :=
  match s with
  | "" => false
  | String a s =>
      is_ascii_alphabetic a &&
      str_forall (λ a, is_ascii_alphanumeric a || byte_in ["+"; "-"; "."]%char a) s
  end.

(** The opaque part and the port split off its end. *)
Definition split_opaque_port (opaque : string) : string * option N :=
  match rsplit_once ":" opaque with
  | Some (head, tail) =>
      if negb (is_empty tail) && str_forall is_ascii_digit tail then
        match parse_uint U16_MAX tail with
        | Some p => (head, Some p)
        | None => (opaque, None)
        end
      else (opaque, None)
  | None => (opaque, None)
  end.

Definition parse_absolute_uri : parser SipUri := λ input,
  '(scheme, rest) ← split_once ":" input;
  if is_empty scheme then None else
  if negb (scheme_is_valid scheme) then None else
  let '(opaque, tail) := break (byte_in [SP; HT; CR; LF; ">"; ","]%char) rest in
  if is_empty opaque then None else
  let '(host, port) := split_opaque_port opaque in
  Some (tail, mkUri (scheme_from_token scheme) None host port [] None).

(** [name=value] or [name]. *)
Definition split_param (p : string) : param :=
  match split_once "=" p with
  | Some (n, v) => (n, Some v)
  | None => (p, None)
  end.

(** The user part and its parameters, split at the last [@] of the URI: the
    rest of the input, the user, the user parameters. *)
Definition parse_userinfo (input : string) : string * option string * list param :=
  let '(uri_portion, after) := break (byte_in [SP; CR; LF; ">"]%char) input in
  match rsplit_once "@" uri_portion with
  | Some (user_part, rest) =>
      match break (is_byte ";") user_part with
      | (_, "") => (rest +:+ after, Some user_part, [])
      | (bare_user, params_str) =>
          (rest +:+ after, Some bare_user,
           split_param <$> filter (λ s, s ≠ "") (split ";" params_str))
      end
  | None => (input, None, [])
  end.

Definition parse_host : parser string := λ input,
  if starts_with "[" input then
    '(input, ipv6) ← delimited (nchar "[") (take_while1 (none_of ["]"]%char)) (nchar "]") input;
    Some (input, "[" +:+ ipv6 +:+ "]")
  else take_while1 host_char input.

Definition parse_port : parser (option N) :=
  opt (preceded (nchar ":") (map_res (take_while1 (ascii_char is_ascii_digit)) (parse_uint U16_MAX))).

Definition parse_uri : parser SipUri := λ input,
  match strip_prefix "tel:" input with
  | Some rest => parse_tel_uri rest
  | None =>
      if negb (starts_with "sip:" input) && negb (starts_with "sips:" input)
      then parse_absolute_uri input
      else
        '(input, scheme) ← alt (tag "sip:") (tag "sips:") input;
        let scheme := if decide (scheme = "sips:") then Sips else Sip in
        let '(input, user, user_params) := parse_userinfo input in
        '(input, host_str) ← parse_host input;
        '(input, port) ← parse_port input;
        '(input, params) ← opt parse_uri_params input;
        let params := default [] params in
        '(input, headers) ← opt (preceded (nchar "?") parse_uri_headers) input;
        let headers := default [] headers in
        Some (input, set_extras (mkUri scheme user host_str port params None) headers user_params)
  end.

Definition parse_uri_standalone (input : string) : result ParseError SipUri :=
  match parse_uri (trim input) with
  | Some (_, uri) => Ok uri
  | None => Err UriError
  end.

Definition parse_uri_complete (input : string) : result ParseError SipUri :=
  match parse_uri input with
  | Some ("", uri) => Ok uri
  | _ => Err UriError
  end.

Definition parse_request_line : parser RequestLine := λ input,
  '(input, method_str) ← take_while1 method_char input;
  let method := method_from_str method_str in
  '(input, _) ← nchar SP input;
  '(input, uri) ← parse_uri input;
  '(input, _) ← nchar SP input;
  '(input, version) ← parse_version input;
  '(input, _) ← parse_crlf input;
  Some (input, mkRequestLine method uri version).

Definition parse_status_line : parser StatusLine := λ input,
  '(input, version) ← parse_version input;
  '(input, _) ← space1 input;
  '(input, status_code) ← map_res digit1 (parse_uint U16_MAX) input;
  '(input, _) ← space1 input;
  '(input, reason_phrase) ← take_until CRLF input;
  '(input, _) ← parse_crlf input;
  Some (input, mkStatusLine version status_code reason_phrase false).

Definition parse_start_line : parser StartLine :=
  alt (λ s, '(r, l) ← parse_request_line s; Some (r, Request l))
      (λ s, '(r, l) ← parse_status_line s; Some (r, Response l)).

(** ** Headers *)

(** The loop over the lines of one header value. *)
Fixpoint header_value_loop (fuel : nat) (name value remaining : string)
    : option (string * (string * string)) :=
  match fuel with
  | O => None
  | S fuel =>
      '(input, line_value) ← take_until CRLF remaining;
      let value := value +:+ line_value in
      '(input, _) ← parse_crlf input;
      let done := Some (input, (trim_ascii name, trim value)) in
      if is_empty input then done else
      if is_empty (trim_start_matches is_wsp input) then done else
      if starts_with_byte is_wsp input then
        '(input, _) ← take_while1 (ascii_char is_wsp) input;
        header_value_loop fuel name (value +:+ " ") input
      else done
  end.

Definition parse_header_line : parser (string * string) := λ input,
  let input := trim_start_matches is_wsp input in
  '(input, name) ← take_while1 (none_of [":"; CR; LF; SP; HT]%char) input;
  '(input, _) ← take_while (ascii_char is_wsp) input;
  '(input, _) ← nchar ":" input;
  '(input, _) ← take_while (ascii_char is_wsp) input;
  header_value_loop (S (String.length input)) name "" input.

Fixpoint headers_loop (fuel : nat) (headers : SipHeaders) (remaining : string)
    : option (string * SipHeaders) :=
  match fuel with
  | O => None
  | S fuel =>
      if is_empty remaining then Some (remaining, headers) else
      match strip_prefix CRLF remaining with
      | Some after => Some (after, headers)
      | None =>
          match strip_prefix (String LF "") remaining with
          | Some after => Some (after, headers)
          | None =>
              if starts_with_byte is_wsp remaining then None else
              '(input, (name, value)) ← parse_header_line remaining;
              headers_loop fuel (Headers.add name value headers) input
          end
      end
  end.

Definition parse_headers : parser SipHeaders := λ input,
  headers_loop (S (String.length input)) Headers.new input.

(** [input.get(..n)] and [input.get(n..)], which exist when [n] is a character
    boundary. *)
Definition split_at_checked (n : nat) (s : string) : option (string * string) :=
  let tail := String.substring n (String.length s - n) s in
  if (n <=? String.length s)%nat && negb (starts_with_byte is_continuation tail)
  then Some (String.substring 0 n s, tail) else None.

Definition parse_body (headers : SipHeaders) : parser string := λ input,
  match Headers.content_length headers with
  | Some content_length =>
      if (content_length =? 0)%N then Some (input, "") else
      if (content_length <=? N.of_nat (String.length input))%N then
        match split_at_checked (N.to_nat content_length) input with
        | Some (body, rest) => Some (rest, body)
        | None => Some ("", input)
        end
      else Some (input, "")
  | None => Some (input, "")
  end.

Definition parse_sip_message : parser SipMessage := λ input,
  let input := skip_leading_crlf input in
  '(input, start_line) ← parse_start_line input;
  '(input, headers) ← parse_headers input;
  '(input, body) ← parse_body headers input;
  Some (input, mkMessage start_line headers body).

(** ** Messages *)

(** The start line, the headers and the bytes after the boundary. *)
Definition parse_header_block (input : bytes) : result ParseError (StartLine * SipHeaders * bytes) :=
  '(block, rest) ← ok_or NoBoundary (find_header_boundary (skip_leading_crlf input));
  let header_bytes := block +:+ CRLF +:+ CRLF in
  _ ← validate_header_line_endings header_bytes;
  if negb (utf8_valid header_bytes) then Err NonUtf8 else
  '(_, start_line) ← ok_or StartLineError (parse_start_line header_bytes);
  let after_start_line :=
    match find_str CRLF header_bytes with
    | Some (_, y) => default "" (strip_prefix CRLF y)
    | None => ""
    end in
  '(_, headers) ← ok_or HeaderError (parse_headers after_start_line);
  Ok (start_line, headers, rest).

Definition parse_sip_headers_only (input : bytes) : result ParseError SipMessage :=
  '(start_line, headers, _) ← parse_header_block input;
  Ok (mkMessage start_line headers "").

(** The check of a declared Content-Length against the body octets received. *)
Definition check_content_length (headers : SipHeaders) (rest : bytes) : result ParseError unit :=
  match Headers.get "Content-Length" headers with
  | Some declared =>
      declared ← ok_or InvalidContentLength (parse_uint USIZE_MAX (trim declared));
      let available := N.of_nat (String.length rest) in
      if (available <? declared)%N then Err (ContentLengthExceeds declared available) else Ok tt
  | None => Ok tt
  end.

Definition parse_sip_message_bytes (input : bytes) : result ParseError SipMessage :=
  '(start_line, headers, rest) ← parse_header_block input;
  _ ← check_content_length headers rest;
  let content_length := default 0%N (Headers.content_length headers) in
  let body :=
    if (0 <? content_length)%N && (content_length <=? N.of_nat (String.length rest))%N
    then String.substring 0 (N.to_nat content_length) rest
    else if (content_length =? 0)%N then "" else rest in
  Ok (mkMessage start_line headers body).

(** ** The loops have fuel to spare *)

Lemma parse_crlf_length s r x : parse_crlf s = Some (r, x) → String.length r < String.length s.
Proof.
  unfold parse_crlf. rewrite alt_eq, !tag_eq.
  destruct (strip_prefix CRLF s) as [t|] eqn:H1.
  - intros [= <- _]. apply strip_prefix_Some in H1 as ->. rewrite str_length_app. cbn. lia.
  - destruct (strip_prefix (String LF "") s) as [t|] eqn:H2; [|done]. intros [= <- _].
    apply strip_prefix_Some in H2 as ->. rewrite str_length_app. cbn. lia.
Qed.

Lemma take_until_length t s r x : take_until t s = Some (r, x) → String.length r ≤ String.length s.
Proof.
  rewrite take_until_eq. intros ([y z] & Hf & [= <- <-])%bind_Some.
  apply find_str_Some in Hf as [-> _]. rewrite str_length_app. lia.
Qed.

Lemma header_value_loop_enough n m name value s :
  String.length s < n → String.length s < m →
  header_value_loop n name value s = header_value_loop m name value s.
Proof.
  revert m value s. induction n as [|n IH]; intros [|m] value s Hn Hm; [lia..|].
  cbn [header_value_loop].
  destruct (take_until CRLF s) as [[r1 x1]|] eqn:H1; [|done]. cbn.
  destruct (parse_crlf r1) as [[r2 x2]|] eqn:H2; [|done]. cbn.
  destruct (is_empty r2); [done|]. destruct (is_empty _); [done|].
  destruct (starts_with_byte is_wsp r2); [|done].
  destruct (take_while1 _ r2) as [[r3 x3]|] eqn:H3; [|done]. cbn.
  apply take_until_length in H1. apply parse_crlf_length in H2.
  apply consuming_take_while1 in H3. apply IH; lia.
Qed.

Lemma header_value_loop_length n name value s r x :
  header_value_loop n name value s = Some (r, x) → String.length r < String.length s.
Proof.
  revert value s. induction n as [|n IH]; intros value s; [done|]. cbn [header_value_loop].
  destruct (take_until CRLF s) as [[r1 x1]|] eqn:H1; [|done]. cbn.
  destruct (parse_crlf r1) as [[r2 x2]|] eqn:H2; [|done]. cbn.
  apply take_until_length in H1. apply parse_crlf_length in H2.
  destruct (is_empty r2); [intros [= <- _]; lia|].
  destruct (is_empty _); [intros [= <- _]; lia|].
  destruct (starts_with_byte is_wsp r2); [|intros [= <- _]; lia].
  destruct (take_while1 _ r2) as [[r3 x3]|] eqn:H3; [|done]. cbn.
  apply consuming_take_while1 in H3. intros ?%IH. lia.
Qed.

Lemma trim_start_matches_length p s :
  String.length (trim_start_matches p s) ≤ String.length s.
Proof.
  unfold trim_start_matches. induction s as [|a s IH]; [done|]. cbn.
  case_match; [lia|]. cbn. by rewrite String.string_of_list_ascii_of_string.
Qed.

Lemma parse_header_line_length s r x :
  parse_header_line s = Some (r, x) → String.length r < String.length s.
Proof.
  unfold parse_header_line. cbv zeta.
  intros ([r1 x1] & H1 & ([r2 x2] & H2 & ([r3 x3] & H3 & ([r4 x4] & H4 & H5)%bind_Some)
    %bind_Some)%bind_Some)%bind_Some.
  apply header_value_loop_length in H5. apply consuming_take_while1 in H1.
  apply consuming_take_while in H2, H4. apply consuming_nchar in H3.
  pose proof (trim_start_matches_length is_wsp s). lia.
Qed.

Lemma headers_loop_enough n m h s :
  String.length s < n → String.length s < m → headers_loop n h s = headers_loop m h s.
Proof.
  revert m h s. induction n as [|n IH]; intros [|m] h s Hn Hm; [lia..|]. cbn [headers_loop].
  repeat (case_match; try done).
  destruct (parse_header_line s) as [[r [name value]]|] eqn:Hl; [|done]. cbn.
  apply parse_header_line_length in Hl. apply IH; lia.
Qed.

(** ** Every header is one line *)

(** No CR and no LF in a string. *)
Definition one_line (s : string) : bool := str_forall (λ a, negb (byte_in [CR; LF] a)) s.

(** The check of [validate_header_line_endings], without the offsets. *)
Fixpoint endings_ok (prev_cr : bool) (s : bytes) : bool :=
  match s with
  | "" => true
  | String a t =>
      (negb (is_byte LF a) || prev_cr) &&
      (negb (is_byte CR a) || starts_with_byte (is_byte LF) t) && endings_ok (is_byte CR a) t
  end.

Lemma line_endings_from_ok i prev s :
  line_endings_from i prev s = Ok tt → endings_ok (bool_decide (prev = Some CR)) s = true.
Proof.
  revert i prev. induction s as [|a s IH]; intros i prev; [done|]. cbn [line_endings_from endings_ok].
  destruct (is_byte LF a && _) eqn:H1; [done|]. destruct (is_byte CR a && _) eqn:H2; [done|].
  intros Hs%IH. rewrite (bool_decide_ext _ (CR = a)) in Hs by naive_solver.
  unfold is_byte in *. rewrite Hs. clear Hs. revert H1 H2.
  by destruct (bool_decide (LF = a)), (bool_decide (CR = a)),
    (bool_decide (prev = Some CR)), (starts_with_byte _ s).
Qed.

(** Text with whole characters in which CR and LF come in pairs only. *)
Definition clean (s : string) : Prop := utf8_valid s = true ∧ endings_ok false s = true.

Lemma endings_ok_suffix x y :
  str_forall (λ a, negb (is_byte CR a)) x = true →
  endings_ok false (x +:+ y) = true → endings_ok false y = true.
Proof.
  induction x as [|a x IH]; [done|]. rewrite append_cons. cbn [str_forall endings_ok].
  intros [Ha%negb_true_iff Hx]%andb_prop [_ Hy]%andb_prop. rewrite Ha in Hy. by apply IH.
Qed.

(** A line cut off at the first CRLF. *)
Lemma find_crlf_one_line s x r :
  endings_ok false s = true → find_str CRLF s = Some (x, r) → one_line x = true.
Proof.
  revert x r. induction s as [|a s IH]; intros x r; cbn [find_str]; [by intros _ [= <- _]|].
  cbn [endings_ok]. intros [[Hl Hc]%andb_prop Hs]%andb_prop.
  destruct (starts_with CRLF (String a s)) eqn:Hst; [by intros [= <- _]|].
  intros ([y z] & Hf & [= <- _])%bind_Some.
  assert (is_byte CR a = false) as Hcr.
  { destruct (is_byte CR a) eqn:E; [|done]. cbn in Hc. destruct s as [|b s]; [done|].
    unfold is_byte in E, Hc. cbn in Hc. apply bool_decide_eq_true in E, Hc. subst.
    change (String CR (String LF s)) with (CRLF +:+ s) in Hst.
    by rewrite starts_with_app in Hst. }
  rewrite Hcr in Hs. unfold one_line. cbn [str_forall]. fold (one_line y).
  rewrite (IH _ _ Hs Hf), andb_true_r. rewrite orb_false_r in Hl.
  unfold is_byte in *. unfold byte_in. apply negb_true_iff, bool_decide_eq_false_2.
  apply bool_decide_eq_false in Hcr. apply negb_true_iff, bool_decide_eq_false in Hl.
  set_solver.
Qed.

(** Characters none of which is the ASCII one [a] have no such byte. *)
Lemma chars_one_line l a :
  is_ascii_byte a = true → Forall utf8_char l → String a "" ∉ l →
  str_forall (λ b, negb (is_byte a b)) (str_concat l) = true.
Proof.
  intros Ha Hl. induction Hl as [|c l Hc Hl IH]; [done|]. rewrite not_elem_of_cons.
  intros [Hne Hnin]. cbn. rewrite str_forall_app, (IH Hnin), andb_true_r.
  destruct Hc as [(b & -> & _)|Hc].
  - cbn. rewrite andb_true_r. unfold is_byte. apply negb_true_iff, bool_decide_eq_false_2. congruence.
  - eapply str_forall_impl; [|exact Hc]. intros b Hb. unfold is_byte.
    apply negb_true_iff, bool_decide_eq_false_2. intros <-. by rewrite Ha in Hb.
Qed.

Lemma span_forall {A} (p : A → bool) (l : list A) : Forall (λ x, p x = true) (span p l).1.
Proof.
  induction l as [|x l IH]; cbn; [done|]. destruct (p x) eqn:Hx; [|done].
  destruct (span p l). by constructor.
Qed.

Lemma char_span_avoids p s a :
  is_ascii_byte a = true → utf8_valid s = true → p (String a "") = false →
  str_forall (λ b, negb (is_byte a b)) (char_span p s).1 = true.
Proof.
  intros Ha Hu Hp. pose proof (utf8_chars s Hu) as Hc. pose proof (span_forall p (chars s)) as Hf.
  unfold char_span. pose proof (span_concat p (chars s)) as Hs.
  destruct (span p (chars s)) as [l r]. cbn in *. apply chars_one_line; [done| |].
  - rewrite <-Hs in Hc. by apply Forall_app in Hc as [? _].
  - intros Hin. rewrite Forall_forall in Hf. apply Hf in Hin. congruence.
Qed.

Lemma char_span_concat p s : (char_span p s).1 +:+ (char_span p s).2 = s.
Proof.
  unfold char_span. pose proof (span_concat p (chars s)) as Hs.
  destruct (span p (chars s)) as [l r]. cbn in *. by rewrite <-str_concat_app, Hs, concat_chars.
Qed.

(** What is left of clean text after a scan that stops at CR is clean. *)
Lemma clean_char_span p s :
  p (String CR "") = false → clean s → clean (char_span p s).2.
Proof.
  intros Hp [Hu He]. split.
  - unfold char_span. pose proof (span_concat p (chars s)) as Hs.
    destruct (span p (chars s)) as [l r]. cbn in *. by eapply utf8_chars_suffix.
  - eapply endings_ok_suffix; [by apply char_span_avoids; [| |exact Hp]|].
    by rewrite char_span_concat.
Qed.

Lemma clean_line s r1 x r2 y :
  clean s → take_until CRLF s = Some (r1, x) → parse_crlf r1 = Some (r2, y) →
  one_line x = true ∧ clean r2.
Proof.
  intros [Hu He]. rewrite take_until_eq. intros ([x' r'] & Hf & [= <- <-])%bind_Some Hp.
  pose proof (find_crlf_one_line _ _ _ He Hf) as Hx. split; [done|].
  apply find_str_Some in Hf as [-> [t ->]]. unfold parse_crlf in Hp.
  rewrite alt_eq, tag_app in Hp. simplify_eq. split.
  - apply (utf8_valid_after LF (x' +:+ String CR "")); [done|].
    unfold CRLF in Hu. by autorewrite with str in *.
  - apply endings_ok_suffix in He; [done|]. eapply str_forall_impl; [|exact Hx].
    intros a. unfold byte_in, is_byte. rewrite !negb_true_iff, !bool_decide_eq_false. set_solver.
Qed.

Lemma header_value_loop_clean n name value s r nm v :
  clean s → one_line value = true →
  header_value_loop n name value s = Some (r, (nm, v)) →
  clean r ∧ nm = trim_ascii name ∧ one_line v = true.
Proof.
  revert value s. induction n as [|n IH]; intros value s Hs Hv; [done|].
  cbn [header_value_loop].
  destruct (take_until CRLF s) as [[r1 x1]|] eqn:H1; [|done]. cbn.
  destruct (parse_crlf r1) as [[r2 x2]|] eqn:H2; [|done]. cbn.
  destruct (clean_line _ _ _ _ _ Hs H1 H2) as [Hx Hr2].
  assert (one_line (value +:+ x1) = true) as Hvx.
  { unfold one_line in *. by rewrite str_forall_app, Hv, Hx. }
  assert (clean r2 ∧ trim_ascii name = trim_ascii name ∧ one_line (trim (value +:+ x1)) = true)
    as Hdone by (split_and!; [done..|by apply str_forall_trim]).
  destruct (is_empty r2); [by intros [= <- <- <-]|].
  destruct (is_empty _); [by intros [= <- <- <-]|].
  destruct (starts_with_byte is_wsp r2); [|by intros [= <- <- <-]].
  rewrite take_while1_eq. case_match; [done|]. cbn. apply IH.
  - by apply clean_char_span.
  - unfold one_line in *. by rewrite str_forall_app, Hvx.
Qed.

Lemma clean_trim_wsp s : clean s → clean (trim_start_matches is_wsp s).
Proof.
  unfold trim_start_matches. induction s as [|a s IH]; [done|]. cbn.
  destruct (is_wsp a) eqn:Ha.
  - intros [Hu He]. apply IH. apply bool_decide_eq_true in Ha.
    assert (is_ascii_byte a = true ∧ is_byte CR a = false) as [Hasc Hcr]
      by (set_unfold in Ha; destruct_or?; by subst).
    split; [by rewrite utf8_valid_ascii_cons in Hu|].
    eapply (endings_ok_suffix (String a "")); [|exact He]. cbn. by rewrite Hcr.
  - cbn. by rewrite String.string_of_list_ascii_of_string.
Qed.

Lemma parse_header_line_clean s r nm v :
  clean s → parse_header_line s = Some (r, (nm, v)) →
  clean r ∧ one_line nm = true ∧ one_line v = true.
Proof.
  intros Hs%clean_trim_wsp. unfold parse_header_line. cbv zeta.
  rewrite take_while1_eq. case_match; [done|]. cbn [mbind option_bind].
  set (name := (char_span _ _).1). set (t := (char_span _ _).2).
  assert (clean t) as Ht by by apply clean_char_span.
  rewrite take_while_eq. cbn [mbind option_bind].
  apply (clean_char_span (ascii_char is_wsp)) in Ht; [|done].
  rewrite nchar_eq. destruct ((char_span (ascii_char is_wsp) t).2) as [|b u]; [done|].
  unfold is_byte. case_bool_decide as Hb; [subst b|done]. cbn [mbind option_bind].
  rewrite take_while_eq. cbn [mbind option_bind].
  intros (Hr & -> & Hv)%header_value_loop_clean; [|apply clean_char_span; [done|]|done].
  - split_and!; [done| |done]. apply str_forall_trim_matches.
    destruct Hs as [Hu _].
    pose proof (char_span_avoids (none_of [":"; CR; LF; SP; HT]%char) _ CR eq_refl Hu eq_refl) as Hcr.
    pose proof (char_span_avoids (none_of [":"; CR; LF; SP; HT]%char) _ LF eq_refl Hu eq_refl) as Hlf.
    subst name. revert Hcr Hlf. generalize (char_span (none_of [":"; CR; LF; SP; HT]%char)
      (trim_start_matches is_wsp s)).1. clear. induction s as [|a s IH]; [done|].
    cbn [str_forall]. intros [Hc Hcs]%andb_prop [Hl Hls]%andb_prop.
    unfold one_line in *. cbn [str_forall]. rewrite (IH Hcs Hls), andb_true_r.
    unfold byte_in, is_byte in *. rewrite !negb_true_iff, !bool_decide_eq_false in *. set_solver.
  - destruct Ht as [Hu He]. split; [by rewrite utf8_valid_ascii_cons in Hu|].
    by eapply (endings_ok_suffix ":").
Qed.

(** Every name and every value of a header block. *)
Definition one_line_headers (h : SipHeaders) : Prop :=
  Forall (λ e : entry, one_line e.2.1 = true ∧ Forall (λ v, one_line v = true) e.2.2) (headers h).

Lemma one_line_add name value h :
  one_line name = true → one_line value = true → one_line_headers h →
  one_line_headers (Headers.add name value h).
Proof.
  unfold one_line_headers, Headers.add. intros Hn Hv Hh. cbn.
  destruct (IndexMap.get _ _) as [[n vs]|] eqn:Hg; apply Headers.Forall_insert; cbn; auto.
  apply IndexMap.get_Some_elem in Hg. rewrite Forall_forall in Hh. apply Hh in Hg as [??].
  split; [done|]. apply Forall_app; auto.
Qed.

Lemma headers_loop_clean n h s r h' :
  clean s → one_line_headers h → headers_loop n h s = Some (r, h') → one_line_headers h'.
Proof.
  revert h s. induction n as [|n IH]; intros h s Hs Hh; [done|]. cbn [headers_loop].
  destruct (is_empty s); [by intros [= _ <-]|].
  destruct (strip_prefix CRLF s); [by intros [= _ <-]|].
  destruct (strip_prefix (String LF "") s); [by intros [= _ <-]|].
  destruct (starts_with_byte is_wsp s); [done|].
  destruct (parse_header_line s) as [[r1 [nm v]]|] eqn:Hl; [|done]. cbn.
  apply parse_header_line_clean in Hl as (? & ? & ?); [|done].
  by apply IH; [|apply one_line_add].
Qed.

Lemma headers_loop_wf n h s r h' :
  Headers.wf h → headers_loop n h s = Some (r, h') → Headers.wf h'.
Proof.
  revert h s. induction n as [|n IH]; intros h s Hh; [done|]. cbn [headers_loop].
  destruct (is_empty s); [by intros [= _ <-]|].
  destruct (strip_prefix CRLF s); [by intros [= _ <-]|].
  destruct (strip_prefix (String LF "") s); [by intros [= _ <-]|].
  destruct (starts_with_byte is_wsp s); [done|].
  destruct (parse_header_line s) as [[r1 [nm v]]|] eqn:Hl; [|done]. cbn.
  by apply IH, Headers.wf_add.
Qed.

Lemma skip_leading_crlf_suffix s : ∃ x, s = x +:+ skip_leading_crlf s.
Proof.
  enough (∀ n s, String.length s ≤ n → ∃ x, s = x +:+ skip_leading_crlf s) by eauto.
  clear s. induction n as [|n IH]; intros s Hn; [by exists ""; destruct s; [|cbn in Hn; lia]|].
  destruct s as [|a [|b s]]; [by exists ""..|]. cbn [skip_leading_crlf].
  case_match; [|by exists ""]. destruct (IH s) as [x Hx]; [cbn in Hn; lia|].
  exists (String a (String b x)). rewrite !append_cons. by do 2 f_equal.
Qed.

(** What the header block gives, and where the body starts. *)
Lemma parse_header_block_Ok input start_line h rest :
  parse_header_block input = Ok (start_line, h, rest) →
  Headers.wf h ∧ one_line_headers h ∧
  ∃ x block, input = x +:+ block +:+ CRLF +:+ CRLF +:+ rest.
Proof.
  unfold parse_header_block, find_header_boundary.
  intros ([block rest'] & ([x y] & Hf & (rest'' & Hst & [= -> ->])%bind_Some)
    %ok_or_Ok%bind_Some & ([] & Hv & H)%bind_Ok)%bind_Ok.
  destruct (negb (utf8_valid (block +:+ CRLF +:+ CRLF))) eqn:Hu; [done|].
  apply bind_Ok in H as ([? ?] & _ & ([r' h'] & Hh%ok_or_Ok & [= -> -> ->])%bind_Ok).
  apply line_endings_from_ok in Hv. apply negb_false_iff in Hu.
  assert (clean (match find_str CRLF (block +:+ CRLF +:+ CRLF) with
                 | Some (_, y) => default "" (strip_prefix CRLF y) | None => "" end)) as Hc.
  { destruct (find_str CRLF _) as [[l z]|] eqn:Hl; [|done].
    pose proof Hl as Hl'. apply find_str_Some in Hl' as [_ [z' ->]].
    rewrite strip_prefix_app. cbn.
    eapply (clean_line (block +:+ CRLF +:+ CRLF) (CRLF +:+ z') l z' CRLF); [done| |].
    - by rewrite take_until_eq, Hl.
    - unfold parse_crlf. by rewrite alt_eq, tag_app. }
  split_and!.
  - eapply headers_loop_wf; [|exact Hh]. apply Headers.wf_new.
  - eapply headers_loop_clean; [exact Hc| |exact Hh]. constructor.
  - apply find_str_Some in Hf as [Hi _]. apply strip_prefix_Some in Hst as ->.
    destruct (skip_leading_crlf_suffix input) as [k Hk]. exists k, block.
    rewrite Hk, Hi. by autorewrite with str.
Qed.

(** The body of an accepted message: as many octets as declared, all received. *)
Lemma parse_message_body input m :
  parse_sip_message_bytes input = Ok m →
  ∃ rest, let n := default 0%N (Headers.content_length (msg_headers m)) in
    parse_header_block input = Ok (start_line m, msg_headers m, rest) ∧
    check_content_length (msg_headers m) rest = Ok tt ∧
    (n ≤ N.of_nat (String.length rest))%N ∧ body m = String.substring 0 (N.to_nat n) rest.
Proof.
  unfold parse_sip_message_bytes.
  intros ([[line h] rest] & Hb & ([] & Hc & [= <-])%bind_Ok)%bind_Ok. exists rest. cbn.
  set (n := default 0%N (Headers.content_length h)).
  assert (n ≤ N.of_nat (String.length rest))%N as Hn.
  { revert Hc. unfold n, check_content_length, Headers.content_length.
    destruct (Headers.get "Content-Length" h) as [s|]; [|cbn; lia].
    intros (a & Ha%ok_or_Ok & Hle)%bind_Ok. cbn. rewrite Ha. change (default 0%N (Some a)) with a.
    revert Hle. destruct (N.ltb_spec (N.of_nat (String.length rest)) a); [done|lia]. }
  split_and!; [done..|]. rewrite (proj2 (N.leb_le _ _) Hn), andb_true_r.
  destruct (N.ltb_spec 0 n); [done|]. assert (n = 0%N) as -> by lia. by destruct rest.
Qed.

(** The rows of a header block, one per value. *)
Definition header_rows (l : list entry) : list string :=
  l ≫= λ e : entry, (λ value, e.2.1 +:+ ": " +:+ value) <$> e.2.2.

Lemma one_line_avoids a s :
  a ∈ [CR; LF] → one_line s = true → str_forall (λ b, negb (is_byte a b)) s = true.
Proof.
  intros Ha. apply str_forall_impl. intros b Hb. apply negb_true_iff in Hb. apply negb_true_iff.
  apply bool_decide_eq_false. intros ->. apply bool_decide_eq_false in Hb. by apply Hb.
Qed.

(** Cut at its line feeds, a block of one-line headers is its rows again. *)
Lemma split_rows l :
  Forall (λ e : entry, one_line e.2.1 = true ∧ Forall (λ v, one_line v = true) e.2.2) l →
  split LF (str_concat (Headers.entry_rows <$> l)) = ((λ row, row +:+ String CR "") <$> header_rows l) ++ [""].
Proof.
  induction 1 as [|[k [name values]] l [Hn Hv] _ IH]; [done|]. cbn in Hn, Hv.
  change (header_rows ((k, (name, values)) :: l)) with (((λ v, name +:+ ": " +:+ v) <$> values) ++ header_rows l).
  change (str_concat (Headers.entry_rows <$> (k, (name, values)) :: l)) with
    (Headers.push_header_rows name values +:+ str_concat (Headers.entry_rows <$> l)).
  rewrite fmap_app, <-(assoc_L (++)), <-IH. clear IH.
  induction Hv as [|v values Hv _ IH]; [done|]. cbn [Headers.push_header_rows fmap list_fmap app].
  rewrite <-IH, !append_assoc.
  replace (name +:+ ": " +:+ v +:+ CRLF +:+ Headers.push_header_rows name values +:+
           str_concat (Headers.entry_rows <$> l))
    with ((name +:+ ": " +:+ v +:+ String CR "") +:+
          String LF (Headers.push_header_rows name values +:+ str_concat (Headers.entry_rows <$> l)))
    by (by rewrite !append_assoc).
  erewrite split_app; [by rewrite append_nil_r| |done].
  rewrite !str_forall_app. rewrite !one_line_avoids by (done || set_solver). done.
Qed.

End parser.

(** C10: No header injection through the header block.  Whatever bytes arrive, in
    an accepted message every header name and every header value is a single
    line (no CR, no LF) and the container invariant holds; and the header block
    the serializer writes of them, cut at its line feeds, is exactly one row
    "name: value" for each value held, in some order, so a header value cannot
    become a header of its own.  The start line is not part of this claim. *)
Theorem parsed_headers_one_line `{U : Unicode, P : Nom} (input : bytes) (m : SipMessage) :
  parse_sip_message_bytes input = Ok m →
  one_line_headers (msg_headers m) ∧ Headers.wf (msg_headers m) ∧
  ∃ rows, rows ≡ₚ header_rows (headers (msg_headers m)) ∧
    split LF (Headers.write_wire (msg_headers m)) = ((λ row, row +:+ String CR "") <$> rows) ++ [""].
Proof.
  unfold parse_sip_message_bytes.
  intros ([[line h] rest] & Hb & (u & _ & [= <-])%bind_Ok)%bind_Ok. cbn.
  apply parse_header_block_Ok in Hb as (Hone & Hwf & _). split_and!; [done..|].
  destruct (Headers.wire_order_spec h) as (Hp & _). exists (header_rows (Headers.wire_order h)).
  split; [by apply bind_Permutation|]. rewrite Headers.write_wire_order. apply split_rows. by rewrite Hp.
Qed.

(** The start line can add one: a bracketed host of a Request-URI takes any
    character up to its closing bracket, line ends included, and the headers are
    read from the first line end on.  The request below is accepted with one such
    header, and has two of it when it is written and read again. *)
Example bracketed_host_injects :
  let parse := @parse_sip_message_bytes unicode_ascii nom_reference in
  let input := "INVITE sip:[a" +:+ CRLF +:+ "X-Inj: b] SIP/2.0" +:+ CRLF +:+ "Call-ID: c" +:+ CRLF +:+ CRLF in
  match parse input with
  | Ok m =>
      Headers.get_all "X-Inj" (msg_headers m) = Some ["b] SIP/2.0"] ∧
      match parse (to_bytes m) with
      | Ok m' => Headers.get_all "X-Inj" (msg_headers m') = Some ["b] SIP/2.0"; "b] SIP/2.0"]
      | Err _ => False
      end
  | Err _ => False
  end.
Proof. vm_compute. by split. Qed.

(** Body framing.  The body of an accepted message has exactly the declared
    number of octets (none without a Content-Length) and is the input that
    follows the blank line; a Content-Length that is present is a number. *)
Theorem parsed_body_is_content_length `{U : Unicode, P : Nom} (input : bytes) (m : SipMessage) :
  parse_sip_message_bytes input = Ok m →
  N.of_nat (String.length (body m)) = default 0%N (Headers.content_length (msg_headers m)) ∧
  (is_Some (Headers.get "Content-Length" (msg_headers m)) →
   is_Some (Headers.content_length (msg_headers m))) ∧
  ∃ head rest, input = head +:+ CRLF +:+ CRLF +:+ body m +:+ rest.
Proof.
  intros (rest & Hb & Hc & Hn & ->)%parse_message_body.
  apply parse_header_block_Ok in Hb as (_ & _ & x & block & ->).
  set (n := default 0%N (Headers.content_length (msg_headers m))) in *.
  split_and!; [rewrite substring_length; lia| |].
  - unfold check_content_length in Hc. unfold Headers.content_length. intros [v Hv]. rewrite Hv in *.
    apply bind_Ok in Hc as (a & Ha%ok_or_Ok & _). cbn. by rewrite Ha.
  - exists (x +:+ block), (String.substring (N.to_nat n) (String.length rest - N.to_nat n) rest).
    rewrite substring_split by lia. by autorewrite with str.
Qed.

(** A response to an OPTIONS request, with a body of four octets and two more
    after it. *)
Definition sample_input : bytes :=
  "SIP/2.0 200 OK" +:+ CRLF +:+ "v: SIP/2.0/UDP a" +:+ CRLF +:+
  "X-Pad: one," +:+ CRLF +:+ " two" +:+ CRLF +:+
  "Content-Length: 4" +:+ CRLF +:+ CRLF +:+ "AAAABB".

Definition sample_message : SipMessage :=
  mkMessage (Response (mkStatusLine sip_2_0 200 "OK" false))
    (Headers.add "Content-Length" "4" (Headers.add "X-Pad" "one, two"
       (Headers.add "v" "SIP/2.0/UDP a" Headers.new))) "AAAA".

Lemma sample_parses :
  @parse_sip_message_bytes unicode_ascii nom_reference sample_input = Ok sample_message.
Proof. vm_compute. reflexivity. Qed.

Lemma parsed_headers_one_line_witness : one_line_headers (msg_headers sample_message).
Proof.
  exact (proj1 (@parsed_headers_one_line unicode_ascii nom_reference _ _ sample_parses)).
Defined.

Lemma parsed_body_is_content_length_witness :
  N.of_nat (String.length (body sample_message)) = 4%N.
Proof.
  exact (proj1 (@parsed_body_is_content_length unicode_ascii nom_reference _ _ sample_parses)).
Defined.
