(* ===== verification/UriRoundTrip.v ===== *)
(** * URIs are read back as they are written

    The URI parser ([Parser], [src/src/sip/parser.rs]) inverts the printer of
    [Uri] ([src/src/sip/uri.rs]): a well-formed URI, written out and parsed, is
    itself again.  The condition is decidable ([uri_ok]) and says that no part
    contains a byte that delimits it. *)

From S2P Require Import Prelude Str Nom Headers Uri Message Parser.

(** ** Scanning text that has no delimiter in it *)

(** ASCII text without the bytes in [bad]. *)
Definition plain (bad : list byte) (s : string) : bool :=
  str_forall (λ a, is_ascii_byte a && negb (byte_in bad a)) s.

Lemma plain_sub bad bad' s : bad' ⊆ bad → plain bad s = true → plain bad' s = true.
Proof.
  intros Hsub. apply str_forall_impl. intros a. unfold byte_in. rewrite !andb_true_iff.
  intros [-> Hb]. split; [done|]. apply negb_true_iff, bool_decide_eq_false in Hb.
  apply negb_true_iff, bool_decide_eq_false. set_solver.
Qed.

Lemma plain_ascii bad s : plain bad s = true → is_ascii s = true.
Proof. apply str_forall_impl. intros a. by rewrite andb_true_iff; intros [? _]. Qed.

(** Text without [bad] avoids every set of bytes within [bad]. *)
Lemma plain_avoids (p : byte → bool) bad s :
  (∀ a, p a = true → a ∈ bad) → plain bad s = true → str_forall (λ a, negb (p a)) s = true.
Proof.
  intros Hp. apply str_forall_impl. intros a. unfold byte_in. rewrite andb_true_iff.
  intros [_ Hb]. apply negb_true_iff, bool_decide_eq_false in Hb.
  apply negb_true_iff, not_true_iff_false. auto.
Qed.

Lemma chars_all_test p q s :
  str_forall (λ a, is_ascii_byte a && p a) s = true → chars_all (char_test p q) s = true.
Proof.
  intros Hs. unfold chars_all, is_ascii. apply andb_true_iff. split;
    (eapply str_forall_impl; [|exact Hs]); intros a; rewrite andb_true_iff; intros [Ha Hp]; [done|].
  unfold char_test. by rewrite Ha.
Qed.

Lemma plain_chars_all bad bad' s :
  bad' ⊆ bad → plain bad s = true → chars_all (none_of bad') s = true.
Proof. intros Hsub Hs. apply chars_all_test. by apply (plain_sub bad). Qed.

Lemma rsplit_once_app a x y :
  str_forall (λ b, negb (is_byte a b)) y = true → rsplit_once a (x +:+ String a y) = Some (x, y).
Proof.
  intros Hy. induction x as [|b x IH].
  - rewrite append_nil_l. cbn.
    assert (rsplit_once a y = None) as ->; [|by rewrite is_byte_refl].
    induction y as [|b y IH]; [done|]. cbn in *. apply andb_prop in Hy as [Hb Hy].
    rewrite IH by done. by apply negb_true_iff in Hb as ->.
  - rewrite append_cons. cbn. by rewrite IH.
Qed.

Lemma rsplit_once_none a y :
  str_forall (λ b, negb (is_byte a b)) y = true → rsplit_once a y = None.
Proof.
  induction y as [|b y IH]; [done|]. cbn. intros [Hb Hy]%andb_prop.
  rewrite IH by done. by apply negb_true_iff in Hb as ->.
Qed.

Lemma split_once_app a x y :
  str_forall (λ b, negb (is_byte a b)) x = true → split_once a (x +:+ String a y) = Some (x, y).
Proof.
  intros Hx. unfold split_once, split_once_by. by rewrite break_stop by (done || apply is_byte_refl).
Qed.

Lemma split_once_none a x :
  str_forall (λ b, negb (is_byte a b)) x = true → split_once a x = None.
Proof. intros Hx. unfold split_once, split_once_by. by rewrite break_none. Qed.

(** ** URI parts *)

(** The end of the text, or one of the bytes [l]. *)
Definition ends_at (l : list byte) (s : string) : bool :=
  match s with "" => true | String a _ => byte_in l a end.

(** What may follow a URI: the end of the text or the space of a request line.
    A parameter list may be followed by the headers as well. *)
Definition uri_end : string → bool := ends_at [SP].
Definition params_end : string → bool := ends_at [SP; "?"%char].

Definition name_delims : list byte := ["="; ";"; "?"; "@"; ">"; SP; CR; LF]%char.
Definition value_delims : list byte := [";"; "?"; "@"; ">"; SP; CR; LF]%char.
Definition header_name_delims : list byte := ["="; "&"; "@"; ">"; SP; CR; LF]%char.
Definition header_value_delims : list byte := ["&"; "@"; ">"; SP; CR; LF]%char.

Definition pair_ok (names values : list byte) (p : param) : bool :=
  negb (is_empty p.1) && plain names p.1 &&
  match p.2 with Some v => plain values v | None => true end.

Definition param_ok : param → bool := pair_ok name_delims value_delims.
Definition uri_header_ok : param → bool := pair_ok header_name_delims header_value_delims.

Lemma none_of_stops bad a s :
  is_ascii_byte a = true → a ∈ bad → stops (none_of bad) (String a s) = true.
Proof.
  intros Ha Hb. apply stops_ascii; [done|]. unfold none_of, char_test. rewrite Ha.
  unfold byte_in. by rewrite bool_decide_eq_true_2.
Qed.

Lemma ends_at_stops l bad s :
  ends_at l s = true → forallb is_ascii_byte l = true → l ⊆ bad → stops (none_of bad) s = true.
Proof.
  destruct s as [|a s]; [done|]. cbn. intros Ha%bool_decide_eq_true Hl Hsub.
  apply none_of_stops; [by eapply forallb_elem|set_solver].
Qed.

Lemma ends_at_sub l l' s : l ⊆ l' → ends_at l s = true → ends_at l' s = true.
Proof.
  destruct s; [done|]. cbn. unfold byte_in. rewrite !bool_decide_eq_true. set_solver.
Qed.

Lemma ends_at_not a l s : a ∉ l → ends_at l s = true → starts_with_byte (is_byte a) s = false.
Proof.
  destruct s as [|b s]; [done|]. cbn. unfold byte_in, is_byte.
  rewrite bool_decide_eq_true, bool_decide_eq_false. intros Ha Hb ->. done.
Qed.

Section uri.
Context {U : Unicode} {P : Nom}.

(** *** [name] and [name=value] *)

Lemma pair_read names values names' values' p rest :
  pair_ok names values p = true → names' ⊆ names → values' ⊆ values →
  "="%char ∈ names' →
  stops (none_of names') rest = true → stops (none_of values') rest = true →
  starts_with_byte (is_byte "=") rest = false →
  tuple2 (take_while1 (none_of names')) (opt (preceded (nchar "=") (take_while (none_of values'))))
    (p.1 +:+ match p.2 with Some v => "=" +:+ v | None => "" end +:+ rest) = Some (rest, p).
Proof.
  destruct p as [n v]. unfold pair_ok. cbn [fst snd].
  rewrite !andb_true_iff. intros [[Hne Hn] Hv] Hns Hvs Heq Hr1 Hr2 Hr3.
  assert (n ≠ "") by by destruct n.
  rewrite tuple2_eq. destruct v as [v|].
  - rewrite append_assoc, append_cons, append_nil_l.
    rewrite take_while1_app; [|done|by apply (plain_chars_all names)|by apply none_of_stops].
    cbn. rewrite opt_eq, preceded_eq, nchar_cons. cbn.
    by rewrite take_while_app by (done || by apply (plain_chars_all values)).
  - rewrite append_nil_l, take_while1_app; [|done|by apply (plain_chars_all names)|done].
    cbn. rewrite opt_eq, preceded_eq, nchar_eq. destruct rest as [|b rest]; [done|].
    cbn in Hr3. unfold is_byte in *. rewrite bool_decide_eq_false in Hr3.
    by rewrite bool_decide_eq_false_2.
Qed.

Lemma consuming_uri_param : consuming uri_param.
Proof. unfold uri_param. auto 10 with sip. Qed.

Lemma uri_param_read p rest :
  param_ok p = true → ends_at [SP; "?"; ";"]%char rest = true →
  uri_param (show_param p +:+ rest) = Some (rest, p).
Proof.
  intros Hp Hr. unfold uri_param, show_param. rewrite append_cons, append_nil_l, preceded_eq.
  rewrite append_cons, nchar_cons. cbn [mbind option_bind]. rewrite append_assoc.
  apply (pair_read name_delims value_delims); [done|set_solver..| | |].
  1,2: eapply ends_at_stops; [exact Hr|done|set_solver].
  eapply ends_at_not; [|exact Hr]. set_solver.
Qed.

(** [many0] reads a list that is written element by element. *)
Lemma many0_read {A} (p : parser A) (show : A → string) (l : list A) rest :
  consuming p → p rest = None →
  (∀ x l', x ∈ l → l' `suffix_of` l →
     p (show x +:+ str_concat (show <$> l') +:+ rest) = Some (str_concat (show <$> l') +:+ rest, x) ∧
     show x ≠ "") →
  many0 p (str_concat (show <$> l) +:+ rest) = Some (rest, l).
Proof.
  intros Hc Hrest. induction l as [|x l IH]; intros Hl.
  - rewrite append_nil_l, many0_eq, Hrest by done. done.
  - cbn [fmap list_fmap str_concat]. rewrite append_assoc.
    destruct (Hl x l) as [Hx Hne]; [set_solver|by exists [x]|].
    rewrite many0_eq, Hx by done. rewrite bool_decide_eq_false_2.
    + rewrite IH; [done|]. intros y l' Hy Hs. apply Hl; [set_solver|by apply suffix_cons_r].
    + rewrite !str_length_app. destruct (show x); [done|cbn; lia].
Qed.

Lemma params_read ps rest :
  forallb param_ok ps = true → params_end rest = true →
  parse_uri_params (show_params ps +:+ rest) = Some (rest, ps).
Proof.
  intros Hps Hr. unfold parse_uri_params, show_params.
  apply many0_read; [apply consuming_uri_param| |].
  - unfold uri_param. rewrite preceded_eq, nchar_eq. destruct rest as [|a t]; [done|].
    cbn in Hr. apply bool_decide_eq_true in Hr. unfold is_byte.
    rewrite bool_decide_eq_false_2; [done|]. intros <-. set_solver.
  - intros p l' Hp _. split; [|done]. apply uri_param_read; [by eapply forallb_elem|].
    destruct l'; [|done]. rewrite append_nil_l. eapply ends_at_sub; [|exact Hr]. set_solver.
Qed.

Lemma consuming_uri_header : consuming uri_header.
Proof. unfold uri_header. auto 10 with sip. Qed.

(** A header after the first is written with its [&]. *)
Lemma uri_header_read amp p rest :
  amp = "" ∨ amp = "&" → uri_header_ok p = true →
  ends_at [SP; "&"%char] rest = true →
  uri_header (amp +:+ show_uri_header p +:+ rest) = Some (rest, p).
Proof.
  intros Hamp Hp Hr. unfold uri_header. rewrite preceded_eq, opt_eq.
  assert (match nchar "&" (amp +:+ show_uri_header p +:+ rest) with
          | Some (r, x) => Some (r, Some x)
          | None => Some (amp +:+ show_uri_header p +:+ rest, None) end =
          Some (show_uri_header p +:+ rest, if is_empty amp then None else Some "&"%char)) as ->.
  { destruct Hamp as [->| ->].
    - rewrite append_nil_l, nchar_eq. unfold show_uri_header.
      pose proof Hp as Hp'. unfold uri_header_ok, pair_ok in Hp'.
      apply andb_prop in Hp' as [[Hne Hn]%andb_prop _]. destruct (p.1) as [|a n]; [done|].
      rewrite !append_cons. cbn in Hn. apply andb_prop in Hn as [[_ Ha]%andb_prop _].
      unfold is_byte. rewrite bool_decide_eq_false_2; [done|]. intros <-. done.
    - by rewrite append_cons, append_nil_l, nchar_cons. }
  cbn [mbind option_bind]. unfold show_uri_header. rewrite append_assoc.
  apply (pair_read header_name_delims header_value_delims); [done|set_solver..| | |].
  1,2: eapply ends_at_stops; [exact Hr|done|set_solver].
  eapply ends_at_not; [|exact Hr]. set_solver.
Qed.

Lemma uri_header_stop rest : uri_end rest = true → uri_header rest = None.
Proof.
  intros Hr. unfold uri_header. rewrite preceded_eq, opt_eq, nchar_eq.
  destruct rest as [|a t]; cbn [mbind option_bind].
  - rewrite tuple2_eq. by rewrite take_while1_stop.
  - cbn in Hr. apply bool_decide_eq_true, list_elem_of_singleton in Hr as ->.
    change (is_byte "&" SP) with false. cbn [mbind option_bind].
    rewrite tuple2_eq, take_while1_stop; [done|]. apply none_of_stops; [done|set_solver].
Qed.

Lemma join_cons sep x l : join sep (x :: l) = x +:+ str_concat ((λ s, sep +:+ s) <$> l).
Proof.
  revert x. induction l as [|y l IH]; intros x; [by cbn; rewrite append_nil_r|].
  change (join sep (x :: y :: l)) with (x +:+ sep +:+ join sep (y :: l)). rewrite IH.
  cbn. by rewrite append_assoc.
Qed.

Lemma uri_headers_read hs rest :
  forallb uri_header_ok hs = true → uri_end rest = true →
  parse_uri_headers (join "&" (show_uri_header <$> hs) +:+ rest) = Some (rest, hs).
Proof.
  intros Hhs Hr. unfold parse_uri_headers. destruct hs as [|h hs].
  { rewrite append_nil_l, many0_eq by apply consuming_uri_header. by rewrite uri_header_stop. }
  cbn in Hhs. apply andb_prop in Hhs as [Hh Hhs].
  cbn [fmap list_fmap]. rewrite join_cons, append_assoc, <-list_fmap_compose.
  assert (∀ l' : list param, ends_at [SP; "&"%char]
    (str_concat (((λ s, "&" +:+ s) ∘ show_uri_header) <$> l') +:+ rest) = true) as Hend.
  { intros [|x l']; [|done]. rewrite append_nil_l. eapply ends_at_sub; [|exact Hr]. set_solver. }
  rewrite many0_eq by apply consuming_uri_header.
  pose proof (uri_header_read "" h _ (or_introl eq_refl) Hh (Hend hs)) as Hf.
  rewrite append_nil_l in Hf. rewrite Hf. rewrite bool_decide_eq_false_2.
  - rewrite (many0_read _ ((λ s, "&" +:+ s) ∘ show_uri_header));
      [done|apply consuming_uri_header|by apply uri_header_stop|].
    intros x l' Hx _. split; [|done]. cbn. rewrite append_assoc. apply uri_header_read; [by right| |done].
    by eapply forallb_elem.
  - rewrite !str_length_app. unfold show_uri_header. rewrite str_length_app.
    unfold uri_header_ok, pair_ok in Hh. destruct (h.1); [done|cbn; lia].
Qed.

(** *** No part of a URI has a byte that ends the user part *)

Definition core_delims : list byte := ["@"; ">"; SP; CR; LF]%char.

Lemma plain_app bad s t : plain bad (s +:+ t) = plain bad s && plain bad t.
Proof. apply str_forall_app. Qed.

Lemma plain_concat bad l : plain bad (str_concat l) = forallb (plain bad) l.
Proof. induction l as [|s l IH]; [done|]. cbn [str_concat forallb]. by rewrite plain_app, IH. Qed.

Lemma plain_pair names values p :
  pair_ok names values p = true → core_delims ⊆ names → core_delims ⊆ values →
  plain core_delims (show_uri_header p) = true.
Proof.
  unfold pair_ok, show_uri_header. rewrite !andb_true_iff. intros [[_ Hn] Hv] Hns Hvs.
  rewrite plain_app, (plain_sub names) by done. destruct (p.2); [|done].
  rewrite plain_app. apply andb_true_iff. split; [done|by apply (plain_sub values)].
Qed.

Lemma show_param_eq p : show_param p = ";" +:+ show_uri_header p.
Proof. done. Qed.

Lemma plain_params ps :
  forallb param_ok ps = true → plain core_delims (show_params ps) = true.
Proof.
  intros Hps. unfold show_params. rewrite plain_concat. apply forallb_forall.
  intros s (p & <- & Hp)%in_map_iff. rewrite forallb_forall in Hps.
  rewrite show_param_eq, plain_app. cbn [andb].
  rewrite (plain_pair name_delims value_delims); [done|by apply Hps|set_solver..].
Qed.

Lemma plain_headers hs :
  forallb uri_header_ok hs = true → plain core_delims (show_uri_headers hs) = true.
Proof.
  intros Hhs. destruct hs as [|h hs]; [done|]. unfold show_uri_headers.
  cbn [fmap list_fmap]. rewrite plain_app, join_cons, plain_app, plain_concat.
  rewrite forallb_forall in Hhs.
  assert (∀ p, In p (h :: hs) → plain core_delims (show_uri_header p) = true) as Hp.
  { intros p Hp. eapply plain_pair; [by apply Hhs|set_solver..]. }
  rewrite Hp by by left. cbn [andb]. apply forallb_forall.
  intros s (t & <- & (p & <- & Hin)%in_map_iff)%in_map_iff.
  rewrite plain_app, Hp by by right. done.
Qed.

Lemma dec_plain bad n : (∀ a, a ∈ bad → is_ascii_digit a = false) → plain bad (dec n) = true.
Proof.
  intros Hbad. eapply str_forall_impl; [|apply dec_digits]. intros a Ha.
  apply andb_true_iff. split.
  - unfold is_ascii_digit in Ha. apply in_range_true in Ha. unfold is_ascii_byte.
    apply N.ltb_lt. lia.
  - apply negb_true_iff, bool_decide_eq_false. intros Hin. by rewrite Hbad in Ha.
Qed.

(** *** The user part *)

Lemma pair_avoids names values a p :
  pair_ok names values p = true → a ∈ names → a ∈ values → a ≠ "="%char →
  str_forall (λ b, negb (is_byte a b)) (show_uri_header p) = true.
Proof.
  unfold pair_ok, show_uri_header. rewrite !andb_true_iff. intros [[_ Hn] Hv] Hns Hvs Ha.
  assert (∀ bad s, a ∈ bad → plain bad s = true →
            str_forall (λ b, negb (is_byte a b)) s = true) as Hav.
  { intros bad s Hb. apply plain_avoids. intros b Hb'%bool_decide_eq_true. by subst. }
  rewrite str_forall_app, (Hav names) by done. destruct (p.2); [|done].
  rewrite append_cons, append_nil_l. cbn. rewrite (Hav values) by done.
  rewrite andb_true_r. apply negb_true_iff, bool_decide_eq_false. done.
Qed.

Lemma split_shown ps :
  Forall (λ p, str_forall (λ b, negb (is_byte ";" b)) (show_uri_header p) = true) ps →
  split ";" (show_params ps) = "" :: (show_uri_header <$> ps).
Proof.
  induction ps as [|p ps IH]; [done|]. intros [Hp Hps]%Forall_cons.
  change (show_params (p :: ps)) with (show_param p +:+ show_params ps).
  rewrite show_param_eq, append_assoc, append_cons, append_nil_l. cbn [split].
  rewrite is_byte_refl. f_equal. rewrite (split_app _ _ _ "" (show_uri_header <$> ps)).
  - by rewrite append_nil_r.
  - done.
  - by apply IH.
Qed.

Lemma split_param_show p : param_ok p = true → split_param (show_uri_header p) = p.
Proof.
  destruct p as [n v]. unfold param_ok, pair_ok, show_uri_header, split_param. cbn [fst snd].
  rewrite !andb_true_iff. intros [[_ Hn] _].
  assert (str_forall (λ b, negb (is_byte "=" b)) n = true).
  { revert Hn. apply plain_avoids. intros b <-%bool_decide_eq_true. set_solver. }
  destruct v as [v|].
  - by rewrite append_cons, append_nil_l, split_once_app.
  - by rewrite append_nil_r, split_once_none.
Qed.

Lemma user_params_read ps :
  forallb param_ok ps = true →
  split_param <$> filter (λ s, s ≠ "") (split ";" (show_params ps)) = ps.
Proof.
  intros Hps. rewrite split_shown.
  2: { apply Forall_forall. intros p Hp. apply (forallb_elem _ _ p) in Hps; [|done].
       eapply pair_avoids; [exact Hps|set_solver..|done]. }
  rewrite filter_cons_False by (intros H; by apply H).
  induction ps as [|p ps IH]; [done|]. cbn in Hps. apply andb_prop in Hps as [Hp Hps].
  cbn [fmap list_fmap]. rewrite filter_cons_True.
  - cbn. by rewrite split_param_show, IH.
  - unfold param_ok, pair_ok in Hp. unfold show_uri_header. by destruct (p.1).
Qed.

Definition user_ok : string → bool := plain [";"; ">"; SP; CR; LF]%char.

Lemma userinfo_read (user : option string) (ups : list param) tail rest :
  match user with Some s => user_ok s | None => true end = true →
  forallb param_ok ups = true → plain core_delims tail = true → uri_end rest = true →
  parse_userinfo (match user with Some s => s +:+ show_params ups +:+ "@" | None => "" end
                    +:+ tail +:+ rest) =
    (tail +:+ rest, user, match user with Some _ => ups | None => [] end).
Proof.
  intros Hu Hups Ht Hr. unfold parse_userinfo.
  set (front := match user with Some s => _ | None => _ end).
  assert (plain [">"%char; SP; CR; LF] front = true) as Hfront.
  { unfold front. destruct user as [s|]; [|done]. rewrite !plain_app.
    rewrite (plain_sub [";"%char; ">"%char; SP; CR; LF]) by (set_solver || done).
    rewrite (plain_sub core_delims) by (set_solver || by apply plain_params). done. }
  assert (break (byte_in [SP; CR; LF; ">"%char]) (front +:+ tail +:+ rest) = (front +:+ tail, rest)) as ->.
  { rewrite <-append_assoc, break_app.
    - assert (break (byte_in [SP; CR; LF; ">"%char]) rest = ("", rest)) as ->.
      { destruct rest as [|b t]; [done|]. cbn in Hr |- *.
        apply bool_decide_eq_true, list_elem_of_singleton in Hr as ->. done. }
      cbn. by rewrite append_nil_r.
    - apply (plain_avoids _ [">"%char; SP; CR; LF]).
      + intros b Hb%bool_decide_eq_true. set_solver.
      + rewrite plain_app, Hfront. apply (plain_sub core_delims); [set_solver|done]. }
  assert (str_forall (λ b, negb (is_byte "@" b)) tail = true) as Hat.
  { revert Ht. apply plain_avoids. intros b <-%bool_decide_eq_true. set_solver. }
  unfold front. destruct user as [s|].
  - rewrite append_assoc, append_assoc, (append_cons "@"), append_nil_l, <-append_assoc.
    rewrite rsplit_once_app by done.
    assert (str_forall (λ b, negb (is_byte ";" b)) s = true) as Hsemi.
    { revert Hu. apply plain_avoids. intros b <-%bool_decide_eq_true. set_solver. }
    destruct ups as [|p ups].
    + by rewrite append_nil_r, break_none.
    + change (show_params (p :: ups)) with (String ";" (show_uri_header p +:+ show_params ups)).
      rewrite break_stop by done.
      change (String ";" (show_uri_header p +:+ show_params ups)) with (show_params (p :: ups)).
      by rewrite user_params_read.
  - rewrite append_nil_l. by rewrite rsplit_once_none.
Qed.

(** *** Host and port *)

(** A host name or IPv4 address, or an IPv6 address in its brackets. *)
Definition name_host_ok (h : string) : bool :=
  negb (is_empty h) &&
  str_forall (λ a, is_ascii_alphanumeric a || byte_in ["."; "-"]%char a) h.
Definition bracket_host_ok (h : string) : bool :=
  match (h ← strip_prefix "[" h; strip_suffix_byte "]" h) with
  | Some x => negb (is_empty x) && plain ("]"%char :: core_delims) x
  | None => false
  end.
Definition host_ok (h : string) : bool := name_host_ok h || bracket_host_ok h.

Lemma strip_suffix_byte_Some a s x : strip_suffix_byte a s = Some x → s = x +:+ String a "".
Proof.
  revert x. induction s as [|b s IH]; intros x; [done|]. cbn. destruct s as [|c s].
  - unfold is_byte. case_bool_decide; [|done]. by intros [= <-]; subst.
  - intros (y & Hy & ->)%fmap_Some. rewrite append_cons. f_equal. by apply IH.
Qed.

Lemma bracket_host h :
  bracket_host_ok h = true →
  ∃ x, h = "[" +:+ x +:+ "]" ∧ x ≠ "" ∧ plain ("]"%char :: core_delims) x = true.
Proof.
  unfold bracket_host_ok. destruct (strip_prefix "[" h) as [y|] eqn:Hy; [|done]. cbn.
  destruct (strip_suffix_byte "]" y) as [x|] eqn:Hx; [|done].
  apply strip_prefix_Some in Hy as ->. apply strip_suffix_byte_Some in Hx as ->.
  intros [Hne Hp]%andb_prop. exists x. split; [done|]. split; [by destruct x|done].
Qed.

Lemma alnum_ascii a : is_ascii_alphanumeric a = true → is_ascii_byte a = true.
Proof.
  unfold is_ascii_alphanumeric, is_ascii_alphabetic, is_ascii_upper, is_ascii_lower, is_ascii_digit.
  rewrite !orb_true_iff, !in_range_true. unfold is_ascii_byte. rewrite N.ltb_lt. lia.
Qed.

Lemma host_byte a :
  is_ascii_alphanumeric a || byte_in ["."; "-"]%char a = true →
  is_ascii_byte a = true ∧ a ∉ "["%char :: "]"%char :: ":"%char :: core_delims.
Proof.
  intros Ha. split.
  - apply orb_prop in Ha as [Ha|Ha%bool_decide_eq_true]; [by apply alnum_ascii|].
    each_of Ha by done.
  - intros Hin. each_of Hin by (by vm_compute in Ha).
Qed.

Lemma name_host_plain h :
  name_host_ok h = true → plain ("["%char :: "]"%char :: ":"%char :: core_delims) h = true.
Proof.
  unfold name_host_ok. intros [_ Hh]%andb_prop. revert Hh. apply str_forall_impl.
  intros a [Ha Hn]%host_byte. rewrite Ha. cbn. by apply negb_true_iff, bool_decide_eq_false.
Qed.

Lemma host_plain h : host_ok h = true → plain core_delims h = true.
Proof.
  intros [Hh|Hh]%orb_prop.
  - eapply plain_sub; [|by apply name_host_plain]. set_solver.
  - apply bracket_host in Hh as (x & -> & _ & Hx). rewrite !plain_app.
    rewrite (plain_sub ("]"%char :: core_delims) core_delims x) by (done || set_solver). done.
Qed.

Lemma starts_with_cons a s b t :
  starts_with (String a s) (String b t) = is_byte a b && starts_with s t.
Proof.
  unfold starts_with. cbn. destruct (is_byte a b); [done|]. by apply bool_decide_eq_false_2; intros [??].
Qed.

Lemma format_host h : host_ok h = true → format_sip_host h = h.
Proof.
  intros [Hh|Hh]%orb_prop; unfold format_sip_host.
  - apply name_host_plain in Hh. assert (contains ":" h = false) as ->; [|done].
    unfold contains. apply str_exists_false. revert Hh. apply plain_avoids.
    intros b <-%bool_decide_eq_true. set_solver.
  - apply bracket_host in Hh as (x & -> & _). rewrite append_cons, starts_with_cons. cbn.
    by rewrite andb_false_r.
Qed.

(** What may follow a host. *)
Definition host_end : string → bool := ends_at [SP; "?"; ";"; ":"]%char.

Lemma host_read h rest :
  host_ok h = true → host_end rest = true → parse_host (h +:+ rest) = Some (rest, h).
Proof.
  intros Hh Hr. unfold parse_host. apply orb_prop in Hh as [Hh|Hh].
  - pose proof (name_host_plain h Hh) as Hp. unfold name_host_ok in Hh.
    apply andb_prop in Hh as [Hne Hh].
    assert (starts_with "[" (h +:+ rest) = false) as ->.
    { destruct h as [|a h]; [done|]. rewrite append_cons, starts_with_cons.
      cbn in Hp. apply andb_prop in Hp as [[_ Ha]%andb_prop _].
      apply negb_true_iff, bool_decide_eq_false in Ha. apply andb_false_iff. left.
      apply bool_decide_eq_false. set_solver. }
    apply take_while1_app; [by destruct h| |].
    + unfold chars_all, is_ascii. apply andb_true_iff.
      split; (eapply str_forall_impl; [|exact Hh]); intros a Ha;
        destruct (host_byte a Ha) as [Hasc _]; [done|].
      unfold host_char, is_alphanumeric, ascii_char, char_test. by rewrite Hasc.
    + destruct rest as [|b t]; [done|]. cbn in Hr. apply bool_decide_eq_true in Hr.
      each_of Hr by (by apply stops_ascii).
  - apply bracket_host in Hh as (x & -> & Hne & Hx).
    rewrite !append_cons, !append_nil_l, append_assoc, append_cons, append_nil_l, starts_with_cons.
    cbn [is_byte andb]. change (starts_with "" _) with true. cbn [andb].
    rewrite delimited_eq, nchar_cons. cbn [mbind option_bind].
    rewrite take_while1_app; [|done|eapply plain_chars_all; [|exact Hx]; set_solver|
      apply none_of_stops; [done|set_solver]].
    cbn [mbind option_bind]. by rewrite nchar_cons.
Qed.

Definition port_ok (p : option N) : bool :=
  match p with Some p => (p <=? U16_MAX)%N | None => true end.

Lemma port_read p rest :
  port_ok p = true → ends_at [SP; "?"; ";"]%char rest = true →
  parse_port (show_port p +:+ rest) = Some (rest, p).
Proof.
  intros Hp Hr. unfold parse_port. rewrite opt_eq, preceded_eq. destruct p as [p|]; cbn [show_port].
  - rewrite append_assoc, append_cons, append_nil_l, nchar_cons. cbn [mbind option_bind].
    rewrite map_res_eq, take_while1_app.
    + cbn [mbind option_bind]. cbn in Hp. apply N.leb_le in Hp. by rewrite parse_uint_dec.
    + apply dec_not_empty.
    + apply chars_all_test. eapply str_forall_impl; [|apply dec_digits]. intros a Ha. rewrite Ha.
      rewrite alnum_ascii; [done|]. unfold is_ascii_alphanumeric. by rewrite Ha, orb_true_r.
    + destruct rest as [|b t]; [done|]. cbn in Hr. apply bool_decide_eq_true in Hr.
      each_of Hr by (by apply stops_ascii).
  - rewrite append_nil_l, nchar_eq. destruct rest as [|b t]; [done|].
    assert (is_byte ":" b = false) as ->; [|done].
    apply (ends_at_not ":" [SP; "?"; ";"]%char (String b t)); [set_solver|done].
Qed.

(** *** Whole URIs *)

Definition sip_uri_ok (u : SipUri) : bool :=
  match user u with Some s => user_ok s | None => bool_decide (user_params u = []) end &&
  forallb param_ok (user_params u) && host_ok (host u) && port_ok (port u) &&
  forallb param_ok (params u) && forallb uri_header_ok (uri_headers u) &&
  bool_decide (extras u = make_extras (uri_headers u) (user_params u)).

Definition tel_uri_ok (u : SipUri) : bool :=
  match user u with
  | Some s => negb (is_empty s) &&
      str_forall (λ a, is_ascii_digit a || byte_in ["+"; "-"; "."; "("; ")"]%char a) s
  | None => false
  end &&
  forallb param_ok (params u) && bool_decide (port u = None) && bool_decide (extras u = None) &&
  bool_decide (host u = default "" ('(_, p) ←
    list_find (λ p : param, p.1 = "phone-context") (params u); p.2)).

Definition absolute_uri_ok (token : string) (u : SipUri) : bool :=
  scheme_is_valid token && bool_decide (token ∉ ["sip"; "sips"; "tel"]) &&
  bool_decide (user u = None) && bool_decide (params u = []) && bool_decide (extras u = None) &&
  negb (is_empty (host u)) && plain [SP; HT; CR; LF; ">"; ","]%char (host u) && port_ok (port u) &&
  match port u with
  | None => bool_decide (split_opaque_port (host u) = (host u, None))
  | Some _ => true
  end.

Definition uri_ok (u : SipUri) : bool :=
  match scheme u with
  | Sip | Sips => sip_uri_ok u
  | Tel => tel_uri_ok u
  | Other token => absolute_uri_ok token u
  end.

(** The part of a SIP URI after the user. *)
Definition uri_tail (u : SipUri) : string :=
  host u +:+ show_port (port u) +:+ show_params (params u) +:+ show_uri_headers (uri_headers u).

Lemma uri_tail_plain u : sip_uri_ok u = true → plain core_delims (uri_tail u) = true.
Proof.
  unfold sip_uri_ok, uri_tail. rewrite !andb_true_iff. intros [[[[[[_ _] Hh] Hp] Hps] Hhs] _].
  rewrite !plain_app, host_plain, plain_params, plain_headers, !andb_true_r by done.
  destruct (port u); [|done]. cbn [show_port]. rewrite plain_app.
  apply andb_true_iff. split; [done|]. apply dec_plain. intros a Ha.
  each_of Ha by done.
Qed.

Lemma headers_part_read hs rest :
  forallb uri_header_ok hs = true → uri_end rest = true →
  ∃ o, opt (preceded (nchar "?") parse_uri_headers) (show_uri_headers hs +:+ rest) = Some (rest, o) ∧
       default [] o = hs.
Proof.
  intros Hhs Hr. rewrite opt_eq, preceded_eq. destruct hs as [|h hs].
  - exists None. cbn [show_uri_headers]. rewrite append_nil_l, nchar_eq.
    destruct rest as [|b t]; [done|]. cbn in Hr.
    apply bool_decide_eq_true, list_elem_of_singleton in Hr as ->. done.
  - exists (Some (h :: hs)). cbn [show_uri_headers].
    rewrite append_assoc, append_cons, append_nil_l, nchar_cons. cbn [mbind option_bind].
    by rewrite uri_headers_read.
Qed.

Lemma uri_tail_read u rest :
  sip_uri_ok u = true → uri_end rest = true →
  ('(input, host_str) ← parse_host (uri_tail u +:+ rest);
   '(input, port) ← parse_port input;
   '(input, params) ← opt parse_uri_params input;
   '(input, headers) ← opt (preceded (nchar "?") parse_uri_headers) input;
   Some (input, host_str, port, default [] params, default [] headers)) =
    Some (rest, host u, port u, params u, uri_headers u).
Proof.
  unfold sip_uri_ok, uri_tail. rewrite !andb_true_iff. intros [[[[[[_ _] Hh] Hp] Hps] Hhs] _] Hr.
  assert (params_end (show_uri_headers (uri_headers u) +:+ rest) = true) as Hend1.
  { destruct (uri_headers u); [|done]. cbn [show_uri_headers]. rewrite append_nil_l.
    revert Hr. apply ends_at_sub. set_solver. }
  assert (ends_at [SP; "?"; ";"]%char
    (show_params (params u) +:+ show_uri_headers (uri_headers u) +:+ rest) = true) as Hend2.
  { destruct (params u); [|done]. rewrite append_nil_l. revert Hend1. apply ends_at_sub. set_solver. }
  assert (host_end (show_port (port u) +:+ show_params (params u) +:+
    show_uri_headers (uri_headers u) +:+ rest) = true) as Hend3.
  { destruct (port u); [done|]. rewrite append_nil_l. revert Hend2. apply ends_at_sub. set_solver. }
  rewrite !append_assoc, host_read by done. cbn [mbind option_bind].
  rewrite port_read by done. cbn [mbind option_bind].
  rewrite opt_eq, params_read by done. cbn [mbind option_bind].
  destruct (headers_part_read (uri_headers u) rest Hhs Hr) as (o & -> & Ho). cbn. by rewrite Ho.
Qed.

Lemma sip_uri_shown u :
  sip_uri_ok u = true → is_sip_family (scheme u) = true →
  show_uri u = scheme_as_str (scheme u) +:+ ":" +:+ show_user u +:+ uri_tail u.
Proof.
  unfold sip_uri_ok. rewrite !andb_true_iff. intros [[[[[_ Hh] _] _] _] _] Hs.
  unfold show_uri, uri_tail, show_host.
  destruct (scheme u); try done; cbn [is_tel]; by rewrite format_host, !append_assoc.
Qed.

(** [parse_uri] on a SIP or SIPS URI, its steps after the user part grouped as in
    [uri_tail_read]. *)
Lemma parse_uri_sip s t :
  is_sip_family s = true →
  parse_uri (scheme_as_str s +:+ ":" +:+ t) =
    let '(input, user, user_params) := parse_userinfo t in
    '(input, host_str, port, params, headers) ←
      ('(input, host_str) ← parse_host input;
       '(input, port) ← parse_port input;
       '(input, params) ← opt parse_uri_params input;
       '(input, headers) ← opt (preceded (nchar "?") parse_uri_headers) input;
       Some (input, host_str, port, default [] params, default [] headers));
    Some (input, set_extras (mkUri s user host_str port params None) headers user_params).
Proof.
  intros Hf. unfold parse_uri.
  destruct s; try done; cbn [scheme_as_str]; rewrite ?append_cons, ?append_nil_l, !starts_with_cons;
    cbn [strip_prefix is_byte]; rewrite alt_eq, !tag_eq; cbn [strip_prefix fmap option_fmap option_map];
    rewrite ?is_byte_refl; cbn;
    change (is_byte "t" "s") with false; change (is_byte ":" "s") with false;
    cbv iota; cbn; destruct (parse_userinfo t) as [[??]?];
    (destruct (parse_host _) as [[r1 ?]|]; [|done]); cbn [mbind option_bind];
    (destruct (parse_port r1) as [[r2 ?]|]; [|done]); cbn [mbind option_bind];
    (destruct (opt parse_uri_params r2) as [[r3 ?]|]; [|done]); cbn [mbind option_bind];
    by destruct (opt _ r3) as [[r4 ?]|].
Qed.

Lemma sip_uri_read u rest :
  sip_uri_ok u = true → is_sip_family (scheme u) = true → uri_end rest = true →
  parse_uri (show_uri u +:+ rest) = Some (rest, u).
Proof.
  intros Hu Hs Hr. rewrite sip_uri_shown by done.
  assert (∀ x, parse_userinfo (show_user u +:+ uri_tail u +:+ rest) = x →
    x = (uri_tail u +:+ rest, user u, user_params u)) as Huser.
  { intros x <-. pose proof Hu as Hu'. unfold sip_uri_ok in Hu'. rewrite !andb_true_iff in Hu'.
    destruct Hu' as [[[[[[Hus Hups] _] _] _] _] _].
    unfold show_user. rewrite userinfo_read; [|by destruct (user u)|done|by apply uri_tail_plain|done].
    destruct (user u); [done|]. apply bool_decide_eq_true in Hus as ->. done. }
  rewrite !append_assoc, parse_uri_sip by done. rewrite (Huser _ eq_refl), uri_tail_read by done. cbn.
  unfold sip_uri_ok in Hu. rewrite !andb_true_iff in Hu. destruct Hu as [_ He].
  apply bool_decide_eq_true in He. unfold set_extras. cbn. rewrite <-He. by destruct u.
Qed.
Lemma tel_uri_read u rest :
  scheme u = Tel → tel_uri_ok u = true → uri_end rest = true →
  parse_uri (show_uri u +:+ rest) = Some (rest, u).
Proof.
  unfold tel_uri_ok. intros Hs. rewrite !andb_true_iff. intros [[[[Hu Hps] Hp] He] Hh] Hr.
  apply bool_decide_eq_true in Hp, He, Hh. destruct (user u) as [s|] eqn:Hus; [|done].
  apply andb_prop in Hu as [Hne Hu].
  assert (show_uri u = "tel:" +:+ s +:+ show_params (params u)) as ->.
  { unfold show_uri, uri_headers. rewrite Hs, He, Hus. cbn. by rewrite append_nil_r. }
  unfold parse_uri. rewrite append_assoc, strip_prefix_app. unfold parse_tel_uri.
  rewrite append_assoc, take_while1_app.
  - cbn [mbind option_bind]. rewrite opt_eq, params_read; [|done|].
    + cbn [mbind option_bind]. change (default [] (Some (params u))) with (params u).
      rewrite <-Hh. destruct u; cbn in *; by subst.
    + revert Hr. apply ends_at_sub. set_solver.
  - by destruct s.
  - apply chars_all_test. revert Hu. apply str_forall_impl. intros a Ha. rewrite Ha, andb_true_r.
    apply orb_prop in Ha as [Ha|Ha%bool_decide_eq_true].
    + apply alnum_ascii. unfold is_ascii_alphanumeric. by rewrite Ha, orb_true_r.
    + each_of Ha by done.
  - destruct (params u); [|by apply stops_ascii].
    rewrite append_nil_l. destruct rest as [|b t]; [done|]. cbn in Hr.
    apply bool_decide_eq_true, list_elem_of_singleton in Hr as ->. by apply stops_ascii.
Qed.

Lemma scheme_no_colon t : scheme_is_valid t = true → str_forall (λ b, negb (is_byte ":" b)) t = true.
Proof.
  destruct t as [|a t]; [done|]. cbn. intros [Ha Ht]%andb_prop. apply andb_true_iff. split.
  - apply negb_true_iff, bool_decide_eq_false. by intros <-.
  - revert Ht. apply str_forall_impl. intros b Hb. apply negb_true_iff, bool_decide_eq_false.
    by intros <-.
Qed.

(** A scheme is the text before the first colon. *)
Lemma scheme_prefix p t x y :
  str_forall (λ b, negb (is_byte ":" b)) p = true →
  str_forall (λ b, negb (is_byte ":" b)) t = true →
  strip_prefix (p +:+ ":") (t +:+ String ":" x) = Some y → p = t.
Proof.
  intros Hp Ht Hs%strip_prefix_Some. rewrite append_assoc, append_cons, append_nil_l in Hs.
  apply (f_equal (split_once ":")) in Hs. rewrite !split_once_app in Hs by done. congruence.
Qed.

Lemma absolute_uri_read u token rest :
  scheme u = Other token → absolute_uri_ok token u = true → uri_end rest = true →
  parse_uri (show_uri u +:+ rest) = Some (rest, u).
Proof.
  intros Hs. unfold absolute_uri_ok. rewrite !andb_true_iff, !bool_decide_eq_true.
  intros [[[[[[[[Hv Hn] Hu] Hps] He] Hne] Hh] Hp] Hsp] Hr.
  pose proof (scheme_no_colon token Hv) as Hc.
  set (opaque := host u +:+ show_port (port u)).
  assert (show_uri u +:+ rest = token +:+ String ":" (opaque +:+ rest)) as ->.
  { unfold show_uri, show_user, show_host, uri_headers, opaque. rewrite Hs, Hu, Hps, He. cbn.
    autorewrite with str. done. }
  unfold parse_uri.
  assert (∀ p y, p ∈ ["sip"; "sips"; "tel"] →
    strip_prefix (p +:+ ":") (token +:+ String ":" (opaque +:+ rest)) ≠ Some y) as Hnot.
  { intros p y Hin Hy. eapply scheme_prefix in Hy; [by subst| |done].
    each_of Hin by done. }
  assert (∀ p, p ∈ ["sip"; "sips"; "tel"] →
    starts_with (p +:+ ":") (token +:+ String ":" (opaque +:+ rest)) = false) as Hnots.
  { intros p Hin. apply bool_decide_eq_false. intros [y Hy]. by apply (Hnot p y). }
  destruct (strip_prefix "tel:" _) eqn:Htel; [by apply (Hnot "tel") in Htel; [|set_solver]|].
  pose proof (Hnots "sip" ltac:(set_solver)) as Hsip. change ("sip" +:+ ":") with "sip:" in Hsip.
  pose proof (Hnots "sips" ltac:(set_solver)) as Hsips. change ("sips" +:+ ":") with "sips:" in Hsips.
  rewrite Hsip, Hsips. cbn [negb andb].
  unfold parse_absolute_uri. rewrite split_once_app by done. cbn [mbind option_bind].
  assert (is_empty token = false) as -> by by destruct token. rewrite Hv. cbn [negb].
  assert (plain [SP; HT; CR; LF; ">"; ","]%char opaque = true) as Ho.
  { unfold opaque. rewrite plain_app, Hh. destruct (port u); [|done]. cbn [show_port].
    rewrite plain_app. apply andb_true_iff. split; [done|]. apply dec_plain. intros a Ha.
    each_of Ha by done. }
  rewrite break_app.
  2: { revert Ho. apply plain_avoids. by intros b Hb%bool_decide_eq_true. }
  assert (break (byte_in [SP; HT; CR; LF; ">"; ","]%char) rest = ("", rest)) as ->.
  { destruct rest as [|b t]; [done|]. cbn in Hr |- *.
    by apply bool_decide_eq_true, list_elem_of_singleton in Hr as ->. }
  cbn [fst snd]. rewrite append_nil_r.
  assert (is_empty opaque = false) as -> by (unfold opaque; by destruct (host u)).
  assert (split_opaque_port opaque = (host u, port u)) as ->.
  { unfold opaque. destruct (port u) as [p|]; cbn [show_port];
      [|rewrite append_nil_r; by apply bool_decide_eq_true in Hsp].
    unfold split_opaque_port. rewrite append_cons, append_nil_l, rsplit_once_app.
    - rewrite dec_digits. pose proof (dec_not_empty p). cbn in Hp. apply N.leb_le in Hp.
      rewrite parse_uint_dec by done. by destruct (dec p).
    - eapply plain_avoids with (bad := [":"%char]); [by intros b <-%bool_decide_eq_true; set_solver|].
      apply dec_plain. by intros a ->%list_elem_of_singleton. }
  assert (scheme_from_token token = Other token) as ->.
  { unfold scheme_from_token. by rewrite !decide_False by set_solver. }
  destruct u; cbn in *; by subst.
Qed.

Lemma uri_read u rest :
  uri_ok u = true → uri_end rest = true → parse_uri (show_uri u +:+ rest) = Some (rest, u).
Proof.
  unfold uri_ok. destruct (scheme u) eqn:Hs; intros Hu Hr.
  - apply sip_uri_read; by rewrite ?Hs.
  - apply sip_uri_read; by rewrite ?Hs.
  - by apply tel_uri_read.
  - by eapply absolute_uri_read.
Qed.

End uri.

(** C9: a URI is read back as it was written.  For every well-formed SIP, SIPS,
    tel or absolute URI, [parse_uri_complete] of its text gives the same URI,
    and in a request line the URI ends exactly at the space that follows it. *)
Theorem uri_round_trip `{U : Unicode, P : Nom} (u : SipUri) (rest : string) :
  uri_ok u = true →
  parse_uri_complete (show_uri u) = Ok u ∧
  parse_uri (show_uri u +:+ String SP rest) = Some (String SP rest, u).
Proof.
  intros Hu. split; [|by apply uri_read].
  unfold parse_uri_complete. rewrite <-(append_nil_r (show_uri u)).
  by rewrite uri_read.
Qed.

(** A URI with every part. *)
Definition sample_uri : SipUri :=
  mkUri Sips (Some "alice") "example.org" (Some 5061%N)
    [("transport", Some "tcp"); ("lr", None)]
    (Some (mkExtras [("Replaces", Some "a%40b"); ("Subject", Some "x=y")] [("phone", Some "+1")])).

Lemma uri_round_trip_witness :
  show_uri sample_uri =
    "sips:alice;phone=+1@example.org:5061;transport=tcp;lr?Replaces=a%40b&Subject=x=y" ∧
  @parse_uri_complete unicode_ascii nom_reference (show_uri sample_uri) = Ok sample_uri.
Proof.
  split; [vm_compute; reflexivity|].
  apply (@uri_round_trip unicode_ascii nom_reference sample_uri ""). vm_compute. reflexivity.
Defined.
