(* ===== verification/MessageRoundTrip.v ===== *)
(** * Messages are read back as they are written

    [parse_sip_message_bytes] ([Parser]) inverts [to_bytes] ([Message]) for
    every message with a well-formed start line, header fields that are single
    trimmed lines and a Content-Length that counts the body ([message_ok]). *)

From S2P Require Import Prelude Str Nom Headers Uri Message Parser UriRoundTrip.

(** ** Lines *)

Definition line_ok (l : string) : bool := negb (is_empty l) && one_line l && utf8_valid l.

Definition with_crlf (l : string) : string := l +:+ CRLF.
Definition lines (ls : list string) : string := str_concat (with_crlf <$> ls).

Lemma starts_with_false a p b t : a ≠ b → starts_with (String a p) (String b t) = false.
Proof. intros. rewrite starts_with_cons. unfold is_byte. by rewrite bool_decide_eq_false_2. Qed.

Lemma find_str_step pat a t :
  starts_with pat (String a t) = false →
  find_str pat (String a t) = '(x, y) ← find_str pat t; Some (String a x, y).
Proof. intros H. cbn. by rewrite H. Qed.

(** No pattern that starts with CR begins inside a line. *)
Lemma find_str_line pat l t :
  one_line l = true →
  find_str (String CR pat) (l +:+ t) =
    '(x, y) ← find_str (String CR pat) t; Some (l +:+ x, y).
Proof.
  induction l as [|a l IH]; intros Hl.
  - rewrite append_nil_l. by destruct (find_str _ t) as [[??]|].
  - unfold one_line in *. cbn in Hl. apply andb_prop in Hl as [Ha Hl].
    rewrite append_cons, find_str_step.
    + rewrite IH by done. by destruct (find_str _ t) as [[??]|]; cbn; rewrite ?append_cons.
    + apply starts_with_false. intros <-. done.
Qed.

Lemma find_crlf l t : one_line l = true → find_str CRLF (l +:+ CRLF +:+ t) = Some (l, CRLF +:+ t).
Proof.
  intros Hl. unfold CRLF at 1. rewrite find_str_line by done.
  assert (find_str (String CR (String LF "")) (CRLF +:+ t) = Some ("", CRLF +:+ t)) as ->.
  { pose proof (starts_with_app CRLF t) as Hs. unfold CRLF in *.
    rewrite !append_cons in *. cbn [find_str]. by rewrite Hs. }
  cbn. by rewrite append_nil_r.
Qed.

Lemma line_not_crlf l t : line_ok l = true → starts_with CRLF (l +:+ t) = false.
Proof.
  unfold line_ok, one_line. rewrite !andb_true_iff. destruct l as [|a l]; [by intros [[? _] _]|].
  cbn. intros [[_ [Ha _]%andb_prop] _]. rewrite append_cons. unfold CRLF.
  apply starts_with_false. intros <-. done.
Qed.

(** A line that is not the last before the boundary is passed over. *)
Lemma boundary_skip l t :
  line_ok l = true → starts_with CRLF t = false →
  find_str (CRLF +:+ CRLF) (l +:+ CRLF +:+ t) =
    '(x, y) ← find_str (CRLF +:+ CRLF) t; Some (l +:+ CRLF +:+ x, y).
Proof.
  intros Hl Ht. unfold line_ok in Hl. apply andb_prop in Hl as [[_ Hl]%andb_prop _].
  change (CRLF +:+ CRLF) with (String CR (String LF CRLF)).
  rewrite find_str_line by done. change (CRLF +:+ t) with (String CR (String LF t)).
  rewrite find_str_step, find_str_step.
  - by destruct (find_str _ t) as [[??]|].
  - by apply starts_with_false.
  - rewrite !starts_with_cons. by rewrite Ht, !andb_false_r.
Qed.

Lemma find_boundary ls body :
  ls ≠ [] → forallb line_ok ls = true →
  ∃ x, find_header_boundary (lines ls +:+ CRLF +:+ body) = Some (x, body) ∧ x +:+ CRLF = lines ls.
Proof.
  intros Hne Hls. unfold find_header_boundary.
  enough (∃ x, find_str (CRLF +:+ CRLF) (lines ls +:+ CRLF +:+ body) =
            Some (x, (CRLF +:+ CRLF) +:+ body) ∧ x +:+ CRLF = lines ls) as (x & Hf & Hx).
  { exists x. rewrite Hf. cbn [mbind option_bind]. by rewrite strip_prefix_app. }
  induction ls as [|l ls IH]; [done|]. cbn in Hls. apply andb_prop in Hls as [Hl Hls].
  change (lines (l :: ls)) with ((l +:+ CRLF) +:+ lines ls). rewrite !append_assoc.
  destruct ls as [|l' ls].
  - exists l. split; [|by rewrite append_nil_r]. unfold line_ok in Hl.
    apply andb_prop in Hl as [[_ Hl]%andb_prop _]. rewrite append_nil_l.
    change (CRLF +:+ CRLF) with (String CR (String LF CRLF)). rewrite find_str_line by done.
    rewrite <-append_assoc. change (CRLF +:+ CRLF) with (String CR (String LF CRLF)).
    pose proof (starts_with_app (String CR (String LF CRLF)) body) as Hs.
    rewrite !append_cons in *. cbn [find_str]. rewrite Hs. cbn. by rewrite append_nil_r.
  - destruct IH as (x & Hf & Hx); [done|done|]. exists (l +:+ CRLF +:+ x). split.
    + rewrite boundary_skip; [by rewrite Hf|done|].
      cbn in Hls. apply andb_prop in Hls as [Hl' _].
      change (lines (l' :: ls)) with ((l' +:+ CRLF) +:+ lines ls). rewrite !append_assoc.
      by apply line_not_crlf.
    + by rewrite !append_assoc, Hx.
Qed.

Lemma endings_line i prev l t :
  one_line l = true → (l = "" ∨ prev ≠ Some CR) →
  line_endings_from i prev (l +:+ CRLF +:+ t) =
    line_endings_from (i + String.length l + 2) (Some LF) t.
Proof.
  revert i prev. induction l as [|a l IH]; intros i prev Hl Hp.
  - rewrite append_nil_l. change (CRLF +:+ t) with (String CR (String LF t)).
    cbn [line_endings_from]. change (is_byte LF CR) with false. change (is_byte CR CR) with true.
    change (is_byte LF LF) with true. change (is_byte CR LF) with false. cbn.
    by rewrite bool_decide_eq_true_2, Nat.add_0_r, Nat.add_comm by done.
  - unfold one_line in *. cbn in Hl. apply andb_prop in Hl as [Ha Hl].
    apply negb_true_iff, bool_decide_eq_false in Ha.
    assert (is_byte LF a = false) as HL by (apply bool_decide_eq_false; set_solver).
    assert (is_byte CR a = false) as HC by (apply bool_decide_eq_false; set_solver).
    rewrite append_cons. cbn [line_endings_from]. rewrite HL, HC. cbn [andb].
    rewrite IH; [cbn; f_equal; lia|done|]. right. intros [= ->]. done.
Qed.

Lemma endings_lines ls i prev :
  forallb line_ok ls = true → prev ≠ Some CR →
  line_endings_from i prev (lines ls +:+ CRLF) = Ok tt.
Proof.
  revert i prev. induction ls as [|l ls IH]; intros i prev Hls Hp.
  - rewrite append_nil_l, <-(append_nil_r CRLF), <-(append_nil_l (CRLF +:+ "")).
    by rewrite endings_line by auto.
  - cbn in Hls. apply andb_prop in Hls as [Hl Hls].
    change (lines (l :: ls)) with ((l +:+ CRLF) +:+ lines ls). rewrite !append_assoc.
    unfold line_ok in Hl. apply andb_prop in Hl as [[_ Hl]%andb_prop _].
    rewrite endings_line by auto. by apply IH.
Qed.

Lemma utf8_lines ls : forallb line_ok ls = true → utf8_valid (lines ls +:+ CRLF) = true.
Proof.
  induction ls as [|l ls IH]; [done|]. intros [Hl Hls]%andb_prop.
  change (lines (l :: ls)) with ((l +:+ CRLF) +:+ lines ls). rewrite !append_assoc.
  unfold line_ok in Hl. apply andb_prop in Hl as [_ Hl]. rewrite utf8_valid_app by done.
  rewrite utf8_valid_app by done. by apply IH.
Qed.

Section messages.
Context {U : Unicode} {P : Nom}.

(** ** The start line *)

Definition version_ok (v : Version) : bool := (major v <=? U8_MAX)%N && (minor v <=? U8_MAX)%N.

Definition method_byte (a : byte) : bool := is_ascii_alphanumeric a || byte_in token_punct a.

Definition request_line_ok (l : RequestLine) : bool :=
  let token := method_as_str (method l) in
  negb (is_empty token) && str_forall method_byte token &&
  bool_decide (method_from_str token = method l) &&
  uri_ok (request_uri l) && version_ok (req_version l).

Definition status_line_ok (l : StatusLine) : bool :=
  version_ok (resp_version l) && (status_code l <=? U16_MAX)%N &&
  one_line (reason_phrase l) && utf8_valid (reason_phrase l) &&
  negb (starts_with_byte is_wsp (reason_phrase l)) && negb (generated_locally l).

Definition start_line_ok (l : StartLine) : bool :=
  match l with Request l => request_line_ok l | Response l => status_line_ok l end.

(** The start line without its CRLF. *)
Definition start_text (l : StartLine) : string :=
  match l with
  | Request req =>
      method_as_str (method req) +:+ " " +:+ show_uri (request_uri req) +:+ " " +:+
      show_version (req_version req)
  | Response resp =>
      show_version (resp_version resp) +:+ " " +:+ dec (status_code resp) +:+ " " +:+
      reason_phrase resp
  end.

Lemma start_text_crlf l : show_start_line l = start_text l +:+ CRLF.
Proof. destruct l; cbn; by rewrite !append_assoc. Qed.

(** Digits up to a byte that is none. *)
Lemma digits_read n max a t :
  (n ≤ max)%N → is_ascii_byte a = true → is_ascii_digit a = false →
  map_res digit1 (parse_uint max) (dec n +:+ String a t) = Some (String a t, n).
Proof.
  intros Hn Ha Hd. rewrite map_res_eq, digit1_eq, take_while1_app.
  - cbn [mbind option_bind]. by rewrite parse_uint_dec.
  - apply dec_not_empty.
  - apply chars_all_test. eapply str_forall_impl; [|apply dec_digits]. intros b Hb. rewrite Hb.
    rewrite alnum_ascii; [done|]. unfold is_ascii_alphanumeric. by rewrite Hb, orb_true_r.
  - apply stops_ascii; [done|]. unfold char_test. by rewrite Ha.
Qed.

Lemma version_read v a t :
  version_ok v = true → is_ascii_byte a = true → is_ascii_digit a = false →
  parse_version (show_version v +:+ String a t) = Some (String a t, v).
Proof.
  intros [Hma%N.leb_le Hmi%N.leb_le]%andb_prop Ha Hd. unfold parse_version, show_version.
  rewrite !append_assoc, tag_app. cbn [mbind option_bind]. rewrite append_cons.
  rewrite digits_read by done. cbn [mbind option_bind]. rewrite nchar_cons. cbn [mbind option_bind].
  rewrite append_nil_l, digits_read by done. cbn [mbind option_bind]. by destruct v.
Qed.

Lemma crlf_read t : parse_crlf (CRLF +:+ t) = Some (t, CRLF).
Proof. unfold parse_crlf. by rewrite alt_eq, tag_app. Qed.

Lemma request_line_read l t :
  request_line_ok l = true →
  parse_request_line (start_text (Request l) +:+ CRLF +:+ t) = Some (t, l).
Proof.
  unfold request_line_ok. rewrite !andb_true_iff. intros [[[[Hne Hm] Hr] Hu] Hv].
  apply bool_decide_eq_true in Hr. unfold parse_request_line, start_text. rewrite !append_assoc.
  rewrite append_cons, append_nil_l, append_cons, append_nil_l.
  rewrite take_while1_app; [cbn [mbind option_bind]; rewrite Hr|by destruct (method_as_str _)| |].
  - rewrite nchar_cons. cbn [mbind option_bind]. rewrite uri_read by done. cbn [mbind option_bind].
    rewrite nchar_cons. cbn [mbind option_bind].
    change (CRLF +:+ t) with (String CR (String LF t)). rewrite version_read by done.
    cbn [mbind option_bind]. change (String CR (String LF t)) with (CRLF +:+ t).
    rewrite crlf_read. cbn [mbind option_bind]. by destruct l.
  - unfold chars_all, is_ascii. apply andb_true_iff.
    assert (∀ a, method_byte a = true → is_ascii_byte a = true) as Hasc.
    { intros a [Ha|Ha%bool_decide_eq_true]%orb_prop; [by apply alnum_ascii|].
      each_of Ha by done. }
    split; (eapply str_forall_impl; [|exact Hm]); intros a Ha; [by apply Hasc|].
    unfold method_char, is_alphanumeric, ascii_char, char_test. by rewrite (Hasc a Ha).
  - by apply stops_ascii.
Qed.

Lemma wsp_stops s :
  starts_with_byte is_wsp s = false → stops (char_test is_wsp (λ _, false)) s = true.
Proof.
  destruct s as [|a s]; [done|]. cbn [starts_with_byte]. intros Ha. unfold stops. cbn [chars].
  repeat (case_match; try done); simplify_eq; cbn [char_test]; by rewrite ?Ha; destruct (is_ascii_byte a).
Qed.

Lemma space_read s :
  starts_with_byte is_wsp s = false → space1 (String " " s) = Some (s, " ").
Proof.
  intros Hs. rewrite space1_eq. apply (take_while1_app _ " "); [done|done|]. by apply wsp_stops.
Qed.

Lemma dec_not_wsp n t : starts_with_byte is_wsp (dec n +:+ t) = false.
Proof.
  pose proof (dec_digits n) as Hd. pose proof (dec_not_empty n).
  destruct (dec n) as [|a s]; [done|]. cbn in Hd |- *. apply andb_prop in Hd as [Ha _].
  apply bool_decide_eq_false. intros Hin.
  each_of Hin by done.
Qed.

Lemma status_line_read l t :
  status_line_ok l = true →
  parse_status_line (start_text (Response l) +:+ CRLF +:+ t) = Some (t, l).
Proof.
  unfold status_line_ok. rewrite !andb_true_iff. intros [[[[[Hv Hs] Ho] _] Hw] Hg].
  apply N.leb_le in Hs. apply negb_true_iff in Hw, Hg.
  unfold parse_status_line, start_text. rewrite !append_assoc.
  rewrite append_cons, append_nil_l, append_cons, append_nil_l.
  rewrite version_read by done. cbn [mbind option_bind].
  rewrite space_read by apply dec_not_wsp. cbn [mbind option_bind].
  rewrite digits_read by done. cbn [mbind option_bind].
  rewrite space_read.
  - cbn [mbind option_bind]. rewrite take_until_eq, find_crlf by done. cbn [mbind option_bind].
    rewrite crlf_read. cbn [mbind option_bind]. destruct l; cbn in *; by subst.
  - by destruct (reason_phrase l).
Qed.

Lemma start_line_read l t :
  start_line_ok l = true →
  parse_start_line (start_text l +:+ CRLF +:+ t) = Some (t, l).
Proof.
  intros Hl. unfold parse_start_line. rewrite alt_eq. destruct l as [l|l]; cbn [start_line_ok] in Hl.
  - by rewrite request_line_read.
  - rewrite status_line_read by done.
    assert (parse_request_line (start_text (Response l) +:+ CRLF +:+ t) = None) as ->; [|done].
    unfold parse_request_line. cbn [start_text]. unfold show_version.
    rewrite !append_assoc. change ("SIP/" +:+ ?x) with ("SIP" +:+ String "/" x).
    rewrite take_while1_app; [|done|done|by apply stops_ascii].
    cbn [mbind option_bind]. by rewrite nchar_ne.
Qed.

(** ** Header rows *)

Definition name_ok (n : string) : bool :=
  negb (is_empty n) && plain [":"%char; CR; LF; SP; HT] n && bool_decide (trim_ascii n = n).
Definition value_ok (v : string) : bool :=
  one_line v && utf8_valid v && bool_decide (trim v = v).

Definition row (r : string * string) : string := r.1 +:+ ": " +:+ r.2.
Definition row_ok (r : string * string) : bool := name_ok r.1 && value_ok r.2.

Lemma row_line r : row_ok r = true → line_ok (row r) = true.
Proof.
  destruct r as [n v]. unfold row_ok, name_ok, value_ok, line_ok, row. cbn [fst snd].
  rewrite !andb_true_iff. intros [[[Hne Hn] _] [[Ho Hu] _]].
  pose proof (is_ascii_utf8 n (plain_ascii _ _ Hn)) as Hnu.
  split_and!; [by destruct n| |by rewrite utf8_valid_app].
  unfold one_line. rewrite !str_forall_app. fold (one_line v). rewrite Ho, !andb_true_r.
  revert Hn. apply plain_avoids. intros a Ha%bool_decide_eq_true. set_solver.
Qed.

Lemma trim_length s : String.length (trim s) ≤ String.length s.
Proof.
  rewrite <-(concat_chars s) at 2. unfold trim.
  destruct (drop_while_suffix is_whitespace (chars s)) as [k1 Hk1]. rewrite Hk1 at 2.
  destruct (drop_while_end_prefix is_whitespace (drop_while is_whitespace (chars s))) as [k2 Hk2].
  rewrite Hk2 at 2. rewrite !str_concat_app, !str_length_app. lia.
Qed.

Lemma trimmed_not_wsp v t : trim v = v → v ≠ "" → starts_with_byte is_wsp (v +:+ t) = false.
Proof.
  intros Ht Hne. destruct v as [|a v]; [done|]. rewrite append_cons. cbn [starts_with_byte].
  apply bool_decide_eq_false. intros Ha.
  assert (trim (String a v) = trim v) as Heq.
  { unfold trim. each_of Ha by (by rewrite chars_cons_ascii). }
  pose proof (trim_length v) as Hl. rewrite <-Heq, Ht in Hl. cbn in Hl. lia.
Qed.

Lemma header_line_read r t :
  row_ok r = true → t ≠ "" → starts_with_byte is_wsp t = false →
  parse_header_line (row r +:+ CRLF +:+ t) = Some (t, r).
Proof.
  destruct r as [n v]. unfold row_ok, name_ok, value_ok, row. cbn [fst snd].
  rewrite !andb_true_iff, !bool_decide_eq_true. intros [[[Hne Hn] Htn] [[Ho _] Htv]] Ht Hw.
  unfold parse_header_line. rewrite !append_assoc.
  assert (trim_start_matches is_wsp (n +:+ ": " +:+ v +:+ CRLF +:+ t) =
    n +:+ ": " +:+ v +:+ CRLF +:+ t) as ->.
  { destruct n as [|a n]; [done|]. rewrite append_cons. unfold trim_start_matches.
    cbn in Hn. apply andb_prop in Hn as [[_ Ha]%andb_prop _]. cbn.
    assert (is_wsp a = false) as ->.
    { apply bool_decide_eq_false. apply negb_true_iff, bool_decide_eq_false in Ha. set_solver. }
    cbn. by rewrite String.string_of_list_ascii_of_string. }
  rewrite append_cons.
  rewrite take_while1_app; [|by destruct n|eapply plain_chars_all; [|exact Hn]; set_solver|
    apply none_of_stops; [done|set_solver]].
  cbn [mbind option_bind]. rewrite take_while_stop by by apply stops_ascii.
  cbn [mbind option_bind]. rewrite nchar_cons. cbn [mbind option_bind].
  rewrite take_while_app; [|done|].
  2: { apply wsp_stops. destruct v as [|a v]; [done|]. by apply trimmed_not_wsp. }
  cbn [mbind option_bind header_value_loop].
  rewrite take_until_eq, find_crlf by done. cbn [mbind option_bind]. rewrite crlf_read.
  cbn [mbind option_bind]. rewrite append_nil_l, Htn, Htv.
  destruct t as [|b t]; [done|]. cbn in Hw |- *. unfold trim_start_matches. cbn. by rewrite Hw.
Qed.

Lemma row_not_wsp r t : row_ok r = true → starts_with_byte is_wsp (row r +:+ t) = false.
Proof.
  unfold row_ok, name_ok, row. intros [[[Hne Hn]%andb_prop _]%andb_prop _]%andb_prop.
  destruct (r.1) as [|a n]; [done|]. cbn in Hn |- *. apply andb_prop in Hn as [[_ Ha]%andb_prop _].
  apply negb_true_iff, bool_decide_eq_false in Ha. apply bool_decide_eq_false. set_solver.
Qed.

(** A header row does not end the block. *)
Lemma row_not_end r t :
  row_ok r = true →
  row r +:+ t ≠ "" ∧ strip_prefix CRLF (row r +:+ t) = None ∧
  strip_prefix (String LF "") (row r +:+ t) = None.
Proof.
  intros Hl%row_line. unfold line_ok, one_line in Hl. apply andb_prop in Hl as [[Hne Ho]%andb_prop _].
  destruct (row r) as [|a n]; [done|]. cbn in Ho. apply andb_prop in Ho as [Ha _].
  apply negb_true_iff, bool_decide_eq_false in Ha. rewrite append_cons. cbn [strip_prefix CRLF].
  unfold is_byte. rewrite !bool_decide_eq_false_2 by set_solver. done.
Qed.

Lemma lines_cons l ls t : lines (l :: ls) +:+ t = l +:+ CRLF +:+ lines ls +:+ t.
Proof. change (lines (l :: ls)) with ((l +:+ CRLF) +:+ lines ls). by rewrite !append_assoc. Qed.

Lemma headers_loop_read rows fuel h :
  forallb row_ok rows = true → length rows < fuel →
  headers_loop fuel h (lines (row <$> rows) +:+ CRLF) =
    Some ("", foldl (λ h r, Headers.add r.1 r.2 h) h rows).
Proof.
  revert fuel h. induction rows as [|r rows IH]; intros [|fuel] h Hok Hf; cbn in Hf; try lia; [done|].
  cbn in Hok. apply andb_prop in Hok as [Hr Hok]. cbn [fmap list_fmap]. rewrite lines_cons.
  set (rest := lines (row <$> rows) +:+ CRLF).
  assert (starts_with_byte is_wsp rest = false ∧ rest ≠ "") as [Hw Hrest].
  { unfold rest. destruct rows as [|r' rows]; [done|]. cbn in Hok. apply andb_prop in Hok as [Hr' _].
    cbn [fmap list_fmap]. rewrite lines_cons. split; [by apply row_not_wsp|].
    by apply (row_not_end r'). }
  destruct (row_not_end r (CRLF +:+ rest) Hr) as (Hne & H1 & H2). cbn [headers_loop].
  rewrite H1, H2, row_not_wsp, (header_line_read r rest) by done.
  destruct (row r +:+ CRLF +:+ rest); [done|]. destruct r as [n v]. cbn [mbind option_bind is_empty].
  by rewrite IH by (done || lia).
Qed.

(** *** The rows rebuild the header container *)

Definition entry_ok (e : entry) : bool :=
  bool_decide (e.1 = Headers.canonical_key e.2.1) && name_ok e.2.1 &&
  negb (bool_decide (e.2.2 = [])) && forallb value_ok e.2.2.

Definition entry_pairs (e : entry) : list (string * string) := (λ v, (e.2.1, v)) <$> e.2.2.

Lemma entry_rows_lines l :
  str_concat (Headers.entry_rows <$> l) = lines (row <$> (l ≫= entry_pairs)).
Proof.
  unfold lines. induction l as [|e l IH]; [done|]. cbn [fmap list_fmap str_concat mbind list_bind].
  rewrite !fmap_app, str_concat_app, <-IH. f_equal.
  unfold Headers.entry_rows, entry_pairs. destruct e as [k [n vs]]. cbn [fst snd].
  induction vs as [|v vs IHv]; [done|]. cbn [Headers.push_header_rows fmap list_fmap str_concat].
  rewrite IHv. unfold with_crlf, row. cbn [fst snd]. by rewrite !append_assoc.
Qed.

Lemma entry_pairs_ok e : entry_ok e = true → forallb row_ok (entry_pairs e) = true.
Proof.
  unfold entry_ok, entry_pairs. rewrite !andb_true_iff. intros [[[_ Hn] _] Hv].
  destruct e as [k [n vs]]. cbn [fst snd] in *. induction vs as [|v vs IH]; [done|].
  cbn in Hv |- *. apply andb_prop in Hv as [Hv Hvs]. unfold row_ok. cbn [fst snd].
  rewrite Hn, Hv. by apply IH.
Qed.

Lemma insert_snoc {V} k (v v' : V) pre :
  k ∉ IndexMap.keys pre →
  IndexMap.get k (pre ++ [(k, v)]) = Some v ∧
  IndexMap.insert k v' (pre ++ [(k, v)]) = pre ++ [(k, v')].
Proof.
  induction pre as [|[k0 v0] pre IH]; cbn; intros Hk.
  - by rewrite !bool_decide_eq_true_2.
  - rewrite !bool_decide_eq_false_2 by set_solver. destruct IH as [-> ->]; [set_solver|done].
Qed.

Lemma add_values k n vs vs' pre :
  k = Headers.canonical_key n → k ∉ IndexMap.keys pre →
  foldl (λ h r, Headers.add r.1 r.2 h) (mkHeaders (pre ++ [(k, (n, vs))])) ((λ v, (n, v)) <$> vs') =
    mkHeaders (pre ++ [(k, (n, vs ++ vs'))]).
Proof.
  intros -> Hk. revert vs. induction vs' as [|v vs' IH]; intros vs; cbn [fmap list_fmap foldl].
  - by rewrite app_nil_r.
  - unfold Headers.add at 2. cbn [fst snd headers].
    destruct (insert_snoc (Headers.canonical_key n) (n, vs) (n, vs ++ [v]) pre Hk) as [-> ->].
    by rewrite IH, <-(assoc_L (++)).
Qed.

Lemma rebuild l pre :
  forallb entry_ok l = true → NoDup (IndexMap.keys (pre ++ l)) →
  foldl (λ h r, Headers.add r.1 r.2 h) (mkHeaders pre) (l ≫= entry_pairs) = mkHeaders (pre ++ l).
Proof.
  revert pre. induction l as [|e l IH]; intros pre Hok Hnd; [by rewrite app_nil_r|].
  cbn in Hok. apply andb_prop in Hok as [He Hok]. destruct e as [k [n vs]].
  unfold entry_ok in He. rewrite !andb_true_iff, bool_decide_eq_true in He. cbn [fst snd] in He.
  destruct He as [[[Hk _] Hne] _]. destruct vs as [|v vs]; [done|].
  assert (k ∉ IndexMap.keys pre) as Hpre.
  { unfold IndexMap.keys in *. rewrite fmap_app in Hnd. apply NoDup_app in Hnd as (_ & Hd & _).
    intros Hin. apply (Hd k Hin). cbn. left. }
  cbn [mbind list_bind]. rewrite foldl_app.
  change (entry_pairs (k, (n, v :: vs))) with ((n, v) :: ((λ v, (n, v)) <$> vs)). cbn [foldl fst snd].
  assert (Headers.add n v (mkHeaders pre) = mkHeaders (pre ++ [(k, (n, [v]))])) as ->.
  { unfold Headers.add. cbn [headers]. rewrite <-Hk, (proj2 (IndexMap.get_None k pre) Hpre). f_equal.
    clear -Hpre. induction pre as [|[k0 v0] pre IH]; [done|]. cbn in *.
    rewrite bool_decide_eq_false_2 by set_solver. rewrite IH by set_solver. done. }
  rewrite add_values by done. cbn [app].
  rewrite IH by (done || by rewrite <-(assoc_L (++))). by rewrite <-(assoc_L (++)).
Qed.

(** *** The start line is one line *)

Lemma plain_line s : plain [CR; LF] s = true → one_line s = true ∧ utf8_valid s = true.
Proof.
  intros Hs. split; [|by apply is_ascii_utf8, (plain_ascii [CR; LF])].
  revert Hs. apply plain_avoids. by intros a Ha%bool_decide_eq_true.
Qed.

Lemma byte_plain (p : byte → bool) s :
  (∀ a, p a = true → is_ascii_byte a = true ∧ a ≠ CR ∧ a ≠ LF) →
  str_forall p s = true → plain [CR; LF] s = true.
Proof.
  intros Hp. apply str_forall_impl. intros a (-> & H1 & H2)%Hp. cbn [andb].
  apply negb_true_iff, bool_decide_eq_false. set_solver.
Qed.

Lemma alnum_plain a :
  is_ascii_alphanumeric a = true → is_ascii_byte a = true ∧ a ≠ CR ∧ a ≠ LF.
Proof. intros Ha. split; [by apply alnum_ascii|]. by split; intros ->. Qed.

Lemma alnum_or_plain l a :
  forallb (λ b, is_ascii_byte b && negb (byte_in [CR; LF] b)) l = true →
  is_ascii_alphanumeric a || byte_in l a = true → is_ascii_byte a = true ∧ a ≠ CR ∧ a ≠ LF.
Proof.
  intros Hl [Ha|Ha%bool_decide_eq_true]%orb_prop; [by apply alnum_plain|].
  eapply forallb_elem in Hl; [|exact Ha]. apply andb_prop in Hl as [-> Hb].
  apply negb_true_iff, bool_decide_eq_false in Hb. set_solver.
Qed.

Lemma digit_alnum a : is_ascii_digit a = true → is_ascii_alphanumeric a = true.
Proof. unfold is_ascii_alphanumeric. intros ->. by rewrite orb_true_r. Qed.

Lemma dec_crlf n : plain [CR; LF] (dec n) = true.
Proof. apply dec_plain. intros a Ha. each_of Ha by done. Qed.

Lemma show_port_plain p : plain [CR; LF] (show_port p) = true.
Proof. destruct p; [|done]. cbn [show_port]. by rewrite plain_app, dec_crlf. Qed.

Lemma params_plain ps : forallb param_ok ps = true → plain [CR; LF] (show_params ps) = true.
Proof. intros Hps. apply (plain_sub core_delims); [set_solver|by apply plain_params]. Qed.

Lemma scheme_plain t : scheme_is_valid t = true → plain [CR; LF] t = true.
Proof.
  destruct t as [|a t]; [done|]. intros [Ha Ht]%andb_prop.
  assert (plain [CR; LF] t = true) as Hp.
  { revert Ht. apply byte_plain. intros b Hb. eapply alnum_or_plain; [|exact Hb]. done. }
  unfold plain in *. cbn [str_forall]. rewrite Hp, andb_true_r.
  destruct (alnum_plain a) as (-> & H1 & H2); [unfold is_ascii_alphanumeric; by rewrite Ha|].
  cbn [andb]. apply negb_true_iff, bool_decide_eq_false. set_solver.
Qed.

Lemma uri_plain u : uri_ok u = true → plain [CR; LF] (show_uri u) = true.
Proof.
  unfold uri_ok. destruct (scheme u) as [| | |token] eqn:Hs; intros Hu.
  1,2: rewrite sip_uri_shown by by rewrite ?Hs.
  1,2: rewrite !plain_app, Hs; apply andb_true_iff; split; [done|]; apply andb_true_iff; split; [done|];
    rewrite (plain_sub core_delims _ (uri_tail u)), andb_true_r by (set_solver || by apply uri_tail_plain);
    unfold sip_uri_ok in Hu; rewrite !andb_true_iff in Hu; destruct Hu as [[[[[[Hus Hups] _] _] _] _] _];
    unfold show_user; destruct (user u); [|done]; rewrite !plain_app, params_plain by done;
    rewrite (plain_sub [";"%char; ">"%char; SP; CR; LF]) by (set_solver || done); done.
  - unfold tel_uri_ok in Hu. rewrite !andb_true_iff in Hu. destruct Hu as [[[[Hus Hps] _] He] _].
    apply bool_decide_eq_true in He. unfold show_uri, uri_headers. rewrite Hs, He. cbn [is_tel show_uri_headers].
    rewrite !plain_app, params_plain by done. destruct (user u) as [s|]; [|done].
    apply andb_prop in Hus as [_ Hus]. assert (plain [CR; LF] s = true) as ->; [|done].
    revert Hus. apply byte_plain. intros a Ha. apply (alnum_or_plain ["+"; "-"; "."; "("; ")"]%char); [done|].
    apply orb_prop in Ha as [Ha| ->]; [by rewrite digit_alnum|by rewrite orb_true_r].
  - unfold absolute_uri_ok in Hu. rewrite !andb_true_iff, !bool_decide_eq_true in Hu.
    destruct Hu as [[[[[[[[Hv _] Hu] Hps] He] _] Hh] _] _].
    unfold show_uri, show_user, show_host, uri_headers. rewrite Hs, Hu, Hps, He.
    cbn [is_tel scheme_as_str show_uri_headers]. rewrite !plain_app, scheme_plain, show_port_plain by done.
    rewrite (plain_sub [SP; HT; CR; LF; ">"; ","]%char _ (host u)) by (set_solver || done). done.
Qed.

Lemma version_plain v : plain [CR; LF] (show_version v) = true.
Proof. unfold show_version. by rewrite !plain_app, !dec_crlf. Qed.

Lemma start_line_line l : start_line_ok l = true → line_ok (start_text l) = true.
Proof.
  intros Hl. unfold line_ok. destruct l as [l|l]; cbn [start_line_ok start_text] in *.
  - unfold request_line_ok in Hl. rewrite !andb_true_iff in Hl. destruct Hl as [[[[Hne Hm] _] Hu] _].
    rewrite !andb_true_iff.
    assert (plain [CR; LF] (method_as_str (method l) +:+ " " +:+ show_uri (request_uri l) +:+ " " +:+
      show_version (req_version l)) = true) as [H1 H2]%plain_line.
    { rewrite !plain_app, version_plain, uri_plain by done.
      rewrite (byte_plain method_byte) by (done || intros a; by apply alnum_or_plain). done. }
    split_and!; [|done|done]. by destruct (method_as_str (method l)).
  - unfold status_line_ok in Hl. rewrite !andb_true_iff in Hl. destruct Hl as [[[[[_ _] Ho] Hu] _] _].
    pose proof (plain_line _ (version_plain (resp_version l))) as [Hv1 Hv2].
    pose proof (plain_line _ (dec_crlf (status_code l))) as [Hs1 Hs2].
    rewrite !andb_true_iff. split_and!; [done| |].
    + unfold one_line in *. by rewrite !str_forall_app, Hv1, Hs1, Ho.
    + by rewrite utf8_valid_app, utf8_valid_app, utf8_valid_app, utf8_valid_app.
Qed.

(** ** Whole messages *)

Definition length_ok (m : SipMessage) : bool :=
  match Headers.get "Content-Length" (msg_headers m) with
  | Some s => bool_decide (s = dec (N.of_nat (String.length (body m))))
  | None => is_empty (body m)
  end && (N.of_nat (String.length (body m)) <=? USIZE_MAX)%N.

Definition message_ok (m : SipMessage) : bool :=
  start_line_ok (start_line m) && forallb entry_ok (headers (msg_headers m)) &&
  bool_decide (NoDup (IndexMap.keys (headers (msg_headers m)))) && length_ok m.

Lemma to_bytes_lines m :
  to_bytes m = lines (start_text (start_line m) ::
                      (row <$> (Headers.wire_order (msg_headers m) ≫= entry_pairs))) +:+
               CRLF +:+ body m.
Proof.
  unfold to_bytes. rewrite start_text_crlf, Headers.write_wire_order, entry_rows_lines, lines_cons.
  by rewrite !append_assoc.
Qed.

Lemma skip_line l ls t : line_ok l = true → skip_leading_crlf (lines (l :: ls) +:+ t) = lines (l :: ls) +:+ t.
Proof.
  rewrite lines_cons. generalize (CRLF +:+ lines ls +:+ t). intros r.
  unfold line_ok, one_line. intros [[Hne Ho]%andb_prop _]%andb_prop. destruct l as [|a l]; [done|].
  cbn in Ho. apply andb_prop in Ho as [Ha _]. apply negb_true_iff, bool_decide_eq_false in Ha.
  rewrite append_cons. cbn. assert (is_byte CR a = false) as -> by (apply bool_decide_eq_false; set_solver).
  by destruct (l +:+ r).
Qed.

Lemma trim_dec n : trim (dec n) = dec n.
Proof. apply trim_graphic, graphic_dec. Qed.

Lemma block_read l pairs rest :
  start_line_ok l = true → forallb row_ok pairs = true →
  parse_header_block (lines (start_text l :: (row <$> pairs)) +:+ CRLF +:+ rest) =
    Ok (l, foldl (λ h r, Headers.add r.1 r.2 h) Headers.new pairs, rest).
Proof.
  intros Hl Hp. set (ls := start_text l :: (row <$> pairs)).
  assert (forallb line_ok ls = true) as Hls.
  { cbn. rewrite start_line_line by done. cbn [andb]. apply forallb_forall.
    intros s (r & <- & Hr)%in_map_iff. apply row_line. rewrite forallb_forall in Hp. by apply Hp. }
  unfold parse_header_block. unfold ls. rewrite skip_line by by apply start_line_line. fold ls.
  destruct (find_boundary ls rest) as (x & -> & Hx); [done|done|]. cbn [ok_or mbind result_bind].
  rewrite <-(append_assoc x CRLF CRLF), Hx. unfold validate_header_line_endings.
  rewrite endings_lines, utf8_lines by done. cbn [mbind result_bind negb].
  unfold ls. rewrite lines_cons, start_line_read by done. cbn [ok_or mbind result_bind].
  rewrite find_crlf, strip_prefix_app.
  - change (default "" (Some ?x)) with x. unfold parse_headers. rewrite headers_loop_read; [done|done|].
    rewrite str_length_app. unfold lines.
    assert (∀ rs : list string, length rs ≤ String.length (str_concat (with_crlf <$> rs))) as Hlen.
    { induction rs as [|r rs IH]; [done|]. cbn [fmap list_fmap str_concat length].
      unfold with_crlf at 1. rewrite !str_length_app. cbn. lia. }
    specialize (Hlen (row <$> pairs)). rewrite length_fmap in Hlen. cbn. lia.
  - apply start_line_line in Hl. unfold line_ok in Hl. by apply andb_prop in Hl as [[_ ?]%andb_prop _].
Qed.

Lemma message_read m :
  message_ok m = true →
  parse_sip_message_bytes (to_bytes m) =
    Ok (mkMessage (start_line m) (mkHeaders (Headers.wire_order (msg_headers m))) (body m)).
Proof.
  unfold message_ok. rewrite !andb_true_iff, bool_decide_eq_true. intros [[[Hs He] Hnd] Hlen].
  destruct (Headers.wire_order_spec (msg_headers m)) as (Hperm & _ & _).
  set (l := Headers.wire_order (msg_headers m)) in *.
  assert (NoDup (IndexMap.keys l)) as Hnd' by (unfold IndexMap.keys in *; by rewrite Hperm).
  assert (forallb entry_ok l = true) as He'.
  { apply forallb_forall. intros e Hin. eapply forallb_elem; [exact He|].
    rewrite <-Hperm. by apply list_elem_of_In. }
  assert (forallb row_ok (l ≫= entry_pairs) = true) as Hrows.
  { apply forallb_forall. intros r Hr%list_elem_of_In. apply list_elem_of_bind in Hr as (e & Hr & Hin).
    eapply forallb_elem; [|exact Hr]. apply entry_pairs_ok. by eapply forallb_elem. }
  unfold parse_sip_message_bytes. rewrite to_bytes_lines, block_read by done. fold l.
  cbn [mbind result_bind]. unfold Headers.new. rewrite (rebuild l []) by done. cbn [app].
  assert (Headers.get "Content-Length" (mkHeaders l) =
          Headers.get "Content-Length" (msg_headers m)) as Hcl.
  { unfold Headers.get. cbn [headers]. by rewrite (IndexMap.get_perm _ l _ Hnd' Hperm). }
  unfold check_content_length, Headers.content_length. rewrite Hcl.
  unfold length_ok in Hlen. apply andb_prop in Hlen as [Hlen Hmax%N.leb_le].
  destruct (Headers.get "Content-Length" (msg_headers m)) as [s|].
  - apply bool_decide_eq_true in Hlen as ->. cbn [mbind option_bind].
    rewrite !trim_dec, !parse_uint_dec by done. cbn [ok_or mbind result_bind]. rewrite N.ltb_irrefl.
    cbn [mbind result_bind]. change (default 0%N (Some ?x)) with x. rewrite N.leb_refl, Nat2N.id, andb_true_r.
    destruct (body m) as [|a t]; [done|]. by rewrite substring_whole.
  - by destruct (body m).
Qed.
End messages.

(** C8: a message is read back as it was written.  For every well-formed message
    (start line, header rows, Content-Length that counts the body), parsing its
    bytes succeeds with the same start line, the same values of every header
    and the same body octets, and writing the result gives the same bytes. *)
Theorem message_round_trip `{U : Unicode, P : Nom} (m : SipMessage) :
  message_ok m = true →
  ∃ m', parse_sip_message_bytes (to_bytes m) = Ok m' ∧
        start_line m' = start_line m ∧ body m' = body m ∧
        (∀ name, Headers.get_all name (msg_headers m') = Headers.get_all name (msg_headers m)) ∧
        to_bytes m' = to_bytes m.
Proof.
  intros Hm. eexists. split; [by apply message_read|]. cbn [start_line body msg_headers].
  split; [done|]. split; [done|]. split.
  - intros name. unfold Headers.get_all. cbn [headers].
    unfold message_ok in Hm. rewrite !andb_true_iff, bool_decide_eq_true in Hm.
    destruct Hm as [[_ Hnd] _]. destruct (Headers.wire_order_spec (msg_headers m)) as (Hp & _ & _).
    by rewrite <-(IndexMap.get_perm (Headers.canonical_key name) _ _ Hnd (Permutation_sym Hp)).
  - unfold to_bytes. cbn [start_line body msg_headers].
    by rewrite !Headers.write_wire_order, Headers.wire_order_idem.
Qed.

(** An INVITE whose headers are not in wire order. *)
Definition sample_written : SipMessage :=
  mkMessage (Request (mkRequestLine Invite sample_uri sip_2_0))
    (Headers.set "Content-Length" "4" (Headers.add "v" "SIP/2.0/UDP b;branch=z9hG4bK2"
      (Headers.add "Via" "SIP/2.0/UDP a;branch=z9hG4bK1"
        (Headers.set "To" "<sip:bob@example.org>" Headers.new)))) "v=0;".

Lemma message_round_trip_witness :
  ∃ m', @parse_sip_message_bytes unicode_ascii nom_reference (to_bytes sample_written) = Ok m' ∧
        to_bytes m' = to_bytes sample_written ∧
        Headers.get_all "Via" (msg_headers m') =
          Some ["SIP/2.0/UDP a;branch=z9hG4bK1"; "SIP/2.0/UDP b;branch=z9hG4bK2"].
Proof.
  destruct (@message_round_trip unicode_ascii nom_reference sample_written)
    as (m' & Hp & _ & _ & Hg & Hb); [vm_compute; reflexivity|].
  exists m'. split; [exact Hp|]. split; [exact Hb|]. rewrite Hg. vm_compute. reflexivity.
Defined.
