(* ===== verification/ViaRoundTrip.v ===== *)
(** * Via and CSeq values are read back as they are written

    [Via.parse] and [CSeq.parse] invert the printers of [Via]
    ([src/src/sip/headers/via.rs], [cseq.rs]) on well-formed values. *)

From S2P Require Import Prelude Str Nom Uri Message Parser UriRoundTrip Via.

(** A word of a Via: visible characters, neither the parameter nor the value
    separator among them. *)
Definition word (s : string) : bool := graphic s && plain [";"; ","]%char s.

Lemma word_app s t : word (s +:+ t) = word s && word t.
Proof.
  unfold word, graphic. rewrite plain_app, str_forall_app.
  by destruct (str_forall is_graphic s), (str_forall is_graphic t), (plain _ s), (plain _ t).
Qed.

Lemma word_concat l : word (str_concat l) = forallb word l.
Proof. induction l as [|s l IH]; [done|]. cbn [str_concat forallb]. by rewrite word_app, IH. Qed.

Lemma word_avoids a s :
  a ∈ [";"; ","]%char → word s = true → str_forall (λ b, negb (is_byte a b)) s = true.
Proof.
  intros Ha [_ Hs]%andb_prop. revert Hs. apply plain_avoids.
  by intros b <-%bool_decide_eq_true.
Qed.

Lemma word_dec n : word (dec n) = true.
Proof.
  unfold word. rewrite graphic_dec. apply dec_plain. intros a Ha. each_of Ha by done.
Qed.

Section via.
Context {U : Unicode}.

Definition via_value_ok (v : option string) : bool :=
  match v with Some v => word v | None => true end.

Definition via_param_ok (p : param) : bool :=
  negb (is_empty p.1) && word p.1 && plain ["="%char] p.1 &&
  bool_decide (to_lowercase p.1 = p.1) && via_value_ok p.2.

Definition via_ok (v : Via.Via) : bool :=
  negb (is_empty (Via.transport v)) && word (Via.transport v) &&
  bool_decide (to_uppercase (Via.transport v) = Via.transport v) &&
  host_ok (Via.host v) && word (Via.host v) && port_ok (Via.port v) &&
  via_value_ok (Via.branch v) && via_value_ok (Via.received v) &&
  match Via.rport v with Some p => port_ok p | None => true end &&
  forallb via_param_ok (Via.other_params v) &&
  forallb (λ p : param, bool_decide (p.1 ∉ ["branch"; "received"; "rport"])) (Via.other_params v).

(** The parameters in the order they are printed. *)
Definition via_params (v : Via.Via) : list param :=
  match Via.branch v with Some b => [("branch", Some b)] | None => [] end ++
  match Via.received v with Some r => [("received", Some r)] | None => [] end ++
  match Via.rport v with Some p => [("rport", dec <$> p)] | None => [] end ++
  Via.other_params v.

Lemma show_via v :
  Via.show v = ("SIP/2.0/" +:+ Via.transport v) +:+ " " +:+
    ((Via.host v +:+ show_port (Via.port v)) +:+ show_params (via_params v)).
Proof.
  unfold Via.show, via_params, show_params.
  rewrite !fmap_app, !str_concat_app.
  by destruct (Via.branch v), (Via.received v), (Via.rport v) as [[p|]|]; cbn;
    autorewrite with str.
Qed.

Lemma via_param_known n v :
  n ∈ ["branch"; "received"; "rport"] → via_param_ok (n, v) = via_value_ok v.
Proof. intros Hn. each_of Hn by reflexivity. Qed.

Lemma via_params_ok v : via_ok v = true → forallb via_param_ok (via_params v) = true.
Proof.
  unfold via_ok, via_params. rewrite !andb_true_iff.
  intros [[[[[_ Hb] Hr] Hp] Ho] _]. rewrite !forallb_app, Ho.
  destruct (Via.branch v), (Via.received v), (Via.rport v) as [[p|]|]; cbn [forallb fmap option_fmap option_map];
    repeat (rewrite via_param_known by set_solver); cbn [via_value_ok] in *;
    rewrite ?word_dec; try rewrite Hb; try rewrite Hr; done.
Qed.

Lemma via_param_word p : via_param_ok p = true → word (show_uri_header p) = true.
Proof.
  unfold via_param_ok, show_uri_header. rewrite !andb_true_iff. intros [[[[_ Hn] _] _] Hv].
  rewrite word_app, Hn. destruct (p.2); [|done]. cbn [via_value_ok] in Hv. by rewrite word_app, Hv.
Qed.

Lemma header_param_read p : via_param_ok p = true → header_param (show_uri_header p) = p.
Proof.
  destruct p as [n v]. unfold via_param_ok, show_uri_header, header_param. cbn [fst snd].
  rewrite !andb_true_iff, bool_decide_eq_true. intros [[[[_ Hn] He] Hl] Hv].
  assert (str_forall (λ b, negb (is_byte "=" b)) n = true) as Heq.
  { revert He. apply plain_avoids. intros b <-%bool_decide_eq_true. set_solver. }
  unfold word in Hn. apply andb_prop in Hn as [Hn _]. destruct v as [v|].
  - cbn in Hv. unfold word in Hv. apply andb_prop in Hv as [Hv _].
    rewrite append_cons, append_nil_l, split_once_app by done. by rewrite !trim_graphic, Hl.
  - rewrite append_nil_r, split_once_none by done. by rewrite trim_graphic, Hl.
Qed.

Lemma params_read_back ps :
  forallb via_param_ok ps = true → header_param <$> split_params (show_params ps) = ps.
Proof.
  intros Hps. unfold split_params. rewrite split_shown.
  2: { apply Forall_forall. intros p Hp. apply word_avoids; [set_solver|].
       apply via_param_word. by eapply forallb_elem. }
  rewrite filter_cons_False by (intros H; by apply H).
  induction ps as [|p ps IH]; [done|]. cbn in Hps. apply andb_prop in Hps as [Hp Hps].
  cbn [fmap list_fmap]. rewrite filter_cons_True.
  - cbn. by rewrite header_param_read, IH.
  - pose proof (via_param_word p Hp) as Hw. unfold word in Hw. apply andb_prop in Hw as [Hw _].
    rewrite trim_graphic by done. unfold via_param_ok in Hp. unfold show_uri_header.
    by destruct (p.1).
Qed.

Lemma sent_by_read h p :
  host_ok h = true → port_ok p = true → Via.parse_sent_by (h +:+ show_port p) = Ok (h, p).
Proof.
  intros Hh Hp. unfold Via.parse_sent_by. apply orb_prop in Hh as [Hh|Hh].
  - pose proof (name_host_plain h Hh) as Hpl. unfold name_host_ok in Hh.
    assert (str_forall (λ b, negb (is_byte ":" b)) h = true) as Hc.
    { revert Hpl. apply plain_avoids. intros b <-%bool_decide_eq_true. set_solver. }
    assert (starts_with "[" (h +:+ show_port p) = false) as ->.
    { destruct h as [|a h]; [done|]. rewrite append_cons, starts_with_cons.
      cbn in Hpl. apply andb_prop in Hpl as [[_ Ha]%andb_prop _].
      apply negb_true_iff, bool_decide_eq_false in Ha. apply andb_false_iff. left.
      apply bool_decide_eq_false. set_solver. }
    destruct p as [p|]; cbn [show_port].
    + rewrite append_cons, append_nil_l, rsplit_once_app.
      * cbn in Hp. apply N.leb_le in Hp. by rewrite parse_uint_dec.
      * apply (plain_avoids _ [":"%char]); [by intros b <-%bool_decide_eq_true; set_solver|].
        apply dec_plain. by intros a ->%list_elem_of_singleton.
    + by rewrite append_nil_r, rsplit_once_none.
  - apply bracket_host in Hh as (x & -> & _ & Hx).
    rewrite append_cons, append_cons, append_nil_l, starts_with_cons. cbn [is_byte].
    change (starts_with "" _) with true. rewrite is_byte_refl. cbn [andb].
    rewrite append_assoc, append_cons, append_nil_l.
    change (String "[" (x +:+ ?y)) with (String "[" x +:+ y). rewrite split_once_app.
    + destruct p as [p|]; cbn [show_port]; [|done]. rewrite strip_prefix_app.
      cbn in Hp. apply N.leb_le in Hp. by rewrite parse_uint_dec.
    + cbn. revert Hx. apply plain_avoids. intros b <-%bool_decide_eq_true. set_solver.
Qed.

Lemma add_other_params v ps :
  forallb (λ p : param, bool_decide (p.1 ∉ ["branch"; "received"; "rport"])) ps = true →
  Via.add_params v ps = Ok (Via.mkVia (Via.transport v) (Via.host v) (Via.port v) (Via.branch v)
    (Via.received v) (Via.rport v) (Via.other_params v ++ ps)).
Proof.
  revert v. induction ps as [|[n w] ps IH]; intros v; cbn [forallb Via.add_params].
  - intros _. rewrite app_nil_r. by destruct v.
  - intros [Hn%bool_decide_eq_true Hps]%andb_prop. unfold Via.add_param.
    rewrite !decide_False by set_solver. cbn [mbind result_bind]. rewrite IH by done. cbn.
    by rewrite <-(assoc_L (++)).
Qed.

Lemma add_branch t h p b r rp o value ps :
  Via.add_params (Via.mkVia t h p b r rp o) (("branch", value) :: ps) =
    Via.add_params (Via.mkVia t h p value r rp o) ps.
Proof. reflexivity. Qed.

Lemma add_received t h p b r rp o value ps :
  Via.add_params (Via.mkVia t h p b r rp o) (("received", value) :: ps) =
    Via.add_params (Via.mkVia t h p b value rp o) ps.
Proof. reflexivity. Qed.

Lemma add_rport t h p b r rp o value ps :
  port_ok value = true →
  Via.add_params (Via.mkVia t h p b r rp o) (("rport", dec <$> value) :: ps) =
    Via.add_params (Via.mkVia t h p b r (Some value) o) ps.
Proof.
  destruct value as [n|]; [|reflexivity]. cbn [port_ok]. intros Hn%N.leb_le.
  cbn [Via.add_params fmap option_fmap option_map]. unfold Via.add_param.
  rewrite decide_False, decide_False, decide_True, parse_uint_dec by done. done.
Qed.

Lemma add_via_params v :
  match Via.rport v with Some p => port_ok p | None => true end = true →
  forallb (λ p : param, bool_decide (p.1 ∉ ["branch"; "received"; "rport"])) (Via.other_params v)
    = true →
  Via.add_params (Via.mkVia (Via.transport v) (Via.host v) (Via.port v) None None None [])
    (via_params v) = Ok v.
Proof.
  intros Hp Ho. unfold via_params.
  destruct (Via.branch v) eqn:Hb, (Via.received v) eqn:Hr, (Via.rport v) as [p|] eqn:Hrp; cbn [app];
    rewrite ?add_branch, ?add_received, ?add_rport by done;
    rewrite add_other_params by done; f_equal; destruct v; cbn in *; by subst.
Qed.

Lemma graphic_no_space s : graphic s = true → str_forall (λ a, negb (is_ascii_whitespace a)) s = true.
Proof.
  apply str_forall_impl. intros a Ha. unfold is_graphic in Ha. apply in_range_true in Ha.
  unfold is_ascii_whitespace. apply negb_true_iff, bool_decide_eq_false. intros Hin.
  repeat (apply elem_of_cons in Hin as [Hin|Hin]; [lia|]). by apply elem_of_nil in Hin.
Qed.

Definition via_sent_by (v : Via.Via) : string := Via.host v +:+ show_port (Via.port v).

Lemma via_graphic v :
  via_ok v = true →
  graphic (Via.transport v) = true ∧ word (via_sent_by v) = true ∧ via_sent_by v ≠ "" ∧
  graphic (via_sent_by v +:+ show_params (via_params v)) = true.
Proof.
  intros Hv. pose proof (via_params_ok v Hv) as Hps. unfold via_ok in Hv.
  rewrite !andb_true_iff in Hv. destruct Hv as [[[[[[[[[[_ Htw] _] Hh] Hhw] _] _] _] _] _] _].
  unfold word in Htw. apply andb_prop in Htw as [Htw _].
  assert (word (via_sent_by v) = true) as Hsent.
  { unfold via_sent_by. rewrite word_app, Hhw. destruct (Via.port v); [|done]. cbn [show_port].
    by rewrite word_app, word_dec. }
  split_and!; [done|done|unfold via_sent_by, host_ok in *; by destruct (Via.host v)|].
  unfold word, graphic in *. apply andb_prop in Hsent as [Hs _].
  rewrite str_forall_app, Hs. cbn [andb]. clear -Hps. unfold show_params.
  induction (via_params v) as [|p ps IH]; [done|]. cbn in Hps. apply andb_prop in Hps as [Hp Hps].
  cbn [fmap list_fmap str_concat]. rewrite str_forall_app, IH, andb_true_r by done.
  rewrite show_param_eq, str_forall_app. apply via_param_word in Hp. unfold word, graphic in Hp.
  apply andb_prop in Hp as [-> _]. done.
Qed.

Lemma via_trim v : via_ok v = true → trim (Via.show v) = Via.show v.
Proof.
  intros Hv. destruct (via_graphic v Hv) as (Ht & _ & Hne & Hg). rewrite show_via.
  apply trim_between; [|done|done| |]; fold (via_sent_by v).
  - unfold graphic in *. by rewrite str_forall_app, Ht.
  - done.
  - by destruct (via_sent_by v).
Qed.

Lemma via_read v : via_ok v = true → Via.parse (Via.show v) = Ok v.
Proof.
  intros Hv. pose proof (via_params_ok v Hv) as Hps. pose proof (via_trim v Hv) as Htrim.
  destruct (via_graphic v Hv) as (Htw & Hsent & _ & Hg). unfold via_ok in Hv.
  rewrite !andb_true_iff, bool_decide_eq_true in Hv.
  destruct Hv as [[[[[[[[[[_ _] Htu] Hh] _] Hp] _] _] Hrp] _] Ho].
  unfold Via.parse. rewrite Htrim, show_via. fold (via_sent_by v).
  set (sent := via_sent_by v) in *.
  rewrite append_assoc, strip_prefix_app. cbn [ok_or mbind result_bind].
  unfold split_once_by. rewrite append_cons, append_nil_l, break_stop.
  3: done.
  2: by apply graphic_no_space.
  cbn [ok_or mbind result_bind]. rewrite Htu, trim_start_graphic by done.
  assert (break (is_byte ";") (sent +:+ show_params (via_params v)) =
          (sent, show_params (via_params v))) as ->.
  { apply word_avoids with (a := ";"%char) in Hsent; [|set_solver].
    destruct (via_params v) as [|p ps]; [by rewrite append_nil_r, break_none|].
    change (show_params (p :: ps)) with (String ";" (show_uri_header p +:+ show_params ps)).
    by rewrite break_stop. }
  unfold word in Hsent. apply andb_prop in Hsent as [Hs _]. rewrite trim_graphic by done.
  unfold sent, via_sent_by. rewrite sent_by_read by done. cbn [mbind result_bind].
  assert ((if is_empty (show_params (via_params v)) then []
           else header_param <$> split_params (show_params (via_params v))) = via_params v) as ->.
  { rewrite params_read_back by done. by destruct (via_params v). }
  by apply add_via_params.
Qed.
(** A method whose name is a visible word that reads back as itself. *)
Definition method_ok (m : Method) : bool :=
  negb (is_empty (method_as_str m)) && graphic (method_as_str m) &&
  bool_decide (method_from_str (method_as_str m) = m).

Lemma cseq_read c :
  (CSeq.sequence c ≤ U32_MAX)%N → method_ok (CSeq.cseq_method c) = true →
  CSeq.parse (CSeq.show c) = Ok c.
Proof.
  unfold method_ok. rewrite !andb_true_iff, bool_decide_eq_true. intros Hs [[Hne Hg] Hm].
  unfold CSeq.parse, CSeq.show. rewrite trim_between; [|apply graphic_dec|apply dec_not_empty|done|done|].
  2: by destruct (method_as_str _).
  unfold split_once_by. rewrite append_cons, append_nil_l, break_stop.
  - cbn [ok_or mbind result_bind]. rewrite !trim_graphic by (done || apply graphic_dec).
    rewrite parse_uint_dec by done. cbn [ok_or mbind result_bind]. rewrite Hm. by destruct c.
  - apply graphic_no_space, graphic_dec.
  - done.
Qed.
End via.

(** The values that identify a transaction are read back as they are
    written: a Via value with its parameters in any combination (branch,
    received, rport with and without a value, extensions), and a CSeq. *)
Theorem via_cseq_round_trip `{U : Unicode} (v : Via.Via) (c : CSeq.CSeq) :
  via_ok v = true → (CSeq.sequence c ≤ U32_MAX)%N → method_ok (CSeq.cseq_method c) = true →
  Via.parse (Via.show v) = Ok v ∧ CSeq.parse (CSeq.show c) = Ok c.
Proof. intros Hv Hs Hm. split; [by apply via_read|by apply cseq_read]. Qed.

Definition sample_via : Via.Via :=
  Via.mkVia "TLS" "[2001:db8::1]" (Some 5061%N) (Some "z9hG4bK77") (Some "192.0.2.7") (Some None)
    [("alias", None); ("x", Some "a=b")].

Lemma via_cseq_round_trip_witness :
  Via.show sample_via =
    "SIP/2.0/TLS [2001:db8::1]:5061;branch=z9hG4bK77;received=192.0.2.7;rport;alias;x=a=b" ∧
  @Via.parse unicode_ascii (Via.show sample_via) = Ok sample_via ∧
  @CSeq.parse unicode_ascii "4711 INVITE" = Ok (CSeq.mkCSeq 4711 Invite).
Proof.
  split; [vm_compute; reflexivity|].
  apply (@via_cseq_round_trip unicode_ascii sample_via (CSeq.mkCSeq 4711 Invite));
    [vm_compute; reflexivity|vm_compute; discriminate|vm_compute; reflexivity].
Defined.
