(* ===== verification/NameAddr.v ===== *)
(** * Name-addr values ([src/src/sip/headers/nameaddr.rs])

    The typed From, To and Contact values.  The [q] parameter is an [f32]; its
    two conversions are an interface ([Float32]). *)

From S2P Require Import Prelude Str Nom Headers Uri Message Parser Via.

Class Float32 := {
  f32 : Type;
  f32_parse : string → option f32;
  f32_show : f32 → string;
}.

(** Whole numbers only: an instance that runs. *)
Definition float_whole : Float32 := {|
  f32 := N;
  f32_parse := parse_uint U8_MAX;
  f32_show := dec;
|}.

Module NameAddr.
Section name_addr.
Context {U : Unicode} {P : Nom} {F : Float32}.

Record NameAddr := mkNameAddr {
  display_name : option string;
  uri : SipUri;
  tag : option string;
  q : option f32;
  expires : option N;   (* u32 *)
  other_params : list param;
}.

Inductive NameAddrError := MissingGt | BadUri (e : ParseError).

Definition strip_quotes (s : string) : string :=
  let s := trim s in
  default s (t ← strip_prefix (String DQUOTE "") s; strip_suffix_byte DQUOTE t).

(** The header-level parameters read so far: [tag], [q], [expires] and the
    rest. *)
Record params_read := mkRead {
  r_tag : option string;
  r_q : option f32;
  r_expires : option N;
  r_other : list param;
}.

(** The match on the lowered name [key]; [p] is what is kept of a parameter that
    is none of the three. *)
Definition read_param (r : params_read) (key : string) (value : option string) (p : param)
    : params_read :=
  if decide (key = "tag") then mkRead value (r_q r) (r_expires r) (r_other r) else
  if decide (key = "q") then mkRead (r_tag r) (value ≫= f32_parse) (r_expires r) (r_other r) else
  if decide (key = "expires") then
    mkRead (r_tag r) (r_q r) (value ≫= parse_uint U32_MAX) (r_other r)
  else mkRead (r_tag r) (r_q r) (r_expires r) (r_other r ++ [p]).

Definition with_params (u : SipUri) (ps : list param) : SipUri :=
  mkUri (scheme u) (user u) (host u) (port u) ps (extras u).

Definition parse (input : string) : result NameAddrError NameAddr :=
  let input := trim input in
  match split_once "<" input with
  | Some (before, after) =>
      let display := trim before in
      let display_name := if is_empty display then None else Some (strip_quotes display) in
      '(uri_str, rest) ← ok_or MissingGt (split_once ">" after);
      let params_str := trim rest in
      uri ← map_err BadUri (parse_uri_standalone uri_str);
      let r := foldl (λ r s, let p := header_param s in read_param r p.1 p.2 p)
                 (mkRead None None None []) (split_params params_str) in
      Ok (mkNameAddr display_name uri (r_tag r) (r_q r) (r_expires r) (r_other r))
  | None =>
      uri ← map_err BadUri (parse_uri_standalone input);
      let r := foldl (λ r p, read_param r (to_lowercase p.1) p.2 p)
                 (mkRead None None None []) (params uri) in
      Ok (mkNameAddr None (with_params uri (r_other r)) (r_tag r) (r_q r) (r_expires r) [])
  end.

(** The loop over the characters: [part] is the text since the last comma. *)
Fixpoint split_commas (depth : N) (part input : string) : list string :=
  let push l := if is_empty (trim part) then l else trim part :: l in
  match input with
  | "" => push []
  | String a rest =>
      if is_byte "<" a then split_commas (depth + 1) (part +:+ String a "") rest else
      if is_byte ">" a then split_commas (depth - 1) (part +:+ String a "") rest else
      if is_byte "," a && (depth =? 0)%N then push (split_commas depth "" rest) else
      split_commas depth (part +:+ String a "") rest
  end.

Definition split_comma_respecting_angles : string → list string := split_commas 0 "".

Definition parse_multi (input : string) : result NameAddrError (list NameAddr) :=
  if decide (trim input = "*") then Ok [] else
  result_mapM parse (split_comma_respecting_angles input).

Definition show (n : NameAddr) : string :=
  match display_name n with
  | Some d => String DQUOTE d +:+ String DQUOTE " "
  | None => ""
  end +:+
  "<" +:+ show_uri (uri n) +:+ ">" +:+
  match tag n with Some t => ";tag=" +:+ t | None => "" end +:+
  match q n with Some x => ";q=" +:+ f32_show x | None => "" end +:+
  match expires n with Some e => ";expires=" +:+ dec e | None => "" end +:+
  show_params (other_params n).

Definition with_tag (n : NameAddr) (t : string) : NameAddr :=
  mkNameAddr (display_name n) (uri n) (Some t) (q n) (expires n) (other_params n).

End name_addr.

Inductive ContactWildcard := Absent | RemoveAll | Invalid.

Definition contact_wildcard (contact_values : list string) (expires : option string)
    : ContactWildcard :=
  let entries := contact_values ≫= split_comma_respecting_angles in
  if negb (bool_decide ("*" ∈ entries)) then Absent
  else if bool_decide (length entries = 1) &&
          bool_decide ((s ← expires; parse_uint U32_MAX (trim s)) = Some 0%N)
  then RemoveAll
  else Invalid.

End NameAddr.
