(* ===== verification/Route.v ===== *)
(** * Route and Record-Route values ([src/src/sip/headers/route.rs])

    Route entries as the proxy reads and writes them, and the route entries a
    script supplies as text ([route_parts]), which are taken apart without
    being re-serialized. *)

From S2P Require Import Prelude Str Nom Headers Uri Message Via Parser NameAddr.

(** ** Entries *)

Module Route.
Section route.
Context {U : Unicode} {P : Nom}.

Record RouteEntry := mkEntry {
  uri : SipUri;
  params : list param;
}.

#[global] Instance RouteEntry_eq_dec : EqDecision RouteEntry.
Proof. solve_decision. Defined.

Inductive RouteError := MissingLt | MissingGt | BadUri (e : ParseError).

(** One header-level parameter: names keep their case. *)
Definition read_param (p : string) : param :=
  match split_once "=" p with
  | Some (n, v) => (trim n, Some (trim v))
  | None => (trim p, None)
  end.

Definition parse (input : string) : result RouteError RouteEntry :=
  let input := trim input in
  '(_, rest) ← ok_or MissingLt (split_once "<" input);
  '(uri_str, rest) ← ok_or MissingGt (split_once ">" rest);
  uri ← map_err BadUri (parse_uri_standalone uri_str);
  let after := trim rest in
  let params := if is_empty after then [] else read_param <$> split_params after in
  Ok (mkEntry uri params).

(** The file has its own copy of the function of [nameaddr.rs]. *)
Definition split_comma_respecting_angles : string → list string :=
  NameAddr.split_comma_respecting_angles.

Definition parse_multi (input : string) : result RouteError (list RouteEntry) :=
  result_mapM parse (split_comma_respecting_angles input).

Definition is_loose_route (e : RouteEntry) : bool :=
  existsb (λ p : Uri.param, bool_decide (p.1 = "lr")) (Uri.params (uri e)).

Definition show (e : RouteEntry) : string :=
  "<" +:+ show_uri (uri e) +:+ ">" +:+ show_params (params e).

Definition format_route_header (entries : list RouteEntry) : string :=
  join ", " (show <$> entries).

(** ** Entries supplied as text *)

Record RouteParts := mkParts {
  display_name : string;
  part_uri : string;
  parameters : string;
}.

Inductive PartsError :=
  | EmptyRoute | NoOpen | NoClose | TextAfter | NotUri (e : ParseError) | NotSip.

Definition route_uri (uri : string) : result PartsError string :=
  parsed ← map_err NotUri (parse_uri_complete uri);
  if negb (is_sip_family (scheme parsed)) || is_empty (host parsed) then Err NotSip else Ok uri.

Definition BACKSLASH : byte := "092".

(** The text before the first [needle] outside a quoted string, and the text
    after it. *)
Fixpoint find_unquoted (needle : byte) (quoted escaped : bool) (input : string)
    : option (string * string) :=
  match input with
  | "" => None
  | String a rest =>
      let next q e := '(x, y) ← find_unquoted needle q e rest; Some (String a x, y) in
      if escaped then next quoted false else
      if quoted && is_byte BACKSLASH a then next quoted true else
      if is_byte DQUOTE a then next (negb quoted) false else
      if negb quoted && is_byte needle a then Some ("", rest) else
      next quoted false
  end.

(** The loop of [split_route_entries]: [part] is the text since the last
    separator. *)
Fixpoint split_entries (quoted escaped bracketed : bool) (part input : string) : list string :=
  match input with
  | "" => [trim part]
  | String a rest =>
      let next q e b := split_entries q e b (part +:+ String a "") rest in
      if escaped then next quoted false bracketed else
      if is_byte BACKSLASH a && quoted then next quoted true bracketed else
      if is_byte DQUOTE a && negb bracketed then next (negb quoted) false bracketed else
      if quoted then next quoted false bracketed else
      if is_byte "<" a then next quoted false true else
      if is_byte ">" a then next quoted false false else
      if is_byte "," a && negb bracketed
      then trim part :: split_entries quoted false bracketed "" rest
      else next quoted false bracketed
  end.

Definition split_route_entries (input : string) : list string :=
  filter (λ s, s ≠ "") (split_entries false false false "" input).

Definition entry_parts (entry : string) : result PartsError RouteParts :=
  '(before, after) ← ok_or NoOpen (find_unquoted "<" false false entry);
  '(inside, rest) ← ok_or NoClose (split_once ">" after);
  let parameters := trim rest in
  if negb (is_empty parameters) && negb (starts_with ";" parameters) then Err TextAfter else
  uri ← route_uri (trim inside);
  Ok (mkParts (trim before) uri parameters).

Definition route_parts (value : string) : result PartsError (list RouteParts) :=
  let value := trim value in
  if is_empty value then Err EmptyRoute else
  if negb (contains "<" value) then
    uri ← route_uri value; Ok [mkParts "" uri ""]
  else result_mapM entry_parts (split_route_entries value).

End route.
End Route.
