(* ===== verification/Transport.v ===== *)
(** * Transports, connections and holds
    ([src/src/transport/mod.rs], [src/src/transport/hold.rs])

    The identifiers the transaction layer keeps of the hop a request went to,
    and the counters that keep a connection open while transactions are pending
    on it. *)

From S2P Require Import Prelude Str.

Inductive IpAddr := V4 (bits : N) | V6 (bits : N).

Record SocketAddr := mkSocket { ip : IpAddr; ip_port : N (* u16 *) }.

#[export] Instance IpAddr_eq_dec : EqDecision IpAddr.
Proof. solve_decision. Defined.
#[export] Instance SocketAddr_eq_dec : EqDecision SocketAddr.
Proof. solve_decision. Defined.

(** ** Textual addresses ([std::net])

    [IpAddr::from_str]: a reader takes what it recognises off the front of the
    text, or nothing at all. *)
Module Ip.

Definition reader (A : Type) : Type := string → option (A * string).

Definition digit_of (radix : N) (a : byte) : option N :=
  let d := if is_ascii_digit a then Some (code a - 48)%N
           else if is_ascii_lower a then Some (code a - 87)%N
           else if is_ascii_upper a then Some (code a - 55)%N else None in
  d ← d; if (d <? radix)%N then Some d else None.

Definition given_char (a : byte) : reader unit := λ s,
  match s with String b s => if is_byte a b then Some (tt, s) else None | "" => None end.

(** The digits read so far, their number and the text left. *)
Fixpoint digits (radix result : N) (n : nat) (s : string) : N * nat * string :=
  match s with
  | String a t =>
      match digit_of radix a with
      | Some d => digits radix (result * radix + d) (S n) t
      | None => (result, n, s)
      end
  | "" => (result, n, s)
  end.

Definition read_number (radix max : N) (max_digits : nat) (zero_prefix : bool) : reader N := λ s,
  let '(v, n, rest) := digits radix 0 0 s in
  if bool_decide (max_digits < n) then None else
  if bool_decide (n = 0) then None else
  if negb zero_prefix && starts_with "0" s && bool_decide (1 < n) then None else
  if (v <=? max)%N then Some (v, rest) else None.

Definition read_separator {A} (sep : byte) (index : nat) (inner : reader A) : reader A := λ s,
  match index with
  | O => inner s
  | S _ => '(_, s) ← given_char sep s; inner s
  end.

Definition read_octet (index : nat) : reader N :=
  read_separator "." index (read_number 10 255 3 false).

Definition read_ipv4 : reader N := λ s,
  '(a, s) ← read_octet 0 s; '(b, s) ← read_octet 1 s;
  '(c, s) ← read_octet 2 s; '(d, s) ← read_octet 3 s;
  Some ((a * 256 + b) * 65536 + (c * 256 + d), s)%N.

(** Groups [i], [i + 1], ... of at most [i + left]: the groups, whether they end
    in an IPv4 address, and the text left. *)
Fixpoint read_groups (left i : nat) (s : string) : list N * bool * string :=
  match left with
  | O => ([], false, s)
  | S left' =>
      let group :=
        match read_separator ":" i (read_number 16 65535 4 true) s with
        | Some (g, s) => let '(gs, v4, s) := read_groups left' (S i) s in (g :: gs, v4, s)
        | None => ([], false, s)
        end in
      match left' with
      | O => group
      | S _ =>
          match read_separator ":" i read_ipv4 s with
          | Some (v, s) => ([v / 65536; v mod 65536]%N, true, s)
          | None => group
          end
      end
  end.

Definition groups_value (gs : list N) : N := foldl (λ v g, v * 65536 + g)%N 0%N gs.

Definition read_ipv6 : reader N := λ s,
  let '(head, head_v4, s) := read_groups 8 0 s in
  if bool_decide (length head = 8) then Some (groups_value head, s) else
  if head_v4 then None else
  '(_, s) ← given_char ":" s; '(_, s) ← given_char ":" s;
  let '(tail, _, s) := read_groups (8 - (length head + 1)) 0 s in
  Some (groups_value (head ++ replicate (8 - length head - length tail) 0%N ++ tail), s).

Definition parse (s : string) : option IpAddr :=
  match read_ipv4 s with
  | Some (v, "") => Some (V4 v)
  | Some _ => None
  | None => match read_ipv6 s with Some (v, "") => Some (V6 v) | _ => None end
  end.

End Ip.

Abbreviation ConnectionId := N (only parsing).   (* u64 *)

Module Net.

Inductive Transport := Udp | Tcp | Tls | WebSocket | WebSocketSecure | Sctp.

#[global] Instance Transport_eq_dec : EqDecision Transport.
Proof. solve_decision. Defined.

Definition label (t : Transport) : string :=
  match t with
  | Udp => "UDP" | Tcp => "TCP" | Tls => "TLS" | WebSocket => "WS"
  | WebSocketSecure => "WSS" | Sctp => "SCTP"
  end.

End Net.

(** ** Connection holds

    The shared counter map is a [gmap]; a [ConnectionHold] is the connection it
    counts for, and dropping it is [drop_hold]. *)
Module Holds.

Abbreviation ConnectionHolds := (gmap ConnectionId N) (only parsing).

Definition new : ConnectionHolds := ∅.

Definition hold (c : ConnectionId) (counts : ConnectionHolds) : ConnectionHolds :=
  <[c := (default 0 (counts !! c) + 1)%N]> counts.

Definition is_held (c : ConnectionId) (counts : ConnectionHolds) : bool :=
  bool_decide (is_Some (counts !! c)).

Definition drop_hold (c : ConnectionId) (counts : ConnectionHolds) : ConnectionHolds :=
  match counts !! c with
  | Some n =>
      let remaining := (n - 1)%N in
      if (remaining =? 0)%N then delete c counts else <[c := remaining]> counts
  | None => counts
  end.

(** How many holds there are on a connection; a stored count is never zero. *)
Definition count (c : ConnectionId) (counts : ConnectionHolds) : N := default 0%N (counts !! c).

Definition wf (counts : ConnectionHolds) : Prop := map_Forall (λ _ n, (0 < n)%N) counts.

Lemma count_hold c c' counts :
  count c' (hold c counts) = (count c' counts + if decide (c = c') then 1 else 0)%N.
Proof.
  unfold count, hold. case_decide; subst.
  - by rewrite lookup_insert_eq.
  - rewrite lookup_insert_ne by done. cbn. lia.
Qed.

Lemma count_drop_hold c c' counts :
  count c' (drop_hold c counts) = (count c' counts - if decide (c = c') then 1 else 0)%N.
Proof.
  unfold count, drop_hold. case_decide; subst.
  - destruct (counts !! c') as [n|] eqn:Hc; [|by rewrite Hc].
    destruct (N.eqb_spec (n - 1) 0).
    + rewrite lookup_delete_eq. cbn. lia.
    + by rewrite lookup_insert_eq.
  - rewrite N.sub_0_r. destruct (counts !! c) as [n|]; [|done]. case_match.
    + by rewrite lookup_delete_ne.
    + by rewrite lookup_insert_ne.
Qed.

Lemma wf_hold c counts : wf counts → wf (hold c counts).
Proof. intros Hwf. apply map_Forall_insert_2; [lia|done]. Qed.

Lemma wf_drop_hold c counts : wf counts → wf (drop_hold c counts).
Proof.
  intros Hwf. unfold drop_hold. destruct (counts !! c) as [n|] eqn:Hc; [|done].
  destruct (N.eqb_spec (n - 1) 0).
  - by apply map_Forall_delete.
  - apply map_Forall_insert_2; [lia|done].
Qed.

Lemma is_held_count c counts : wf counts → is_held c counts = true ↔ (0 < count c counts)%N.
Proof.
  intros Hwf. unfold is_held, count. rewrite bool_decide_eq_true.
  destruct (counts !! c) as [n|] eqn:Hc; cbn; split; intros H; [|by eauto| |lia].
  - by apply (Hwf c n).
  - by destruct H.
Qed.

End Holds.
