(* ===== verification/Cancel.v ===== *)
(** * The CANCEL request of an INVITE ([src/src/transaction/cancel.rs])

    Built from the INVITE as it was sent, with the fields RFC 3261 §9.1 asks to
    be the same. *)

From S2P Require Import Prelude Str Headers Uri Message.

Definition KEEP : list string :=
  ["via"; "from"; "to"; "call-id"; "cseq"; "max-forwards"; "route"; "content-length"].

Definition build_cancel_message (invite : SipMessage) (reasons : list string)
    : option SipMessage :=
  line ← match start_line invite with
         | Request rl => Some (Request (mkRequestLine Cancel (request_uri rl) (req_version rl)))
         | Response _ => None
         end;
  cseq ← Headers.cseq (msg_headers invite);
  cseq_seq ← first_word cseq;
  let h := Headers.set "CSeq" (cseq_seq +:+ " CANCEL") (msg_headers invite) in
  let h := match Headers.get_all "Via" (msg_headers invite) with
           | Some (top :: _) => Headers.set "Via" top h
           | _ => h
           end in
  let h := Headers.set "Content-Length" "0" h in
  let to_remove := filter (λ n, n ∉ KEEP) (Headers.iter h).*1 in
  let h := foldl (λ h name, Headers.remove name h) h to_remove in
  let h := foldl (λ h reason, Headers.add "Reason" reason h) h reasons in
  Some (mkMessage line h "").

(** Stripping a header block down to the fields a CANCEL keeps. *)
Lemma get_all_kept name h :
  Headers.wf h →
  Headers.get_all name
    (foldl (λ h n, Headers.remove n h) h (filter (λ n, n ∉ KEEP) (Headers.iter h).*1)) =
  if bool_decide (canonical_key name ∈ KEEP) then Headers.get_all name h else None.
Proof.
  intros Hwf. rewrite Headers.get_all_foldl_remove by done.
  destruct (decide (canonical_key name ∈ (Headers.iter h).*1)) as [Hin|Hnin].
  - rewrite (bool_decide_ext _ (canonical_key name ∉ KEEP)); [by repeat case_bool_decide|].
    rewrite list_elem_of_fmap. split.
    + intros (k & Hk & [Hkeep Hk']%list_elem_of_filter). rewrite Hk, (Headers.key_canonical h); done.
    + intros Hkeep. exists (canonical_key name). rewrite Headers.canonical_key_idem.
      split; [done|]. by apply list_elem_of_filter.
  - rewrite (Headers.get_all_None name h Hnin). by repeat case_bool_decide.
Qed.

(** The header block of the CANCEL before it is stripped. *)
Definition cancel_base (invite : SipMessage) (seq : string) : SipHeaders :=
  let h := Headers.set "CSeq" (seq +:+ " CANCEL") (msg_headers invite) in
  let h := match Headers.get_all "Via" (msg_headers invite) with
           | Some (top :: _) => Headers.set "Via" top h
           | _ => h
           end in
  Headers.set "Content-Length" "0" h.

Lemma cancel_base_wf invite seq :
  Headers.wf (msg_headers invite) → Headers.wf (cancel_base invite seq).
Proof.
  intros Hwf. unfold cancel_base. apply Headers.wf_set. repeat case_match;
    repeat apply Headers.wf_set; done.
Qed.

Lemma cancel_base_get name invite seq :
  Headers.get_all name (cancel_base invite seq) =
    if same_header_name "Content-Length" name then Some ["0"] else
    match Headers.get_all "Via" (msg_headers invite) with
    | Some (top :: _) =>
        if same_header_name "Via" name then Some [top] else
        if same_header_name "CSeq" name then Some [seq +:+ " CANCEL"]
        else Headers.get_all name (msg_headers invite)
    | _ =>
        if same_header_name "CSeq" name then Some [seq +:+ " CANCEL"]
        else Headers.get_all name (msg_headers invite)
    end.
Proof.
  unfold cancel_base. rewrite Headers.get_all_set. destruct (same_header_name _ _); [done|].
  destruct (Headers.get_all "Via" _) as [[|top vias]|]; by rewrite ?Headers.get_all_set.
Qed.

Definition cancel_headers (invite : SipMessage) (seq : string) (reasons : list string) : SipHeaders :=
  let h := cancel_base invite seq in
  let h := foldl (λ h n, Headers.remove n h) h (filter (λ n, n ∉ KEEP) (Headers.iter h).*1) in
  foldl (λ h reason, Headers.add "Reason" reason h) h reasons.

Lemma build_cancel_Some invite reasons c :
  build_cancel_message invite reasons = Some c →
  ∃ line cseq seq,
    start_line invite = Request line ∧ Headers.cseq (msg_headers invite) = Some cseq ∧
    first_word cseq = Some seq ∧
    c = mkMessage (Request (mkRequestLine Cancel (request_uri line) (req_version line)))
          (cancel_headers invite seq reasons) "".
Proof.
  unfold build_cancel_message. intros (line & Hl & (cseq & Hc & (seq & Hs & [= <-])
    %bind_Some)%bind_Some)%bind_Some.
  destruct (start_line invite) as [rl|]; [|done]. injection Hl as <-. by exists rl, cseq, seq.
Qed.

Lemma cancel_headers_get invite seq reasons name :
  Headers.wf (msg_headers invite) →
  Headers.get_all name (cancel_headers invite seq reasons) =
    if same_header_name "Reason" name then (if decide (reasons = []) then None else Some reasons)
    else if bool_decide (canonical_key name ∈ KEEP)
    then Headers.get_all name (cancel_base invite seq) else None.
Proof.
  intros Hwf. pose proof (cancel_base_wf invite seq Hwf) as Hb. unfold cancel_headers.
  rewrite Headers.get_all_foldl_add, !get_all_kept by done.
  assert (canonical_key "Reason" ∉ KEEP) as Hk by (by apply (bool_decide_unpack _)).
  rewrite (bool_decide_eq_false_2 _ Hk).
  destruct (same_header_name "Reason" name) eqn:Hr; [|done].
  apply bool_decide_eq_true in Hr. rewrite <-Hr, (bool_decide_eq_false_2 _ Hk).
  case_decide; by case_bool_decide.
Qed.

(** The CANCEL of an INVITE (RFC 3261 §9.1).  It has the INVITE's
    Request-URI, From, To, Call-ID, Route and Max-Forwards, its one Via is the
    INVITE's top Via, its CSeq has the INVITE's number and the method CANCEL, it
    has no body, it carries the given Reason values, and no other header field
    at all. *)
Theorem cancel_matches_invite (invite c : SipMessage) (reasons : list string) :
  Headers.wf (msg_headers invite) → build_cancel_message invite reasons = Some c →
  ∃ line cseq seq,
    start_line invite = Request line ∧ Headers.cseq (msg_headers invite) = Some cseq ∧
    first_word cseq = Some seq ∧
    start_line c = Request (mkRequestLine Cancel (request_uri line) (req_version line)) ∧
    body c = "" ∧
    Headers.get_all "CSeq" (msg_headers c) = Some [seq +:+ " CANCEL"] ∧
    Headers.get_all "Content-Length" (msg_headers c) = Some ["0"] ∧
    Headers.get_all "Reason" (msg_headers c) =
      (if decide (reasons = []) then None else Some reasons) ∧
    (∀ top rest, Headers.get_all "Via" (msg_headers invite) = Some (top :: rest) →
       Headers.get_all "Via" (msg_headers c) = Some [top]) ∧
    (∀ name, name ∈ ["From"; "To"; "Call-ID"; "Route"; "Max-Forwards"] →
       Headers.get_all name (msg_headers c) = Headers.get_all name (msg_headers invite)) ∧
    (∀ name, canonical_key name ∉ KEEP → same_header_name "Reason" name = false →
       Headers.get_all name (msg_headers c) = None).
Proof.
  intros Hwf (line & cseq & seq & Hl & Hc & Hs & ->)%build_cancel_Some.
  exists line, cseq, seq. cbn [start_line msg_headers body].
  split_and!; [done..| | | | | |]; intros *; rewrite ?cancel_headers_get, ?cancel_base_get by done.
  - by destruct (Headers.get_all "Via" _) as [[]|].
  - done.
  - done.
  - intros Hv. by rewrite Hv.
  - intros Hn. destruct (Headers.get_all "Via" _) as [[]|];
      repeat (apply elem_of_cons in Hn as [->|Hn]; [done|]); by apply elem_of_nil in Hn.
  - intros Hk Hr. by rewrite Hr, bool_decide_eq_false_2.
Qed.

Definition sample_invite_message : SipMessage :=
  mkMessage (Request (mkRequestLine Invite (uri_new "b") sip_2_0))
    (Headers.add "Contact" "<sip:a>" (Headers.add "CSeq" "1 INVITE"
       (Headers.add "Via" "SIP/2.0/UDP a" Headers.new))) "v=0".

Lemma cancel_matches_invite_witness :
  ∃ c, build_cancel_message sample_invite_message ["SIP ;cause=200"] = Some c ∧
       Headers.get_all "Reason" (msg_headers c) = Some ["SIP ;cause=200"].
Proof.
  eexists. split; [vm_compute; reflexivity|].
  destruct (cancel_matches_invite sample_invite_message _ ["SIP ;cause=200"]
    ltac:(repeat apply Headers.wf_add; apply Headers.wf_new) eq_refl)
    as (line & cseq & seq & _ & _ & _ & _ & _ & _ & _ & Hr & _).
  exact Hr.
Defined.
