(* ===== verification/TxState.v ===== *)
(** * Transaction state machines
    ([src/src/transaction/state.rs], [state/no_response.rs])

    The four machines of RFC 3261 §17, each a record and a [process] function
    from an event to the new state and the actions for the caller, one branch
    per arm of the source's match.  What the code reads from its environment is
    an argument: the clock of a [process] call ([now], nanoseconds of the
    monotonic clock) and the random UUID a new To-tag is made of ([uuid]).  A
    dropped [ConnectionHold] is the caller's business ([TxManager]): here a hold
    is the connection it is for. *)

From S2P Require Import Prelude Str Nom Timer Headers Uri Message Parser NameAddr Transport Cancel.

Abbreviation Instant := Z (only parsing).

(** [Instant] holds seconds as an [i64]. *)
Definition INSTANT_MIN : Z := (- 2 ^ 63) * 1000000000.

Definition checked_sub (i : Instant) (d : Timer.duration) : option Instant :=
  if decide (INSTANT_MIN ≤ i - Z.of_N d)%Z then Some (i - Z.of_N d)%Z else None.

Definition saturating_duration_since (later earlier : Instant) : Timer.duration :=
  Z.to_N (later - earlier).

(** ** Common types *)

Inductive Transport := Udp | Reliable.

#[export] Instance Transport_eq_dec : EqDecision Transport.
Proof. solve_decision. Defined.

Module TimerName.

Inductive TimerName := A | B | C | D | E | F | K | G | H | I | J | Trying100 | NoResponse.

#[global] Instance TimerName_eq_dec : EqDecision TimerName.
Proof. solve_decision. Defined.

End TimerName.

Record BranchHop := mkHop {
  destination : SocketAddr;
  hop_transport : Net.Transport;
  connection_id : ConnectionId;
  source_local_addr : option SocketAddr;
}.

Record BranchCancel := mkCancel {
  frame : bytes;
  cancel_hop : BranchHop;
}.

(** Why an ACK or a CANCEL could not be built. *)
Inductive BuildError :=
  | DoesNotParse (e : ParseError)
  | NotARequest
  | NoVia | NoFrom | NoTo | NoCallId
  | BuildFailed
  | NoHop
  | NoCSeq.

Inductive Action :=
  | SendMessage (m : SipMessage)
  | SendFrame (b : bytes)
  | SendCancel (c : BranchCancel)
  | PassToTu (m : SipMessage)
  | StartTimer (t : TimerName.TimerName) (d : Timer.duration)
  | CancelTimer (t : TimerName.TimerName)
  | Timeout
  | Terminated
  | ProtocolError (e : BuildError).

(** ** The To-tag of a server transaction *)

Definition generate_uas_to_tag (uuid : string) : string :=
  "siphon-" +:+ String.substring 0 12 uuid.

Section tag.
Context {U : Unicode} {P : Nom} {F32 : Float32}.

(** The response as it is sent and the cached tag. *)
Definition stamp_uas_to_tag (uuid : string) (response : SipMessage) (cache : option string)
    : SipMessage * option string :=
  match start_line response with
  | Request _ => (response, cache)
  | Response line =>
      if (status_code line =? 100)%N then (response, cache) else
      match Headers.to (msg_headers response) with
      | None => (response, cache)
      | Some to_value =>
          match NameAddr.parse to_value with
          | Err _ => (response, cache)
          | Ok name_addr =>
              match NameAddr.tag name_addr with
              | Some _ => (response, cache)
              | None =>
                  let tag := default (generate_uas_to_tag uuid) cache in
                  (with_headers response
                     (Headers.set "To" (NameAddr.show (NameAddr.with_tag name_addr tag))
                        (msg_headers response)),
                   Some tag)
              end
          end
      end
  end.
End tag.

(** ** Non-INVITE server transaction *)

Module Nist.

Inductive State := Trying | Proceeding | Completed | Terminated.

Inductive Event :=
  | RequestRetransmit (m : SipMessage)
  | TuProvisional (m : SipMessage)
  | TuFinal (m : SipMessage)
  | TimerJ
  | Trying100Fired.

Record Nist := mkNist {
  state : State;
  transport : Transport;
  timers : Timer.TimerConfig;
  last_response : option SipMessage;
  original_request : SipMessage;
  uas_to_tag : option string;
}.

Definition new (request : SipMessage) (tr : Transport) (c : Timer.TimerConfig)
    : Nist * list Action :=
  (mkNist Trying tr c None request None,
   if Timer.auto_100_trying c
   then [StartTimer TimerName.Trying100 (Timer.nist_auto_100_delay c (bool_decide (tr = Reliable)))]
   else []).

(** The actions that resend the last response. *)
Definition resend (t : Nist) : list Action :=
  match last_response t with Some r => [SendMessage r] | None => [] end.

Definition with_response (t : Nist) (s : State) (r : SipMessage) (tag : option string) : Nist :=
  mkNist s (transport t) (timers t) (Some r) (original_request t) tag.

Definition with_state (t : Nist) (s : State) : Nist :=
  mkNist s (transport t) (timers t) (last_response t) (original_request t) (uas_to_tag t).

Definition timer_j (t : Nist) : Timer.duration :=
  match transport t with
  | Udp => Timer.timer_j_udp (timers t)
  | Reliable => Timer.timer_j_tcp (timers t)
  end.

(** A final response from the TU; [pre] are the actions before the send. *)
Definition send_final {U : Unicode} {P : Nom} {F32 : Float32}
    (uuid : string) (t : Nist) (pre : list Action) (response : SipMessage) : Nist * list Action :=
  let '(r, tag) := stamp_uas_to_tag uuid response (uas_to_tag t) in
  let t := with_response t Completed r tag in
  if Timer.is_zero (timer_j t)
  then (with_state t Terminated, pre ++ [SendMessage r; TxState.Terminated])
  else (t, pre ++ [SendMessage r; StartTimer TimerName.J (timer_j t)]).

Definition process {U : Unicode} {P : Nom} {F32 : Float32}
    (uuid : string) (t : Nist) (e : Event) : Nist * list Action :=
  let cancel_100 := if Timer.auto_100_trying (timers t) then [CancelTimer TimerName.Trying100] else [] in
  match state t, e with
  | Trying, RequestRetransmit _ => (t, [])
  | Trying, TuProvisional response =>
      let '(r, tag) := stamp_uas_to_tag uuid response (uas_to_tag t) in
      (with_response t Proceeding r tag, cancel_100 ++ [SendMessage r])
  | Trying, TuFinal response => send_final uuid t cancel_100 response
  | Trying, Trying100Fired =>
      let trying := build_response_skeleton (original_request t) 100 "Trying" in
      (with_response t Proceeding trying (uas_to_tag t), [SendMessage trying])
  | Proceeding, RequestRetransmit _ => (t, resend t)
  | Proceeding, TuProvisional response =>
      let '(r, tag) := stamp_uas_to_tag uuid response (uas_to_tag t) in
      (with_response t Proceeding r tag, [SendMessage r])
  | Proceeding, TuFinal response => send_final uuid t [] response
  | Completed, RequestRetransmit _ => (t, resend t)
  | Completed, TimerJ => (with_state t Terminated, [TxState.Terminated])
  | _, _ => (t, [])
  end.

End Nist.

(** ** INVITE server transaction *)

Module Ist.

Inductive State := Proceeding | Completed | Confirmed | Terminated | Accepted.

Inductive Event :=
  | InviteRetransmit (m : SipMessage)
  | TuProvisional (m : SipMessage)
  | Tu2xx (m : SipMessage)
  | TuNon2xxFinal (m : SipMessage)
  | AckReceived (m : SipMessage)
  | TimerG
  | TimerH
  | TimerI.

Record Ist := mkIst {
  state : State;
  transport : Transport;
  timers : Timer.TimerConfig;
  last_response : option SipMessage;
  timer_g_interval : Timer.duration;
  uas_to_tag : option string;
}.

Definition new (tr : Transport) (c : Timer.TimerConfig) : Ist :=
  mkIst Proceeding tr c None (Timer.timer_g_initial c) None.

Definition resend (t : Ist) : list Action :=
  match last_response t with Some r => [SendMessage r] | None => [] end.

Definition with_state (t : Ist) (s : State) : Ist :=
  mkIst s (transport t) (timers t) (last_response t) (timer_g_interval t) (uas_to_tag t).

Definition timer_i (t : Ist) : Timer.duration :=
  match transport t with
  | Udp => Timer.timer_i_udp (timers t)
  | Reliable => Timer.timer_i_tcp (timers t)
  end.

Definition process {U : Unicode} {P : Nom} {F32 : Float32}
    (uuid : string) (t : Ist) (e : Event) : Ist * list Action :=
  match state t, e with
  | Proceeding, InviteRetransmit _ => (t, resend t)
  | Proceeding, TuProvisional response =>
      let '(r, tag) := stamp_uas_to_tag uuid response (uas_to_tag t) in
      (mkIst Proceeding (transport t) (timers t) (Some r) (timer_g_interval t) tag,
       [SendMessage r])
  | Proceeding, Tu2xx response =>
      let '(r, tag) := stamp_uas_to_tag uuid response (uas_to_tag t) in
      (mkIst Accepted (transport t) (timers t) (last_response t) (timer_g_interval t) tag,
       [SendMessage r; TxState.Terminated])
  | Proceeding, TuNon2xxFinal response =>
      let '(r, tag) := stamp_uas_to_tag uuid response (uas_to_tag t) in
      let start_h := StartTimer TimerName.H (Timer.timer_h (timers t)) in
      if decide (transport t = Udp) then
        let g := Timer.timer_g_initial (timers t) in
        (mkIst Completed (transport t) (timers t) (Some r) g tag,
         [SendMessage r; start_h; StartTimer TimerName.G g])
      else
        (mkIst Completed (transport t) (timers t) (Some r) (timer_g_interval t) tag,
         [SendMessage r; start_h])
  | Completed, InviteRetransmit _ => (t, resend t)
  | Completed, TimerG =>
      match last_response t with
      | Some r =>
          let g := Timer.next_retransmit (timers t) (timer_g_interval t) in
          (mkIst Completed (transport t) (timers t) (last_response t) g (uas_to_tag t),
           [SendMessage r; StartTimer TimerName.G g])
      | None => (t, [])
      end
  | Completed, TimerH =>
      (with_state t Terminated, [CancelTimer TimerName.G; Timeout; TxState.Terminated])
  | Completed, AckReceived _ =>
      let cancels := [CancelTimer TimerName.G; CancelTimer TimerName.H] in
      if Timer.is_zero (timer_i t)
      then (with_state t Terminated, cancels ++ [TxState.Terminated])
      else (with_state t Confirmed, cancels ++ [StartTimer TimerName.I (timer_i t)])
  | Confirmed, TimerI => (with_state t Terminated, [TxState.Terminated])
  | _, _ => (t, [])
  end.

End Ist.

(** ** Non-INVITE client transaction *)

(** Where the no-response timer of a client transaction stands. *)
Inductive NoResponseProgress := Off | Armed | GaveUp.

#[export] Instance NoResponseProgress_eq_dec : EqDecision NoResponseProgress.
Proof. solve_decision. Defined.

Module Nict.

Inductive State := Trying | Proceeding | Completed | Terminated.

#[global] Instance State_eq_dec : EqDecision State.
Proof. solve_decision. Defined.

Inductive Event :=
  | TimerE
  | TimerF
  | TimerK
  | Provisional (m : SipMessage)
  | FinalResponse (m : SipMessage)
  | NoResponse.

Record Nict := mkNict {
  state : State;
  transport : Transport;
  timers : Timer.TimerConfig;
  request_bytes : bytes;
  timer_e_interval : Timer.duration;
  no_response : NoResponseProgress;
  connection_hold : option ConnectionId;
}.

Definition new (request_bytes : bytes) (tr : Transport) (c : Timer.TimerConfig)
    : Nict * list Action :=
  (mkNict Trying tr c request_bytes (Timer.timer_e_initial c) Off None,
   [SendFrame request_bytes; StartTimer TimerName.F (Timer.timer_f c)] ++
   (if decide (tr = Udp) then [StartTimer TimerName.E (Timer.timer_e_initial c)] else [])).

Definition with_state (t : Nict) (s : State) : Nict :=
  mkNict s (transport t) (timers t) (request_bytes t) (timer_e_interval t) (no_response t)
    (connection_hold t).
Definition with_interval (t : Nict) (d : Timer.duration) : Nict :=
  mkNict (state t) (transport t) (timers t) (request_bytes t) d (no_response t)
    (connection_hold t).
Definition with_no_response (t : Nict) (n : NoResponseProgress) : Nict :=
  mkNict (state t) (transport t) (timers t) (request_bytes t) (timer_e_interval t) n
    (connection_hold t).

Definition hold_connection (t : Nict) (hold : ConnectionId) : Nict :=
  mkNict (state t) (transport t) (timers t) (request_bytes t) (timer_e_interval t)
    (no_response t) (Some hold).

Definition timer_k (t : Nict) : Timer.duration :=
  match transport t with
  | Udp => Timer.timer_k_udp (timers t)
  | Reliable => Timer.timer_k_tcp (timers t)
  end.

Definition timed_out (t : Nict) : Nict * list Action :=
  (with_state t Terminated, [CancelTimer TimerName.E; Timeout; TxState.Terminated]).

Definition complete (t : Nict) (response : SipMessage) : Nict * list Action :=
  let actions := [CancelTimer TimerName.E; CancelTimer TimerName.F; PassToTu response] in
  if Timer.is_zero (timer_k t)
  then (with_state t Terminated, actions ++ [TxState.Terminated])
  else (with_state t Completed, actions ++ [StartTimer TimerName.K (timer_k t)]).

Definition advance (t : Nict) (e : Event) : Nict * list Action :=
  match state t, e with
  | Trying, TimerE =>
      let d := Timer.next_retransmit (timers t) (timer_e_interval t) in
      (with_interval t d, [SendFrame (request_bytes t); StartTimer TimerName.E d])
  | Trying, TimerF => timed_out t
  | Trying, Provisional response => (with_state t Proceeding, [PassToTu response])
  | Trying, FinalResponse response => complete t response
  | Proceeding, TimerE =>
      (t, [SendFrame (request_bytes t); StartTimer TimerName.E (Timer.t2 (timers t))])
  | Proceeding, TimerF => timed_out t
  | Proceeding, Provisional response => (t, [PassToTu response])
  | Proceeding, FinalResponse response => complete t response
  | Completed, TimerK => (with_state t Terminated, [TxState.Terminated])
  | _, _ => (t, [])
  end.

Definition process (t : Nict) (e : Event) : Nict * list Action :=
  if negb (bool_decide (no_response t = Armed)) then advance t e else
  match e with
  | NoResponse =>
      let t := with_no_response t Off in
      if negb (bool_decide (state t = Trying)) then (t, []) else
      (with_state t Terminated,
       [CancelTimer TimerName.E; CancelTimer TimerName.F; Timeout; TxState.Terminated])
  | _ =>
      let '(t, actions) := advance t e in
      if negb (bool_decide (state t = Trying))
      then (with_no_response t Off, actions ++ [CancelTimer TimerName.NoResponse])
      else (t, actions)
  end.

Definition arm_no_response (t : Nict) (after : Timer.duration) : Nict * option Action :=
  if negb (bool_decide (state t = Trying)) then (t, None)
  else (with_no_response t Armed, Some (StartTimer TimerName.NoResponse after)).

End Nict.

(** ** INVITE client transaction *)

Module Ict.

Inductive State := Calling | Proceeding | Completed | Terminated.

#[global] Instance State_eq_dec : EqDecision State.
Proof. solve_decision. Defined.

Inductive Event :=
  | TimerA
  | TimerB
  | TimerC
  | TimerD
  | Provisional (m : SipMessage)
  | Response2xx (m : SipMessage)
  | ResponseNon2xx (m : SipMessage)
  | NoResponse.

Inductive CancelOutcome :=
  | SendNow (c : BranchCancel)
  | Deferred
  | NothingToSend
  | Unbuildable (e : BuildError).

Inductive CancelProgress :=
  | NotRequested
  | Waiting (c : BranchCancel)
  | Sent.

Inductive TimerCProgress := Idle | TimerCArmed | Expired.

#[global] Instance TimerCProgress_eq_dec : EqDecision TimerCProgress.
Proof. solve_decision. Defined.

Record Ict := mkIct {
  state : State;
  transport : Transport;
  timers : Timer.TimerConfig;
  request_bytes : bytes;
  timer_a_interval : Timer.duration;
  cached_ack : option bytes;
  cancel : CancelProgress;
  hop : option BranchHop;
  last_progress : option Instant;
  timer_c : TimerCProgress;
  no_response : NoResponseProgress;
  connection_hold : option ConnectionId;
}.

(** Updates of one field. *)
Definition with_state (t : Ict) (x : State) : Ict :=
  mkIct x (transport t) (timers t) (request_bytes t) (timer_a_interval t) (cached_ack t)
    (cancel t) (hop t) (last_progress t) (timer_c t) (no_response t) (connection_hold t).
Definition with_interval (t : Ict) (x : Timer.duration) : Ict :=
  mkIct (state t) (transport t) (timers t) (request_bytes t) x (cached_ack t)
    (cancel t) (hop t) (last_progress t) (timer_c t) (no_response t) (connection_hold t).
Definition with_ack (t : Ict) (x : option bytes) : Ict :=
  mkIct (state t) (transport t) (timers t) (request_bytes t) (timer_a_interval t) x
    (cancel t) (hop t) (last_progress t) (timer_c t) (no_response t) (connection_hold t).
Definition with_cancel (t : Ict) (x : CancelProgress) : Ict :=
  mkIct (state t) (transport t) (timers t) (request_bytes t) (timer_a_interval t) (cached_ack t)
    x (hop t) (last_progress t) (timer_c t) (no_response t) (connection_hold t).
Definition with_hop (t : Ict) (x : option BranchHop) : Ict :=
  mkIct (state t) (transport t) (timers t) (request_bytes t) (timer_a_interval t) (cached_ack t)
    (cancel t) x (last_progress t) (timer_c t) (no_response t) (connection_hold t).
Definition with_progress (t : Ict) (x : option Instant) : Ict :=
  mkIct (state t) (transport t) (timers t) (request_bytes t) (timer_a_interval t) (cached_ack t)
    (cancel t) (hop t) x (timer_c t) (no_response t) (connection_hold t).
Definition with_timer_c (t : Ict) (x : TimerCProgress) : Ict :=
  mkIct (state t) (transport t) (timers t) (request_bytes t) (timer_a_interval t) (cached_ack t)
    (cancel t) (hop t) (last_progress t) x (no_response t) (connection_hold t).
Definition with_no_response (t : Ict) (x : NoResponseProgress) : Ict :=
  mkIct (state t) (transport t) (timers t) (request_bytes t) (timer_a_interval t) (cached_ack t)
    (cancel t) (hop t) (last_progress t) (timer_c t) x (connection_hold t).
Definition with_hold (t : Ict) (x : option ConnectionId) : Ict :=
  mkIct (state t) (transport t) (timers t) (request_bytes t) (timer_a_interval t) (cached_ack t)
    (cancel t) (hop t) (last_progress t) (timer_c t) (no_response t) x.

Definition new (request_bytes : bytes) (tr : Transport) (c : Timer.TimerConfig)
    : Ict * list Action :=
  (mkIct Calling tr c request_bytes (Timer.timer_a_initial c) None NotRequested None None Idle
     Off None,
   [SendFrame request_bytes; StartTimer TimerName.B (Timer.timer_b c)] ++
   (if decide (tr = Udp) then [StartTimer TimerName.A (Timer.timer_a_initial c)] else [])).

Definition set_hop (t : Ict) (h : BranchHop) : Ict := with_hop t (Some h).

Definition set_connection (t : Ict) (c : ConnectionId) : Ict :=
  match hop t with
  | Some h =>
      with_hop t (Some (mkHop (destination h) (hop_transport h) c (source_local_addr h)))
  | None => t
  end.

Definition hold_connection (t : Ict) (hold : ConnectionId) : Ict := with_hold t (Some hold).

Definition cancel_is_waiting (t : Ict) : bool :=
  match cancel t with Waiting _ => true | _ => false end.

(** The CANCEL that waited, if one did. *)
Definition release_waiting_cancel (t : Ict) : Ict * option BranchCancel :=
  match cancel t with
  | Waiting c => (with_cancel t Sent, Some c)
  | _ => (t, None)
  end.

Definition drop_waiting_cancel (t : Ict) : Ict :=
  if cancel_is_waiting t then with_cancel t NotRequested else t.

Definition note_progress (now : Instant) (response : SipMessage) (t : Ict) : Ict :=
  match msg_status_code response with
  | Some s => if (101 <=? s)%N && (s <? 200)%N then with_progress t (Some now) else t
  | None => t
  end.

Definition stop_timer_c (t : Ict) : Ict * list Action :=
  if decide (timer_c t = Idle) then (t, [])
  else (with_timer_c t Idle, [CancelTimer TimerName.C]).

Definition timer_d (t : Ict) : Timer.duration :=
  match transport t with
  | Udp => Timer.timer_d_udp (timers t)
  | Reliable => Timer.timer_d_tcp (timers t)
  end.

Definition arm_no_response (t : Ict) (after : Timer.duration) : Ict * option Action :=
  if negb (bool_decide (state t = Calling)) || negb (bool_decide (no_response t = Off))
  then (t, None)
  else (with_no_response t Armed, Some (StartTimer TimerName.NoResponse after)).

Definition disarm_no_response (t : Ict) : Ict * bool :=
  if negb (bool_decide (no_response t = Armed)) then (t, false)
  else (with_no_response t Off, true).

Definition gave_up (t : Ict) : bool := bool_decide (no_response t = GaveUp).

Section ict.
Context {U : Unicode} {P : Nom}.

Definition build_ack_for_non2xx (t : Ict) (response : SipMessage)
    : result BuildError SipMessage :=
  request ← map_err DoesNotParse (parse_sip_message_bytes (request_bytes t));
  uri ← match start_line request with
        | Request line => Ok (request_uri line)
        | Response _ => Err NotARequest
        end;
  let h := msg_headers request in
  via ← ok_or NoVia (Headers.via h);
  from ← ok_or NoFrom (Headers.from h);
  to ← ok_or NoTo (match Headers.to (msg_headers response) with
                   | Some to => Some to
                   | None => Headers.to h
                   end);
  call_id ← ok_or NoCallId (Headers.call_id h);
  let cseq_num := default "1" (c ← Headers.cseq h; first_word c) in
  let b := Builder.cseq (cseq_num +:+ " ACK") (Builder.call_id call_id (Builder.to to
             (Builder.from from (Builder.via via (Builder.request Ack uri Builder.new))))) in
  let b := foldl (λ b route, Builder.header "Route" route b) b
             (default [] (Headers.get_all "Route" h)) in
  ok_or BuildFailed (Builder.build (Builder.content_length 0 (Builder.header "Max-Forwards" "70" b))).

Definition build_cancel (t : Ict) (reasons : list string) : result BuildError BranchCancel :=
  hop ← ok_or NoHop (hop t);
  invite ← map_err DoesNotParse (parse_sip_message_bytes (request_bytes t));
  cancel ← ok_or NoCSeq (build_cancel_message invite reasons);
  Ok (mkCancel (to_bytes cancel) hop).

Definition request_cancel (t : Ict) (reasons : list string) : Ict * CancelOutcome :=
  match state t, cancel t with
  | Calling, NotRequested =>
      match build_cancel t reasons with
      | Ok c => (with_cancel t (Waiting c), Deferred)
      | Err e => (t, Unbuildable e)
      end
  | Calling, _ => (t, Deferred)
  | Proceeding, NotRequested =>
      match build_cancel t reasons with
      | Ok c => (with_cancel t Sent, SendNow c)
      | Err e => (t, Unbuildable e)
      end
  | _, _ => (t, NothingToSend)
  end.

Definition timer_c_due (now : Instant) (t : Ict) : Ict * list Action :=
  match timer_c t with
  | Idle => (t, [])
  | TimerCArmed =>
      let deadline := (default now (last_progress t) + Z.of_N (Timer.timer_c (timers t)))%Z in
      let remaining := saturating_duration_since deadline now in
      if negb (Timer.is_zero remaining) then (t, [StartTimer TimerName.C remaining]) else
      let t := with_timer_c t Expired in
      let '(t, actions) :=
        match cancel t with
        | NotRequested =>
            match build_cancel t [] with
            | Ok c => (with_cancel t Sent, [SendCancel c])
            | Err e => (t, [ProtocolError e])
            end
        | _ => (t, [])
        end in
      (t, actions ++ [StartTimer TimerName.C (Timer.timer_b (timers t))])
  | Expired => (with_state t Terminated, [Timeout; TxState.Terminated])
  end.

Definition start_timer_c (now : Instant) (t : Ict) : Ict * list Action :=
  let t := match last_progress t with
           | None => with_progress t (Some (default now (checked_sub now (Timer.timer_b (timers t)))))
           | Some _ => t
           end in
  timer_c_due now (with_timer_c t TimerCArmed).

(** The no-response timer ran out. *)
Definition give_up_unanswered (t : Ict) : Ict * list Action :=
  if negb (bool_decide (no_response t = Armed)) then (t, []) else
  let t := with_no_response t GaveUp in
  let '(t, errors) :=
    match cancel t with
    | NotRequested =>
        match build_cancel t [] with
        | Ok c => (with_cancel t (Waiting c), [])
        | Err e => (t, [ProtocolError e])
        end
    | _ => (t, [])
    end in
  (t, [CancelTimer TimerName.A] ++ errors ++ [Timeout]).

(** A non-2xx final response: the ACK, and the actions up to [PassToTu]. *)
Definition acknowledge (t : Ict) (response : SipMessage) : Ict * list Action :=
  let '(t, actions) :=
    match build_ack_for_non2xx t response with
    | Ok ack => (with_ack t (Some (to_bytes ack)), [SendFrame (to_bytes ack)])
    | Err e => (t, [ProtocolError e])
    end in
  (t, actions ++ [CancelTimer TimerName.A; CancelTimer TimerName.B; PassToTu response]).

(** Timer D, or the end of the transaction where it is zero. *)
Definition finish_completed (t : Ict) : Ict * list Action :=
  if Timer.is_zero (timer_d t)
  then (with_state t Terminated, [TxState.Terminated])
  else (t, [StartTimer TimerName.D (timer_d t)]).

Definition advance (now : Instant) (t : Ict) (e : Event) : Ict * list Action :=
  match state t, e with
  | Calling, TimerA =>
      let d := Timer.next_retransmit (timers t) (timer_a_interval t) in
      (with_interval t d, [SendFrame (request_bytes t); StartTimer TimerName.A d])
  | Calling, TimerB =>
      (drop_waiting_cancel (with_state t Terminated),
       [CancelTimer TimerName.A; Timeout; TxState.Terminated])
  | Calling, NoResponse => give_up_unanswered t
  | Calling, Provisional response =>
      let t := note_progress now response (with_state t Proceeding) in
      let '(t, released) := release_waiting_cancel t in
      (t, [CancelTimer TimerName.A; PassToTu response] ++
          match released with Some c => [SendCancel c] | None => [] end)
  | Calling, Response2xx response =>
      (drop_waiting_cancel (with_state t Terminated),
       [CancelTimer TimerName.A; CancelTimer TimerName.B; PassToTu response; TxState.Terminated])
  | Calling, ResponseNon2xx response =>
      let t := drop_waiting_cancel (with_state t Completed) in
      let '(t, acked) := acknowledge t response in
      let '(t, finished) := finish_completed t in
      (t, acked ++ finished)
  | Proceeding, Provisional response => (note_progress now response t, [PassToTu response])
  | Proceeding, TimerB => start_timer_c now t
  | Proceeding, TimerC => timer_c_due now t
  | Proceeding, Response2xx response =>
      let '(t, stopped) := stop_timer_c (with_state t Terminated) in
      (t, [CancelTimer TimerName.A; CancelTimer TimerName.B; PassToTu response;
           TxState.Terminated] ++ stopped)
  | Proceeding, ResponseNon2xx response =>
      let '(t, acked) := acknowledge (with_state t Completed) response in
      let '(t, stopped) := stop_timer_c t in
      let '(t, finished) := finish_completed t in
      (t, acked ++ stopped ++ finished)
  | Completed, ResponseNon2xx _ =>
      (t, match cached_ack t with Some ack => [SendFrame ack] | None => [] end)
  | Completed, TimerD => (with_state t Terminated, [TxState.Terminated])
  | _, _ => (t, [])
  end.

Definition is_pass_to_tu (a : Action) : bool := match a with PassToTu _ => true | _ => false end.

(** An INVITE the no-response timer gave up on. *)
Definition process_given_up (now : Instant) (t : Ict) (e : Event) : Ict * list Action :=
  match state t, e with
  | Calling, TimerB | Proceeding, TimerB =>
      (drop_waiting_cancel (with_state t Terminated), [TxState.Terminated])
  | Calling, Provisional _ =>
      let '(t, released) := release_waiting_cancel (with_state t Proceeding) in
      (t, match released with
          | Some c => [SendCancel c; StartTimer TimerName.B (Timer.timer_b (timers t))]
          | None => []
          end)
  | _, (TimerA | TimerC | NoResponse | Provisional _) => (t, [])
  | _, ResponseNon2xx _ =>
      let '(t, actions) := advance now t e in
      (t, filter (λ a, negb (is_pass_to_tu a)) actions)
  | _, _ => advance now t e
  end.

Definition process (now : Instant) (t : Ict) (e : Event) : Ict * list Action :=
  match no_response t with
  | Off => advance now t e
  | GaveUp => process_given_up now t e
  | Armed =>
      let '(t, actions) := advance now t e in
      if bool_decide (no_response t = Armed) && negb (bool_decide (state t = Calling))
      then (with_no_response t Off, actions ++ [CancelTimer TimerName.NoResponse])
      else (t, actions)
  end.

End ict.
End Ict.
