(* ===== verification/ClientTx.v ===== *)
(** * Client transactions: what the machines guarantee over whole runs

    Runs of the INVITE client transaction under every sequence of timer events,
    responses and calls of the transaction user, and the guarantees RFC 3261
    asks for: when a CANCEL goes out, what is retransmitted, what the
    transaction user sees. *)

From S2P Require Import Prelude Str Nom Timer Headers Uri Message Parser NameAddr Transport Cancel TxState.

Module IctRun.
Import Ict.

#[local] Arguments build_cancel : simpl never.
#[local] Arguments build_ack_for_non2xx : simpl never.
#[local] Arguments timer_c_due : simpl never.
#[local] Arguments start_timer_c : simpl never.
#[local] Arguments stop_timer_c : simpl never.
#[local] Arguments give_up_unanswered : simpl never.
#[local] Arguments checked_sub : simpl never.
#[local] Arguments saturating_duration_since : simpl never.
#[local] Arguments Timer.is_zero : simpl never.
#[local] Arguments Timer.timer_d_udp : simpl never.
#[local] Arguments Timer.timer_d_tcp : simpl never.

(** Everything that can happen to the transaction: an event at a time of the
    clock, or a call of the transaction user. *)
Inductive Input :=
  | Ev (now : Instant) (e : Event)
  | SetHop (h : BranchHop)
  | SetConnection (c : ConnectionId)
  | HoldConnection (c : ConnectionId)
  | ArmNoResponse (after : Timer.duration)
  | DisarmNoResponse
  | RequestCancel (reasons : list string).

Inductive Output :=
  | Act (a : Action)
  | Cancelled (o : CancelOutcome).

(** Splits the helpers of a step into their branches. *)
Ltac helper_cases :=
  unfold start_timer_c, timer_c_due, stop_timer_c, give_up_unanswered, acknowledge,
    finish_completed, release_waiting_cancel, drop_waiting_cancel, note_progress;
  repeat (case_match; simplify_eq/=); try done.

Section run.
Context {U : Unicode} {P : Nom}.

Definition step (t : Ict) (i : Input) : Ict * list Output :=
  match i with
  | Ev now e => let '(t, l) := process now t e in (t, Act <$> l)
  | SetHop h => (set_hop t h, [])
  | SetConnection c => (set_connection t c, [])
  | HoldConnection c => (hold_connection t c, [])
  | ArmNoResponse d =>
      let '(t, a) := arm_no_response t d in (t, Act <$> option_list a)
  | DisarmNoResponse => ((disarm_no_response t).1, [])
  | RequestCancel reasons => let '(t, o) := request_cancel t reasons in (t, [Cancelled o])
  end.

(** The inputs of a run, each with what it made the transaction put out. *)
Fixpoint run (t : Ict) (inputs : list Input) : list (Input * list Output) :=
  match inputs with
  | [] => []
  | i :: inputs => let '(t', o) := step t i in (i, o) :: run t' inputs
  end.

(** *** The abstract machine

    What RFC 3261 §17.1.1 and §9.1 prescribe, without octets, clocks and timers:
    the phase of the transaction, what became of a request to cancel, and
    whether the no-response timer gave up on the INVITE.  Its moves put out
    signals: a CANCEL on the wire, what the transaction user is told, and the
    end of the transaction. *)

(** What an input is to the machine. *)
Inductive Kind := KProvisional | KOk | KFailure | KOther.

Inductive Signal := SCancel | STu (k : Kind) | STimeout | SEnd.

#[global] Instance Kind_eq_dec : EqDecision Kind.
Proof. solve_decision. Defined.
#[global] Instance Signal_eq_dec : EqDecision Signal.
Proof. solve_decision. Defined.

Inductive Cancel := CNone | CWaits | CSent.

Record Abs := mkAbs { phase : State; asked : Cancel; given_up : bool }.

Definition is_live (s : State) : bool :=
  match s with Calling | Proceeding => true | _ => false end.

(** A waiting CANCEL is dropped when the INVITE is over. *)
Definition dropped (c : Cancel) : Cancel := match c with CSent => CSent | _ => CNone end.

Definition is_final (k : Kind) : bool := match k with KOk | KFailure => true | _ => false end.

Inductive move : Kind → Abs → list Signal → Abs → Prop :=
  | MoveSilent k a :
      is_live (phase a) && is_final k = false → move k a [] a
  | MoveWait g :   (* a CANCEL asked for before any response waits *)
      move KOther (mkAbs Calling CNone g) [] (mkAbs Calling CWaits g)
  | MoveGiveUp c c' :   (* the no-response timer ran out *)
      c' = c ∨ c = CNone ∧ c' = CWaits →
      move KOther (mkAbs Calling c false) [STimeout] (mkAbs Calling c' true)
  | MoveFirst c :
      c ≠ CWaits →
      move KProvisional (mkAbs Calling c false) [STu KProvisional] (mkAbs Proceeding c false)
  | MoveRelease :   (* the first provisional releases the waiting CANCEL *)
      move KProvisional (mkAbs Calling CWaits false) [STu KProvisional; SCancel]
        (mkAbs Proceeding CSent false)
  | MoveFirstLate c :
      c ≠ CWaits →
      move KProvisional (mkAbs Calling c true) [] (mkAbs Proceeding c true)
  | MoveReleaseLate :
      move KProvisional (mkAbs Calling CWaits true) [SCancel] (mkAbs Proceeding CSent true)
  | MoveProvisional c :
      move KProvisional (mkAbs Proceeding c false) [STu KProvisional] (mkAbs Proceeding c false)
  | MoveSend g :
      move KOther (mkAbs Proceeding CNone g) [SCancel] (mkAbs Proceeding CSent g)
  | MoveOk s c g :
      is_live s = true →
      move KOk (mkAbs s c g) [STu KOk; SEnd] (mkAbs Terminated (dropped c) g)
  | MoveFail s c g s' :
      is_live s = true → s' = Completed ∨ s' = Terminated →
      move KFailure (mkAbs s c g)
        ((if g then [] else [STu KFailure]) ++ (if decide (s' = Terminated) then [SEnd] else []))
        (mkAbs s' (dropped c) g)
  | MoveTimeout s c g :
      is_live s = true →
      move KOther (mkAbs s c g) ((if g then [] else [STimeout]) ++ [SEnd])
        (mkAbs Terminated (dropped c) g)
  | MoveDone c g :
      move KOther (mkAbs Completed c g) [SEnd] (mkAbs Terminated c g).

(** *** The machine of the code is one *)

Definition cancel_of (t : Ict) : Cancel :=
  match cancel t with NotRequested => CNone | Waiting _ => CWaits | Sent => CSent end.

Definition abs (t : Ict) : Abs := mkAbs (state t) (cancel_of t) (gave_up t).

Definition kind_of (e : Event) : Kind :=
  match e with
  | Provisional _ => KProvisional
  | Response2xx _ => KOk
  | ResponseNon2xx _ => KFailure
  | _ => KOther
  end.

Definition signal_of (k : Kind) (a : Action) : list Signal :=
  match a with
  | SendCancel _ => [SCancel]
  | PassToTu _ => [STu k]
  | Timeout => [STimeout]
  | TxState.Terminated => [SEnd]
  | _ => []
  end.

Definition signals (k : Kind) (l : list Action) : list Signal := l ≫= signal_of k.

Lemma signals_app k l1 l2 : signals k (l1 ++ l2) = signals k l1 ++ signals k l2.
Proof. apply bind_app. Qed.

(** A waiting CANCEL waits for the first response. *)
Definition waits_ok (t : Ict) : Prop := cancel_of t = CWaits → state t = Calling.

Lemma acknowledge_spec t r :
  let '(t', l) := acknowledge t r in abs t' = abs t ∧ signals KFailure l = [STu KFailure].
Proof. unfold acknowledge. by destruct (build_ack_for_non2xx t r). Qed.

Lemma stop_timer_c_spec k t :
  let '(t', l) := stop_timer_c t in abs t' = abs t ∧ signals k l = [].
Proof. unfold stop_timer_c. by case_decide. Qed.

Lemma note_progress_abs now r t : abs (note_progress now r t) = abs t.
Proof. unfold note_progress. by repeat case_match. Qed.

Lemma abs_drop t : abs (drop_waiting_cancel t) = mkAbs (state t) (dropped (cancel_of t)) (gave_up t).
Proof.
  unfold drop_waiting_cancel, cancel_is_waiting, abs, cancel_of, gave_up.
  by destruct (cancel t) eqn:E; cbn; rewrite ?E.
Qed.

Lemma dropped_id c : c ≠ CWaits → dropped c = c.
Proof. by destruct c. Qed.

Definition refines (k : Kind) (t t' : Ict) (l : list Action) : Prop :=
  move k (abs t) (signals k l) (abs t').

Lemma refines_silent k t t' l :
  abs t' = abs t → signals k l = [] → is_live (state t) && is_final k = false →
  refines k t t' l.
Proof. unfold refines. intros -> -> Hk. by apply (MoveSilent k (abs t)). Qed.

Lemma timer_c_due_refines now t :
  state t = Proceeding → waits_ok t → gave_up t = false →
  let '(t', l) := timer_c_due now t in refines KOther t t' l.
Proof.
  intros Hs Hw Hg. unfold timer_c_due, refines, abs. rewrite Hs, Hg.
  assert (cancel_of t ≠ CWaits) as Hc by (intros Hc; specialize (Hw Hc); congruence).
  unfold cancel_of in *. destruct (timer_c t).
  - rewrite Hs, Hg. by apply MoveSilent.
  - cbv zeta. destruct (negb (Timer.is_zero _)); [rewrite Hs, Hg; by apply MoveSilent|]. cbn.
    unfold gave_up in *. destruct (cancel t) eqn:Hcn; [|done|].
    + destruct (build_cancel _ _); cbn; rewrite Hs, ?Hcn, Hg; by constructor.
    + cbn. rewrite Hs, Hcn, Hg. by apply MoveSilent.
  - cbn. change (gave_up (with_state t Terminated)) with (gave_up t). rewrite Hg.
    destruct (cancel t); [by apply (MoveTimeout _ CNone)|done|by apply (MoveTimeout _ CSent)].
Qed.

Lemma give_up_refines t :
  state t = Calling → gave_up t = false →
  let '(t', l) := give_up_unanswered t in refines KOther t t' l.
Proof.
  intros Hs Hg. unfold give_up_unanswered, refines, abs. rewrite Hs, Hg.
  destruct (negb (bool_decide _)); [rewrite Hs, Hg; by apply MoveSilent|].
  unfold cancel_of. cbn. destruct (cancel t) eqn:Hcn; cbn; rewrite ?Hs, ?Hcn.
  - destruct (build_cancel _ _); cbn; rewrite ?Hs, ?Hcn; apply MoveGiveUp; auto.
  - apply MoveGiveUp; auto.
  - apply MoveGiveUp; auto.
Qed.

Lemma finish_completed_spec t :
  state t = Completed →
  let '(t', l) := finish_completed t in
  ∃ s', (s' = Completed ∨ s' = Terminated) ∧
    abs t' = mkAbs s' (cancel_of t) (gave_up t) ∧
    signals KFailure l = if decide (s' = Terminated) then [SEnd] else [].
Proof.
  intros Hs. unfold finish_completed. destruct (Timer.is_zero (timer_d t)).
  - exists Terminated. auto.
  - exists Completed. split_and!; [auto| |done]. unfold abs. by rewrite Hs.
Qed.

(** A failure response: acknowledged, passed up, and completed. *)
Lemma advance_failure now t r :
  is_live (state t) = true → waits_ok t →
  let '(t', l) := advance now t (ResponseNon2xx r) in
  ∃ s', (s' = Completed ∨ s' = Terminated) ∧
    abs t' = mkAbs s' (dropped (cancel_of t)) (gave_up t) ∧
    signals KFailure l = [STu KFailure] ++ if decide (s' = Terminated) then [SEnd] else [].
Proof.
  intros Hl Hw. unfold advance. destruct (state t) eqn:Hs; [| |done..].
  - pose proof (acknowledge_spec (drop_waiting_cancel (with_state t Completed)) r) as Ha.
    destruct (acknowledge _ r) as [t1 l1]. destruct Ha as [Ha Hsig]. rewrite abs_drop in Ha.
    injection Ha as Hs1 Hc1 Hg1. pose proof (finish_completed_spec t1 Hs1) as Hf.
    destruct (finish_completed t1) as [t2 l2]. rewrite signals_app, Hsig.
    rewrite Hc1, Hg1 in Hf. destruct Hf as (s' & ? & ? & ->). eauto.
  - pose proof (acknowledge_spec (with_state t Completed) r) as Ha.
    destruct (acknowledge _ r) as [t1 l1]. destruct Ha as [Ha Hsig].
    pose proof (stop_timer_c_spec KFailure t1) as Hb. destruct (stop_timer_c t1) as [t2 l2].
    destruct Hb as [Hb Hsig2]. rewrite Ha in Hb. injection Hb as Hs1 Hc1 Hg1.
    pose proof (finish_completed_spec t2 Hs1) as Hf. destruct (finish_completed t2) as [t3 l3].
    rewrite !signals_app, Hsig, Hsig2. rewrite Hc1, Hg1 in Hf.
    destruct Hf as (s' & ? & -> & ->). exists s'. split_and!; [done| |done].
    f_equal. symmetry. apply (dropped_id (cancel_of t)). intros Hc%Hw. congruence.
Qed.

Lemma advance_ok now t r :
  is_live (state t) = true → waits_ok t →
  let '(t', l) := advance now t (Response2xx r) in refines KOk t t' l.
Proof.
  intros Hl Hw. unfold advance, refines. destruct (state t) eqn:Hs; [| |done..].
  - rewrite abs_drop. unfold abs. rewrite Hs. by apply (MoveOk Calling).
  - pose proof (stop_timer_c_spec KOk (with_state t Terminated)) as Ha.
    destruct (stop_timer_c _) as [t1 l1]. destruct Ha as [-> Hsig]. rewrite signals_app, Hsig.
    unfold abs. rewrite Hs. change (cancel_of (with_state t Terminated)) with (cancel_of t).
    rewrite <-(dropped_id (cancel_of t)) at 2 by (intros Hc%Hw; congruence).
    by apply (MoveOk Proceeding).
Qed.

Lemma first_provisional_refines now t r :
  state t = Calling → gave_up t = false →
  let '(t', l) := advance now t (Provisional r) in refines KProvisional t t' l.
Proof.
  intros Hs Hg. unfold advance, release_waiting_cancel, refines. rewrite Hs.
  pose proof (note_progress_abs now r (with_state t Proceeding)) as Hn.
  set (t1 := note_progress now r (with_state t Proceeding)) in *.
  unfold abs in Hn. injection Hn as Hs1 Hc1 Hg1. unfold abs. rewrite Hs, Hg.
  change (cancel_of (with_state t Proceeding)) with (cancel_of t) in Hc1. rewrite <-Hc1.
  destruct (cancel t1) eqn:Hc; cbn; unfold cancel_of; rewrite ?Hs1, ?Hc;
    change (gave_up (with_cancel t1 Sent)) with (gave_up t1); rewrite Hg1;
    change (gave_up (with_state t Proceeding)) with (gave_up t); rewrite Hg; by constructor.
Qed.

Lemma failure_refines now t r :
  is_live (state t) = true → waits_ok t → gave_up t = false →
  let '(t', l) := advance now t (ResponseNon2xx r) in refines KFailure t t' l.
Proof.
  intros Hl Hw Hg. pose proof (advance_failure now t r Hl Hw) as Hf.
  destruct (advance now t (ResponseNon2xx r)) as [t' l]. destruct Hf as (s' & Hs' & Ha & Hsig).
  unfold refines. rewrite Hsig, Ha. unfold abs. rewrite Hg. by apply (MoveFail _ _ false s').
Qed.

Lemma advance_refines now t e :
  waits_ok t → gave_up t = false →
  let '(t', l) := advance now t e in refines (kind_of e) t t' l.
Proof.
  intros Hw Hg. destruct (state t) eqn:Hs, e as [| | | |r|r|r|]; cbn [kind_of];
    try (by apply failure_refines; [rewrite Hs|..]); try (by apply advance_ok; [rewrite Hs|]);
    try (by apply first_provisional_refines);
    unfold advance; rewrite Hs;
    try (apply refines_silent; [done|done|by rewrite Hs]).
  - unfold refines. rewrite abs_drop. unfold abs. rewrite Hs.
    change (gave_up (with_state t Terminated)) with (gave_up t). rewrite Hg.
    by apply (MoveTimeout Calling _ false).
  - by apply give_up_refines.
  - unfold start_timer_c. destruct (last_progress t);
      [by apply (timer_c_due_refines now (with_timer_c t TimerCArmed))
      |by apply (timer_c_due_refines now (with_timer_c (with_progress t _) TimerCArmed))].
  - by apply timer_c_due_refines.
  - unfold refines. rewrite note_progress_abs. unfold abs. rewrite Hs, Hg. apply MoveProvisional.
  - unfold refines, abs. rewrite Hs. apply MoveDone.
  - apply refines_silent; [done|by destruct (cached_ack t)|by rewrite Hs].
Qed.

Lemma signals_no_tu s' l :
  signals KFailure l = [STu KFailure] ++ (if decide (s' = Terminated) then [SEnd] else []) →
  signals KFailure (filter (λ a, negb (is_pass_to_tu a)) l) =
    if decide (s' = Terminated) then [SEnd] else [].
Proof.
  set (is_tu s := match s with STu _ => true | _ => false end).
  assert (∀ l, signals KFailure (filter (λ a, negb (is_pass_to_tu a)) l) =
               filter (λ s, negb (is_tu s)) (signals KFailure l)) as ->.
  { clear l. induction l as [|a l IH]; [done|]. rewrite filter_cons.
    change (signals KFailure (a :: l)) with (signal_of KFailure a ++ signals KFailure l).
    rewrite filter_app, <-IH. destruct a; by case_decide. }
  intros ->. by case_decide.
Qed.

Lemma given_up_failure now t r :
  is_live (state t) = true → waits_ok t → gave_up t = true →
  let '(t', l) :=
    let '(t', l) := advance now t (ResponseNon2xx r) in
    (t', filter (λ a, negb (is_pass_to_tu a)) l) in
  refines KFailure t t' l.
Proof.
  intros Hl Hw Hg. pose proof (advance_failure now t r Hl Hw) as Hf.
  destruct (advance now t (ResponseNon2xx r)) as [t' l]. destruct Hf as (s' & Hs' & Ha & Hsig).
  unfold refines. rewrite (signals_no_tu s' l Hsig), Ha. unfold abs. rewrite Hg.
  by apply (MoveFail _ _ true s').
Qed.

Lemma given_up_refines now t e :
  waits_ok t → gave_up t = true →
  let '(t', l) := process_given_up now t e in refines (kind_of e) t t' l.
Proof.
  intros Hw Hg. unfold process_given_up.
  destruct (state t) eqn:Hs, e as [| | | |r|r|r|]; cbn [kind_of];
    try (apply refines_silent; [done|done|by rewrite Hs]);
    try (by apply advance_ok; [rewrite Hs|]);
    try (unfold advance; rewrite Hs; apply refines_silent; [done|done|by rewrite Hs]).
  - unfold refines. rewrite abs_drop. unfold abs. rewrite Hs.
    change (gave_up (with_state t Terminated)) with (gave_up t). rewrite Hg.
    by apply (MoveTimeout Calling _ true).
  - unfold release_waiting_cancel, refines, abs, cancel_of. rewrite Hs, Hg. cbn.
    destruct (cancel t) eqn:Hc; cbn; rewrite ?Hc;
      change (gave_up _) with (gave_up t); rewrite Hg; by constructor.
  - by apply (given_up_failure now t r); [rewrite Hs|..].
  - unfold refines. rewrite abs_drop. unfold abs. rewrite Hs.
    change (gave_up (with_state t Terminated)) with (gave_up t). rewrite Hg.
    by apply (MoveTimeout Proceeding _ true).
  - by apply (given_up_failure now t r); [rewrite Hs|..].
  - unfold advance. rewrite Hs. unfold refines, abs. rewrite Hs. apply MoveDone.
  - unfold advance. rewrite Hs. apply refines_silent; [done| |by rewrite Hs].
    by destruct (cached_ack t).
Qed.

Lemma process_refines now t e :
  waits_ok t → let '(t', l) := process now t e in refines (kind_of e) t t' l.
Proof.
  intros Hw. unfold process. destruct (no_response t) eqn:Hn.
  - apply advance_refines; [done|]. unfold gave_up. by rewrite Hn.
  - assert (gave_up t = false) as Hg by (unfold gave_up; by rewrite Hn).
    pose proof (advance_refines now t e Hw Hg) as Ha. destruct (advance now t e) as [t1 l1].
    destruct (bool_decide (no_response t1 = Armed)) eqn:Ha1; [|exact Ha]. cbn.
    destruct (negb _); [|exact Ha]. unfold refines in *. rewrite signals_app, app_nil_r.
    assert (abs (with_no_response t1 Off) = abs t1) as ->; [|exact Ha].
    apply bool_decide_eq_true in Ha1. unfold abs, gave_up. by rewrite Ha1.
  - apply given_up_refines; [done|]. unfold gave_up. by rewrite Hn.
Qed.

(** *** Every input *)

Definition input_kind (i : Input) : Kind :=
  match i with Ev _ e => kind_of e | _ => KOther end.

Definition output_signals (k : Kind) (o : Output) : list Signal :=
  match o with
  | Act a => signal_of k a
  | Cancelled (SendNow _) => [SCancel]
  | Cancelled _ => []
  end.

(** The signals an input put out. *)
Definition observe (x : Input * list Output) : list Signal :=
  x.2 ≫= output_signals (input_kind x.1).

Lemma observe_ev now e l : observe (Ev now e, Act <$> l) = signals (kind_of e) l.
Proof.
  unfold observe. cbn [fst snd input_kind]. induction l as [|a l IH]; [done|].
  cbn. f_equal. apply IH.
Qed.

Lemma request_cancel_refines t rs :
  let '(t', o) := request_cancel t rs in
  move KOther (abs t) (output_signals KOther (Cancelled o)) (abs t').
Proof.
  unfold request_cancel, abs, cancel_of.
  destruct (state t) eqn:Hs, (cancel t) eqn:Hc; try destruct (build_cancel t rs);
    cbn; rewrite ?Hs, ?Hc; first [apply MoveWait|apply MoveSend|by apply MoveSilent].
Qed.

Lemma step_refines t i :
  waits_ok t →
  let '(t', o) := step t i in move (input_kind i) (abs t) (observe (i, o)) (abs t').
Proof.
  intros Hw. destruct i as [now e|h|c|c|d| |rs]; cbn [step input_kind].
  - pose proof (process_refines now t e Hw) as Hr. destruct (process now t e) as [t' l].
    by rewrite observe_ev.
  - apply (MoveSilent KOther (abs t)), andb_false_r.
  - unfold set_connection. destruct (hop t); apply (MoveSilent KOther (abs t)), andb_false_r.
  - apply (MoveSilent KOther (abs t)), andb_false_r.
  - unfold arm_no_response. destruct (no_response t) eqn:Hn; rewrite ?orb_true_r;
      [|apply (MoveSilent KOther (abs t)), andb_false_r..].
    destruct (_ || _); [apply (MoveSilent KOther (abs t)), andb_false_r|].
    assert (abs (with_no_response t Armed) = abs t) as -> by (unfold abs, gave_up; by rewrite Hn).
    apply MoveSilent, andb_false_r.
  - unfold disarm_no_response. destruct (bool_decide (no_response t = Armed)) eqn:Hn;
      cbn [negb fst]; [|apply (MoveSilent KOther (abs t)), andb_false_r].
    apply bool_decide_eq_true in Hn.
    assert (abs (with_no_response t Off) = abs t) as -> by (unfold abs, gave_up; by rewrite Hn).
    apply MoveSilent, andb_false_r.
  - pose proof (request_cancel_refines t rs) as Hr. destruct (request_cancel t rs) as [t' o].
    cbn. by rewrite app_nil_r.
Qed.

Lemma move_waits k a l a' :
  move k a l a' → (asked a = CWaits → phase a = Calling) → asked a' = CWaits → phase a' = Calling.
Proof.
  intros Hm Hw. destruct Hm as [| | | | | | | | |s c g|s c g s'|s c g|]; cbn in *;
    try naive_solver; by destruct c.
Qed.

(** Of each input of a run: its kind, and the signals it put out. *)
Definition trace (t : Ict) (inputs : list Input) : list (Kind * list Signal) :=
  (λ x, (input_kind x.1, observe x)) <$> run t inputs.

(** A run of the code is a run of the abstract machine. *)
Inductive steps : Abs → list (Kind * list Signal) → Abs → Prop :=
  | steps_nil a : steps a [] a
  | steps_cons k a l a' tr a'' : move k a l a' → steps a' tr a'' → steps a ((k, l) :: tr) a''.

Lemma run_steps t inputs :
  waits_ok t → ∃ a, steps (abs t) (trace t inputs) a.
Proof.
  unfold trace. revert t.
  induction inputs as [|i inputs IH]; intros t Hw; cbn; [eexists; constructor|].
  pose proof (step_refines t i Hw) as Hm. destruct (step t i) as [t' o].
  destruct (IH t') as [a Ha]; [exact (move_waits _ _ _ _ Hm Hw)|].
  exists a. by econstructor.
Qed.

(** *** What follows for CANCELs *)

Definition cancels (l : list Signal) : nat :=
  sum_list_with (λ s, match s with SCancel => 1 | _ => 0 end) l.

(** The responses a run of the abstract machine had, and the CANCELs it put
    out. *)
Definition cancel_inv (a : Abs) (prov final : bool) (sent : nat) : Prop :=
  (asked a = CWaits → phase a = Calling) ∧ (phase a = Proceeding → prov = true) ∧
  (is_live (phase a) = true → final = false) ∧ (sent = 0 ∨ sent = 1 ∧ asked a = CSent).

Definition is_provisional (k : Kind) : bool := bool_decide (k = KProvisional).

Lemma move_cancel_inv k a l a' prov final sent :
  move k a l a' → cancel_inv a prov final sent →
  cancel_inv a' (prov || is_provisional k) (final || is_final k) (sent + cancels l) ∧
  (0 < cancels l → prov || is_provisional k = true ∧ final = false).
Proof.
  unfold cancel_inv. intros Hm (Hw & Hp & Hf & Hs).
  destruct Hm as [k a Hk|g|c c' Hc|c Hc| |c Hc| |c|g|s c g Hl|s c g s' Hl Hs'|s c g Hl|c g]; cbn in *.
  all: try (rewrite ?orb_false_r, ?orb_true_r, ?Nat.add_0_r; naive_solver lia).
  - rewrite Nat.add_0_r. split; [|lia]. split_and!; [done| | |done].
    + intros Hs'. by rewrite (Hp Hs').
    + intros Hl. rewrite Hl in Hk. by rewrite (Hf Hl).
  - destruct c; naive_solver lia.
  - destruct Hs' as [-> | ->], g, c; naive_solver lia.
  - destruct g, c; naive_solver lia.
Qed.

Lemma steps_cancels a tr a' prov final sent :
  steps a tr a' → cancel_inv a prov final sent →
  sent + sum_list_with (λ x, cancels x.2) tr ≤ 1 ∧
  ∀ before k l after, tr = before ++ (k, l) :: after → 0 < cancels l →
    prov || existsb is_provisional (before.*1 ++ [k]) = true ∧
    final || existsb is_final before.*1 = false.
Proof.
  intros Hst. revert prov final sent.
  induction Hst as [a|k a l a1 tr a2 Hm Hst IH]; intros prov final sent Hinv.
  { split; [destruct Hinv as (_ & _ & _ & Hs); cbn; lia|]. by intros []. }
  destruct (move_cancel_inv _ _ _ _ _ _ _ Hm Hinv) as [Hinv' Ho].
  destruct (IH _ _ _ Hinv') as [Hsum Hall].
  split; [rewrite <-Nat.add_assoc in Hsum; exact Hsum|].
  intros [|[k1 l1] before] k' l' after; cbn; intros [= <- <- Heq] Hc.
  - rewrite !orb_false_r. by apply Ho.
  - rewrite !orb_assoc. by eapply Hall.
Qed.

(** *** What follows for the transaction user *)

Inductive TuState := TuOpen | TuTimedOut | TuClosed | TuEnded.

(** What the transaction user may be told next: provisionals, then one final
    response or a timeout; after a timeout, still a 2xx; after the end,
    nothing. *)
Definition tu_next (q : TuState) (s : Signal) : option TuState :=
  match q, s with
  | TuEnded, _ => None
  | _, SCancel => Some q
  | TuOpen, STu KProvisional => Some TuOpen
  | TuOpen, STu (KOk | KFailure) => Some TuClosed
  | TuTimedOut, STu KOk => Some TuClosed
  | TuOpen, STimeout => Some TuTimedOut
  | _, SEnd => Some TuEnded
  | _, _ => None
  end.

Fixpoint tu_run (q : TuState) (l : list Signal) : option TuState :=
  match l with
  | [] => Some q
  | s :: l => q ← tu_next q s; tu_run q l
  end.

Definition tu_rel (a : Abs) (q : TuState) : Prop :=
  match phase a with
  | Calling | Proceeding => q = if given_up a then TuTimedOut else TuOpen
  | Completed => q = TuClosed ∨ q = TuTimedOut
  | Terminated => q = TuEnded
  end.

Lemma move_tu k a l a' q :
  move k a l a' → tu_rel a q → ∃ q', tu_run q l = Some q' ∧ tu_rel a' q'.
Proof.
  intros Hm Hq.
  destruct Hm as [k a Hk|g|c c' Hc|c Hc| |c Hc| |c|g|s c g Hl|s c g s' Hl Hs'|s c g Hl|c g];
    unfold tu_rel in *; cbn in *; subst; eauto.
  - destruct g; eauto.
  - destruct s; simplify_eq/=; destruct g; cbn; eauto.
  - destruct s; simplify_eq/=; destruct g, Hs' as [-> | ->]; cbn; eauto.
  - destruct s; simplify_eq/=; destruct g; cbn; eauto.
  - destruct Hq as [-> | ->]; cbn; eauto.
Qed.

Lemma tu_run_app q l1 l2 : tu_run q (l1 ++ l2) = tu_run q l1 ≫= λ q, tu_run q l2.
Proof.
  revert q. induction l1 as [|s l1 IH]; intros q; [done|]. cbn.
  destruct (tu_next q s); cbn; [apply IH|done].
Qed.

Lemma steps_tu a tr a' q :
  steps a tr a' → tu_rel a q → is_Some (tu_run q (tr ≫= snd)).
Proof.
  intros Hst. revert q. induction Hst as [a|k a l a1 tr a2 Hm Hst IH]; intros q Hq; [by eauto|].
  destruct (move_tu _ _ _ _ _ Hm Hq) as (q' & Hr & Hq'). cbn. rewrite tu_run_app, Hr. by apply IH.
Qed.

(** *** What goes on the wire *)

Definition frame_of (a : Action) : option bytes :=
  match a with SendFrame b => Some b | _ => None end.

(** The frames an action list sends. *)
Definition frames (l : list Action) : list bytes := omap frame_of l.

Lemma frames_app l1 l2 : frames (l1 ++ l2) = frames l1 ++ frames l2.
Proof. apply omap_app. Qed.

Lemma frames_no_tu l : frames (filter (λ a, negb (is_pass_to_tu a)) l) = frames l.
Proof.
  induction l as [|a l IH]; [done|]. rewrite filter_cons.
  case_decide as Ha; destruct a; cbn; try done; by f_equal.
Qed.

(** The ACK of a failure response to the INVITE sent as [rb], serialized. *)
Definition ack_frame (rb : bytes) (r : SipMessage) : option bytes :=
  to_bytes <$> ok (build_ack_for_non2xx (Ict.new rb Udp Timer.default).1 r).

Lemma ack_frame_spec t r :
  ack_frame (request_bytes t) r = to_bytes <$> ok (build_ack_for_non2xx t r).
Proof. done. Qed.

(** The parts of the state that decide what is sent. *)
Definition sending (t : Ict) : bytes * option bytes := (request_bytes t, cached_ack t).

Lemma acknowledge_frames t r :
  cached_ack t = None →
  let '(t', l) := acknowledge t r in
  sending t' = (request_bytes t, ack_frame (request_bytes t) r) ∧
  frames l = option_list (ack_frame (request_bytes t) r).
Proof.
  intros Hc. rewrite ack_frame_spec. unfold acknowledge, sending.
  destruct (build_ack_for_non2xx t r); cbn; by rewrite ?Hc.
Qed.

Lemma stop_timer_c_frames t :
  let '(t', l) := stop_timer_c t in sending t' = sending t ∧ frames l = [].
Proof. unfold stop_timer_c. by case_decide. Qed.

Lemma finish_completed_frames t :
  let '(t', l) := finish_completed t in sending t' = sending t ∧ frames l = [].
Proof. unfold finish_completed. by destruct (Timer.is_zero _). Qed.

Lemma timer_c_due_frames now t :
  let '(t', l) := timer_c_due now t in sending t' = sending t ∧ frames l = [].
Proof.
  unfold timer_c_due. destruct (timer_c t); [done| |done].
  cbv zeta. destruct (negb _); [done|]. cbn.
  destruct (cancel t); [|done..]. by destruct (build_cancel _ _).
Qed.

Lemma sending_drop t : sending (drop_waiting_cancel t) = sending t.
Proof. unfold drop_waiting_cancel. by destruct (cancel_is_waiting t). Qed.

Lemma sending_progress now r t : sending (note_progress now r t) = sending t.
Proof. unfold note_progress. by repeat case_match. Qed.

Lemma advance_failure_frames now t r :
  is_live (state t) = true → cached_ack t = None →
  let '(t', l) := advance now t (ResponseNon2xx r) in
  sending t' = (request_bytes t, ack_frame (request_bytes t) r) ∧
  frames l = option_list (ack_frame (request_bytes t) r).
Proof.
  intros Hl Hc. unfold advance. destruct (state t) eqn:Hs; [| |done..].
  - pose proof (sending_drop (with_state t Completed)) as [= Hrb Hca].
    pose proof (acknowledge_frames (drop_waiting_cancel (with_state t Completed)) r) as Ha.
    rewrite Hrb, Hca in Ha. specialize (Ha Hc). destruct (acknowledge _ r) as [t1 l1].
    pose proof (finish_completed_frames t1) as Hf. destruct (finish_completed t1) as [t2 l2].
    destruct Ha as [Ha1 Ha2], Hf as [Hf1 Hf2]. by rewrite frames_app, Hf1, Hf2, Ha1, Ha2, app_nil_r.
  - pose proof (acknowledge_frames (with_state t Completed) r Hc) as Ha.
    destruct (acknowledge _ r) as [t1 l1]. pose proof (stop_timer_c_frames t1) as Hb.
    destruct (stop_timer_c t1) as [t2 l2]. pose proof (finish_completed_frames t2) as Hf.
    destruct (finish_completed t2) as [t3 l3].
    destruct Ha as [Ha1 Ha2], Hb as [Hb1 Hb2], Hf as [Hf1 Hf2].
    by rewrite !frames_app, Hf1, Hf2, Hb1, Hb2, Ha1, Ha2, app_nil_r.
Qed.

(** The answer to a failure response: the ACK, the first time and again. *)
Lemma process_failure_frames now t r :
  (is_live (state t) = true → cached_ack t = None) →
  let '(t', l) := process now t (ResponseNon2xx r) in
  match state t with
  | Calling | Proceeding =>
      sending t' = (request_bytes t, ack_frame (request_bytes t) r) ∧
      frames l = option_list (ack_frame (request_bytes t) r)
  | Completed => sending t' = sending t ∧ frames l = option_list (cached_ack t)
  | Terminated => sending t' = sending t ∧ frames l = []
  end.
Proof.
  intros Hc.
  assert (let '(t', l) := advance now t (ResponseNon2xx r) in
    match state t with
    | Calling | Proceeding =>
        sending t' = (request_bytes t, ack_frame (request_bytes t) r) ∧
        frames l = option_list (ack_frame (request_bytes t) r)
    | Completed => sending t' = sending t ∧ frames l = option_list (cached_ack t)
    | Terminated => sending t' = sending t ∧ frames l = []
    end) as Ha.
  { destruct (state t) eqn:Hs; [by apply advance_failure_frames; [rewrite Hs|auto]..| |];
      unfold advance; rewrite Hs; [|done]. by destruct (cached_ack t). }
  unfold process. destruct (no_response t).
  - exact Ha.
  - destruct (advance now t (ResponseNon2xx r)) as [t1 l1]. destruct (_ && _); [|exact Ha].
    by rewrite frames_app, app_nil_r.
  - unfold process_given_up. destruct (state t); cbn;
      destruct (advance now t (ResponseNon2xx r)) as [t1 l1]; by rewrite frames_no_tu.
Qed.

(** Any other event: at most the INVITE again, on Timer A. *)
Definition resends (t t' : Ict) (e : Event) (l : list Action) : Prop :=
  sending t' = sending t ∧ (frames l = [] ∨ frames l = [request_bytes t] ∧ e = TimerA).

Lemma advance_other_frames now t e :
  kind_of e ≠ KFailure → let '(t', l) := advance now t e in resends t t' e l.
Proof.
  intros He. unfold advance, resends.
  destruct (state t), e as [| | | |r|r|r|]; try done; cbn; auto.
  - split; [exact (sending_drop (with_state t Terminated))|by left].
  - unfold release_waiting_cancel.
    pose proof (sending_progress now r (with_state t Proceeding)) as Hsp.
    set (t1 := note_progress _ _ _) in *. destruct (cancel t1); split; auto.
  - split; [exact (sending_drop (with_state t Terminated))|by left].
  - unfold give_up_unanswered. destruct (negb _); [by auto|]. cbn.
    destruct (cancel t); [|by auto..]. destruct (build_cancel _ _); by auto.
  - unfold start_timer_c. destruct (last_progress t);
      match goal with |- context [timer_c_due now ?x] =>
        pose proof (timer_c_due_frames now x) as Ht; destruct (timer_c_due now x) end;
      destruct Ht as [Ht1 Ht2]; auto.
  - pose proof (timer_c_due_frames now t) as Ht. destruct (timer_c_due now t).
    destruct Ht; auto.
  - split; [apply sending_progress|by left].
  - pose proof (stop_timer_c_frames (with_state t Terminated)) as Ht.
    destruct (stop_timer_c _). destruct Ht as [Ht1 Ht2]. auto.
Qed.

Lemma process_other_frames now t e :
  kind_of e ≠ KFailure → let '(t', l) := process now t e in resends t t' e l.
Proof.
  intros He. pose proof (advance_other_frames now t e He) as Ha.
  unfold process. destruct (no_response t).
  - exact Ha.
  - destruct (advance now t e) as [t1 l1]. destruct (_ && _); [|exact Ha].
    unfold resends in *. by rewrite frames_app, app_nil_r.
  - pose proof (sending_drop (with_state t Terminated)) as Hd. unfold process_given_up.
    destruct (state t), e as [| | | |r|r|r|]; try done; cbn; try exact Ha; unfold resends; auto.
    unfold release_waiting_cancel. cbn. destruct (cancel t); cbn; auto.
Qed.

(** *** Runs *)

(** The first failure response of a run. *)
Definition first_failure (inputs : list Input) : option SipMessage :=
  head (omap (λ i, match i with Ev _ (ResponseNon2xx r) => Some r | _ => None end) inputs).

Definition output_frames (o : list Output) : list bytes :=
  omap (λ x, match x with Act a => frame_of a | Cancelled _ => None end) o.

Lemma output_frames_act l : output_frames (Act <$> l) = frames l.
Proof.
  unfold output_frames, frames. induction l as [|a l IH]; [done|]. cbn.
  by destruct (frame_of a); rewrite IH.
Qed.

Definition failure_of (i : Input) : option SipMessage :=
  match i with Ev _ (ResponseNon2xx r) => Some r | _ => None end.

Lemma step_other_frames t i t' o :
  failure_of i = None → step t i = (t', o) →
  sending t' = sending t ∧
  (output_frames o = [] ∨
   output_frames o = [request_bytes t] ∧ match i with Ev _ TimerA => True | _ => False end).
Proof.
  intros Hi. destruct i as [now e|h|c|c|d| |rs]; cbn [step].
  - assert (kind_of e ≠ KFailure) as He by by destruct e.
    pose proof (process_other_frames now t e He) as Hp. destruct (process now t e) as [t1 l1].
    intros [= <- <-]. rewrite output_frames_act. destruct Hp as [? [?|[? ->]]]; auto.
  - intros [= <- <-]. auto.
  - intros [= <- <-]. unfold set_connection. destruct (hop t); auto.
  - intros [= <- <-]. auto.
  - unfold arm_no_response. destruct (_ || _); intros [= <- <-]; auto.
  - intros [= <- <-]. unfold disarm_no_response. destruct (negb _); auto.
  - unfold request_cancel. destruct (state t), (cancel t); try destruct (build_cancel t rs);
      intros [= <- <-]; auto.
Qed.

(** Which moves keep the transaction live, or make it [Completed]. *)
Lemma move_live k a l a' :
  move k a l a' → is_live (phase a') = true → is_live (phase a) = true ∧ is_final k = false.
Proof.
  intros Hm Hl. destruct Hm as [k a Hk| | | | | | | | | |s c g s' Hl' Hs'| |]; cbn in *; try done.
  - rewrite Hl in Hk. auto.
  - by destruct Hs'; subst.
Qed.

Lemma move_completed k a l a' :
  move k a l a' → phase a' = Completed →
  phase a = Completed ∨ is_live (phase a) = true ∧ k = KFailure.
Proof. intros Hm. destruct Hm; cbn; auto; done. Qed.

(** After the failure [ff], if any, the ACK of it is the one that is kept. *)
Definition frame_inv (rb : bytes) (t : Ict) (ff : option SipMessage) : Prop :=
  waits_ok t ∧ request_bytes t = rb ∧
  (is_live (state t) = true → ff = None ∧ cached_ack t = None) ∧
  (state t = Completed → is_Some ff ∧ cached_ack t = ff ≫= ack_frame rb).

(** What one input sends, where [ff] is the first failure of the run, that input
    included: the INVITE, on Timer A; the ACK of [ff], on a failure. *)
Definition sends_ok (rb : bytes) (i : Input) (o : list Output) (ff : option SipMessage)
    (ended : bool) : Prop :=
  match i with
  | Ev _ (ResponseNon2xx _) =>
      output_frames o = if ended then [] else option_list (ff ≫= ack_frame rb)
  | Ev _ TimerA => output_frames o = [] ∨ output_frames o = [rb]
  | _ => output_frames o = []
  end.

Definition first_of (ff : option SipMessage) (i : Input) : option SipMessage :=
  match ff with Some r => Some r | None => failure_of i end.

Lemma step_frame_inv rb t i ff t' o :
  frame_inv rb t ff → step t i = (t', o) → frame_inv rb t' (first_of ff i).
Proof.
  intros (Hw & Hrb & Hlive & Hcomp) Hst.
  pose proof (step_refines t i Hw) as Hm. rewrite Hst in Hm.
  destruct (failure_of i) as [r|] eqn:Hi.
  - destruct i as [now []| | | | | |]; try done. injection Hi as ->. cbn in Hst.
    pose proof (process_failure_frames now t r (λ H, proj2 (Hlive H))) as Hp.
    destruct (process now t (ResponseNon2xx r)) as [t1 l1]. injection Hst as <- <-.
    split_and!; [exact (move_waits _ _ _ _ Hm Hw)| | |].
    + by destruct (state t), Hp as [[= ? ?] _]; congruence.
    + intros Hl. by apply (move_live _ _ _ _ Hm) in Hl as [_ ?].
    + intros Hs'. destruct (move_completed _ _ _ _ Hm Hs') as [Hs|[Hl _]]; cbn in *.
      * rewrite Hs in Hp. destruct Hp as [[= _ ->] _]. destruct (Hcomp Hs) as [[r' ->] ->]. by eauto.
      * destruct (Hlive Hl) as [-> _]. split; [by eauto|]. rewrite <-Hrb. cbn.
        by destruct (state t), Hp as [[= _ ?] _].
  - destruct (step_other_frames t i t' o Hi Hst) as [[= Hrb' Hc'] _].
    assert (first_of ff i = ff) as -> by (unfold first_of; rewrite Hi; by destruct ff).
    split_and!; [exact (move_waits _ _ _ _ Hm Hw)|congruence| |]; rewrite Hc'.
    + intros Hl. apply Hlive. by apply (move_live _ _ _ _ Hm) in Hl as [? _].
    + intros Hs'. apply Hcomp. destruct (move_completed _ _ _ _ Hm Hs') as [?|[_ Hk]]; [done|].
      destruct i as [now []| | | | | |]; done.
Qed.

Lemma step_sends rb t i ff t' o :
  frame_inv rb t ff → step t i = (t', o) →
  sends_ok rb i o (first_of ff i) (bool_decide (state t = Terminated)).
Proof.
  intros (Hw & Hrb & Hlive & Hcomp) Hst. destruct (failure_of i) as [r|] eqn:Hi.
  - destruct i as [now []| | | | | |]; try done. injection Hi as ->. cbn in Hst |- *.
    pose proof (process_failure_frames now t r (λ H, proj2 (Hlive H))) as Hp.
    destruct (process now t (ResponseNon2xx r)) as [t1 l1]. injection Hst as <- <-.
    rewrite output_frames_act. destruct (state t) eqn:Hs; destruct Hp as [_ ->]; [| | |done].
    + destruct (Hlive eq_refl) as [-> _]. by rewrite <-Hrb.
    + destruct (Hlive eq_refl) as [-> _]. by rewrite <-Hrb.
    + destruct (Hcomp eq_refl) as [[r' ->] ->]. done.
  - destruct (step_other_frames t i t' o Hi Hst) as [_ Ho]. rewrite Hrb in Ho.
    destruct i as [now []| | | | | |]; cbn in *; naive_solver.
Qed.

Definition ends (x : Input * list Output) : bool := bool_decide (SEnd ∈ observe x).

Lemma move_end k a l a' :
  move k a l a' →
  bool_decide (phase a' = Terminated) = bool_decide (phase a = Terminated) || bool_decide (SEnd ∈ l).
Proof.
  intros Hm. destruct Hm as [k a Hk|g|c c' Hc|c Hc| |c Hc| |c|g|s c g Hl|s c g s' Hl Hs'|s c g Hl|c g];
    cbn; try done.
  - by rewrite orb_false_r.
  - by destruct s.
  - destruct s; try done; destruct g, Hs' as [-> | ->]; done.
  - destruct s; try done; destruct g; done.
Qed.

Lemma first_failure_cons i inputs ff :
  match ff with Some r => Some r | None => first_failure (i :: inputs) end =
  match first_of ff i with Some r => Some r | None => first_failure inputs end.
Proof.
  destruct ff; [done|]. unfold first_of, first_failure. cbn.
  destruct i as [now []| | | | | |]; done.
Qed.

Lemma run_sends rb t inputs ff before i o after :
  frame_inv rb t ff → run t inputs = before ++ (i, o) :: after →
  sends_ok rb i o (match ff with Some r => Some r | None => first_failure (before.*1 ++ [i]) end)
    (bool_decide (state t = Terminated) || existsb ends before).
Proof.
  revert t ff before. induction inputs as [|j inputs IH]; intros t ff before Hinv; cbn [run].
  { by destruct before. }
  destruct (step t j) as [t' o'] eqn:Hst.
  destruct before as [|[j1 o1] before]; cbn; intros [= <- <- Hrun].
  - pose proof (step_sends _ _ _ _ _ _ Hinv Hst) as Hs. rewrite orb_false_r.
    rewrite first_failure_cons. by destruct (first_of ff j).
  - pose proof (step_refines t j (proj1 Hinv)) as Hm. rewrite Hst in Hm.
    apply move_end in Hm. rewrite orb_assoc.
    assert (bool_decide (state t' = Terminated) =
            bool_decide (state t = Terminated) || ends (j, o')) as <- by exact Hm.
    rewrite first_failure_cons. eapply IH; [|done]. by eapply step_frame_inv.
Qed.

(** *** Timer C *)

Definition progress_of (i : Input) : option Instant :=
  match i with
  | Ev now (Provisional r) =>
      match msg_status_code r with
      | Some s => if (101 <=? s)%N && (s <? 200)%N then Some now else None
      | None => None
      end
  | _ => None
  end.

Lemma advance_timers now t e : timers (advance now t e).1 = timers t.
Proof. unfold advance. destruct (state t), e; helper_cases. Qed.

Lemma step_timers t i : timers (step t i).1 = timers t.
Proof.
  destruct i as [now e|h|c|c|d| |rs]; cbn [step].
  - pose proof (advance_timers now t e) as Ha. unfold process, process_given_up.
    destruct (no_response t), (state t), e; helper_cases; destruct (advance _ _ _); helper_cases.
  - done.
  - unfold set_connection. by destruct (hop t).
  - done.
  - unfold arm_no_response. by destruct (_ || _).
  - unfold disarm_no_response. by destruct (negb _).
  - unfold request_cancel. destruct (state t), (cancel t); try done; by destruct (build_cancel t rs).
Qed.

(** What Timer C counts from, while the INVITE may still be cancelled by it. *)
Definition counts_from (i : Input) (t t' : Ict) : Prop :=
  is_live (state t') = true → gave_up t' = false →
  match progress_of i with
  | Some p => last_progress t' = Some p
  | None => last_progress t' = last_progress t ∨ last_progress t = None
  end.

Lemma advance_counts now t e :
  is_final (kind_of e) = false → counts_from (Ev now e) t (advance now t e).1.
Proof.
  intros He. unfold counts_from, advance, progress_of.
  destruct (state t) eqn:Hs, e as [| | | |r|r|r|]; cbn; rewrite ?Hs; auto; try done.
  - intros Hl. exfalso. revert Hl. unfold drop_waiting_cancel. by destruct (cancel_is_waiting _).
  - unfold release_waiting_cancel. intros _ _. unfold note_progress.
    destruct (msg_status_code r) as [st|]; [destruct (_ && _)|]; cbn; destruct (cancel t); auto.
  - intros _ _. unfold give_up_unanswered. helper_cases; auto.
  - intros _ _. unfold start_timer_c. destruct (last_progress t) eqn:Hp; [|by auto].
    left. unfold timer_c_due. helper_cases.
  - intros _ _. left. unfold timer_c_due. helper_cases.
  - intros _ _. unfold note_progress.
    destruct (msg_status_code r) as [st|]; [destruct (_ && _)|]; cbn; auto.
Qed.

Lemma move_given_up k a l a' : move k a l a' → given_up a = true → given_up a' = true.
Proof. by intros []. Qed.

Lemma step_counts t i : waits_ok t → counts_from i t (step t i).1.
Proof.
  intros Hw Hl. assert (is_final (input_kind i) = false) as Hi.
  { pose proof (step_refines t i Hw) as Hm. destruct (step t i) as [t' o].
    by apply (move_live _ _ _ _ Hm). }
  revert Hl. change (counts_from i t (step t i).1).
  destruct i as [now e|h|c|c|d| |rs]; cbn [step]; try (by intros _ _; cbn; auto).
  - pose proof (advance_counts now t e Hi) as Ha. unfold process. destruct (no_response t) eqn:Hn.
    + by destruct (advance now t e).
    + destruct (advance now t e) as [t1 l1]. cbn in Ha.
      destruct (bool_decide (no_response t1 = Armed)) eqn:Hb; [|exact Ha]. cbn.
      destruct (negb _); [|exact Ha]. intros Hl _. apply Ha; [exact Hl|].
      apply bool_decide_eq_true in Hb. unfold gave_up. by rewrite Hb.
    + intros _ Hg. exfalso. pose proof (given_up_refines now t e Hw) as Hr.
      destruct (process_given_up now t e) as [t1 l1]. unfold gave_up in Hr at 1. rewrite Hn in Hr.
      apply move_given_up in Hr; [|done|]; cbn in *; [congruence|].
      unfold gave_up. by rewrite Hn.
  - unfold set_connection. destruct (hop t); by intros _ _; left.
  - unfold arm_no_response. destruct (_ || _); by intros _ _; left.
  - unfold disarm_no_response. destruct (negb _); by intros _ _; left.
  - unfold request_cancel. destruct (state t), (cancel t); try destruct (build_cancel t rs);
      by intros _ _; left.
Qed.

Lemma timer_c_due_time now t :
  0 < cancels (signals KOther (timer_c_due now t).2) →
  ∀ p, last_progress t = Some p → (p + Z.of_N (Timer.timer_c (timers t)) ≤ now)%Z.
Proof.
  unfold timer_c_due. intros Hc p Hp. rewrite Hp in Hc. destruct (timer_c t); [cbn in Hc; lia| |cbn in Hc; lia].
  cbv zeta in Hc. change (default now (Some p)) with p in Hc.
  destruct (Timer.is_zero _) eqn:Hz; cbn in Hc; [|lia].
  unfold Timer.is_zero, saturating_duration_since in Hz. apply N.eqb_eq in Hz. lia.
Qed.

Lemma timer_cancel_time now t e :
  e = TimerB ∨ e = TimerC → 0 < cancels (signals KOther (process now t e).2) →
  is_live (state t) = true ∧ gave_up t = false ∧
  ∀ p, last_progress t = Some p → (p + Z.of_N (Timer.timer_c (timers t)) ≤ now)%Z.
Proof.
  intros He Hc.
  assert (no_response t ≠ GaveUp) as Hn.
  { intros Hn. revert Hc. unfold process. rewrite Hn. unfold process_given_up, advance.
    destruct He as [-> | ->], (state t); cbn; lia. }
  assert (0 < cancels (signals KOther (advance now t e).2)) as Ha.
  { revert Hc. unfold process. destruct (no_response t); [done| |done].
    destruct (advance now t e) as [t1 l1]. destruct (_ && _); [|done].
    cbn [snd]. by rewrite signals_app, app_nil_r. }
  assert (gave_up t = false) as Hg by (unfold gave_up; by destruct (no_response t)).
  unfold advance in Ha. destruct (state t) eqn:Hs, He as [-> | ->]; try (cbn in Ha; lia).
  - split_and!; [done..|]. intros p Hp. unfold start_timer_c in Ha. rewrite Hp in Ha.
    by apply (timer_c_due_time _ _ Ha p).
  - split_and!; [done..|]. by apply timer_c_due_time.
Qed.

(** A later time of progress replaces an earlier one. *)
Definition later (p : option Instant) (i : Input) : option Instant :=
  match progress_of i with Some now => Some now | None => p end.

Definition timer_c_inv (t : Ict) (p : option Instant) : Prop :=
  is_live (state t) = true → gave_up t = false → is_Some p → last_progress t = p.

Lemma step_timer_c_inv t i p :
  waits_ok t → timer_c_inv t p → timer_c_inv (step t i).1 (later p i).
Proof.
  intros Hw Hp Hl Hg. pose proof (step_counts t i Hw Hl Hg) as Hc.
  pose proof (step_refines t i Hw) as Hm. destruct (step t i) as [t' o]. cbn in *.
  unfold later. destruct (progress_of i) as [n|]; [done|]. intros Hs.
  destruct (move_live _ _ _ _ Hm Hl) as [Hl0 _].
  assert (gave_up t = false) as Hg0.
  { destruct (gave_up t) eqn:E; [|done].
    apply (move_given_up _ _ _ _ Hm) in E. cbn in E. congruence. }
  specialize (Hp Hl0 Hg0 Hs). destruct Hc as [->|Hc]; [done|].
  rewrite Hc in Hp. subst. by destruct Hs.
Qed.

Lemma run_timer_c t inputs p0 before now e o after p :
  waits_ok t → timer_c_inv t p0 →
  run t inputs = before ++ (Ev now e, o) :: after →
  e = TimerB ∨ e = TimerC → 0 < cancels (observe (Ev now e, o)) →
  foldl later p0 before.*1 = Some p → (p + Z.of_N (Timer.timer_c (timers t)) ≤ now)%Z.
Proof.
  revert t p0 before. induction inputs as [|j inputs IH]; intros t p0 before Hw Hp0; cbn [run].
  { by destruct before. }
  pose proof (step_timers t j) as Ht. pose proof (step_timer_c_inv t j p0 Hw Hp0) as Hinv.
  pose proof (step_refines t j Hw) as Hm. destruct (step t j) as [t' o'] eqn:Hst. cbn in Ht, Hinv.
  destruct before as [|[j1 o1] before]; cbn [app].
  - intros [= -> -> _] He Hc Hp. cbn in Hp, Hst.
    destruct (process now t e) as [t1 l1] eqn:Hpr. injection Hst as <- <-. rewrite observe_ev in Hc.
    pose proof (timer_cancel_time now t e He) as Htc. rewrite Hpr in Htc.
    assert (kind_of e = KOther) as Hk by (by destruct He; subst). rewrite Hk in Hc.
    destruct (Htc Hc) as (Hl & Hg & Hall). apply Hall. rewrite (Hp0 Hl Hg); [done|]. by subst; eauto.
  - intros [= <- <- Hrun] He Hc Hp. rewrite <-Ht.
    eapply IH; [exact (move_waits _ _ _ _ Hm Hw)|exact Hinv|exact Hrun|exact He|exact Hc|exact Hp].
Qed.

End run.
End IctRun.

Import IctRun.

(** C1: the INVITE client transaction implements the abstract machine of RFC 3261
    §17.1.1 and §9.1: under every sequence of responses, timers and calls of the
    transaction user, its signals (CANCELs on the wire, what the transaction
    user is told, the end of the transaction) are those of a run of that
    machine. *)
Theorem ict_refines_abstract `{U : Unicode, P : Nom}
    (request_bytes : bytes) (tr : Transport) (c : Timer.TimerConfig) (inputs : list Input) :
  ∃ a, steps (mkAbs Ict.Calling CNone false) (trace (Ict.new request_bytes tr c).1 inputs) a.
Proof. by apply (run_steps (Ict.new request_bytes tr c).1 inputs). Qed.

(** C2: the CANCEL of an INVITE (RFC 3261 §9.1).  Whatever the network, the timers
    and the transaction user do, an INVITE client transaction puts out at most
    one CANCEL in its life; when it does, a provisional response has arrived
    (before, or with the very input that releases it) and no final response has
    arrived before. *)
Theorem ict_cancel_discipline `{U : Unicode, P : Nom}
    (request_bytes : bytes) (tr : Transport) (c : Timer.TimerConfig) (inputs : list Input) :
  let log := trace (Ict.new request_bytes tr c).1 inputs in
  sum_list_with (λ x, cancels x.2) log ≤ 1 ∧
  ∀ before kind signals after,
    log = before ++ (kind, signals) :: after → 0 < cancels signals →
    existsb is_provisional (before.*1 ++ [kind]) = true ∧
    existsb is_final before.*1 = false.
Proof.
  cbv zeta. destruct (run_steps (Ict.new request_bytes tr c).1 inputs) as [a Ha]; [done|].
  apply (steps_cancels _ _ _ false false 0 Ha). by split_and!; auto.
Qed.

(** C3: what the transaction user is told of an INVITE.  Provisional responses,
    then at most one final response or one timeout; after a timeout at most a
    late 2xx (RFC 3261 §16.7 step 5); the end of the transaction is signalled at
    most once, and nothing after it. *)
Theorem ict_tu_protocol `{U : Unicode, P : Nom}
    (request_bytes : bytes) (tr : Transport) (c : Timer.TimerConfig) (inputs : list Input) :
  is_Some (tu_run TuOpen (trace (Ict.new request_bytes tr c).1 inputs ≫= snd)).
Proof.
  destruct (run_steps (Ict.new request_bytes tr c).1 inputs) as [a Ha]; [done|].
  by eapply steps_tu.
Qed.

(** What an INVITE client transaction retransmits (RFC 3261 §17.1.1.2,
    §17.1.1.3).  In any run, an input makes it send no frame but these: on
    Timer A, the octets of the INVITE exactly as they first left; on a failure
    response, unless the transaction has ended, the ACK of the first failure of
    the run, and then always that same ACK (it is missing only when that ACK
    could not be built from the INVITE). *)
Theorem ict_frames `{U : Unicode, P : Nom}
    (request_bytes : bytes) (tr : Transport) (c : Timer.TimerConfig) (inputs : list Input)
    (before : list (Input * list Output)) (i : Input) (o : list Output)
    (after : list (Input * list Output)) :
  run (Ict.new request_bytes tr c).1 inputs = before ++ (i, o) :: after →
  sends_ok request_bytes i o (first_failure (before.*1 ++ [i])) (existsb ends before).
Proof. intros Hrun. by apply (run_sends request_bytes _ _ None _ _ _ _) in Hrun. Qed.

(** An INVITE, a failure response to it, and a run in which that response comes
    twice after a ringing one that releases a CANCEL. *)
Definition sample_invite : bytes :=
  "INVITE sip:bob@example.org SIP/2.0" +:+ CRLF +:+
  "Via: SIP/2.0/UDP a.example.org;branch=z9hG4bK1" +:+ CRLF +:+
  "From: <sip:alice@example.org>;tag=1" +:+ CRLF +:+ "To: <sip:bob@example.org>" +:+ CRLF +:+
  "Call-ID: 7" +:+ CRLF +:+ "CSeq: 1 INVITE" +:+ CRLF +:+ "Content-Length: 0" +:+ CRLF +:+ CRLF.

Definition sample_response (status : N) : SipMessage :=
  mkMessage (Response (mkStatusLine sip_2_0 status "" false))
    (Headers.set "To" "<sip:bob@example.org>;tag=2" Headers.new) "".

Definition sample_hop : BranchHop :=
  mkHop (mkSocket (V4 1) 5060) Net.Udp 7 None.

Definition sample_inputs : list Input :=
  [SetHop sample_hop; RequestCancel []; Ev 1 Ict.TimerA; Ev 2 (Ict.Provisional (sample_response 180));
   Ev 3 (Ict.ResponseNon2xx (sample_response 487)); Ev 4 (Ict.ResponseNon2xx (sample_response 487))].

Definition sample_run : list (Input * list Output) :=
  @run unicode_ascii nom_reference (Ict.new sample_invite Udp Timer.default).1 sample_inputs.

(** The CANCEL goes out with the ringing response, and the second failure draws
    the ACK again. *)
Lemma sample_run_outputs :
  cancels <$> (@trace unicode_ascii nom_reference (Ict.new sample_invite Udp Timer.default).1
                 sample_inputs).*2 = [0; 0; 0; 1; 0; 0] ∧
  (length ∘ output_frames) <$> sample_run.*2 = [0; 0; 1; 0; 1; 1].
Proof. split; vm_compute; reflexivity. Qed.

Lemma ict_frames_witness :
  ∃ o, length (output_frames o) = 1 ∧
    @sends_ok unicode_ascii nom_reference sample_invite
      (Ev 4 (Ict.ResponseNon2xx (sample_response 487))) o (Some (sample_response 487)) false.
Proof.
  exists (default [] (sample_run.*2 !! 5)). split; [vm_compute; reflexivity|].
  apply (@ict_frames unicode_ascii nom_reference sample_invite Udp Timer.default sample_inputs
    (take 5 sample_run) _ _ []).
  vm_compute. reflexivity.
Defined.

(** Timer C (RFC 3261 §16.6 step 11, §16.8) does not cut a call that makes
    progress.  When Timer B or Timer C makes the transaction send its CANCEL, the
    configured Timer C has passed since the last 101-199 response of the run. *)
Theorem ict_timer_c_not_early `{U : Unicode, P : Nom}
    (request_bytes : bytes) (tr : Transport) (c : Timer.TimerConfig) (inputs : list Input)
    (before : list (Input * list Output)) (now : Instant) (e : Ict.Event) (o : list Output)
    (after : list (Input * list Output)) (progress : Instant) :
  run (Ict.new request_bytes tr c).1 inputs = before ++ (Ev now e, o) :: after →
  e = Ict.TimerB ∨ e = Ict.TimerC → 0 < cancels (observe (Ev now e, o)) →
  foldl later None before.*1 = Some progress →
  (progress + Z.of_N (Timer.timer_c c) ≤ now)%Z.
Proof.
  intros Hrun He Hc Hp.
  by eapply (run_timer_c (Ict.new request_bytes tr c).1 inputs None); [..|exact Hp].
Qed.

Definition timer_c_run : list (Input * list Output) :=
  @run unicode_ascii nom_reference (Ict.new sample_invite Udp Timer.default).1
    [SetHop sample_hop; Ev 0 (Ict.Provisional (sample_response 180)); Ev 32000000000 Ict.TimerB;
     Ev 181000000000 Ict.TimerC].

Lemma ict_timer_c_not_early_witness :
  (0 + Z.of_N (Timer.timer_c Timer.default) ≤ 181000000000)%Z.
Proof.
  apply (@ict_timer_c_not_early unicode_ascii nom_reference sample_invite Udp Timer.default
    timer_c_run.*1 (take 3 timer_c_run) 181000000000 Ict.TimerC (default [] (timer_c_run.*2 !! 3)) [] 0).
  - vm_compute. reflexivity.
  - by right.
  - vm_compute. lia.
  - vm_compute. reflexivity.
Defined.
