(* ===== verification/ServerTx.v ===== *)
(** * Server transactions: what the machines guarantee over whole runs

    The two server machines are instances of one interface
    ([ServerMachine]): how a response of the transaction user, or a stored one,
    comes to be sent.  The theorems on runs are proved once, against the
    interface. *)

From S2P Require Import Prelude Str Nom Timer Headers Uri Message Parser NameAddr Transport TxState.

(** ** The interface *)

Class ServerMachine `{U : Unicode, P : Nom, F32 : Float32} (T E : Type) := {
  sm_process : string → T → E → T * list Action;
  sm_tag : T → option string;
  sm_last : T → option SipMessage;
  (** A final response has been sent. *)
  sm_final : T → bool;
  (** The response of the transaction user an event carries, and whether it is a
      final one. *)
  sm_response : E → option SipMessage;
  sm_is_final : E → bool;
  (** The 100 Trying the machine may send by itself, if it may. *)
  sm_trying : T → option SipMessage;

  (** A message that is sent is the event's response with the tag on it, or the
      machine's own 100, or the stored response again. *)
  sm_sends uuid t e t' l r :
    sm_process uuid t e = (t', l) → SendMessage r ∈ l →
    (∃ m, sm_response e = Some m ∧ sm_final t = false ∧
          stamp_uas_to_tag uuid m (sm_tag t) = (r, sm_tag t')) ∨
    (sm_trying t = Some r ∧ sm_final t = false ∧ sm_tag t' = sm_tag t) ∨
    (sm_last t = Some r ∧ sm_tag t' = sm_tag t);
  (** The tag is chosen once, from the UUID of that event. *)
  sm_tag_chosen uuid t e :
    sm_tag (sm_process uuid t e).1 = sm_tag t ∨
    sm_tag (sm_process uuid t e).1 = Some (generate_uas_to_tag uuid);
  sm_tag_stable uuid t e tag : sm_tag t = Some tag → sm_tag (sm_process uuid t e).1 = Some tag;
  (** The stored response is one that was sent. *)
  sm_stores uuid t e t' l r :
    sm_process uuid t e = (t', l) → sm_last t' = Some r → sm_last t = Some r ∨ SendMessage r ∈ l;
  (** A final response that is sent is the one that may be sent again. *)
  sm_sends_final uuid t e t' l r :
    sm_process uuid t e = (t', l) → sm_is_final e = true → SendMessage r ∈ l →
    sm_final t' = true ∧ (sm_last t' = Some r ∨ sm_last t' = None);
  (** Once a final response is out, it stays the stored one. *)
  sm_final_stable uuid t e t' l :
    sm_process uuid t e = (t', l) → sm_final t = true →
    sm_final t' = true ∧ sm_last t' = sm_last t;
  sm_trying_stable uuid t e : sm_trying (sm_process uuid t e).1 = sm_trying t;
  sm_trying_100 t r : sm_trying t = Some r → msg_status_code r = Some 100%N;
}.

(** ** Stamping *)

Section stamp.
Context {U : Unicode} {P : Nom} {F32 : Float32}.





Lemma stamp_keeps_tag uuid m tag r cache' :
  stamp_uas_to_tag uuid m (Some tag) = (r, cache') → cache' = Some tag.
Proof.
  unfold stamp_uas_to_tag. destruct (start_line m) as [line|line]; [by intros [= <- <-]|].
  destruct (status_code line =? 100)%N; [by intros [= <- <-]|].
  destruct (Headers.to (msg_headers m)) as [to|]; [|by intros [= <- <-]].
  destruct (NameAddr.parse to) as [na|]; [|by intros [= <- <-]].
  destruct (NameAddr.tag na); by intros [= <- <-].
Qed.


Lemma stamp_tag_chosen uuid m cache r cache' :
  stamp_uas_to_tag uuid m cache = (r, cache') → cache' = cache ∨ cache' = Some (generate_uas_to_tag uuid).
Proof.
  unfold stamp_uas_to_tag. destruct (start_line m) as [line|line]; [intros [= <- <-]; auto|].
  destruct (status_code line =? 100)%N; [intros [= <- <-]; auto|].
  destruct (Headers.to (msg_headers m)) as [to|]; [|intros [= <- <-]; auto].
  destruct (NameAddr.parse to) as [na|]; [|intros [= <- <-]; auto].
  destruct (NameAddr.tag na); intros [= <- <-]; [auto|]. destruct cache; auto.
Qed.

End stamp.

(** ** Runs of any server machine *)

Section runs.
Context `{M : ServerMachine T E}.

(** The actions of each event of a run; every event comes with the UUID a new
    tag would be made of. *)
Fixpoint server_run (t : T) (events : list (string * E)) : list (E * list Action) :=
  match events with
  | [] => []
  | (uuid, e) :: events =>
      let '(t', l) := sm_process uuid t e in (e, l) :: server_run t' events
  end.






(** After a final response, nothing but the stored one is sent. *)
Lemma run_after_final t events e l r :
  sm_final t = true → (e, l) ∈ server_run t events → SendMessage r ∈ l → sm_last t = Some r.
Proof.
  revert t. induction events as [|[uuid e1] events IH]; intros t Hf; cbn; [by intros ?%elem_of_nil|].
  destruct (sm_process uuid t e1) as [t' l1] eqn:Hp.
  destruct (sm_final_stable _ _ _ _ _ Hp Hf) as [Hf' Hl']. intros [[= <- <-]|Hin]%elem_of_cons Hr.
  - destruct (sm_sends _ _ _ _ _ _ Hp Hr) as [(m & _ & ? & _)|[(_ & ? & _)|[? _]]]; congruence.
  - rewrite <-Hl'. by eapply IH.
Qed.

Lemma run_final_once t events before e l mid e' l' after r r' :
  server_run t events = before ++ (e, l) :: mid ++ (e', l') :: after →
  sm_is_final e = true → SendMessage r ∈ l → SendMessage r' ∈ l' → r' = r.
Proof.
  revert t before. induction events as [|[uuid e1] events IH]; intros t before; cbn; [by destruct before|].
  destruct (sm_process uuid t e1) as [t' l1] eqn:Hp.
  destruct before as [|x before]; cbn; intros Hrun He Hr Hr'.
  - injection Hrun as -> -> Hrun. destruct (sm_sends_final _ _ _ _ _ _ Hp He Hr) as [Hf Hl].
    assert ((e', l') ∈ server_run t' events) as Hin.
    { rewrite Hrun. apply elem_of_app. right. by left. }
    pose proof (run_after_final _ _ _ _ _ Hf Hin Hr') as Hl'. destruct Hl; congruence.
  - injection Hrun as _ Hrun. by eapply IH.
Qed.




End runs.

(** ** The two machines *)

(** Splits [process] into its arms and reads off what each sends. *)
Ltac machine_cases :=
  repeat match goal with
  | H : (let '(_, _) := stamp_uas_to_tag ?u ?m ?c in _) = _ |- _ =>
      destruct (stamp_uas_to_tag u m c) as [? ?] eqn:?
  | H : (_, match ?o with Some _ => _ | None => _ end) = _ |- _ => destruct o eqn:?
  | H : match ?o with Some _ => _ | None => _ end = _ |- _ => destruct o eqn:?
  | H : (if ?b then _ else _) = _ |- _ => destruct b
  end; simplify_eq/=.

Ltac elem_cases :=
  repeat match goal with
  | H : _ ∈ [] |- _ => by apply elem_of_nil in H
  | H : _ ∈ _ :: _ |- _ => apply elem_of_cons in H as [H|H]; simplify_eq
  end.

Section instances.
Context {U : Unicode} {P : Nom} {F32 : Float32}.

Definition ist_final (t : Ist.Ist) : bool :=
  match Ist.state t with Ist.Proceeding => false | _ => true end.

(** Nothing is stored for a 2xx: its retransmission is the transaction user's. *)
Definition ist_last (t : Ist.Ist) : option SipMessage :=
  match Ist.state t with Ist.Accepted => None | _ => Ist.last_response t end.

Definition ist_response (e : Ist.Event) : option SipMessage :=
  match e with
  | Ist.TuProvisional m | Ist.Tu2xx m | Ist.TuNon2xxFinal m => Some m
  | _ => None
  end.

Definition ist_is_final (e : Ist.Event) : bool :=
  match e with Ist.Tu2xx _ | Ist.TuNon2xxFinal _ => true | _ => false end.

Lemma ist_sends uuid t e t' l r :
  Ist.process uuid t e = (t', l) → SendMessage r ∈ l →
  (∃ m, ist_response e = Some m ∧ ist_final t = false ∧
        stamp_uas_to_tag uuid m (Ist.uas_to_tag t) = (r, Ist.uas_to_tag t')) ∨
  (ist_last t = Some r ∧ Ist.uas_to_tag t' = Ist.uas_to_tag t).
Proof.
  unfold ist_final, ist_last, Ist.process, Ist.resend. intros Hp Hr.
  destruct (Ist.state t) eqn:Hs, e as [m|m|m|m|m| | |]; cbn in Hp; machine_cases; elem_cases;
    try (left; eexists; split_and!; [done..|eassumption]); right; rewrite ?Hs; done.
Qed.

#[export] Program Instance ist_machine : ServerMachine Ist.Ist Ist.Event := {
  sm_process := Ist.process;
  sm_tag := Ist.uas_to_tag;
  sm_last := ist_last;
  sm_final := ist_final;
  sm_response := ist_response;
  sm_is_final := ist_is_final;
  sm_trying _ := None;
}.
Next Obligation.
  intros uuid t e t' l r Hp Hr. destruct (ist_sends _ _ _ _ _ _ Hp Hr); auto.
Qed.
Next Obligation.
  cbn. intros uuid t e. destruct (Ist.process uuid t e) as [t' l] eqn:Hp.
  unfold Ist.process in Hp. cbn.
  destruct (Ist.state t), e as [m|m|m|m|m| | |]; cbn in Hp; machine_cases; try (by left);
    by eapply stamp_tag_chosen.
Qed.
Next Obligation.
  cbn. intros uuid t e tag Ht. destruct (Ist.process uuid t e) as [t' l] eqn:Hp.
  unfold Ist.process in Hp. cbn.
  destruct (Ist.state t), e as [m|m|m|m|m| | |]; cbn in Hp; machine_cases; try done;
    rewrite Ht in *; by eapply stamp_keeps_tag.
Qed.
Next Obligation.
  cbn. unfold ist_last. intros uuid t e t' l r Hp. unfold Ist.process, Ist.resend in Hp.
  destruct (Ist.state t) eqn:Hs, e as [m|m|m|m|m| | |]; cbn in Hp; machine_cases;
    rewrite ?Hs; intros; simplify_eq; auto; right; set_solver.
Qed.
Next Obligation.
  cbn. unfold ist_last, ist_final. intros uuid t e t' l r Hp He Hr. unfold Ist.process in Hp.
  destruct (Ist.state t) eqn:Hs, e as [m|m|m|m|m| | |]; cbn in Hp; machine_cases; elem_cases; auto.
Qed.
Next Obligation.
  cbn. unfold ist_last, ist_final. intros uuid t e t' l Hp Hf. unfold Ist.process in Hp.
  destruct (Ist.state t) eqn:Hs, e as [m|m|m|m|m| | |]; cbn in Hp; machine_cases; rewrite ?Hs; auto.
Qed.
Next Obligation. done. Qed.
Next Obligation. done. Qed.

Definition nist_final (t : Nist.Nist) : bool :=
  match Nist.state t with Nist.Trying | Nist.Proceeding => false | _ => true end.

Definition nist_response (e : Nist.Event) : option SipMessage :=
  match e with Nist.TuProvisional m | Nist.TuFinal m => Some m | _ => None end.

Definition nist_is_final (e : Nist.Event) : bool :=
  match e with Nist.TuFinal _ => true | _ => false end.

Definition nist_trying (t : Nist.Nist) : option SipMessage :=
  Some (build_response_skeleton (Nist.original_request t) 100 "Trying").

Lemma nist_sends uuid t e t' l r :
  Nist.process uuid t e = (t', l) → SendMessage r ∈ l →
  (∃ m, nist_response e = Some m ∧ nist_final t = false ∧
        stamp_uas_to_tag uuid m (Nist.uas_to_tag t) = (r, Nist.uas_to_tag t')) ∨
  (nist_trying t = Some r ∧ nist_final t = false ∧ Nist.uas_to_tag t' = Nist.uas_to_tag t) ∨
  (Nist.last_response t = Some r ∧ Nist.uas_to_tag t' = Nist.uas_to_tag t).
Proof.
  unfold nist_final, nist_trying, Nist.process, Nist.send_final, Nist.resend. intros Hp Hr.
  destruct (Timer.auto_100_trying (Nist.timers t));
  destruct (Nist.state t) eqn:Hs, e as [m|m|m| |]; cbn in Hp; machine_cases; elem_cases;
    try (left; eexists; split_and!; [done..|eassumption]); right; auto.
Qed.

Lemma nist_request uuid t e :
  Nist.original_request (Nist.process uuid t e).1 = Nist.original_request t.
Proof.
  destruct (Nist.process uuid t e) as [t' l] eqn:Hp. unfold Nist.process, Nist.send_final in Hp.
  destruct (Nist.state t), e as [m|m|m| |]; cbn in Hp; machine_cases; done.
Qed.

#[export] Program Instance nist_machine : ServerMachine Nist.Nist Nist.Event := {
  sm_process := Nist.process;
  sm_tag := Nist.uas_to_tag;
  sm_last := Nist.last_response;
  sm_final := nist_final;
  sm_response := nist_response;
  sm_is_final := nist_is_final;
  sm_trying := nist_trying;
}.
Next Obligation. intros uuid t e t' l r. apply nist_sends. Qed.
Next Obligation.
  cbn. intros uuid t e. destruct (Nist.process uuid t e) as [t' l] eqn:Hp.
  unfold Nist.process, Nist.send_final in Hp. cbn.
  destruct (Nist.state t), e as [m|m|m| |]; cbn in Hp; machine_cases; try (by left);
    by eapply stamp_tag_chosen.
Qed.
Next Obligation.
  cbn. intros uuid t e tag Ht. destruct (Nist.process uuid t e) as [t' l] eqn:Hp.
  unfold Nist.process, Nist.send_final in Hp. cbn.
  destruct (Nist.state t), e as [m|m|m| |]; cbn in Hp; machine_cases; try done;
    rewrite Ht in *; by eapply stamp_keeps_tag.
Qed.
Next Obligation.
  cbn. intros uuid t e t' l r Hp. unfold Nist.process, Nist.send_final, Nist.resend in Hp.
  destruct (Nist.state t) eqn:Hs, e as [m|m|m| |]; cbn in Hp; machine_cases;
    intros; simplify_eq; auto; right; set_solver.
Qed.
Next Obligation.
  cbn. unfold nist_final. intros uuid t e t' l r Hp He Hr. unfold Nist.process, Nist.send_final in Hp.
  destruct (Timer.auto_100_trying (Nist.timers t));
  destruct (Nist.state t) eqn:Hs, e as [m|m|m| |]; cbn in Hp; machine_cases; elem_cases; auto.
Qed.
Next Obligation.
  cbn. unfold nist_final. intros uuid t e t' l Hp Hf. unfold Nist.process, Nist.send_final in Hp.
  destruct (Nist.state t) eqn:Hs, e as [m|m|m| |]; cbn in Hp; machine_cases; rewrite ?Hs; auto.
Qed.
Next Obligation. intros uuid t e. unfold nist_trying. cbn. by rewrite nist_request. Qed.
Next Obligation. intros t r [= <-]. apply skeleton_status. Qed.

End instances.


(** C7: one final response per server transaction.  Once a server transaction has
    sent a final response, whatever it sends afterwards (for a retransmitted
    request, or on Timer G) is that same response. *)
Theorem server_final_once `{U : Unicode, P : Nom, F32 : Float32} :
  (∀ tr c events before e l mid e' l' after r r',
     server_run (Ist.new tr c) events = before ++ (e, l) :: mid ++ (e', l') :: after →
     ist_is_final e = true → SendMessage r ∈ l → SendMessage r' ∈ l' → r' = r) ∧
  (∀ request tr c events before e l mid e' l' after r r',
     server_run (Nist.new request tr c).1 events = before ++ (e, l) :: mid ++ (e', l') :: after →
     nist_is_final e = true → SendMessage r ∈ l → SendMessage r' ∈ l' → r' = r).
Proof.
  split; intros *.
  - exact (run_final_once (M := ist_machine) _ events before e l mid e' l' after r r').
  - exact (run_final_once (M := nist_machine) _ events before e l mid e' l' after r r').
Qed.
