(* ===== verification/TxManager.v ===== *)
(** * The transaction manager
    ([src/src/transaction/mod.rs], [src/src/transaction/key.rs])

    All active transactions by key.  The [DashMap] is a [gmap]; every operation
    of the source takes the lock of its entry for its whole length but for the
    removal of a transaction that ended, which finds the entry again.  A client
    transaction may own a [ConnectionHold]: dropping the transaction drops the
    hold, so the counters of the holds ([Holds]) are part of the state here. *)

From S2P Require Import Prelude Str Nom Timer Headers Uri Message Via Parser NameAddr Transport.
From S2P Require Import Cancel TxState.

(** ** Keys *)

Record TransactionKey := mkKey {
  key_branch : string;
  key_method : Method;
  sent_by : string;
}.

#[export] Instance TransactionKey_eq_dec : EqDecision TransactionKey.
Proof. solve_decision. Defined.
#[export] Instance TransactionKey_countable : Countable TransactionKey.
Proof.
  apply (inj_countable' (λ k, (key_branch k, key_method k, sent_by k))
           (λ x, mkKey x.1.1 x.1.2 x.2)).
  by intros [].
Defined.

Definition key_new (branch : string) (m : Method) (sent_by : string) : TransactionKey :=
  mkKey branch (match m with Ack => Invite | other => other end) sent_by.

(** [uuid] is the simple form of a fresh UUID. *)
Definition generate_branch (uuid : string) : string := "z9hG4bK-" +:+ uuid.

Definition format_sent_by (host : string) (port : option N) : string :=
  match port with Some port => host +:+ ":" +:+ dec port | None => host end.

Inductive TxError :=
  | NoViaHeader | BadVia (e : Via.ViaError) | EmptyVia | NoBranch
  | NoCSeqHeader | BadCSeq (e : CSeq.CSeqError)
  | ExpectedRequest
  | AckHasNoClientTransaction
  | AlreadyExists (k : TransactionKey)
  | NoTransaction (k : TransactionKey)
  | EventMismatch.

(** ** The manager *)

Inductive Transaction :=
  | TxIct (t : Ict.Ict)
  | TxNict (t : Nict.Nict)
  | TxIst (t : Ist.Ist)
  | TxNist (t : Nist.Nist).

Inductive ServerEvent := IstEvent (e : Ist.Event) | NistEvent (e : Nist.Event).
Inductive ClientEvent := IctEvent (e : Ict.Event) | NictEvent (e : Nict.Event).

Record ServerTransactionOutcome := mkOutcome {
  out_key : TransactionKey;
  out_actions : list Action;
  is_new : bool;
}.

Record TransactionManager := mkManager {
  transactions : gmap TransactionKey Transaction;
  timers : Timer.TimerConfig;
  holds : gmap ConnectionId N;
}.

Definition with_transactions (m : TransactionManager) (txs : gmap TransactionKey Transaction)
    : TransactionManager := mkManager txs (timers m) (holds m).
Definition with_holds (m : TransactionManager) (h : gmap ConnectionId N) : TransactionManager :=
  mkManager (transactions m) (timers m) h.

(** The connection a transaction holds open. *)
Definition tx_hold (t : Transaction) : option ConnectionId :=
  match t with
  | TxIct t => Ict.connection_hold t
  | TxNict t => Nict.connection_hold t
  | TxIst _ | TxNist _ => None
  end.

(** Dropping a transaction, or a hold. *)
Definition release (h : option ConnectionId) (m : TransactionManager) : TransactionManager :=
  match h with Some c => with_holds m (Holds.drop_hold c (holds m)) | None => m end.

(** [self.transactions.remove(key);], the result dropped. *)
Definition remove_and_drop (k : TransactionKey) (m : TransactionManager) : TransactionManager :=
  match transactions m !! k with
  | Some t => release (tx_hold t) (with_transactions m (delete k (transactions m)))
  | None => m
  end.

Definition is_terminated (a : Action) : bool :=
  match a with TxState.Terminated => true | _ => false end.

(** The transaction after an event, and its removal if it has ended. *)
Definition store_or_remove (k : TransactionKey) (t : Transaction) (actions : list Action)
    (m : TransactionManager) : TransactionManager :=
  let m := with_transactions m (<[k := t]> (transactions m)) in
  if existsb is_terminated actions then remove_and_drop k m else m.

Definition new (c : Timer.TimerConfig) : TransactionManager := mkManager ∅ c ∅.

Definition count (m : TransactionManager) : nat := size (transactions m).

Definition contains (k : TransactionKey) (m : TransactionManager) : bool :=
  bool_decide (is_Some (transactions m !! k)).

Section manager.
Context {U : Unicode} {P : Nom} {F32 : Float32}.
Implicit Types (m : TransactionManager) (k : TransactionKey).

Definition key_from_message (message : SipMessage) : result TxError TransactionKey :=
  let h := msg_headers message in
  via_raw ← ok_or NoViaHeader (match Headers.get "Via" h with
                               | Some v => Some v
                               | None => Headers.get "v" h
                               end);
  vias ← map_err BadVia (Via.parse_multi via_raw);
  top_via ← ok_or EmptyVia (head vias);
  branch ← ok_or NoBranch (Via.branch top_via);
  method ← match start_line message with
           | Request line => Ok (method line)
           | Response _ =>
               cseq_raw ← ok_or NoCSeqHeader (Headers.get "CSeq" h);
               cseq ← map_err BadCSeq (CSeq.parse cseq_raw);
               Ok (CSeq.cseq_method cseq)
           end;
  Ok (key_new branch method (format_sent_by (Via.host top_via) (Via.port top_via))).

(** The transaction [new_server_transaction] makes, and its actions. *)
Definition server_transaction_for (c : Timer.TimerConfig) (method : Method) (request : SipMessage)
    (tr : Transport) : Transaction * list Action :=
  match method with
  | Invite => (TxIst (Ist.new tr c), [PassToTu request])
  | _ =>
      let '(nist, actions) := Nist.new request tr c in (TxNist nist, actions ++ [PassToTu request])
  end.

Definition new_server_transaction (m : TransactionManager) (request : SipMessage) (tr : Transport)
    : TransactionManager * result TxError ServerTransactionOutcome :=
  match key_from_message request with
  | Err e => (m, Err e)
  | Ok k =>
      match msg_method request with
      | None => (m, Err ExpectedRequest)
      | Some Ack => (m, Ok (mkOutcome k [] true))
      | Some method =>
          let '(t, actions) := server_transaction_for (timers m) method request tr in
          match transactions m !! k with
          | None => (with_transactions m (<[k := t]> (transactions m)), Ok (mkOutcome k actions true))
          | Some _ => (m, Ok (mkOutcome k [] false))
          end
      end
  end.

(** Where the source returns [Result<Option<_>, String>]. *)
Definition handle_ack (m : TransactionManager) (uuid : string) (request : SipMessage)
    : TransactionManager * result TxError (option (TransactionKey * list Action)) :=
  match key_from_message request with
  | Err e => (m, Err e)
  | Ok k =>
      match transactions m !! k with
      | Some (TxIst t) =>
          let '(t, actions) := Ist.process uuid t (Ist.AckReceived request) in
          (store_or_remove k (TxIst t) actions m, Ok (Some (k, actions)))
      | _ => (m, Ok None)
      end
  end.

Definition handle_server_retransmit (m : TransactionManager) (uuid : string) (request : SipMessage)
    : TransactionManager * result TxError (option (TransactionKey * list Action)) :=
  match key_from_message request with
  | Err e => (m, Err e)
  | Ok k =>
      match transactions m !! k with
      | Some (TxIst t) =>
          let '(t, actions) := Ist.process uuid t (Ist.InviteRetransmit request) in
          (store_or_remove k (TxIst t) actions m, Ok (Some (k, actions)))
      | Some (TxNist t) =>
          let '(t, actions) := Nist.process uuid t (Nist.RequestRetransmit request) in
          (store_or_remove k (TxNist t) actions m, Ok (Some (k, actions)))
      | _ => (m, Ok None)
      end
  end.

Definition new_client_transaction (m : TransactionManager) (request : SipMessage) (wire : bytes)
    (tr : Transport) : TransactionManager * result TxError (TransactionKey * list Action) :=
  match key_from_message request with
  | Err e => (m, Err e)
  | Ok k =>
      match msg_method request with
      | Some Ack => (m, Err AckHasNoClientTransaction)
      | method =>
          let '(t, actions) :=
            match method with
            | Some Invite =>
                let '(ict, actions) := Ict.new wire tr (timers m) in (TxIct ict, actions)
            | _ => let '(nict, actions) := Nict.new wire tr (timers m) in (TxNict nict, actions)
            end in
          match transactions m !! k with
          | None => (with_transactions m (<[k := t]> (transactions m)), Ok (k, actions))
          | Some _ => (m, Err (AlreadyExists k))
          end
      end
  end.

Definition process_server_event (m : TransactionManager) (uuid : string) (k : TransactionKey)
    (event : ServerEvent) : TransactionManager * result TxError (list Action) :=
  match transactions m !! k, event with
  | None, _ => (m, Err (NoTransaction k))
  | Some (TxIst t), IstEvent e =>
      let '(t, actions) := Ist.process uuid t e in
      (store_or_remove k (TxIst t) actions m, Ok actions)
  | Some (TxNist t), NistEvent e =>
      let '(t, actions) := Nist.process uuid t e in
      (store_or_remove k (TxNist t) actions m, Ok actions)
  | Some _, _ => (m, Err EventMismatch)
  end.

Definition process_client_event (m : TransactionManager) (now : Instant) (k : TransactionKey)
    (event : ClientEvent) : TransactionManager * result TxError (list Action) :=
  match transactions m !! k, event with
  | None, _ => (m, Err (NoTransaction k))
  | Some (TxIct t), IctEvent e =>
      let '(t, actions) := Ict.process now t e in
      (store_or_remove k (TxIct t) actions m, Ok actions)
  | Some (TxNict t), NictEvent e =>
      let '(t, actions) := Nict.process t e in
      (store_or_remove k (TxNict t) actions m, Ok actions)
  | Some _, _ => (m, Err EventMismatch)
  end.

(** Storing a changed transaction back through [get_mut]. *)
Definition store (k : TransactionKey) (t : Transaction) (m : TransactionManager)
    : TransactionManager := with_transactions m (<[k := t]> (transactions m)).

Definition cancel_invite_client (m : TransactionManager) (k : TransactionKey)
    (reasons : list string) : TransactionManager * Ict.CancelOutcome :=
  match transactions m !! k with
  | Some (TxIct t) =>
      let '(t, outcome) := Ict.request_cancel t reasons in (store k (TxIct t) m, outcome)
  | _ => (m, Ict.NothingToSend)
  end.

Definition arm_no_response (m : TransactionManager) (k : TransactionKey) (after : Timer.duration)
    : TransactionManager * option Action :=
  match transactions m !! k with
  | Some (TxIct t) =>
      let '(t, a) := Ict.arm_no_response t after in (store k (TxIct t) m, a)
  | Some (TxNict t) =>
      let '(t, a) := Nict.arm_no_response t after in (store k (TxNict t) m, a)
  | _ => (m, None)
  end.

Definition disarm_no_response (m : TransactionManager) (k : TransactionKey)
    : TransactionManager * bool :=
  match transactions m !! k with
  | Some (TxIct t) =>
      let '(t, was) := Ict.disarm_no_response t in (store k (TxIct t) m, was)
  | _ => (m, false)
  end.

(** The transaction is dropped when its key has been taken again. *)
Definition restore_given_up (m : TransactionManager) (k : TransactionKey) (t : Transaction)
    : TransactionManager :=
  match transactions m !! k with
  | None => store k t m
  | Some _ => release (tx_hold t) m
  end.

Definition set_client_hop (m : TransactionManager) (k : TransactionKey) (h : BranchHop)
    : TransactionManager :=
  match transactions m !! k with
  | Some (TxIct t) => store k (TxIct (Ict.set_hop t h)) m
  | _ => m
  end.

Definition set_client_connection (m : TransactionManager) (k : TransactionKey) (c : ConnectionId)
    : TransactionManager :=
  match transactions m !! k with
  | Some (TxIct t) => store k (TxIct (Ict.set_connection t c)) m
  | _ => m
  end.

(** The hold replaces (and so drops) one the transaction had; with no client
    transaction to keep it, it is dropped itself. *)
Definition hold_client_connection (m : TransactionManager) (k : TransactionKey)
    (hold : ConnectionId) : TransactionManager :=
  match transactions m !! k with
  | Some (TxIct t) =>
      release (Ict.connection_hold t) (store k (TxIct (Ict.hold_connection t hold)) m)
  | Some (TxNict t) =>
      release (Nict.connection_hold t) (store k (TxNict (Nict.hold_connection t hold)) m)
  | _ => release (Some hold) m
  end.

(** The transaction taken out belongs to the caller, its hold with it. *)
Definition remove (m : TransactionManager) (k : TransactionKey)
    : TransactionManager * option Transaction :=
  (with_transactions m (delete k (transactions m)), transactions m !! k).

End manager.
