(* ===== verification/TxSystem.v ===== *)
(** * The transaction layer as a system

    The manager together with what its callers own (transactions taken out of
    it, connection holds not given to a transaction yet), as a step relation
    with one rule per operation, and the invariants of every reachable state. *)

From S2P Require Import Prelude Str Nom Timer Headers Uri Message Via Parser NameAddr Transport.
From S2P Require Import Cancel TxState ClientTx ServerTx TxManager.

(** ** Transactions that have ended *)

Definition finished (t : Transaction) : bool :=
  match t with
  | TxIct t => bool_decide (Ict.state t = Ict.Terminated)
  | TxNict t => bool_decide (Nict.state t = Nict.Terminated)
  | TxIst t => match Ist.state t with Ist.Terminated | Ist.Accepted => true | _ => false end
  | TxNist t => match Nist.state t with Nist.Terminated => true | _ => false end
  end.

(** A stored transaction has not ended, and a waiting CANCEL waits for the first
    response. *)
Definition tx_ok (t : Transaction) : Prop :=
  finished t = false ∧ match t with TxIct t => IctRun.waits_ok t | _ => True end.

Section ended.
Context {U : Unicode} {P : Nom} {F32 : Float32}.

Lemma ist_ended uuid t e t' l :
  Ist.process uuid t e = (t', l) → finished (TxIst t) = false →
  existsb is_terminated l = finished (TxIst t').
Proof.
  unfold Ist.process, Ist.resend. cbn. intros Hp Hf.
  destruct (Ist.state t) eqn:Hs, e as [m|m|m|m|m| | |]; cbn in Hp; machine_cases; rewrite ?Hs; done.
Qed.

Lemma nist_ended uuid t e t' l :
  Nist.process uuid t e = (t', l) → finished (TxNist t) = false →
  existsb is_terminated l = finished (TxNist t').
Proof.
  unfold Nist.process, Nist.send_final, Nist.resend. cbn. intros Hp Hf.
  destruct (Timer.auto_100_trying (Nist.timers t));
  destruct (Nist.state t) eqn:Hs, e as [m|m|m| |]; cbn in Hp; machine_cases; rewrite ?Hs; done.
Qed.

Lemma nict_advance_ended t e :
  finished (TxNict t) = false →
  existsb is_terminated (Nict.advance t e).2 = finished (TxNict (Nict.advance t e).1).
Proof.
  unfold Nict.advance, Nict.complete, Nict.timed_out. cbn. intros Hf.
  destruct (Nict.state t) eqn:Hs, e; cbn; rewrite ?Hs; try done;
    destruct (Timer.is_zero _); done.
Qed.

Lemma nict_ended t e t' l :
  Nict.process t e = (t', l) → finished (TxNict t) = false →
  existsb is_terminated l = finished (TxNict t').
Proof.
  intros Hp Hf. pose proof (nict_advance_ended t e Hf) as Ha. unfold Nict.process in Hp.
  destruct (bool_decide (Nict.no_response t = Armed)); cbn [negb] in Hp; [|by rewrite Hp in Ha].
  destruct (Nict.advance t e) as [t1 l1].
  assert (∀ t' l, (if negb (bool_decide (Nict.state t1 = Nict.Trying))
    then (Nict.with_no_response t1 Off, l1 ++ [CancelTimer TimerName.NoResponse]) else (t1, l1))
      = (t', l) → existsb is_terminated l = finished (TxNict t')) as Hrest.
  { clear -Ha. intros t' l. destruct (negb _); intros [= <- <-]; [|done].
    rewrite existsb_app, orb_false_r. exact Ha. }
  destruct e; try (by apply Hrest).
  destruct (bool_decide (Nict.state t = Nict.Trying)) eqn:Hb; cbn in Hp; rewrite Hb in Hp;
    simplify_eq/=; done.
Qed.

Lemma ict_ended now t e t' l :
  Ict.process now t e = (t', l) → tx_ok (TxIct t) →
  existsb is_terminated l = finished (TxIct t').
Proof.
  intros Hp [Hf Hw]. pose proof (IctRun.process_refines now t e Hw) as Hr. rewrite Hp in Hr.
  apply IctRun.move_end in Hr. cbn in Hr, Hf |- *. rewrite Hf in Hr. rewrite Hr. cbn.
  clear. induction l as [|a l IH]; [done|]. cbn [existsb].
  change (IctRun.signals ?k (a :: l)) with (IctRun.signal_of k a ++ IctRun.signals k l).
  rewrite IH. clear IH.
  assert (is_terminated a = bool_decide (IctRun.SEnd ∈ IctRun.signal_of (IctRun.kind_of e) a)) as ->
    by by destruct a.
  by rewrite (bool_decide_ext _ _ (elem_of_app _ _ _)), bool_decide_or.
Qed.

(** No event changes what a transaction holds open. *)
Lemma ict_process_hold now t e :
  Ict.connection_hold (Ict.process now t e).1 = Ict.connection_hold t.
Proof.
  assert (Ict.connection_hold (Ict.advance now t e).1 = Ict.connection_hold t) as Ha.
  { unfold Ict.advance. destruct (Ict.state t), e; IctRun.helper_cases. }
  unfold Ict.process, Ict.process_given_up.
  destruct (Ict.no_response t), (Ict.state t), e; IctRun.helper_cases;
    destruct (Ict.advance _ _ _); IctRun.helper_cases.
Qed.

Lemma nict_process_hold t e :
  Nict.connection_hold (Nict.process t e).1 = Nict.connection_hold t.
Proof.
  assert (Nict.connection_hold (Nict.advance t e).1 = Nict.connection_hold t) as Ha.
  { unfold Nict.advance, Nict.complete, Nict.timed_out.
    destruct (Nict.state t), e; try done; by destruct (Timer.is_zero _). }
  unfold Nict.process. destruct (negb _); [done|].
  destruct e; destruct (Nict.advance _ _) as [t1 l1]; by destruct (negb _).
Qed.

Lemma request_cancel_hold t reasons :
  Ict.connection_hold (Ict.request_cancel t reasons).1 = Ict.connection_hold t.
Proof.
  unfold Ict.request_cancel. destruct (Ict.state t), (Ict.cancel t); try done;
    by destruct (Ict.build_cancel t reasons).
Qed.

End ended.

(** ** Counting holds *)

Definition holds_one (c : ConnectionId) (t : Transaction) : N :=
  if bool_decide (tx_hold t = Some c) then 1 else 0.

Definition hold_count (c : ConnectionId) (txs : gmap TransactionKey Transaction) : N :=
  map_fold (λ _ t n, (holds_one c t + n)%N) 0%N txs.

Lemma hold_count_insert c k t txs :
  txs !! k = None → hold_count c (<[k := t]> txs) = (holds_one c t + hold_count c txs)%N.
Proof. intros Hk. unfold hold_count. rewrite map_fold_insert_L; [done|lia|done]. Qed.

Lemma hold_count_delete c k t txs :
  txs !! k = Some t → hold_count c txs = (holds_one c t + hold_count c (delete k txs))%N.
Proof. intros Hk. unfold hold_count. rewrite (map_fold_delete_L _ _ k t); [done|lia|done]. Qed.

Lemma hold_count_replace c k t t' txs :
  txs !! k = Some t' → tx_hold t = tx_hold t' → hold_count c (<[k := t]> txs) = hold_count c txs.
Proof.
  intros Hk Ht. rewrite <-insert_delete_eq, hold_count_insert by apply lookup_delete_eq.
  rewrite (hold_count_delete c k t' txs Hk). unfold holds_one. by rewrite Ht.
Qed.

Definition listed (c : ConnectionId) (l : list ConnectionId) : N :=
  N.of_nat (length (filter (λ x, x = c) l)).

Fixpoint list_holds (c : ConnectionId) (l : list Transaction) : N :=
  match l with [] => 0 | t :: l => holds_one c t + list_holds c l end%N.

(** ** The invariant of the manager

    [n c] is how many holds on [c] are owned outside the manager. *)
Definition minv (m : TransactionManager) (n : ConnectionId → N) : Prop :=
  map_Forall (λ _ t, tx_ok t) (transactions m) ∧ Holds.wf (holds m) ∧
  ∀ c, Holds.count c (holds m) = (hold_count c (transactions m) + n c)%N.

Lemma minv_ext m n n' : (∀ c, n c = n' c) → minv m n → minv m n'.
Proof. intros Hn (? & ? & Hc). split_and!; [done..|]. intros c. by rewrite <-Hn. Qed.

Lemma minv_release h m n :
  minv m (λ c, n c + if bool_decide (h = Some c) then 1 else 0)%N → minv (release h m) n.
Proof.
  intros (Hok & Hwf & Hc). destruct h as [x|].
  - split_and!; [done|by apply Holds.wf_drop_hold|]. intros c. cbn [release with_holds holds transactions].
    rewrite Holds.count_drop_hold. specialize (Hc c). cbn beta in Hc.
    case_bool_decide; case_decide; simplify_eq; lia.
  - split_and!; [done..|]. intros c. cbn [release]. rewrite (Hc c), bool_decide_eq_false_2 by done. lia.
Qed.

Lemma minv_insert m n k t :
  transactions m !! k = None → tx_ok t →
  minv m (λ c, n c + holds_one c t)%N → minv (store k t m) n.
Proof.
  intros Hk Ht (Hok & Hwf & Hc). split_and!; [by apply map_Forall_insert_2|done|].
  intros c. cbn. rewrite hold_count_insert by done. specialize (Hc c). cbn in Hc. lia.
Qed.

(** A new transaction holds nothing open. *)
Lemma minv_fresh m n k t :
  transactions m !! k = None → tx_ok t → tx_hold t = None → minv m n → minv (store k t m) n.
Proof.
  intros Hk Ht Hh Hm. apply minv_insert; [done..|]. eapply minv_ext; [|exact Hm].
  intros c. unfold holds_one. rewrite Hh, bool_decide_eq_false_2 by done. lia.
Qed.

Lemma minv_delete m n k t :
  transactions m !! k = Some t → minv m n →
  tx_ok t ∧ minv (with_transactions m (delete k (transactions m))) (λ c, n c + holds_one c t)%N.
Proof.
  intros Hk (Hok & Hwf & Hc). split; [by apply (Hok k t)|].
  split_and!; [by apply map_Forall_delete|done|].
  intros c. cbn. rewrite Hc, (hold_count_delete c k t) by done. lia.
Qed.

Lemma minv_replace m n k t t0 :
  transactions m !! k = Some t0 → tx_ok t → tx_hold t = tx_hold t0 →
  minv m n → minv (store k t m) n.
Proof.
  intros Hk Ht Hh (Hok & Hwf & Hc). split_and!; [by apply map_Forall_insert_2|done|].
  intros c. cbn. by rewrite (hold_count_replace c k t t0).
Qed.

Lemma minv_swap m n k t t0 :
  transactions m !! k = Some t0 → tx_ok t →
  minv m (λ c, n c + holds_one c t)%N → minv (store k t m) (λ c, n c + holds_one c t0)%N.
Proof.
  intros Hk Ht (Hok & Hwf & Hc). split_and!; [by apply map_Forall_insert_2|done|].
  intros c. specialize (Hc c). cbn in Hc |- *.
  rewrite <-insert_delete_eq, hold_count_insert by apply lookup_delete_eq.
  rewrite (hold_count_delete c k t0 _ Hk) in Hc. lia.
Qed.

(** The transaction after an event: kept while it has not ended. *)
Lemma minv_store_or_remove m n k t t0 l :
  transactions m !! k = Some t0 → tx_hold t = tx_hold t0 →
  existsb is_terminated l = finished t →
  match t with TxIct t => IctRun.waits_ok t | _ => True end →
  minv m n → minv (store_or_remove k t l m) n.
Proof.
  intros Hk Hh Hl Hw Hm. unfold store_or_remove. rewrite Hl. destruct (finished t) eqn:Hf.
  - unfold remove_and_drop. cbn. rewrite lookup_insert_eq, delete_insert_eq.
    apply minv_release. eapply minv_ext; [|apply (minv_delete m n k t0 Hk Hm)].
    intros c. unfold holds_one. by rewrite Hh.
  - by eapply minv_replace; [..|exact Hm].
Qed.

(** ** The system *)

Record World := mkWorld {
  mgr : TransactionManager;
  taken : list Transaction;   (* taken out by [remove] *)
  free : list ConnectionId;   (* holds not given to a transaction *)
}.

Definition outside (w : World) (c : ConnectionId) : N :=
  (list_holds c (taken w) + listed c (free w))%N.

Definition inv (w : World) : Prop := minv (mgr w) (outside w) ∧ Forall tx_ok (taken w).

Section system.
Context {U : Unicode} {P : Nom} {F32 : Float32}.

Inductive wstep : World → World → Prop :=
  | WNewServer m o f request tr :
      wstep (mkWorld m o f) (mkWorld (new_server_transaction m request tr).1 o f)
  | WNewClient m o f request wire tr :
      wstep (mkWorld m o f) (mkWorld (new_client_transaction m request wire tr).1 o f)
  | WHandleAck m o f uuid request :
      wstep (mkWorld m o f) (mkWorld (handle_ack m uuid request).1 o f)
  | WRetransmit m o f uuid request :
      wstep (mkWorld m o f) (mkWorld (handle_server_retransmit m uuid request).1 o f)
  | WServerEvent m o f uuid k e :
      wstep (mkWorld m o f) (mkWorld (process_server_event m uuid k e).1 o f)
  | WClientEvent m o f now k e :
      wstep (mkWorld m o f) (mkWorld (process_client_event m now k e).1 o f)
  | WCancel m o f k reasons :
      wstep (mkWorld m o f) (mkWorld (cancel_invite_client m k reasons).1 o f)
  | WArm m o f k after :
      wstep (mkWorld m o f) (mkWorld (arm_no_response m k after).1 o f)
  | WDisarm m o f k :
      wstep (mkWorld m o f) (mkWorld (disarm_no_response m k).1 o f)
  | WSetHop m o f k h :
      wstep (mkWorld m o f) (mkWorld (set_client_hop m k h) o f)
  | WSetConnection m o f k c :
      wstep (mkWorld m o f) (mkWorld (set_client_connection m k c) o f)
  | WHold m o f c :
      wstep (mkWorld m o f) (mkWorld (with_holds m (Holds.hold c (holds m))) o (c :: f))
  | WDropHold m o f1 c f2 :
      wstep (mkWorld m o (f1 ++ c :: f2)) (mkWorld (release (Some c) m) o (f1 ++ f2))
  | WHoldClient m o f1 c f2 k :
      wstep (mkWorld m o (f1 ++ c :: f2)) (mkWorld (hold_client_connection m k c) o (f1 ++ f2))
  | WRemove m o f k :
      wstep (mkWorld m o f) (mkWorld (remove m k).1 (option_list (remove m k).2 ++ o) f)
  | WRestore m o1 t o2 f k :
      wstep (mkWorld m (o1 ++ t :: o2) f) (mkWorld (restore_given_up m k t) (o1 ++ o2) f)
  | WDropTaken m o1 t o2 f :
      wstep (mkWorld m (o1 ++ t :: o2) f) (mkWorld (release (tx_hold t) m) (o1 ++ o2) f).

(** *** Every operation keeps the invariant *)

Lemma minv_ist_event m n uuid k t e :
  transactions m !! k = Some (TxIst t) → minv m n →
  let '(t', l) := Ist.process uuid t e in minv (store_or_remove k (TxIst t') l m) n.
Proof.
  intros Hk Hm. destruct (proj1 Hm k _ Hk) as [Hf _].
  destruct (Ist.process uuid t e) as [t' l] eqn:Hp.
  eapply minv_store_or_remove; [done|done|by eapply ist_ended|done|done].
Qed.

Lemma minv_nist_event m n uuid k t e :
  transactions m !! k = Some (TxNist t) → minv m n →
  let '(t', l) := Nist.process uuid t e in minv (store_or_remove k (TxNist t') l m) n.
Proof.
  intros Hk Hm. destruct (proj1 Hm k _ Hk) as [Hf _].
  destruct (Nist.process uuid t e) as [t' l] eqn:Hp.
  eapply minv_store_or_remove; [done|done|by eapply nist_ended|done|done].
Qed.

Lemma minv_nict_event m n k t e :
  transactions m !! k = Some (TxNict t) → minv m n →
  let '(t', l) := Nict.process t e in minv (store_or_remove k (TxNict t') l m) n.
Proof.
  intros Hk Hm. destruct (proj1 Hm k _ Hk) as [Hf _].
  pose proof (nict_process_hold t e) as Hh. destruct (Nict.process t e) as [t' l] eqn:Hp.
  eapply minv_store_or_remove; [done|exact Hh|by eapply nict_ended|done|done].
Qed.

Lemma minv_ict_event m n now k t e :
  transactions m !! k = Some (TxIct t) → minv m n →
  let '(t', l) := Ict.process now t e in minv (store_or_remove k (TxIct t') l m) n.
Proof.
  intros Hk Hm. pose proof (proj1 Hm k _ Hk) as [Hf Hw].
  pose proof (ict_process_hold now t e) as Hh.
  pose proof (IctRun.process_refines now t e Hw) as Hr.
  destruct (Ict.process now t e) as [t' l] eqn:Hp.
  eapply minv_store_or_remove; [done|exact Hh|by eapply ict_ended| |done].
  exact (IctRun.move_waits _ _ _ _ Hr Hw).
Qed.

(** A call of the transaction user on an INVITE client transaction that keeps
    its phase. *)
Lemma minv_ict_call m n k t i t' o :
  transactions m !! k = Some (TxIct t) → minv m n →
  IctRun.step t i = (t', o) → Ict.state t' = Ict.state t →
  Ict.connection_hold t' = Ict.connection_hold t → minv (store k (TxIct t') m) n.
Proof.
  intros Hk Hm Hst Hs Hh. pose proof (proj1 Hm k _ Hk) as [Hf Hw].
  pose proof (IctRun.step_refines t i Hw) as Hr. rewrite Hst in Hr.
  eapply minv_replace; [done| |exact Hh|done]. split; [by cbn in *; rewrite Hs|].
  exact (IctRun.move_waits _ _ _ _ Hr Hw).
Qed.

Lemma minv_new_server m n request tr : minv m n → minv (new_server_transaction m request tr).1 n.
Proof.
  intros Hm. unfold new_server_transaction. destruct (key_from_message request) as [k|]; [|done].
  destruct (msg_method request) as [[]|]; try done; destruct (transactions m !! k) eqn:Hk; try done;
    by apply minv_fresh.
Qed.

Lemma minv_new_client m n request wire tr :
  minv m n → minv (new_client_transaction m request wire tr).1 n.
Proof.
  intros Hm. unfold new_client_transaction. destruct (key_from_message request) as [k|]; [|done].
  destruct (msg_method request) as [[]|]; try done; destruct (transactions m !! k) eqn:Hk; try done;
    by apply minv_fresh.
Qed.

Lemma minv_ack m n uuid request : minv m n → minv (handle_ack m uuid request).1 n.
Proof.
  intros Hm. unfold handle_ack. destruct (key_from_message request) as [k|]; [|done].
  destruct (transactions m !! k) as [[t|t|t|t]|] eqn:Hk; try done.
  pose proof (minv_ist_event m n uuid k t (Ist.AckReceived request) Hk Hm) as He.
  by destruct (Ist.process _ _ _).
Qed.

Lemma minv_retransmit m n uuid request : minv m n → minv (handle_server_retransmit m uuid request).1 n.
Proof.
  intros Hm. unfold handle_server_retransmit. destruct (key_from_message request) as [k|]; [|done].
  destruct (transactions m !! k) as [[t|t|t|t]|] eqn:Hk; try done.
  - pose proof (minv_ist_event m n uuid k t (Ist.InviteRetransmit request) Hk Hm) as He.
    by destruct (Ist.process _ _ _).
  - pose proof (minv_nist_event m n uuid k t (Nist.RequestRetransmit request) Hk Hm) as He.
    by destruct (Nist.process _ _ _).
Qed.

Lemma minv_server_event m n uuid k e : minv m n → minv (process_server_event m uuid k e).1 n.
Proof.
  intros Hm. unfold process_server_event.
  destruct (transactions m !! k) as [[t|t|t|t]|] eqn:Hk, e as [e|e]; try done.
  - pose proof (minv_ist_event m n uuid k t e Hk Hm) as He. by destruct (Ist.process _ _ _).
  - pose proof (minv_nist_event m n uuid k t e Hk Hm) as He. by destruct (Nist.process _ _ _).
Qed.

Lemma minv_client_event m n now k e : minv m n → minv (process_client_event m now k e).1 n.
Proof.
  intros Hm. unfold process_client_event.
  destruct (transactions m !! k) as [[t|t|t|t]|] eqn:Hk, e as [e|e]; try done.
  - pose proof (minv_ict_event m n now k t e Hk Hm) as He. by destruct (Ict.process _ _ _).
  - pose proof (minv_nict_event m n k t e Hk Hm) as He. by destruct (Nict.process _ _).
Qed.

Lemma minv_cancel m n k reasons : minv m n → minv (cancel_invite_client m k reasons).1 n.
Proof.
  intros Hm. unfold cancel_invite_client.
  destruct (transactions m !! k) as [[t|t|t|t]|] eqn:Hk; try done.
  pose proof (request_cancel_hold t reasons) as Hh.
  destruct (Ict.request_cancel t reasons) as [t' o] eqn:Ho.
  eapply (minv_ict_call m n k t (IctRun.RequestCancel reasons)); [done|done| | |exact Hh].
  - cbn. by rewrite Ho.
  - unfold Ict.request_cancel in Ho. destruct (Ict.state t) eqn:Hs, (Ict.cancel t);
      try destruct (Ict.build_cancel t reasons); by injection Ho as <- _.
Qed.

Lemma minv_arm m n k after : minv m n → minv (arm_no_response m k after).1 n.
Proof.
  intros Hm. unfold arm_no_response.
  destruct (transactions m !! k) as [[t|t|t|t]|] eqn:Hk; try done.
  - destruct (Ict.arm_no_response t after) as [t' a] eqn:Ha. unfold Ict.arm_no_response in Ha.
    eapply (minv_ict_call m n k t (IctRun.ArmNoResponse after)); [done|done| | |].
    + cbn. unfold Ict.arm_no_response. by rewrite Ha.
    + by destruct (_ || _); injection Ha as <- _.
    + by destruct (_ || _); injection Ha as <- _.
  - pose proof (proj1 Hm k _ Hk) as [Hf _]. unfold Nict.arm_no_response.
    destruct (negb _); (eapply minv_replace; [done| |done|done]); done.
Qed.

Lemma minv_disarm m n k : minv m n → minv (disarm_no_response m k).1 n.
Proof.
  intros Hm. unfold disarm_no_response.
  destruct (transactions m !! k) as [[t|t|t|t]|] eqn:Hk; try done.
  destruct (Ict.disarm_no_response t) as [t' b] eqn:Hb.
  eapply (minv_ict_call m n k t IctRun.DisarmNoResponse); [done|done|cbn; by rewrite Hb| |];
    unfold Ict.disarm_no_response in Hb; by destruct (negb _); injection Hb as <- _.
Qed.

Lemma minv_set_hop m n k h : minv m n → minv (set_client_hop m k h) n.
Proof.
  intros Hm. unfold set_client_hop. destruct (transactions m !! k) as [[t|t|t|t]|] eqn:Hk; try done.
  by eapply (minv_ict_call m n k t (IctRun.SetHop h)).
Qed.

Lemma minv_set_connection m n k c : minv m n → minv (set_client_connection m k c) n.
Proof.
  intros Hm. unfold set_client_connection.
  destruct (transactions m !! k) as [[t|t|t|t]|] eqn:Hk; try done.
  eapply (minv_ict_call m n k t (IctRun.SetConnection c)); [done..| |];
    unfold Ict.set_connection; by destruct (Ict.hop t).
Qed.

Lemma minv_hold_client m n k c :
  minv m (λ c', n c' + if bool_decide (Some c = Some c') then 1 else 0)%N →
  minv (hold_client_connection m k c) n.
Proof.
  intros Hm. unfold hold_client_connection.
  destruct (transactions m !! k) as [[t|t|t|t]|] eqn:Hk;
    try (by apply minv_release); pose proof (proj1 Hm k _ Hk) as Hok; apply minv_release.
  - by apply (minv_swap m n k (TxIct (Ict.hold_connection t c)) (TxIct t)).
  - by apply (minv_swap m n k (TxNict (Nict.hold_connection t c)) (TxNict t)).
Qed.

Lemma minv_restore m n k t :
  tx_ok t → minv m (λ c, n c + holds_one c t)%N → minv (restore_given_up m k t) n.
Proof.
  intros Ht Hm. unfold restore_given_up. destruct (transactions m !! k) eqn:Hk.
  - by apply minv_release.
  - by apply minv_insert.
Qed.

Lemma list_holds_app c l1 l2 : list_holds c (l1 ++ l2) = (list_holds c l1 + list_holds c l2)%N.
Proof. induction l1 as [|t l1 IH]; [done|]. cbn. rewrite IH. lia. Qed.

Lemma listed_app c l1 l2 : listed c (l1 ++ l2) = (listed c l1 + listed c l2)%N.
Proof. unfold listed. rewrite filter_app, length_app. lia. Qed.

Lemma listed_cons c x l : listed c (x :: l) = ((if bool_decide (Some x = Some c) then 1 else 0) + listed c l)%N.
Proof. unfold listed. rewrite filter_cons. case_bool_decide; case_decide; simplify_eq; cbn; lia. Qed.

Lemma inv_step w w' : wstep w w' → inv w → inv w'.
Proof.
  intros Hst [Hm Ht]. unfold inv, outside in *. destruct Hst; cbn [mgr taken free] in *;
    try (split; [|exact Ht]).
  - by apply minv_new_server.
  - by apply minv_new_client.
  - by apply minv_ack.
  - by apply minv_retransmit.
  - by apply minv_server_event.
  - by apply minv_client_event.
  - by apply minv_cancel.
  - by apply minv_arm.
  - by apply minv_disarm.
  - by apply minv_set_hop.
  - by apply minv_set_connection.
  - destruct Hm as (Hok & Hwf & Hc). split_and!; [done|by apply Holds.wf_hold|].
    intros c'. cbn [holds with_holds transactions]. rewrite Holds.count_hold, Hc, listed_cons.
    case_bool_decide; case_decide; simplify_eq; lia.
  - apply minv_release. eapply minv_ext; [|exact Hm]. intros c'. cbn.
    rewrite !listed_app, listed_cons. lia.
  - apply minv_hold_client. eapply minv_ext; [|exact Hm]. intros c'. cbn.
    rewrite !listed_app, listed_cons. lia.
  - unfold remove. cbn [fst snd]. destruct (transactions m !! k) as [t|] eqn:Hk.
    + destruct (minv_delete m _ k t Hk Hm) as [Hok Hd]. split; [|by constructor].
      eapply minv_ext; [|exact Hd]. intros c. cbn. lia.
    + split; [|done]. rewrite delete_id by done. by destruct m.
  - apply Forall_app in Ht as [Ht1 [Ht2 Ht3]%Forall_cons]. split; [|by apply Forall_app].
    apply minv_restore; [done|]. eapply minv_ext; [|exact Hm]. intros c. cbn.
    rewrite !list_holds_app. cbn. lia.
  - apply Forall_app in Ht as [Ht1 [Ht2 Ht3]%Forall_cons]. split; [|by apply Forall_app].
    apply minv_release. eapply minv_ext; [|exact Hm]. intros c. cbn.
    rewrite !list_holds_app. cbn. unfold holds_one. lia.
Qed.

Definition initial (c : Timer.TimerConfig) : World := mkWorld (new c) [] [].

Definition reachable (c : Timer.TimerConfig) (w : World) : Prop := rtc wstep (initial c) w.

Lemma reachable_inv c w : reachable c w → inv w.
Proof.
  intros Hr. unfold reachable in Hr. assert (inv (initial c)) as H0.
  { split; [|constructor]. split_and!; [apply map_Forall_empty..|]. intros c'. done. }
  induction Hr as [|w1 w2 w3 Hst _ IH]; [done|]. by eapply IH, inv_step.
Qed.

End system.

Lemma hold_count_pos c txs :
  (0 < hold_count c txs)%N ↔ ∃ k t, txs !! k = Some t ∧ tx_hold t = Some c.
Proof.
  induction txs as [|k t txs Hk IH] using map_ind.
  { split; [by cbn|]. intros (k & t & Hk & _). by rewrite lookup_empty in Hk. }
  rewrite hold_count_insert by done. unfold holds_one. case_bool_decide as Ht.
  - split; [|lia]. intros _. exists k, t. by rewrite lookup_insert_eq.
  - rewrite N.add_0_l, IH. split; intros (k' & t' & Hk' & Ht'); exists k', t'.
    + rewrite lookup_insert_ne by congruence. done.
    + apply lookup_insert_Some in Hk' as [[<- <-]|[_ ?]]; done.
Qed.

Lemma list_holds_pos c l : (0 < list_holds c l)%N ↔ ∃ t, t ∈ l ∧ tx_hold t = Some c.
Proof.
  induction l as [|t l IH]; cbn; [split; [lia|by intros (t & ?%elem_of_nil & _)]|].
  unfold holds_one. case_bool_decide as Ht.
  - split; [|lia]. intros _. exists t. by split; [left|].
  - rewrite N.add_0_l, IH. split; intros (t' & Hin & Ht'); exists t'; split; try done.
    + by right.
    + by apply elem_of_cons in Hin as [->|?].
Qed.

Lemma listed_pos c l : (0 < listed c l)%N ↔ c ∈ l.
Proof.
  induction l as [|x l IH]; [split; [by cbn|by intros ?%elem_of_nil]|].
  rewrite listed_cons, elem_of_cons. case_bool_decide as Hx; simplify_eq.
  - split; [by left|lia].
  - rewrite N.add_0_l, IH. split; [by right|]. by intros [->|?].
Qed.

(** C4: no transaction is kept after its end.  In every state the transaction
    layer can reach, by any sequence of its operations, no stored transaction
    has ended: each of them still waits for a timer or an event. *)
Theorem stored_transactions_live `{U : Unicode, P : Nom, F32 : Float32}
    (c : Timer.TimerConfig) (w : World) (k : TransactionKey) (t : Transaction) :
  reachable c w → transactions (mgr w) !! k = Some t → finished t = false.
Proof. intros [(Hok & _) _]%reachable_inv Hk. by destruct (Hok k t Hk). Qed.

(** C5: a connection is held open exactly while something is pending on it.  In
    every reachable state the pool finds a connection held if and only if a
    stored client transaction, a transaction taken out of the manager, or a
    caller owns a hold on it. *)
Theorem connection_held_iff_pending `{U : Unicode, P : Nom, F32 : Float32}
    (c : Timer.TimerConfig) (w : World) (conn : ConnectionId) :
  reachable c w →
  Holds.is_held conn (holds (mgr w)) = true ↔
    (∃ k t, transactions (mgr w) !! k = Some t ∧ tx_hold t = Some conn) ∨
    (∃ t, t ∈ taken w ∧ tx_hold t = Some conn) ∨ conn ∈ free w.
Proof.
  intros [(_ & Hwf & Hc) _]%reachable_inv. rewrite Holds.is_held_count by done.
  rewrite Hc. unfold outside. rewrite <-hold_count_pos, <-list_holds_pos, <-listed_pos. lia.
Qed.

(** A client transaction that holds connection 7. *)
Definition sample_key : TransactionKey := mkKey "z9hG4bK1" Invite "a.example.org".

Definition sample_request : SipMessage :=
  mkMessage (Request (mkRequestLine Invite (uri_new "example.org") sip_2_0))
    (Headers.set "Via" "SIP/2.0/UDP a.example.org;branch=z9hG4bK1" Headers.new) "".

Definition sample_world : World :=
  let m := (@new_client_transaction unicode_ascii (new Timer.default) sample_request
              sample_invite Udp).1 in
  let m := with_holds m (Holds.hold 7 (holds m)) in
  mkWorld (hold_client_connection m sample_key 7) [] [].

Lemma sample_reachable :
  @reachable unicode_ascii nom_reference float_whole Timer.default sample_world.
Proof.
  eapply rtc_l; [apply (@WNewClient unicode_ascii nom_reference float_whole _ [] []
    sample_request sample_invite Udp)|].
  eapply rtc_l; [apply (@WHold unicode_ascii nom_reference float_whole _ [] [] 7)|].
  eapply rtc_l; [apply (@WHoldClient unicode_ascii nom_reference float_whole _ [] [] 7 []
    sample_key)|].
  apply rtc_refl.
Qed.

Lemma stored_transactions_live_witness :
  ∃ t, transactions (mgr sample_world) !! sample_key = Some t ∧ finished t = false.
Proof.
  eexists. split; [vm_compute; reflexivity|].
  eapply (@stored_transactions_live unicode_ascii nom_reference float_whole Timer.default
    sample_world sample_key); [exact sample_reachable|vm_compute; reflexivity].
Defined.

Lemma connection_held_iff_pending_witness :
  Holds.is_held 7 (holds (mgr sample_world)) = true.
Proof.
  apply (@connection_held_iff_pending unicode_ascii nom_reference float_whole Timer.default
    sample_world 7 sample_reachable).
  left. exists sample_key. eexists. split; vm_compute; reflexivity.
Defined.

Section matching.
Context {U : Unicode}.

Lemma get_v_is_via h : Headers.get "v" h = Headers.get "Via" h.
Proof. reflexivity. Qed.

Lemma key_from_message_ext m1 m2 :
  Headers.get "Via" (msg_headers m1) = Headers.get "Via" (msg_headers m2) →
  is_request m1 = true → is_request m2 = true →
  (∀ branch s, key_new branch (default Invite (msg_method m1)) s =
               key_new branch (default Invite (msg_method m2)) s) →
  key_from_message m1 = key_from_message m2.
Proof.
  unfold key_from_message, is_request, msg_method. rewrite !get_v_is_via. intros ->.
  destruct (start_line m1) as [l1|], (start_line m2) as [l2|]; try done. intros _ _ Hk.
  destruct (Headers.get "Via" (msg_headers m2)) as [raw|]; [|done]. cbn [ok_or].
  cbn [mbind result_bind]. destruct (map_err BadVia (Via.parse_multi raw)) as [[|v vs]|]; try done.
  cbn. destruct (Via.branch v) as [b|]; [|done]. cbn -[key_new]. f_equal. apply Hk.
Qed.

Lemma new_server_eq m request tr method k :
  msg_method request = Some method → method ≠ Ack → key_from_message request = Ok k →
  new_server_transaction m request tr =
    let '(t, actions) := server_transaction_for (timers m) method request tr in
    match transactions m !! k with
    | None => (with_transactions m (<[k := t]> (transactions m)), Ok (mkOutcome k actions true))
    | Some _ => (m, Ok (mkOutcome k [] false))
    end.
Proof. intros Hm Hack Hk. unfold new_server_transaction. rewrite Hm, Hk. by destruct method. Qed.

End matching.

(** One server transaction per request.  A request other than ACK creates a
    transaction exactly when none has its key, and then hands the request to
    the transaction user; otherwise it changes nothing and asks for nothing.
    Either way a transaction has the key afterwards, so a second copy of the
    request is never new, and no other transaction is touched. *)
Theorem server_transaction_created_once `{U : Unicode}
    (m : TransactionManager) (request : SipMessage) (tr : Transport) (method : Method)
    (k : TransactionKey) :
  msg_method request = Some method → method ≠ Ack → key_from_message request = Ok k →
  ∃ m' actions created,
    new_server_transaction m request tr = (m', Ok (mkOutcome k actions created)) ∧
    created = negb (contains k m) ∧ contains k m' = true ∧
    (if created then PassToTu request ∈ actions else actions = [] ∧ m' = m) ∧
    (∀ k', k' ≠ k → transactions m' !! k' = transactions m !! k') ∧ holds m' = holds m ∧
    new_server_transaction m' request tr = (m', Ok (mkOutcome k [] false)).
Proof.
  intros Hm Hack Hk. assert (Heq := λ m, new_server_eq m request tr method k Hm Hack Hk).
  rewrite Heq. destruct (server_transaction_for (timers m) method request tr) as [t actions] eqn:Ht.
  unfold contains. destruct (transactions m !! k) as [t0|] eqn:Hl.
  { exists m, [], false. rewrite Heq, Ht, Hl. split_and!; done. }
  exists (with_transactions m (<[k := t]> (transactions m))), actions, true.
  rewrite Heq. cbn [timers with_transactions transactions holds].
  rewrite Ht, lookup_insert_eq. split_and!; try done.
  - revert Ht. unfold server_transaction_for, Nist.new.
    destruct method; intros [= <- <-]; set_solver.
  - intros k' Hne. by rewrite lookup_insert_ne.
Qed.

Lemma server_transaction_created_once_witness :
  ∃ m' l, @new_server_transaction unicode_ascii (new Timer.default) sample_request Udp =
            (m', Ok (mkOutcome sample_key l true)) ∧ PassToTu sample_request ∈ l ∧
          @new_server_transaction unicode_ascii m' sample_request Udp =
            (m', Ok (mkOutcome sample_key [] false)).
Proof.
  destruct (@server_transaction_created_once unicode_ascii (new Timer.default)
    sample_request Udp Invite sample_key) as (m' & l & b & He & Hb & _ & Hl & _ & _ & Ha);
    [reflexivity|discriminate|vm_compute; reflexivity|].
  change (b = true) in Hb. subst b. exists m', l. split; [exact He|split; [exact Hl|exact Ha]].
Defined.

(** Responses find their transaction.  The key of the response skeleton for
    a request is the key of the request, so a response sent back along the
    Via matches the client transaction the request created; the method comes
    from the CSeq, which names the method of the request. *)
Theorem response_key_is_request_key `{U : Unicode}
    (request : SipMessage) (status : N) (reason raw : string) (method : Method) (seq : N) :
  msg_method request = Some method →
  Headers.get "CSeq" (msg_headers request) = Some raw →
  CSeq.parse raw = Ok (CSeq.mkCSeq seq method) →
  key_from_message (build_response_skeleton request status reason) = key_from_message request.
Proof.
  intros Hm Hraw Hc. unfold key_from_message. rewrite !get_v_is_via, skeleton_via, skeleton_cseq.
  rewrite skeleton_start_line, Hraw. cbn [ok_or]. cbn [mbind result_bind]. rewrite Hc.
  unfold msg_method in Hm. by destruct (start_line request); simplify_eq.
Qed.

Definition sample_options : SipMessage :=
  mkMessage (Request (mkRequestLine Options (uri_new "example.org") sip_2_0))
    (Headers.add "CSeq" "7 OPTIONS"
      (Headers.set "Via" "SIP/2.0/UDP a.example.org;branch=z9hG4bK2" Headers.new)) "".

Lemma response_key_is_request_key_witness :
  @key_from_message unicode_ascii (build_response_skeleton sample_options 200 "OK") =
    Ok (mkKey "z9hG4bK2" Options "a.example.org").
Proof.
  rewrite (@response_key_is_request_key unicode_ascii sample_options 200 "OK"
    "7 OPTIONS" Options 7); vm_compute; reflexivity.
Defined.

(** The ACK for a final response reaches the INVITE server transaction.  An
    ACK with the top Via of the INVITE has the key of the INVITE; in [Completed]
    it stops the retransmission timers and either waits for Timer I in
    [Confirmed] or, when Timer I is zero, ends and removes the transaction. *)
Theorem ack_confirms_invite `{U : Unicode, P : Nom, F32 : Float32} (m : TransactionManager) (uuid : string)
    (invite ack : SipMessage) (k : TransactionKey) (t : Ist.Ist) :
  msg_method invite = Some Invite → msg_method ack = Some Ack →
  Headers.get "Via" (msg_headers ack) = Headers.get "Via" (msg_headers invite) →
  key_from_message invite = Ok k →
  transactions m !! k = Some (TxIst t) → Ist.state t = Ist.Completed →
  ∃ m' l, handle_ack m uuid ack = (m', Ok (Some (k, l))) ∧
    CancelTimer TimerName.G ∈ l ∧ CancelTimer TimerName.H ∈ l ∧
    (if Timer.is_zero (Ist.timer_i t)
     then transactions m' = delete k (transactions m)
     else transactions m' = <[k := TxIst (Ist.with_state t Ist.Confirmed)]> (transactions m) ∧
          StartTimer TimerName.I (Ist.timer_i t) ∈ l).
Proof.
  intros Hi Ha Hv Hk Ht Hs.
  assert (key_from_message ack = Ok k) as Hka.
  { rewrite <-Hk. apply key_from_message_ext; [done|..]; revert Hi Ha;
      unfold msg_method, is_request; by destruct (start_line invite), (start_line ack);
      intros; simplify_eq/=; rewrite ?Hi, ?Ha. }
  unfold handle_ack. rewrite Hka, Ht. unfold Ist.process. rewrite Hs.
  destruct (Timer.is_zero (Ist.timer_i t)); do 2 eexists; (split; [reflexivity|]);
    (split; [set_solver|]); (split; [set_solver|]).
  - cbn. unfold remove_and_drop. cbn. rewrite lookup_insert_eq. cbn.
    apply delete_insert_eq.
  - split; [done|set_solver].
Qed.

(** The manager after a rejected INVITE. *)
Definition sample_completed : Ist.Ist :=
  Ist.with_state (Ist.new Udp Timer.default) Ist.Completed.

Definition sample_ack : SipMessage :=
  mkMessage (Request (mkRequestLine Ack (uri_new "example.org") sip_2_0))
    (msg_headers sample_request) "".

Lemma ack_confirms_invite_witness :
  ∃ m' l, @handle_ack unicode_ascii nom_reference float_whole
            (store sample_key (TxIst sample_completed) (new Timer.default)) "u" sample_ack =
          (m', Ok (Some (sample_key, l))) ∧ CancelTimer TimerName.G ∈ l.
Proof.
  destruct (@ack_confirms_invite unicode_ascii nom_reference float_whole
    (store sample_key (TxIst sample_completed) (new Timer.default)) "u" sample_request sample_ack
    sample_key sample_completed) as (m' & l & He & Hg & _); try (vm_compute; reflexivity).
  exists m', l. split; [exact He|exact Hg].
Defined.
