(* ===== verification/ProxyCore.v ===== *)
(** * Proxy header operations ([src/src/proxy/core.rs])

    The header manipulation of a forwarding proxy: Via insertion and stripping,
    Max-Forwards, Record-Route, and the consumption of the Route entries that
    name this proxy.  Each operation on [&mut SipHeaders] returns the new
    headers. *)

From S2P Require Import Prelude Str Nom Timer Headers Uri Message Via Parser NameAddr Route Transport.
From S2P Require Import Cancel TxState TxManager.

Section core.
Context {U : Unicode} {P : Nom}.

(** ** Via *)

(** The value inserted; [uuid] is the fresh UUID of [generate_branch]. *)
Definition via_value (uuid transport host : string) (port : option N) : string :=
  "SIP/2.0/" +:+ transport +:+ " " +:+ host +:+ show_port port +:+
  ";branch=" +:+ generate_branch uuid.

Definition add_via (h : SipHeaders) (uuid transport host : string) (port : option N)
    : SipHeaders * string :=
  let existing := default [] (Headers.get_all "Via" h) in
  (Headers.set_all "Via" (via_value uuid transport host port :: existing) h, generate_branch uuid).

Definition strip_top_via (h : SipHeaders) : SipHeaders * option Via.Via :=
  match default [] (Headers.get_all "Via" h) with
  | [] => (h, None)
  | first_raw :: rest =>
      match Via.parse_multi first_raw with
      | Err _ | Ok [] => (h, None)
      | Ok (removed :: vias) =>
          let remaining :=
            match vias with [] => [] | _ => [join ", " (Via.show <$> vias)] end ++ rest in
          (match remaining with
           | [] => Headers.remove "Via" h
           | _ => Headers.set_all "Via" remaining h
           end, Some removed)
      end
  end.

(** ** Max-Forwards *)

Definition decrement_max_forwards (h : SipHeaders) : SipHeaders * option N :=
  let current := default 70%N (Headers.max_forwards h) in
  if (current =? 0)%N then (h, None)
  else (Headers.set "Max-Forwards" (dec (current - 1)) h, Some (current - 1)%N).

(** ** Record-Route and Route *)

Definition add_record_route (h : SipHeaders) (uri : string) : SipHeaders :=
  let existing := default [] (Headers.get_all "Record-Route" h) in
  let h := Headers.add "Record-Route" ("<" +:+ uri +:+ ";lr>") (Headers.remove "Record-Route" h) in
  foldl (λ h rr, Headers.add "Record-Route" rr h) h existing.

(** The first entry of the first Route value. *)
Definition top_route (h : SipHeaders) : option Route.RouteEntry :=
  raw ← Headers.get "Route" h;
  match Route.parse_multi raw with Ok (e :: _) => Some e | _ => None end.

Definition check_loose_route (h : SipHeaders) : bool :=
  match top_route h with Some e => Route.is_loose_route e | None => true end.

(** The entries of every Route value that parses. *)
Definition all_routes (h : SipHeaders) : list Route.RouteEntry :=
  default [] (Headers.get_all "Route" h) ≫= λ raw,
    match Route.parse_multi raw with Ok entries => entries | Err _ => [] end.

Definition pop_top_route (h : SipHeaders) : SipHeaders * option Route.RouteEntry :=
  match all_routes h with
  | [] => (h, None)
  | removed :: entries =>
      let h := Headers.remove "Route" h in
      (match entries with
       | [] => h
       | _ => Headers.add "Route" (Route.format_route_header entries) h
       end, Some removed)
  end.

(** ** The addresses of this proxy *)

(** The open per-UE sockets: UDP addresses, the IPs counted for them, and the TCP
    listeners once attached. *)
Record UeSockets := mkUeSockets {
  sockets : list SocketAddr;
  ips : list IpAddr;
  tcp : option (list SocketAddr);
}.

Definition contains_any (s : UeSockets) (addr : SocketAddr) : bool :=
  bool_decide (addr ∈ sockets s) || bool_decide (addr ∈ default [] (tcp s)).

Definition contains_ip (s : UeSockets) (a : IpAddr) : bool :=
  bool_decide (a ∈ ips s) || existsb (λ l, bool_decide (ip l = a)) (default [] (tcp s)).

Record SelfIdentity := mkIdentity {
  entries : list (string * list N);
  dynamic_udp : option UeSockets;
}.

Definition identity_new : SelfIdentity := mkIdentity [] None.

Definition set_dynamic_udp (i : SelfIdentity) (d : option UeSockets) : SelfIdentity :=
  mkIdentity (entries i) d.

Definition normalise (host : string) : string :=
  to_ascii_lowercase (strip_ipv6_brackets (trim host)).

(** Changes the first entry of [host] with [f], or appends [absent]. *)
Fixpoint update_entry (f : list N → list N) (absent : list N) (host : string)
    (l : list (string * list N)) : list (string * list N) :=
  match l with
  | [] => [(host, absent)]
  | (known, ports) :: l =>
      if bool_decide (known = host) then (known, f ports) :: l
      else (known, ports) :: update_entry f absent host l
  end.

Definition add_alias (i : SelfIdentity) (host : string) : SelfIdentity :=
  let host := normalise host in
  if is_empty host then i else
  mkIdentity (update_entry (λ _, []) [] host (entries i)) (dynamic_udp i).

(** The ports not known yet are appended, one at a time. *)
Definition add_ports (known ports : list N) : list N :=
  foldl (λ known p, if bool_decide (p ∈ known) then known else known ++ [p]) known ports.

Definition add_host (i : SelfIdentity) (host : string) (ports : list N) : SelfIdentity :=
  let host := normalise host in
  if is_empty host || bool_decide (ports = []) then i else
  mkIdentity
    (update_entry (λ known, match known with [] => [] | _ => add_ports known ports end) ports host
       (entries i)) (dynamic_udp i).

Definition matches_dynamic (i : SelfIdentity) (host : string) (port : option N) : bool :=
  match dynamic_udp i, Ip.parse host with
  | Some d, Some a =>
      match port with
      | Some p => contains_any d (mkSocket a p)
      | None => contains_ip d a
      end
  | _, _ => false
  end.

Definition entry_matches (candidate : string) (port : option N) (e : string * list N) : bool :=
  bool_decide (e.1 = candidate) &&
  match e.2, port with
  | [], _ | _, None => true
  | ports, Some p => bool_decide (p ∈ ports)
  end.

Definition matches (i : SelfIdentity) (host : string) (port : option N) : bool :=
  let candidate := normalise host in
  existsb (entry_matches candidate port) (entries i) || matches_dynamic i candidate port.

Definition is_local (i : SelfIdentity) (e : Route.RouteEntry) : bool :=
  matches i (Uri.host (Route.uri e)) (Uri.port (Route.uri e)).

Definition top_route_is_local (h : SipHeaders) (i : SelfIdentity) : bool :=
  match top_route h with Some e => is_local i e | None => false end.

(** The loop of [pop_local_routes]; [fuel] bounds its turns. *)
Fixpoint pop_local_routes_loop (fuel : nat) (h : SipHeaders) (i : SelfIdentity)
    (popped : list Route.RouteEntry) : option (SipHeaders * list Route.RouteEntry) :=
  match fuel with
  | O => None
  | S fuel =>
      if top_route_is_local h i then
        match pop_top_route h with
        | (h, Some e) => pop_local_routes_loop fuel h i (popped ++ [e])
        | (h, None) => Some (h, popped)
        end
      else Some (h, popped)
  end.

(** Every turn takes one opening bracket out of the Route values. *)
Fixpoint count_byte (a : byte) (s : string) : nat :=
  match s with
  | "" => 0
  | String b s => (if is_byte a b then 1 else 0) + count_byte a s
  end.

Definition route_brackets (h : SipHeaders) : nat :=
  sum_list_with (count_byte "<") (default [] (Headers.get_all "Route" h)).

Definition pop_local_routes (h : SipHeaders) (i : SelfIdentity)
    : option (SipHeaders * list Route.RouteEntry) :=
  pop_local_routes_loop (S (route_brackets h)) h i [].

Definition consume_self_routes (h : SipHeaders) (i : SelfIdentity)
    : option (SipHeaders * list Route.RouteEntry) :=
  if check_loose_route h then pop_local_routes h i else Some (h, []).

Definition next_hop_from_route (h : SipHeaders) : option string :=
  raw ← Headers.get "Route" h;
  entries ← ok (Route.parse_multi raw);
  show_uri ∘ Route.uri <$> head entries.

(** ** Routing one branch *)

Definition path_entries (raw : string) : list string :=
  let trimmed := trim raw in
  if is_empty trimmed then [] else
  match Route.parse_multi trimmed with
  | Ok ((_ :: _) as parsed) => Route.show <$> parsed
  | _ => ["<" +:+ trim (trim_matches (byte_in ["<"; ">"]%char) trimmed) +:+ ">"]
  end.

Definition route_set_from_path (path : list string) : option string :=
  match path ≫= path_entries with
  | [] => None
  | l => Some (join ", " l)
  end.

Record BranchRouting := mkRouting {
  route_set : option string;
  next_hop : string;
}.

Definition branch_routing (branch_path : list string) (target : string) : option BranchRouting :=
  match route_set_from_path branch_path with
  | None => Some (mkRouting None target)
  | Some set =>
      next_hop ← next_hop_from_route (Headers.set "Route" set Headers.new);
      Some (mkRouting (Some set) next_hop)
  end.

End core.
