(* ===== verification/RouteTermination.v ===== *)
(** * Shedding our own routes always ends

    [pop_local_routes] ([ProxyCore], [src/src/proxy/core.rs]) re-serializes the
    Route entries on every turn, so its input is not simply getting shorter: a
    malformed value may come back as more entries than it was read as.  The
    number of opening brackets in the Route values does decrease, whatever the
    text, which is what these lemmas show. *)

From S2P Require Import Prelude Str Nom Timer Headers Uri Message Via Parser NameAddr Route Transport.
From S2P Require Import Cancel TxState TxManager ProxyCore.

Abbreviation brackets := (count_byte "<") (only parsing).

(** ** Brackets of slices *)

Lemma count_app a s t : count_byte a (s +:+ t) = count_byte a s + count_byte a t.
Proof.
  induction s as [|b s IH]; [done|]. rewrite append_cons. cbn. rewrite IH. lia.
Qed.

Lemma count_concat a l : count_byte a (str_concat l) = sum_list_with (count_byte a) l.
Proof. induction l as [|s l IH]; [done|]. cbn. by rewrite count_app, IH. Qed.

Lemma count_trim a s : count_byte a (trim s) ≤ count_byte a s.
Proof.
  rewrite <-(concat_chars s) at 2. unfold trim.
  destruct (drop_while_suffix is_whitespace (chars s)) as [k1 Hk1]. rewrite Hk1 at 2.
  destruct (drop_while_end_prefix is_whitespace (drop_while is_whitespace (chars s))) as [k2 Hk2].
  rewrite Hk2 at 2. rewrite !str_concat_app, !count_app. lia.
Qed.

Lemma count_break a p s : count_byte a (break p s).1 + count_byte a (break p s).2 = count_byte a s.
Proof. by rewrite <-count_app, break_concat. Qed.

Lemma count_split_once_by a p s x y :
  split_once_by p s = Some (x, y) → count_byte a x + count_byte a y ≤ count_byte a s.
Proof.
  unfold split_once_by. pose proof (count_break a p s) as Hb.
  destruct (break p s) as [x' [|b y']]; [done|]. intros [= <- <-]. cbn in Hb. lia.
Qed.

Lemma count_split_once_at a s x y :
  split_once a s = Some (x, y) → count_byte a x + count_byte a y + 1 ≤ count_byte a s.
Proof.
  unfold split_once, split_once_by. pose proof (count_break a (is_byte a) s) as Hb.
  assert (∀ b y', (break (is_byte a) s).2 = String b y' → is_byte a b = true) as Hd.
  { clear Hb. induction s as [|c s IH]; [done|]. cbn. destruct (is_byte a c) eqn:Hc.
    - by intros b y' [= <- _].
    - destruct (break (is_byte a) s) as [u v]. cbn in *. apply IH. }
  destruct (break (is_byte a) s) as [x' [|b y']]; [done|]. intros [= <- <-].
  specialize (Hd b y' eq_refl). cbn in Hb. rewrite Hd in Hb. lia.
Qed.

Lemma count_rsplit_once a b s x y :
  rsplit_once b s = Some (x, y) → count_byte a x + count_byte a y ≤ count_byte a s.
Proof.
  revert x. induction s as [|c s IH]; intros x; [done|]. cbn.
  destruct (rsplit_once b s) as [[x' y']|].
  - intros [= <- <-]. specialize (IH x' eq_refl). cbn. lia.
  - destruct (is_byte b c); [|done]. intros [= <- <-]. cbn. lia.
Qed.

Lemma count_split a b s : sum_list_with (count_byte a) (split b s) ≤ count_byte a s.
Proof.
  induction s as [|c s IH]; [done|]. cbn. destruct (is_byte b c); [cbn; lia|].
  destruct (split b s) as [|x l]; cbn in *; lia.
Qed.

Lemma count_filter {A} (f : A → nat) (Q : A → Prop) `{∀ x, Decision (Q x)} l :
  sum_list_with f (filter Q l) ≤ sum_list_with f l.
Proof.
  induction l as [|x l IH]; [done|]. rewrite filter_cons. case_decide; cbn; lia.
Qed.

Lemma sum_le {A B} (f : A → nat) (g : B → nat) (h : A → B) l :
  (∀ x, g (h x) ≤ f x) → sum_list_with g (h <$> l) ≤ sum_list_with f l.
Proof. intros Hle. induction l as [|x l IH]; [done|]. cbn. specialize (Hle x). lia. Qed.

Lemma count_strip_prefix a p s t : strip_prefix p s = Some t → count_byte a t ≤ count_byte a s.
Proof. intros ->%strip_prefix_Some. rewrite count_app. lia. Qed.

Lemma count_dec n : brackets (dec n) = 0.
Proof.
  pose proof (dec_digits n) as Hd. induction (dec n) as [|a s IH]; [done|].
  cbn in Hd |- *. apply andb_prop in Hd as [Ha Hd]. rewrite IH by done.
  unfold is_byte. rewrite bool_decide_eq_false_2; [done|]. intros <-. done.
Qed.

Lemma count_port p : brackets (show_port p) = 0.
Proof. destruct p; [|done]. cbn [show_port]. by rewrite count_app, count_dec. Qed.

(** ** Parsers take their output from the input *)

Section parsers.
Context {U : Unicode} {P : Nom}.

Lemma char_span_split p s : (char_span p s).1 +:+ (char_span p s).2 = s.
Proof.
  unfold char_span. pose proof (span_concat p (chars s)) as Hs.
  destruct (span p (chars s)) as [l r]. cbn in *. by rewrite <-str_concat_app, Hs, concat_chars.
Qed.

Lemma count_take_while a p s r x :
  take_while p s = Some (r, x) → count_byte a x + count_byte a r = count_byte a s.
Proof. rewrite take_while_eq. intros [= <- <-]. by rewrite <-count_app, char_span_split. Qed.

Lemma count_take_while1 a p s r x :
  take_while1 p s = Some (r, x) → count_byte a x + count_byte a r = count_byte a s.
Proof.
  rewrite take_while1_eq. case_match; [done|]. intros [= <- <-].
  by rewrite <-count_app, char_span_split.
Qed.

Lemma count_nchar a b s r x : nchar b s = Some (r, x) → count_byte a r ≤ count_byte a s.
Proof.
  rewrite nchar_eq. destruct s; [done|]. case_match; [|done]. intros [= <- <-]. cbn. lia.
Qed.

(** A parser whose result, written with [f], has no bracket that was not in the
    text it consumed. *)
Definition frugal {A} (f : A → string) (p : parser A) : Prop :=
  ∀ s r x, p s = Some (r, x) → brackets (f x) + brackets r ≤ brackets s.

Lemma frugal_pair names values :
  frugal show_uri_header
    (tuple2 (take_while1 names) (opt (preceded (nchar "=") (take_while values)))).
Proof.
  intros s r [n v]. rewrite tuple2_eq. intros ([r1 x] & H1 & ([r2 y] & H2 & [= <- <- <-])%bind_Some)%bind_Some.
  apply (count_take_while1 "<") in H1. rewrite opt_eq, preceded_eq in H2.
  unfold show_uri_header. cbn [fst snd]. rewrite count_app.
  destruct (nchar "=" r1) as [[r3 z]|] eqn:H3; cbn in H2.
  - apply (count_nchar "<") in H3. destruct (take_while values r3) as [[r4 w]|] eqn:H4; cbn in H2;
      injection H2 as <- <-.
    + apply (count_take_while "<") in H4. rewrite count_app. change (brackets "=") with 0. lia.
    + change (brackets "") with 0. lia.
  - injection H2 as <- <-. change (brackets "") with 0. lia.
Qed.

Lemma frugal_preceded {A B} (f : A → string) (p : parser B) q :
  (∀ s r x, p s = Some (r, x) → brackets r ≤ brackets s) → frugal f q → frugal f (preceded p q).
Proof.
  intros Hp Hq s r x. rewrite preceded_eq. intros ([r1 y] & H1 & H2)%bind_Some.
  apply Hp in H1. apply Hq in H2. lia.
Qed.

Lemma frugal_uri_param : frugal show_param uri_param.
Proof.
  assert (frugal show_uri_header uri_param) as H.
  { apply frugal_preceded; [|apply frugal_pair]. intros s r x. apply count_nchar. }
  intros s r x Hs%H. unfold show_param. rewrite count_app. exact Hs.
Qed.

Lemma frugal_uri_header : frugal show_uri_header uri_header.
Proof.
  apply frugal_preceded; [|apply frugal_pair]. intros s r x. rewrite opt_eq.
  destruct (nchar "&" s) as [[r' y]|] eqn:Hn; intros [= <- <-]; [by eapply count_nchar|done].
Qed.

Lemma frugal_many0 {A} (f : A → string) (p : parser A) :
  consuming p → frugal f p → frugal (λ l, str_concat (f <$> l)) (many0 p).
Proof.
  intros Hc Hp s. remember (String.length s) as n eqn:Hn. revert s Hn.
  induction (lt_wf n) as [n _ IH]. intros s -> r l. rewrite many0_eq by done.
  destruct (p s) as [[r1 x]|] eqn:Hs; [|by intros [= <- <-]].
  case_bool_decide as Hl; [done|].
  intros ([r2 l'] & Hm & [= <- <-])%bind_Some. pose proof (Hc _ _ _ Hs).
  apply (IH (String.length r1)) in Hm; [|lia|done]. apply Hp in Hs. cbn. rewrite count_app. cbn in Hm. lia.
Qed.

Lemma join_brackets l : brackets (join "&" l) = sum_list_with (count_byte "<") l.
Proof.
  induction l as [|s [|t l] IH]; [done|cbn; lia|].
  change (join "&" (s :: t :: l)) with (s +:+ "&" +:+ join "&" (t :: l)).
  rewrite !count_app, IH. done.
Qed.

Lemma show_headers_brackets hs :
  brackets (show_uri_headers hs) = brackets (str_concat (show_uri_header <$> hs)).
Proof.
  destruct hs as [|h hs]; [done|]. unfold show_uri_headers.
  by rewrite count_app, join_brackets, count_concat.
Qed.

(** ** URIs *)

Lemma show_params_brackets ps :
  brackets (show_params ps) = sum_list_with (λ p, brackets (show_uri_header p)) ps.
Proof.
  induction ps as [|p ps IH]; [done|].
  change (show_params (p :: ps)) with ((";" +:+ show_uri_header p) +:+ show_params ps).
  rewrite !count_app, IH. done.
Qed.

Lemma split_param_brackets s : brackets (show_uri_header (split_param s)) ≤ brackets s.
Proof.
  unfold split_param, show_uri_header. destruct (split_once "=" s) as [[n v]|] eqn:Hs; cbn [fst snd].
  - apply (count_split_once_by "<") in Hs. rewrite !count_app. change (brackets "=") with 0. lia.
  - by rewrite append_nil_r.
Qed.

Lemma userinfo_brackets input rest user ups :
  parse_userinfo input = (rest, user, ups) →
  brackets (match user with Some s => s +:+ show_params ups +:+ "@" | None => "" end) +
    brackets rest ≤ brackets input.
Proof.
  unfold parse_userinfo. pose proof (count_break "<" (byte_in [SP; CR; LF; ">"%char]) input) as Hb.
  destruct (break (byte_in [SP; CR; LF; ">"%char]) input) as [portion after]. cbn in Hb.
  destruct (rsplit_once "@" portion) as [[part rest']|] eqn:Hr; [|by intros [= <- <- <-]].
  apply (count_rsplit_once "<") in Hr. pose proof (count_break "<" (is_byte ";") part) as Hp.
  destruct (break (is_byte ";") part) as [bare [|c ps]]; cbn [fst snd] in Hp.
  - intros [= <- <- <-]. rewrite !count_app. change (brackets "@") with 0. change (brackets (show_params [])) with 0. lia.
  - revert Hp. generalize (String c ps). intros q Hp [= <- <- <-].
    rewrite !count_app, show_params_brackets. change (brackets "@") with 0.
    pose proof (sum_le (count_byte "<") (λ p, brackets (show_uri_header p)) split_param
      (filter (λ s, s ≠ "") (split ";" q)) split_param_brackets) as H1.
    pose proof (count_filter (count_byte "<") (λ s, s ≠ "") (split ";" q)) as H2.
    pose proof (count_split "<" ";" q) as H3. lia.
Qed.

Lemma format_brackets h : brackets (format_sip_host h) = brackets h.
Proof.
  unfold format_sip_host. case_match; [|done]. rewrite !count_app.
  change (brackets "[") with 0. change (brackets "]") with 0. lia.
Qed.

Lemma frugal_host : frugal format_sip_host parse_host.
Proof.
  intros s r h. unfold parse_host.
  rewrite format_brackets. case_match.
  - intros ([r1 x] & Hd & [= <- <-])%bind_Some. rewrite delimited_eq in Hd.
    apply bind_Some in Hd as ([s1 ?] & H1 & ([s2 ?] & H2 & ([s3 ?] & H3 & [= <- <-])%bind_Some)%bind_Some).
    apply (count_nchar "<") in H1, H3. apply (count_take_while1 "<") in H2.
    rewrite !count_app. change (brackets "[") with 0. change (brackets "]") with 0. lia.
  - intros H1. apply (count_take_while1 "<") in H1. lia.
Qed.

Lemma frugal_port : frugal show_port parse_port.
Proof.
  intros s r p. unfold parse_port. rewrite opt_eq, preceded_eq, count_port.
  destruct (nchar ":" s) as [[r1 x]|] eqn:H1; cbn; [|intros [= <- <-]; lia].
  apply (count_nchar "<") in H1. rewrite map_res_eq.
  destruct (take_while1 _ r1) as [[r2 y]|] eqn:H2; cbn; [|intros [= <- <-]; lia].
  apply (count_take_while1 "<") in H2.
  destruct (parse_uint U16_MAX y); cbn; intros [= <- <-]; lia.
Qed.

Lemma frugal_opt_list {A} (f : list A → string) (p : parser (list A)) :
  f [] = "" → frugal f p → frugal (λ o, f (default [] o)) (opt p).
Proof.
  intros Hf Hp s r o. rewrite opt_eq. destruct (p s) as [[r' l]|] eqn:Hs; intros [= <- <-].
  - by apply Hp.
  - cbn. by rewrite Hf.
Qed.

Lemma frugal_params : frugal (λ o, show_params (default [] o)) (opt parse_uri_params).
Proof.
  apply frugal_opt_list; [done|]. apply (frugal_many0 show_param); [|apply frugal_uri_param].
  unfold uri_param. auto 10 with sip.
Qed.

Lemma frugal_headers :
  frugal (λ o, show_uri_headers (default [] o)) (opt (preceded (nchar "?") parse_uri_headers)).
Proof.
  apply frugal_opt_list; [done|]. apply frugal_preceded; [intros s r x; apply count_nchar|].
  intros s r l Hs. rewrite show_headers_brackets.
  apply (frugal_many0 show_uri_header) in Hs; [done| |apply frugal_uri_header].
  unfold uri_header. auto 10 with sip.
Qed.

Lemma tel_brackets s r u : parse_tel_uri s = Some (r, u) → brackets (show_uri u) ≤ brackets s.
Proof.
  unfold parse_tel_uri.
  intros ([r1 x] & H1 & ([r2 ps] & H2 & [= <- <-])%bind_Some)%bind_Some.
  apply (count_take_while1 "<") in H1. apply frugal_params in H2.
  unfold show_uri. cbn [scheme is_tel user Uri.params uri_headers extras show_uri_headers].
  rewrite !count_app. change (brackets "") with 0. change (brackets (scheme_as_str Tel)) with 0.
  change (brackets ":") with 0. lia.
Qed.

Lemma absolute_brackets s r u :
  parse_absolute_uri s = Some (r, u) → brackets (show_uri u) ≤ brackets s.
Proof.
  unfold parse_absolute_uri. intros ([sch rest] & Hs & Hu)%bind_Some.
  apply (count_split_once_by "<") in Hs. do 2 (case_match; [done|]).
  pose proof (count_break "<" (byte_in [SP; HT; CR; LF; ">"; ","]%char) rest) as Hb.
  destruct (break _ rest) as [opaque tail]. cbn [fst snd] in Hb. case_match; [done|].
  destruct (split_opaque_port opaque) as [h p] eqn:Ho. injection Hu as <- <-.
  assert (brackets h ≤ brackets opaque) as Hh.
  { unfold split_opaque_port in Ho. destruct (rsplit_once ":" opaque) as [[hd tl]|] eqn:Hr.
    - apply (count_rsplit_once "<") in Hr. repeat case_match; simplify_eq; lia.
    - by simplify_eq. }
  unfold show_uri, show_user, show_host, uri_headers, show_params.
  cbn [scheme user host port Uri.params extras show_uri_headers fmap list_fmap str_concat].
  assert (brackets (scheme_as_str (scheme_from_token sch)) ≤ brackets sch) as Hsch.
  { unfold scheme_from_token. repeat case_decide; subst; done. }
  rewrite !count_app. change (brackets ":") with 0. change (brackets "") with 0.
  destruct (scheme_from_token sch); cbn [is_tel];
    rewrite ?count_app, ?count_port, ?format_brackets; change (brackets "") with 0; lia.
Qed.

Lemma uri_brackets s r u : parse_uri s = Some (r, u) → brackets (show_uri u) ≤ brackets s.
Proof.
  unfold parse_uri. destruct (strip_prefix "tel:" s) as [rest|] eqn:Ht.
  { intros Hu%tel_brackets. apply (count_strip_prefix "<") in Ht. lia. }
  case_match; [apply absolute_brackets|].
  intros ([s1 sch] & H1 & Hu)%bind_Some.
  assert (brackets s1 ≤ brackets s) as Hs1.
  { rewrite alt_eq, !tag_eq in H1. destruct (strip_prefix "sip:" s) as [t|] eqn:Hp.
    - injection H1 as <- _. by eapply count_strip_prefix.
    - destruct (strip_prefix "sips:" s) as [t|] eqn:Hp2; [|done]. injection H1 as <- _.
      by eapply count_strip_prefix. }
  destruct (parse_userinfo s1) as [[s2 us] ups] eqn:H2. apply userinfo_brackets in H2.
  apply bind_Some in Hu as ([s3 h] & H3 & ([s4 p] & H4 & ([s5 ps] & H5 & ([s6 hs] & H6 & [= <- <-])
    %bind_Some)%bind_Some)%bind_Some).
  apply frugal_host in H3. apply frugal_port in H4. apply frugal_params in H5. apply frugal_headers in H6.
  unfold show_uri, show_user, show_host, set_extras.
  cbn [scheme user host port Uri.params extras].
  set (sc := if decide (sch = "sips:") then Sips else Sip).
  assert (∀ l1 l2, uri_headers (mkUri sc us h p (default [] ps) (make_extras l1 l2)) = l1 ∧
                   user_params (mkUri sc us h p (default [] ps) (make_extras l1 l2)) = l2) as Hx.
  { intros l1 l2. unfold uri_headers, user_params, make_extras. cbn. by destruct l1, l2. }
  destruct (Hx (default [] hs) ups) as [-> ->].
  assert (brackets (scheme_as_str sc) = 0 ∧ is_tel sc = false) as [Hsc ->].
  { unfold sc. by case_decide. }
  rewrite !count_app, Hsc. change (brackets ":") with 0.
  assert (match sc with Other _ => h | _ => format_sip_host h end = format_sip_host h) as ->.
  { unfold sc. by case_decide. }
  lia.
Qed.

(** ** Route entries *)

Lemma read_param_brackets s : brackets (show_uri_header (Route.read_param s)) ≤ brackets s.
Proof.
  unfold Route.read_param, show_uri_header. destruct (split_once "=" s) as [[n v]|] eqn:Hs; cbn [fst snd].
  - apply (count_split_once_by "<") in Hs. rewrite !count_app. change (brackets "=") with 0.
    pose proof (count_trim "<" n). pose proof (count_trim "<" v). lia.
  - rewrite append_nil_r. apply count_trim.
Qed.

Lemma entry_brackets part e :
  Route.parse part = Ok e → 1 ≤ brackets (Route.show e) ≤ brackets part.
Proof.
  unfold Route.parse. intros ([before rest] & H1 & H)%bind_Ok. apply ok_or_Ok in H1.
  apply bind_Ok in H as ([uri_str after] & H2 & H). apply ok_or_Ok in H2.
  apply bind_Ok in H as (u & H3 & [= <-]).
  apply count_split_once_at in H1. apply (count_split_once_by "<") in H2.
  assert (brackets (show_uri u) ≤ brackets uri_str) as Hu.
  { unfold parse_uri_standalone in H3. pose proof (count_trim "<" uri_str).
    destruct (parse_uri (trim uri_str)) as [[r u']|] eqn:Hp; [|done].
    cbn in H3. simplify_eq. apply uri_brackets in Hp. lia. }
  unfold Route.show. cbn [Route.uri Route.params].
  pose proof (count_trim "<" part). pose proof (count_trim "<" after).
  rewrite !count_app, show_params_brackets. change (brackets "<") with 1. change (brackets ">") with 0.
  case_match; [cbn; lia|]. unfold split_params.
  pose proof (sum_le (count_byte "<") (λ p, brackets (show_uri_header p)) Route.read_param
    (filter (λ s, trim s ≠ "") (split ";" (trim after))) read_param_brackets).
  pose proof (count_filter (count_byte "<") (λ s, trim s ≠ "") (split ";" (trim after))).
  pose proof (count_split "<" ";" (trim after)). lia.
Qed.

Lemma split_commas_brackets depth part input :
  sum_list_with (count_byte "<") (NameAddr.split_commas depth part input)
    ≤ brackets part + brackets input.
Proof.
  revert depth part. induction input as [|a input IH]; intros depth part;
    cbn [NameAddr.split_commas]; pose proof (count_trim "<" part).
  - case_match; cbn; lia.
  - assert (∀ d, sum_list_with (count_byte "<")
        (NameAddr.split_commas d (part +:+ String a "") input) ≤
        brackets part + brackets (String a input)) as Hgo.
    { intros d. specialize (IH d (part +:+ String a "")). rewrite count_app in IH. cbn in *. lia. }
    specialize (IH depth "").
    case_match; [apply Hgo|]. case_match; [apply Hgo|]. case_match; [|apply Hgo].
    case_match; cbn in *; lia.
Qed.

Lemma parse_multi_brackets raw entries :
  Route.parse_multi raw = Ok entries →
  sum_list_with (λ e, brackets (Route.show e)) entries ≤ brackets raw.
Proof.
  unfold Route.parse_multi, Route.split_comma_respecting_angles, NameAddr.split_comma_respecting_angles.
  pose proof (split_commas_brackets 0 "" raw) as Hs. change (brackets "") with 0 in Hs.
  revert Hs. generalize (NameAddr.split_commas 0 "" raw). intros parts Hs Hp.
  enough (sum_list_with (λ e, brackets (Route.show e)) entries ≤
          sum_list_with (count_byte "<") parts) by lia.
  clear Hs. apply result_mapM_Ok in Hp. induction Hp as [|part e parts' es Hp _ IH]; [done|].
  cbn. apply entry_brackets in Hp. lia.
Qed.

Lemma all_routes_brackets h :
  sum_list_with (λ e, brackets (Route.show e)) (all_routes h) ≤ route_brackets h.
Proof.
  unfold all_routes, route_brackets.
  induction (default [] (Headers.get_all "Route" h)) as [|raw l IH]; [done|].
  cbn [mbind list_bind sum_list_with]. rewrite sum_list_with_app.
  destruct (Route.parse_multi raw) as [es|] eqn:Hp; [|cbn; lia].
  apply parse_multi_brackets in Hp. lia.
Qed.

Lemma all_routes_In h e : e ∈ all_routes h → 1 ≤ brackets (Route.show e).
Proof.
  unfold all_routes. intros (raw & He & _)%list_elem_of_bind.
  destruct (Route.parse_multi raw) as [es|] eqn:Hp; [|by apply elem_of_nil in He].
  unfold Route.parse_multi in Hp. apply result_mapM_Ok in Hp.
  induction Hp as [|part e' parts es' Hp _ IH]; [by apply elem_of_nil in He|].
  apply elem_of_cons in He as [->|He]; [by apply entry_brackets in Hp as [? _]|by apply IH].
Qed.

Lemma format_route_brackets l :
  brackets (Route.format_route_header l) = sum_list_with (λ e, brackets (Route.show e)) l.
Proof.
  unfold Route.format_route_header. induction l as [|e [|e' l] IH]; [done|cbn; lia|].
  change (join ", " (Route.show <$> e :: e' :: l)) with
    (Route.show e +:+ ", " +:+ join ", " (Route.show <$> e' :: l)).
  rewrite !count_app, IH. done.
Qed.

Lemma pop_top_route_brackets h h' e :
  Headers.wf h → pop_top_route h = (h', Some e) →
  route_brackets h' + 1 ≤ route_brackets h ∧ Headers.wf h'.
Proof.
  intros Hwf. unfold pop_top_route. pose proof (all_routes_brackets h) as Hall.
  destruct (all_routes h) as [|e' es] eqn:Hr; [done|]. cbn in Hall.
  assert (1 ≤ brackets (Route.show e')) by (apply (all_routes_In h); rewrite Hr; by left).
  destruct es as [|e1 es]; intros [= <- <-]; unfold route_brackets at 1.
  - split; [|by apply Headers.wf_remove].
    rewrite Headers.get_all_remove, Headers.same_header_refl by done. cbn. lia.
  - split; [|by apply Headers.wf_add, Headers.wf_remove].
    rewrite Headers.get_all_add, Headers.get_all_remove, Headers.same_header_refl by done.
    change (brackets (Route.format_route_header (e1 :: es)) + 0 + 1 ≤ route_brackets h).
    rewrite format_route_brackets. cbn in *. lia.
Qed.

(** ** The loop *)

Lemma top_route_head h e : top_route h = Some e → ∃ es, all_routes h = e :: es.
Proof.
  unfold top_route, all_routes. rewrite Headers.get_head.
  destruct (Headers.get_all "Route" h) as [[|raw l]|]; [done| |done]. cbn.
  destruct (Route.parse_multi raw) as [[|e' es]|]; [done| |done]. intros [= <-]. by eexists.
Qed.

Lemma pop_loop_ends fuel h i popped :
  Headers.wf h → route_brackets h < fuel →
  ∃ h' l, pop_local_routes_loop fuel h i popped = Some (h', popped ++ l) ∧
    Headers.wf h' ∧ top_route_is_local h' i = false ∧ Forall (λ e, is_local i e = true) l ∧
    length l + route_brackets h' ≤ route_brackets h.
Proof.
  revert h popped. induction fuel as [|fuel IH]; intros h popped Hwf Hf; [lia|].
  cbn [pop_local_routes_loop]. destruct (top_route_is_local h i) eqn:Hl.
  2: { exists h, []. rewrite app_nil_r. split_and!; [done|done|done|constructor|cbn; lia]. }
  unfold top_route_is_local in Hl. destruct (top_route h) as [e|] eqn:Ht; [|done].
  destruct (top_route_head h e Ht) as [es Hr].
  destruct (pop_top_route h) as [h1 o] eqn:Hp.
  assert (o = Some e) as ->.
  { unfold pop_top_route in Hp. rewrite Hr in Hp. by injection Hp as _ <-. }
  apply pop_top_route_brackets in Hp as [Hb Hwf1]; [|done].
  destruct (IH h1 (popped ++ [e]) Hwf1) as (h' & l & -> & Hwf' & Hn & Hall & Hlen); [lia|].
  exists h', (e :: l). rewrite <-(assoc_L (++)). split_and!; [done|done|done|by constructor|cbn; lia].
Qed.

(** More fuel changes nothing. *)
Lemma pop_fuel n m h i popped :
  Headers.wf h → route_brackets h < n ≤ m →
  pop_local_routes_loop n h i popped = pop_local_routes_loop m h i popped.
Proof.
  revert m h popped. induction n as [|n IH]; intros [|m] h popped Hwf Hn; [lia..|].
  cbn [pop_local_routes_loop]. destruct (top_route_is_local h i); [|done].
  destruct (pop_top_route h) as [h1 [e|]] eqn:Hp; [|done].
  apply pop_top_route_brackets in Hp as [Hb Hwf1]; [|done]. apply IH; [done|lia].
Qed.
End parsers.

(** C40: shedding our own Route entries always ends, whatever the Route values
    say.  The loop returns; every entry it consumed names this proxy, the Route
    on top afterwards does not, and it consumed at most one entry per opening
    bracket received, although each turn re-serializes and re-parses the rest. *)
Theorem pop_local_routes_ends `{U : Unicode, P : Nom} (h : SipHeaders) (i : SelfIdentity) :
  Headers.wf h →
  ∃ h' popped, pop_local_routes h i = Some (h', popped) ∧
    Forall (λ e, is_local i e = true) popped ∧ top_route_is_local h' i = false ∧
    length popped ≤ route_brackets h ∧ Headers.wf h'.
Proof.
  intros Hwf. unfold pop_local_routes.
  destruct (pop_loop_ends (S (route_brackets h)) h i [] Hwf) as (h' & l & -> & Hwf' & Hn & Hall & Hlen);
    [lia|].
  exists h', l. split_and!; [done|done|done|lia|done].
Qed.

Definition sample_identity : SelfIdentity :=
  add_host (add_alias identity_new "proxy.example.org") "[2001:DB8::1]" [5060%N; 5061%N].

(** A value that comes back as two entries once it is written again. *)
Definition sample_routes : SipHeaders :=
  Headers.set "Route" "<sip:proxy.example.org;lr>, <sip:[2001:db8::1]:5060<x>, <sip:peer;lr>" Headers.new.

Lemma pop_local_routes_ends_witness :
  ∃ h' popped,
    @pop_local_routes unicode_ascii nom_reference sample_routes sample_identity = Some (h', popped) ∧
    length popped = 2 ∧ Headers.get "Route" h' = Some "<sip:peer;lr>".
Proof.
  destruct (@pop_local_routes_ends unicode_ascii nom_reference sample_routes sample_identity)
    as (h' & popped & He & _); [apply Headers.wf_set, Headers.wf_new|].
  exists h', popped. split; [exact He|]. vm_compute in He. injection He as <- <-.
  split; vm_compute; reflexivity.
Defined.
