(* ===== verification/ProxyRouting.v ===== *)
(** * What the proxy does to a message it forwards

    The theorems on the header operations of [ProxyCore]
    ([src/src/proxy/core.rs]): the Via pushed on a request comes off the
    response, Max-Forwards bounds the hops, the proxy recognises exactly the
    addresses recorded for it, and it consumes exactly the leading Route entries
    that name it. *)

From S2P Require Import Prelude Str Nom Timer Headers Uri Message Via Parser UriRoundTrip ViaRoundTrip.
From S2P Require Import NameAddr Route Transport Cancel TxState TxManager ProxyCore RouteTermination.

(** ** Via *)

Section via.
Context {U : Unicode} {P : Nom}.

(** The Via a proxy inserts. *)
Definition own_via (uuid transport host : string) (port : option N) : Via.Via :=
  Via.mkVia transport host port (Some (generate_branch uuid)) None None [].

Lemma via_value_show uuid transport host port :
  via_value uuid transport host port = Via.show (own_via uuid transport host port).
Proof. unfold via_value, Via.show. cbn. by autorewrite with str. Qed.

Lemma split_none a s : str_forall (λ b, negb (is_byte a b)) s = true → split a s = [s].
Proof.
  intros Hs. rewrite <-(append_nil_r s) at 1. rewrite (split_app a s "" "" []) by done.
  by rewrite append_nil_r.
Qed.

Lemma via_no_comma v :
  via_ok v = true → str_forall (λ b, negb (is_byte "," b)) (Via.show v) = true.
Proof.
  intros Hv. pose proof (via_params_ok v Hv) as Hps. rewrite show_via. unfold via_ok in Hv.
  rewrite !andb_true_iff in Hv. destruct Hv as [[[[[[[[[[_ Ht] _] _] Hh] _] _] _] _] _] _].
  rewrite !str_forall_app.
  rewrite (word_avoids "," (Via.transport v)), (word_avoids "," (Via.host v)) by (set_solver || done).
  cbn [andb].
  assert (str_forall (λ b, negb (is_byte "," b)) (show_port (Via.port v)) = true) as ->.
  { destruct (Via.port v); [|done]. cbn [show_port]. rewrite str_forall_app.
    apply andb_true_iff. split; [done|]. apply word_avoids; [set_solver|apply word_dec]. }
  assert (str_forall (λ b, negb (is_byte "," b)) (show_params (via_params v)) = true) as ->; [|done].
  unfold show_params. induction (via_params v) as [|p ps IH]; [done|].
  cbn in Hps. apply andb_prop in Hps as [Hp Hps]. cbn [fmap list_fmap str_concat].
  rewrite str_forall_app, IH, show_param_eq, str_forall_app by done.
  rewrite (word_avoids "," (show_uri_header p)); [done|set_solver|by apply via_param_word].
Qed.

Lemma via_multi_read v : via_ok v = true → Via.parse_multi (Via.show v) = Ok [v].
Proof.
  intros Hv. unfold Via.parse_multi, Via.split_comma_values.
  rewrite split_none by by apply via_no_comma. cbn [fmap list_fmap]. rewrite via_trim by done.
  rewrite filter_cons_True by by rewrite show_via. cbn [filter list_filter result_mapM].
  by rewrite via_read.
Qed.

Lemma add_strip_via h uuid transport host port :
  Headers.wf h → via_ok (own_via uuid transport host port) = true →
  ∃ h', strip_top_via (add_via h uuid transport host port).1 =
          (h', Some (own_via uuid transport host port)) ∧
        ∀ name, default [] (Headers.get_all name h') = default [] (Headers.get_all name h).
Proof.
  intros Hwf Hv. unfold add_via, strip_top_via. cbn [fst].
  rewrite Headers.get_all_set_all, Headers.same_header_refl. change (default [] (Some ?x)) with x.
  rewrite via_value_show, via_multi_read by done. cbn [app].
  destruct (default [] (Headers.get_all "Via" h)) as [|v vs] eqn:Hvias; eexists; (split; [done|]);
    intros name.
  - rewrite Headers.get_all_remove, Headers.get_all_set_all by by apply Headers.wf_set_all.
    destruct (Headers.same_header_name "Via" name) eqn:Hn; [|done].
    apply bool_decide_eq_true in Hn. unfold Headers.get_all in *. by rewrite <-Hn, Hvias.
  - rewrite !Headers.get_all_set_all.
    destruct (Headers.same_header_name "Via" name) eqn:Hn; [|done].
    apply bool_decide_eq_true in Hn. unfold Headers.get_all in *. by rewrite <-Hn, Hvias.
Qed.
End via.

(** The Via a proxy pushes on a request comes off the response.  Stripping
    the top Via of headers to which [add_via] was applied returns that Via, with
    the branch [add_via] returned, and leaves the values of every header as they
    were before the insertion. *)
Theorem via_pushed_then_stripped `{U : Unicode, P : Nom} (h : SipHeaders)
    (uuid transport host : string) (port : option N) :
  Headers.wf h → via_ok (own_via uuid transport host port) = true →
  ∃ h' via, strip_top_via (add_via h uuid transport host port).1 = (h', Some via) ∧
    Via.branch via = Some (add_via h uuid transport host port).2 ∧
    Via.host via = host ∧ Via.port via = port ∧
    ∀ name, default [] (Headers.get_all name h') = default [] (Headers.get_all name h).
Proof.
  intros Hwf Hv. destruct (add_strip_via h uuid transport host port Hwf Hv) as (h' & Hs & Hall).
  exists h', (own_via uuid transport host port). done.
Qed.

Definition sample_vias : SipHeaders :=
  Headers.set_all "Via" ["SIP/2.0/TCP a;branch=z9hG4bK1, SIP/2.0/UDP b;branch=z9hG4bK0"] Headers.new.

Lemma via_pushed_then_stripped_witness :
  ∃ h', @strip_top_via unicode_ascii (add_via sample_vias "11" "UDP" "proxy.example.org" None).1 =
          (h', Some (own_via "11" "UDP" "proxy.example.org" None)) ∧
        Headers.get_all "Via" h' = Headers.get_all "Via" sample_vias.
Proof.
  destruct (@via_pushed_then_stripped unicode_ascii nom_reference sample_vias "11" "UDP"
    "proxy.example.org" None) as (h' & via & He & _);
    [apply Headers.wf_set_all, Headers.wf_new|vm_compute; reflexivity|].
  exists h'. vm_compute in He. injection He as <- <-. split; vm_compute; reflexivity.
Defined.

(** ** Max-Forwards *)

(** A request that is forwarded [hops] times. *)
Fixpoint forward_times (hops : nat) (h : SipHeaders) : option SipHeaders :=
  match hops with
  | O => Some h
  | S hops =>
      match decrement_max_forwards h with
      | (h, Some _) => forward_times hops h
      | (_, None) => None
      end
  end.

Lemma max_forwards_set n h :
  (n ≤ U8_MAX)%N → Headers.max_forwards (Headers.set "Max-Forwards" (dec n) h) = Some n.
Proof.
  intros Hn. unfold Headers.max_forwards. rewrite Headers.get_set. cbn [mbind option_bind].
  rewrite trim_graphic by apply graphic_dec. by apply parse_uint_dec.
Qed.

Lemma max_forwards_bound h : (default 70 (Headers.max_forwards h) ≤ U8_MAX)%N.
Proof.
  unfold Headers.max_forwards. destruct (Headers.get "Max-Forwards" h) as [s|]; cbn; [|done].
  destruct (parse_uint U8_MAX (trim s)) eqn:Hp; cbn; [by eapply parse_uint_bound|done].
Qed.

(** Max-Forwards bounds the hops of a request.  A request can be forwarded
    exactly as many times as its Max-Forwards says (70 when it has no readable
    one), at most 255 times, and the next proxy refuses it. *)
Theorem max_forwards_bounds_hops (h : SipHeaders) (hops : nat) :
  is_Some (forward_times hops h) ↔ (N.of_nat hops ≤ default 70 (Headers.max_forwards h) ≤ 255)%N.
Proof.
  pose proof (max_forwards_bound h) as Hb. unfold U8_MAX in Hb.
  revert h Hb. induction hops as [|hops IH]; intros h Hb; cbn [forward_times].
  { split; [intros _; lia|done]. }
  unfold decrement_max_forwards. set (n := default 70%N (Headers.max_forwards h)) in *.
  destruct (N.eqb_spec n 0) as [Hz|Hz]; [split; [by intros []|lia]|].
  assert (default 70%N (Headers.max_forwards (Headers.set "Max-Forwards" (dec (n - 1)) h)) = n - 1)%N
    as Hn by (rewrite max_forwards_set by (unfold U8_MAX; lia); done).
  rewrite IH, Hn by (rewrite Hn; lia). lia.
Qed.

(** ** The addresses of this proxy *)

Inductive IdentityOp := Alias (host : string) | Host (host : string) (ports : list N).

Definition apply_op (i : SelfIdentity) (op : IdentityOp) : SelfIdentity :=
  match op with Alias h => add_alias i h | Host h ports => add_host i h ports end.

(** What one recorded identity answers for. *)
Definition covers (op : IdentityOp) (candidate : string) (port : option N) : Prop :=
  candidate ≠ "" ∧
  match op with
  | Alias h => normalise h = candidate
  | Host h ports =>
      normalise h = candidate ∧ ports ≠ [] ∧ match port with Some p => p ∈ ports | None => True end
  end.

Lemma elem_of_add_ports p known ports : p ∈ add_ports known ports ↔ p ∈ known ∨ p ∈ ports.
Proof.
  unfold add_ports. revert known. induction ports as [|q ports IH]; intros known; cbn [foldl].
  - set_solver.
  - rewrite IH. case_bool_decide; set_solver.
Qed.

(** An entry accepts a port. *)
Definition accepts (ports : list N) (port : option N) : Prop :=
  ports = [] ∨ port = None ∨ ∃ p, port = Some p ∧ p ∈ ports.

Lemma entry_matches_iff candidate port e :
  entry_matches candidate port e = true ↔ e.1 = candidate ∧ accepts e.2 port.
Proof.
  unfold entry_matches, accepts. rewrite andb_true_iff, bool_decide_eq_true.
  destruct (e.2) as [|q ports], port as [p|]; try (split; intros [? ?]; split; auto; fail).
  rewrite bool_decide_eq_true. split.
  - intros [? ?]. split; [done|]. right; right. by exists p.
  - intros [? [?|[?|(p' & [= <-] & ?)]]]; done.
Qed.

(** The ports recorded for a host. *)
Fixpoint known_ports (host : string) (l : list (string * list N)) : option (list N) :=
  match l with
  | [] => None
  | (known, ports) :: l => if bool_decide (known = host) then Some ports else known_ports host l
  end.

Definition answers (i : SelfIdentity) (candidate : string) (port : option N) : Prop :=
  ∃ ports, known_ports candidate (entries i) = Some ports ∧ accepts ports port.

Lemma known_ports_elem host l ports :
  NoDup l.*1 → known_ports host l = Some ports ↔ (host, ports) ∈ l.
Proof.
  induction l as [|[k ps] l IH]; cbn; intros Hnd; [split; [done|by intros ?%elem_of_nil]|].
  apply NoDup_cons in Hnd as [Hk Hnd]. case_bool_decide as Hh.
  - subst. split; [intros [= ->]; by left|].
    intros [[= ->]|Hin]%elem_of_cons; [done|]. destruct Hk. by apply (list_elem_of_fmap_2 fst) in Hin.
  - rewrite IH by done. rewrite elem_of_cons. split; [by right|]. by intros [[= -> ->]|?].
Qed.

Lemma known_ports_update f absent host host' l :
  known_ports host' (update_entry f absent host l) =
    if bool_decide (host = host')
    then Some (match known_ports host l with Some old => f old | None => absent end)
    else known_ports host' l.
Proof.
  induction l as [|[k ps] l IH]; cbn.
  - by repeat case_bool_decide.
  - destruct (decide (k = host)) as [Hk|Hk].
    + rewrite !(bool_decide_eq_true_2 (k = host)) by done. cbn. subst. by case_bool_decide.
    + rewrite !(bool_decide_eq_false_2 (k = host)) by done. cbn. rewrite IH.
      repeat case_bool_decide; congruence.
Qed.

Lemma update_entry_keys f absent host l :
  NoDup l.*1 → NoDup (update_entry f absent host l).*1.
Proof.
  intros Hnd.
  enough ((update_entry f absent host l).*1 = l.*1 ∨
          (host ∉ l.*1) ∧ (update_entry f absent host l).*1 = l.*1 ++ [host]) as [->|[Hh ->]]; [done| |].
  { apply NoDup_app. split_and!; [done|set_solver|apply NoDup_singleton]. }
  induction l as [|[k ps] l IH]; cbn; [right; split; [apply not_elem_of_nil|done]|].
  case_bool_decide as Hk; cbn; [by left|]. cbn in Hnd. apply NoDup_cons in Hnd as [_ Hnd].
  destruct (IH Hnd) as [->|[Hh ->]]; [by left|right; split; [set_solver|done]].
Qed.

Lemma apply_op_keys i op : NoDup (entries i).*1 → NoDup (entries (apply_op i op)).*1.
Proof.
  intros Hnd. destruct op; cbn; unfold add_alias, add_host; case_match; cbn;
    auto using update_entry_keys.
Qed.

Lemma accepts_ports ports port :
  ports ≠ [] → accepts ports port ↔ match port with Some p => p ∈ ports | None => True end.
Proof.
  intros Hne. unfold accepts. destruct port as [p|]; [|by split; auto].
  split; [|intros; right; right; by exists p]. by intros [?|[?|(? & [= <-] & ?)]].
Qed.

Lemma accepts_add known ports port :
  known ≠ [] →
  accepts (add_ports known ports) port ↔
    accepts known port ∨ match port with Some p => p ∈ ports | None => True end.
Proof.
  intros Hk. assert (add_ports known ports ≠ []) as Hne.
  { destruct known as [|q known]; [done|]. intros Hn.
    assert (q ∈ add_ports (q :: known) ports) as Hq by (apply elem_of_add_ports; left; by left).
    rewrite Hn in Hq. by apply elem_of_nil in Hq. }
  rewrite !accepts_ports by done. destruct port as [p|]; [apply elem_of_add_ports|by split; auto].
Qed.

Lemma apply_op_dynamic i op : dynamic_udp (apply_op i op) = dynamic_udp i.
Proof. destruct op; cbn; unfold add_alias, add_host; by case_match. Qed.

Lemma existsb_answers i candidate port :
  NoDup (entries i).*1 →
  existsb (entry_matches candidate port) (entries i) = true ↔ answers i candidate port.
Proof.
  intros Hnd. rewrite existsb_exists. unfold answers. split.
  - intros ([k ps] & Hin%list_elem_of_In & [Hk Ha]%entry_matches_iff). cbn in *. subst.
    exists ps. split; [by apply known_ports_elem|done].
  - intros (ps & Hk & Ha). exists (candidate, ps). split.
    + by apply list_elem_of_In, known_ports_elem.
    + by apply entry_matches_iff.
Qed.

Lemma apply_op_answers i op candidate port :
  answers (apply_op i op) candidate port ↔ answers i candidate port ∨ covers op candidate port.
Proof.
  assert (∀ h, is_empty h = true ↔ h = "") as He by (intros []; by split).
  destruct op as [h|h ports]; cbn [apply_op covers]; unfold add_alias, add_host, answers.
  - destruct (is_empty (normalise h)) eqn:Hh.
    { apply He in Hh. split; [by left|]. intros [?|[? ?]]; [done|congruence]. }
    cbn [entries]. rewrite known_ports_update. case_bool_decide as Hc; subst.
    + split; [|intros _; eexists; split; [done|by left; destruct (known_ports _ _)]].
      intros _. right. split; [|done]. intros Hn. by apply He in Hn; congruence.
    + split; [by left|]. intros [?|[_ ?]]; done.
  - destruct (is_empty (normalise h)) eqn:Hh; cbn [orb].
    { apply He in Hh. split; [by left|]. intros [?|(? & ? & _)]; [done|congruence]. }
    case_bool_decide as Hp.
    { split; [by left|]. intros [?|(_ & _ & ? & _)]; done. }
    cbn [entries]. rewrite known_ports_update. case_bool_decide as Hc; subst.
    + assert (normalise h ≠ "") as Hne by (intros Hn; by apply He in Hn; congruence).
      destruct (known_ports (normalise h) (entries i)) as [[|q known]|] eqn:Hk.
      * split; [intros _; left; eexists; split; [done|by left]|].
        intros _. eexists. split; [done|by left].
      * transitivity (accepts (add_ports (q :: known) ports) port).
        { split; [by intros (? & [= <-] & ?)|]. intros. by eexists. }
        rewrite accepts_add by done. split.
        -- intros [?|?]; [left; by eexists|by right].
        -- intros [(? & [= <-] & ?)|(_ & _ & _ & ?)]; auto.
      * transitivity (accepts ports port).
        { split; [by intros (? & [= <-] & ?)|]. intros. by eexists. }
        rewrite accepts_ports by done. split; [by right|]. by intros [(? & ? & _)|(_ & _ & _ & ?)].
    + split; [by left|]. intros [?|(_ & ? & _)]; done.
Qed.

(** The proxy answers for exactly the addresses recorded for it.  After any
    sequence of recorded aliases and listener addresses, a Route host and port
    match if and only if one of them covers it: an alias of that host on any
    port, or a listener of that host on that port (on any, when the Route names
    none).  Recording never widens or loses what was recorded before. *)
Theorem identity_matches_recorded (ops : list IdentityOp) (host : string) (port : option N) :
  matches (foldl apply_op identity_new ops) host port = true ↔
    ∃ op, op ∈ ops ∧ covers op (normalise host) port.
Proof.
  set (c := normalise host).
  assert (∀ l i, NoDup (entries i).*1 → dynamic_udp i = None →
    NoDup (entries (foldl apply_op i l)).*1 ∧ dynamic_udp (foldl apply_op i l) = None ∧
    (answers (foldl apply_op i l) c port ↔ answers i c port ∨ ∃ op, op ∈ l ∧ covers op c port)) as Hl.
  { induction l as [|op l IH]; intros i Hnd Hd; cbn [foldl].
    - split_and!; [done|done|]. split; [by left|]. intros [?|(? & ?%elem_of_nil & _)]; done.
    - destruct (IH (apply_op i op)) as (H1 & H2 & H3); [by apply apply_op_keys|by rewrite apply_op_dynamic|].
      split_and!; [done|done|]. rewrite H3, apply_op_answers. setoid_rewrite elem_of_cons. naive_solver. }
  destruct (Hl ops identity_new) as (Hnd & Hd & Ha); [constructor|done|].
  unfold matches. fold c. unfold matches_dynamic. rewrite Hd, orb_false_r, existsb_answers by done.
  rewrite Ha. split; [intros [(? & ? & _)|?]; done|by right].
Qed.

(** ** Route entries *)

Section routes.
Context {U : Unicode} {P : Nom}.

(** Bytes that end a header parameter, or change the bracket depth. *)
Definition route_delims : list byte := [";"; ","; "<"; ">"]%char.

Definition route_param_ok (p : param) : bool :=
  negb (is_empty p.1) && graphic p.1 && plain ("="%char :: route_delims) p.1 &&
  match p.2 with Some v => graphic v && plain route_delims v | None => true end.

Definition route_ok (e : Route.RouteEntry) : bool :=
  uri_ok (Route.uri e) && graphic (show_uri (Route.uri e)) &&
  plain ["<"; ">"]%char (show_uri (Route.uri e)) && forallb route_param_ok (Route.params e).

Lemma route_param_text p :
  route_param_ok p = true →
  graphic (show_uri_header p) = true ∧ plain route_delims (show_uri_header p) = true ∧
  show_uri_header p ≠ "".
Proof.
  unfold route_param_ok, show_uri_header. rewrite !andb_true_iff. intros [[[Hne Hg] Hp] Hv].
  assert (plain route_delims p.1 = true) as Hp' by (eapply plain_sub; [|exact Hp]; set_solver).
  split_and!; [| |by destruct (p.1)]; unfold graphic in *; rewrite ?str_forall_app, ?plain_app, ?Hg, ?Hp';
    destruct (p.2); try done; apply andb_prop in Hv as [Hv1 Hv2];
    rewrite ?str_forall_app, ?plain_app, ?Hv1, ?Hv2; done.
Qed.

Lemma route_param_read p : route_param_ok p = true → Route.read_param (show_uri_header p) = p.
Proof.
  destruct p as [n v]. unfold route_param_ok, show_uri_header, Route.read_param. cbn [fst snd].
  rewrite !andb_true_iff. intros [[[_ Hg] Hp] Hv].
  assert (str_forall (λ b, negb (is_byte "=" b)) n = true) as Heq.
  { revert Hp. apply plain_avoids. intros b <-%bool_decide_eq_true. set_solver. }
  destruct v as [v|].
  - apply andb_prop in Hv as [Hv _]. rewrite append_cons, append_nil_l, split_once_app by done.
    by rewrite !trim_graphic.
  - rewrite append_nil_r, split_once_none by done. by rewrite trim_graphic.
Qed.

Lemma route_params_read ps :
  forallb route_param_ok ps = true →
  (if is_empty (show_params ps) then [] else Route.read_param <$> split_params (show_params ps)) = ps.
Proof.
  intros Hps. destruct ps as [|p ps']; [done|]. set (ps := p :: ps') in *.
  change (is_empty (show_params ps)) with false. cbv iota. unfold split_params. rewrite split_shown.
  2: { apply Forall_forall. intros q Hq. apply (forallb_elem _ _ q) in Hps; [|done].
       apply route_param_text in Hps as (_ & Hp & _). revert Hp. apply plain_avoids.
       intros b <-%bool_decide_eq_true. set_solver. }
  rewrite filter_cons_False by (intros H; by apply H). clearbody ps.
  induction ps as [|q ps IH]; [done|]. cbn in Hps. apply andb_prop in Hps as [Hq Hps].
  destruct (route_param_text q Hq) as (Hg & _ & Hne). cbn [fmap list_fmap].
  rewrite filter_cons_True by by rewrite trim_graphic. cbn. by rewrite route_param_read, IH.
Qed.

Lemma route_params_graphic ps :
  forallb route_param_ok ps = true → graphic (show_params ps) = true.
Proof.
  intros Hps. unfold show_params, graphic. induction ps as [|p ps IH]; [done|].
  cbn in Hps. apply andb_prop in Hps as [Hp Hps]. cbn [fmap list_fmap str_concat].
  destruct (route_param_text p Hp) as (Hg & _ & _). unfold graphic in Hg.
  rewrite str_forall_app, show_param_eq, str_forall_app, Hg, IH by done. done.
Qed.

Lemma route_graphic e : route_ok e = true → graphic (Route.show e) = true.
Proof.
  unfold route_ok, Route.show. rewrite !andb_true_iff. intros [[[_ Hg] _] Hps].
  apply route_params_graphic in Hps. unfold graphic in *. by rewrite !str_forall_app, Hg, Hps.
Qed.

Lemma route_read e : route_ok e = true → Route.parse (Route.show e) = Ok e.
Proof.
  intros He. unfold Route.parse. rewrite trim_graphic by by apply route_graphic.
  unfold route_ok in He. rewrite !andb_true_iff in He. destruct He as [[[Hu Hg] Hp] Hps].
  unfold Route.show. rewrite append_cons, append_nil_l.
  change (String "<" ?x) with ("" +:+ String "<" x). rewrite split_once_app by done.
  cbn [ok_or mbind result_bind]. rewrite append_cons, append_nil_l, split_once_app.
  2: { revert Hp. apply plain_avoids. intros b <-%bool_decide_eq_true. set_solver. }
  cbn [ok_or mbind result_bind]. unfold parse_uri_standalone. rewrite (trim_graphic (show_uri (Route.uri e))) by done.
  rewrite <-(append_nil_r (show_uri (Route.uri e))), uri_read by done.
  cbn [map_err mbind result_bind]. rewrite trim_graphic by by apply route_params_graphic.
  rewrite route_params_read by done. by destruct e.
Qed.

(** *** Splitting a list of entries *)

Lemma split_commas_text depth part t rest :
  str_forall (λ a, negb (byte_in ["<"; ">"]%char a)) t = true →
  (depth ≠ 0%N ∨ str_forall (λ a, negb (is_byte "," a)) t = true) →
  NameAddr.split_commas depth part (t +:+ rest) = NameAddr.split_commas depth (part +:+ t) rest.
Proof.
  revert part. induction t as [|a t IH]; intros part Ht Hd; [by rewrite append_nil_l, append_nil_r|].
  cbn in Ht. apply andb_prop in Ht as [Ha Ht]. apply negb_true_iff, bool_decide_eq_false in Ha.
  rewrite append_cons. cbn [NameAddr.split_commas].
  assert (is_byte "<" a = false) as -> by (apply bool_decide_eq_false; set_solver).
  assert (is_byte ">" a = false) as -> by (apply bool_decide_eq_false; set_solver).
  assert (is_byte "," a && (depth =? 0)%N = false) as ->.
  { apply andb_false_iff. destruct Hd as [Hd|Hd]; [right; by apply N.eqb_neq|left].
    cbn in Hd. apply andb_prop in Hd as [Hd _]. by apply negb_true_iff in Hd. }
  rewrite IH; [by rewrite append_assoc, append_cons, append_nil_l|done|].
  destruct Hd as [?|Hd]; [by left|right]. cbn in Hd. by apply andb_prop in Hd as [_ ?].
Qed.

Lemma route_params_plain ps :
  forallb route_param_ok ps = true → plain [","; "<"; ">"]%char (show_params ps) = true.
Proof.
  intros Hps. unfold show_params. rewrite plain_concat. apply forallb_forall.
  intros s (p & <- & Hp)%in_map_iff. rewrite forallb_forall in Hps.
  destruct (route_param_text p) as (_ & Hq & _); [by apply Hps|].
  rewrite show_param_eq, plain_app. apply andb_true_iff. split; [done|].
  eapply plain_sub; [|exact Hq]. set_solver.
Qed.

Lemma split_commas_entry part e rest :
  route_ok e = true →
  NameAddr.split_commas 0 part (Route.show e +:+ rest) =
    NameAddr.split_commas 0 (part +:+ Route.show e) rest.
Proof.
  intros He. unfold route_ok in He. rewrite !andb_true_iff in He. destruct He as [[[_ _] Hp] Hps].
  unfold Route.show. rewrite !append_assoc, (append_cons "<"), append_nil_l.
  cbn [NameAddr.split_commas]. change (is_byte "<" "<") with true. cbv iota.
  rewrite split_commas_text; [|revert Hp; apply plain_avoids; by intros b ?%bool_decide_eq_true|by left].
  rewrite (append_cons ">"), append_nil_l. cbn [NameAddr.split_commas].
  change (is_byte "<" ">") with false. change (is_byte ">" ">") with true. cbv iota.
  change (0 + 1 - 1)%N with 0%N. rewrite split_commas_text.
  - f_equal. by autorewrite with str.
  - apply route_params_plain in Hps. revert Hps. apply plain_avoids.
    intros b Hb%bool_decide_eq_true. set_solver.
  - right. apply route_params_plain in Hps. revert Hps. apply plain_avoids.
    intros b <-%bool_decide_eq_true. set_solver.
Qed.

Lemma trim_space s : graphic s = true → s ≠ "" → trim (" " +:+ s) = s.
Proof.
  intros Hg Hne. rewrite <-(trim_graphic s) at 2 by done. unfold trim.
  by rewrite append_cons, append_nil_l, chars_cons_ascii.
Qed.

Lemma split_format part es :
  (part = "" ∨ part = " ") → forallb route_ok es = true →
  NameAddr.split_commas 0 part (Route.format_route_header es) = Route.show <$> es.
Proof.
  unfold Route.format_route_header. revert part. induction es as [|e es IH]; intros part Hp Hes.
  { by destruct Hp as [->| ->]. }
  cbn in Hes. apply andb_prop in Hes as [He Hes].
  assert (trim (part +:+ Route.show e) = Route.show e) as Htrim.
  { pose proof (route_graphic e He). destruct Hp as [->| ->].
    - rewrite append_nil_l. by apply trim_graphic.
    - by apply trim_space. }
  destruct es as [|e' es].
  - cbn [fmap list_fmap join]. rewrite <-(append_nil_r (Route.show e)) at 1.
    rewrite split_commas_entry by done. cbn [NameAddr.split_commas]. by rewrite Htrim.
  - change (join ", " (Route.show <$> e :: e' :: es)) with
      (Route.show e +:+ ", " +:+ join ", " (Route.show <$> e' :: es)).
    rewrite split_commas_entry by done. rewrite append_cons. cbn [NameAddr.split_commas].
    change (is_byte "<" ",") with false. change (is_byte ">" ",") with false.
    change (is_byte "," "," && (0 =? 0)%N) with true. cbv iota. rewrite Htrim.
    rewrite split_commas_text by (done || by right). rewrite append_nil_l, (IH " ") by (auto; done).
    done.
Qed.

Lemma routes_read es :
  forallb route_ok es = true → Route.parse_multi (Route.format_route_header es) = Ok es.
Proof.
  intros Hes. unfold Route.parse_multi, Route.split_comma_respecting_angles,
    NameAddr.split_comma_respecting_angles.
  rewrite split_format by auto. induction es as [|e es IH]; [done|].
  cbn in Hes. apply andb_prop in Hes as [He Hes]. cbn [fmap list_fmap result_mapM].
  rewrite route_read by done. cbn [mbind result_bind]. cbn in IH. by rewrite IH.
Qed.

(** *** The leading entries that are ours *)

(** Headers whose only Route value lists [es]. *)
Definition routes_are (h : SipHeaders) (es : list Route.RouteEntry) : Prop :=
  Headers.get_all "Route" h = match es with [] => None | _ => Some [Route.format_route_header es] end.

Lemma routes_are_all h es :
  forallb route_ok es = true → routes_are h es → all_routes h = es ∧ top_route h = head es.
Proof.
  unfold routes_are, all_routes, top_route. rewrite Headers.get_head. intros Hes ->.
  destruct es as [|e es]; [done|]. cbn [default mbind option_bind list_bind head from_option id].
  rewrite routes_read by done. by rewrite app_nil_r.
Qed.

Lemma pop_routes h e es :
  Headers.wf h → forallb route_ok (e :: es) = true → routes_are h (e :: es) →
  ∃ h', pop_top_route h = (h', Some e) ∧ Headers.wf h' ∧ routes_are h' es ∧
    ∀ name, Headers.same_header_name "Route" name = false →
      Headers.get_all name h' = Headers.get_all name h.
Proof.
  intros Hwf Hes Hr. unfold pop_top_route. rewrite (proj1 (routes_are_all h _ Hes Hr)).
  eexists. split; [done|]. destruct es as [|e' es].
  - split; [by apply Headers.wf_remove|]. unfold routes_are.
    rewrite Headers.get_all_remove, Headers.same_header_refl by done.
    split; [done|]. intros name Hn. by rewrite Headers.get_all_remove, Hn.
  - split; [by apply Headers.wf_add, Headers.wf_remove|]. unfold routes_are.
    rewrite Headers.get_all_add, Headers.get_all_remove, Headers.same_header_refl by done.
    split; [done|]. intros name Hn.
    by rewrite Headers.get_all_add, Hn, Headers.get_all_remove, Hn.
Qed.

Lemma pop_loop_routes es fuel h i popped mine rest :
  Headers.wf h → forallb route_ok es = true → routes_are h es → length es < fuel →
  span (is_local i) es = (mine, rest) →
  ∃ h', pop_local_routes_loop fuel h i popped = Some (h', popped ++ mine) ∧ routes_are h' rest ∧
    ∀ name, Headers.same_header_name "Route" name = false →
      Headers.get_all name h' = Headers.get_all name h.
Proof.
  revert fuel h popped mine rest. induction es as [|e es IH];
    intros [|fuel] h popped mine rest Hwf Hes Hr Hf Hs; cbn in Hf; try lia;
    destruct (routes_are_all h _ Hes Hr) as [_ Ht]; cbn [pop_local_routes_loop];
    unfold top_route_is_local; rewrite Ht; cbn [head].
  - injection Hs as <- <-. exists h. by rewrite app_nil_r.
  - cbn in Hs. destruct (is_local i e) eqn:Hl.
    + destruct (pop_routes h e es Hwf Hes Hr) as (h1 & -> & Hwf1 & Hr1 & Ho1).
      destruct (span (is_local i) es) as [mine' rest'] eqn:Hsp. injection Hs as <- <-.
      cbn in Hes. apply andb_prop in Hes as [_ Hes].
      destruct (IH fuel h1 (popped ++ [e]) mine' rest' Hwf1 Hes Hr1) as (h' & -> & Hr' & Ho');
        [lia|done|].
      exists h'. rewrite <-(assoc_L (++)). split_and!; [done|done|].
      intros name Hn. by rewrite Ho', Ho1.
    + injection Hs as <- <-. exists h. by rewrite app_nil_r.
Qed.
End routes.

(** The proxy consumes exactly the leading Route entries that name it.  For
    a request whose Route lists well-formed entries, [pop_local_routes] returns
    the longest prefix of entries this proxy answers for; the entries after it
    stay, in order and unchanged, and no other header is touched. *)
Theorem own_routes_consumed `{U : Unicode, P : Nom} (h : SipHeaders) (i : SelfIdentity)
    (es mine rest : list Route.RouteEntry) :
  Headers.wf h → forallb route_ok es = true → routes_are h es →
  span (is_local i) es = (mine, rest) →
  ∃ h', pop_local_routes h i = Some (h', mine) ∧ routes_are h' rest ∧
    top_route h' = head rest ∧
    ∀ name, Headers.same_header_name "Route" name = false →
      Headers.get_all name h' = Headers.get_all name h.
Proof.
  intros Hwf Hes Hr Hs. unfold pop_local_routes.
  destruct (pop_loop_routes es (S (length es + route_brackets h)) h i [] mine rest)
    as (h' & Hp & Hr' & Ho); [done..|lia|done|].
  exists h'. split_and!; [|done| |done].
  - cbn [app] in Hp. rewrite <-Hp. apply pop_fuel; [done|lia].
  - apply (routes_are_all h' rest); [|done].
    assert (es = mine ++ rest) as ->.
    { pose proof (span_concat (is_local i) es) as Hc. by rewrite Hs in Hc. }
    by rewrite forallb_app in Hes; apply andb_prop in Hes as [_ ?].
Qed.

Definition sample_entries : list Route.RouteEntry :=
  [Route.mkEntry (with_param (uri_new "Proxy.Example.Org") "lr" None) [];
   Route.mkEntry (with_param (with_port (uri_new "[2001:db8::1]") 5061) "lr" None) [("x", Some "1")];
   Route.mkEntry (with_param (with_port (uri_new "[2001:db8::1]") 5070) "lr" None) []].

Lemma own_routes_consumed_witness :
  let h := Headers.set "Route" (Route.format_route_header sample_entries) Headers.new in
  ∃ h', @pop_local_routes unicode_ascii nom_reference h sample_identity =
          Some (h', take 2 sample_entries) ∧ routes_are h' (drop 2 sample_entries).
Proof.
  intros h. destruct (@own_routes_consumed unicode_ascii nom_reference h sample_identity
    sample_entries (take 2 sample_entries) (drop 2 sample_entries)) as (h' & He & Hr & _).
  - apply Headers.wf_set, Headers.wf_new.
  - vm_compute. reflexivity.
  - vm_compute. reflexivity.
  - vm_compute. reflexivity.
  - exists h'. split; [exact He|exact Hr].
Defined.
