(* ===== verification/Fork.v ===== *)
(** * Forking and the best failure
    ([src/src/proxy/fork/mod.rs], [src/src/sip/best_response.rs])

    The aggregator that turns the responses of the branches of a forked request
    into what goes upstream, and the ranking of the failures it collects. *)

From S2P Require Import Prelude Str Headers Uri Message.

(** ** The ranking of final failures *)

Definition RESUBMISSION_HINTS : list N := [401; 407; 415; 420; 484]%N.

Record ResponseRank := mkRank {
  class : N;      (* u8 *)
  standing : N;   (* u8 *)
  preferred : bool;
  rank_status : N;   (* u16 *)
}.

Definition between (lo hi n : N) : bool := (lo <=? n)%N && (n <=? hi)%N.

Definition preferring (status_code : N) (preferred : bool) : ResponseRank :=
  mkRank
    (if between 600 699 status_code then 4
     else if between 300 399 status_code then 3
     else if between 400 499 status_code then 2
     else if between 500 599 status_code then 1 else 0)%N
    (if (status_code =? 503)%N then 0
     else if bool_decide (status_code ∈ RESUBMISSION_HINTS) then 2 else 1)%N
    preferred status_code.

Definition rank_of (status_code : N) : ResponseRank := preferring status_code false.

(** The derived [Ord]: fields in the order they are declared. *)
Definition rank_compare (x y : ResponseRank) : comparison :=
  match (class x ?= class y)%N with
  | Eq =>
      match (standing x ?= standing y)%N with
      | Eq =>
          match preferred x, preferred y with
          | false, true => Lt
          | true, false => Gt
          | _, _ => (rank_status x ?= rank_status y)%N
          end
      | c => c
      end
  | c => c
  end.

(** [Iterator::max_by_key]: of equal elements, the last. *)
Definition max_by_key {A} (key : A → ResponseRank) (l : list A) : option A :=
  foldl (λ best x,
           match best with
           | None => Some x
           | Some b => match rank_compare (key b) (key x) with Gt => Some b | _ => Some x end
           end) None l.

Definition best_status (status_codes : list N) : option N := max_by_key rank_of status_codes.

(** The status a chosen failure goes upstream as. *)
Definition upstream_status (status_code : N) : N := if (status_code =? 503)%N then 500 else status_code.

(** ** The aggregator *)

Module Fork.

Inductive ForkStrategy := Parallel | Sequential.

Inductive BranchState :=
  | Pending | Trying | Proceeding (code : N) | Completed (code : N) | Cancelled.

#[global] Instance BranchState_eq_dec : EqDecision BranchState.
Proof. solve_decision. Defined.

Inductive ResponseOrigin := Peer | Local.

#[global] Instance ResponseOrigin_eq_dec : EqDecision ResponseOrigin.
Proof. solve_decision. Defined.

Record ForkBranch := mkBranch {
  target : SipUri;
  state : BranchState;
  origin : ResponseOrigin;
  response : option SipMessage;
}.

Inductive ForkAction :=
  | Forward2xx
  | ForwardAnother2xx
  | Forward6xx
  | ContinueWaiting
  | ForwardBestError (code : N)
  | TryNext (index : nat)
  | ForwardProvisional (code : N).

Record ForkAggregator := mkFork {
  branches : list ForkBranch;
  strategy : ForkStrategy;
  sent_100 : bool;
  final_forwarded : bool;
  best_response : option SipMessage;
}.

Definition new (targets : list SipUri) (s : ForkStrategy) : ForkAggregator :=
  mkFork ((λ t, mkBranch t Pending Peer None) <$> targets) s false false None.

Definition has_settled (f : ForkAggregator) : bool := final_forwarded f.

Definition ended (b : ForkBranch) : bool :=
  match state b with Completed _ | Cancelled => true | _ => false end.

Definition is_complete (f : ForkAggregator) : bool := forallb ended (branches f).

(** [self.branches[index]], changed; stdpp's [alter] does nothing past the end,
    as the length checks of the source do. *)
Definition with_branches (f : ForkAggregator) (l : list ForkBranch) : ForkAggregator :=
  mkFork l (strategy f) (sent_100 f) (final_forwarded f) (best_response f).

Definition set_state (s : BranchState) (b : ForkBranch) : ForkBranch :=
  mkBranch (target b) s (origin b) (response b).
Definition set_origin (o : ResponseOrigin) (b : ForkBranch) : ForkBranch :=
  mkBranch (target b) (state b) o (response b).
Definition set_response (r : option SipMessage) (b : ForkBranch) : ForkBranch :=
  mkBranch (target b) (state b) (origin b) r.

Definition at_branch (g : ForkBranch → ForkBranch) (index : nat) (f : ForkAggregator)
    : ForkAggregator :=
  with_branches f (alter g index (branches f)).

Definition mark_trying (index : nat) : ForkAggregator → ForkAggregator :=
  at_branch (set_state Trying) index.
Definition mark_cancelled (index : nat) : ForkAggregator → ForkAggregator :=
  at_branch (set_state Cancelled) index.
Definition mark_local_failure (index : nat) : ForkAggregator → ForkAggregator :=
  at_branch (set_origin Local) index.

Definition settle (f : ForkAggregator) : ForkAggregator :=
  mkFork (set_response None <$> branches f) (strategy f) (sent_100 f) true (best_response f).

Definition branch_rank (b : ForkBranch) : option ResponseRank :=
  match state b with
  | Completed code =>
      if (300 <=? code)%N then Some (preferring code (bool_decide (origin b = Peer))) else None
  | _ => None
  end.

(** The failed branches with their indices and ranks. *)
Definition ranked (f : ForkAggregator) : list (nat * ResponseRank) :=
  omap (λ '(i, b), r ← branch_rank b; Some (i, r)) (imap pair (branches f)).

Definition best_branch (f : ForkAggregator) : option nat :=
  fst <$> max_by_key snd (ranked f).

Definition is_challenge (b : ForkBranch) : bool :=
  match state b with Completed code => bool_decide (code ∈ [401; 407]%N) | _ => false end.

Definition add_all (name : string) (values : list string) (h : SipHeaders) : SipHeaders :=
  foldl (λ h v, Headers.add name v h) h values.

Definition add_challenges (other : SipMessage) (h : SipHeaders) : SipHeaders :=
  foldl (λ h name, add_all name (default [] (Headers.get_all name (msg_headers other))) h) h
    ["WWW-Authenticate"; "Proxy-Authenticate"].

Definition collect_challenges (f : ForkAggregator) (chosen : nat) (r : SipMessage) : SipMessage :=
  with_headers r
    (foldl (λ h '(i, b),
              if bool_decide (i = chosen) || negb (is_challenge b) then h else
              match response b with Some other => add_challenges other h | None => h end)
       (msg_headers r) (imap pair (branches f))).

Definition settle_on_best_failure (f : ForkAggregator) : ForkAggregator * ForkAction :=
  let best := best_branch f in
  let status_code :=
    default 500%N (i ← best; b ← branches f !! i;
                   match state b with Completed code => Some code | _ => None end) in
  let taken := i ← best; b ← branches f !! i; response b in
  let f := match best with Some i => at_branch (set_response None) i f | None => f end in
  let chosen :=
    i ← best; r ← taken;
    Some (if bool_decide (status_code ∈ [401; 407]%N) then collect_challenges f i r else r) in
  let f := mkFork (branches f) (strategy f) (sent_100 f) (final_forwarded f) chosen in
  (settle f, ForwardBestError status_code).

Definition next_pending_branch (f : ForkAggregator) : option nat :=
  fst <$> list_find (λ b, state b = Pending) (branches f).

Definition on_provisional (f : ForkAggregator) (status_code : N) : ForkAggregator * ForkAction :=
  if final_forwarded f then (f, ContinueWaiting) else
  if (status_code =? 100)%N then
    if sent_100 f then (f, ContinueWaiting)
    else (mkFork (branches f) (strategy f) true (final_forwarded f) (best_response f),
          ForwardProvisional status_code)
  else (f, ForwardProvisional status_code).

Definition answered (s : BranchState) : bool :=
  match s with Completed code => between 200 299 code | _ => false end.

Definition on_final (f : ForkAggregator) (answered_before : bool) (status_code : N)
    : ForkAggregator * ForkAction :=
  if between 200 299 status_code then
    if answered_before then (f, ContinueWaiting) else
    if final_forwarded f then (f, ForwardAnother2xx) else (settle f, Forward2xx)
  else if (600 <=? status_code)%N then
    if final_forwarded f then (f, ContinueWaiting) else (settle f, Forward6xx)
  else if final_forwarded f then (f, ContinueWaiting)
  else
    match strategy f with
    | Parallel => if is_complete f then settle_on_best_failure f else (f, ContinueWaiting)
    | Sequential =>
        match next_pending_branch f with
        | Some next => (f, TryNext next)
        | None => settle_on_best_failure f
        end
    end.

Definition on_branch_response (f : ForkAggregator) (index : nat) (status_code : N)
    : ForkAggregator * ForkAction :=
  match branches f !! index with
  | None => (f, ContinueWaiting)
  | Some b =>
      if between 100 199 status_code
      then on_provisional (at_branch (set_state (Proceeding status_code)) index f) status_code
      else on_final (at_branch (set_state (Completed status_code)) index f) (answered (state b))
             status_code
  end.

Definition on_response (f : ForkAggregator) (index : nat) (status_code : N) (r : SipMessage)
    : ForkAggregator * ForkAction :=
  let f := if (300 <=? status_code)%N && negb (final_forwarded f)
           then at_branch (set_response (Some r)) index f else f in
  on_branch_response f index status_code.

Definition take_best_response (f : ForkAggregator) : ForkAggregator * option SipMessage :=
  (mkFork (branches f) (strategy f) (sent_100 f) (final_forwarded f) None, best_response f).

End Fork.
