(* ===== verification/Replies.v ===== *)
(** * The responses the proxy builds itself
    ([src/src/dispatcher/response_builder.rs], [best_error_reason] of
    [cancel_ack.rs], and the failure that [response.rs] sends for a fork)

    A response is built from the request: the headers every response copies,
    what a script left on the request for it, and the headers a script asks for.
    When all branches of a fork failed the chosen branch's own response goes
    upstream, except that a 503 is replaced by a 500 built here. *)

From S2P Require Import Prelude Str Headers Uri Message Fork.

Inductive ReplyHeaderOp := Replace | Add.

Definition response_establishes_dialog (request : SipMessage) (status_code : N) : bool :=
  (101 <=? status_code)%N && (status_code <? 300)%N &&
  bool_decide (msg_method request ∈ [Some Invite; Some Subscribe; Some Refer]) &&
  match Headers.to (msg_headers request) with
  | Some to => match find_str ";tag=" to with Some _ => false | None => true end
  | None => false
  end.

(** A header for each value of a list, and for one that may be there. *)
Definition add_values (name : string) (values : list string) (b : Builder.SipMessageBuilder) :=
  foldl (λ b v, Builder.header name v b) b values.
Definition add_value (name : string) (value : option string) (b : Builder.SipMessageBuilder) :=
  match value with Some v => Builder.header name v b | None => b end.

Definition build_response (request : SipMessage) (status_code : N) (reason : string)
    (server_header : option string) (reply_headers : list (ReplyHeaderOp * string * string))
    : SipMessage :=
  let h := msg_headers request in
  let all name := default [] (Headers.get_all name h) in
  let b := Builder.response status_code reason Builder.new in
  let b := add_values "Via" (all "Via") b in
  let b := add_value "From" (Headers.from h) b in
  let b := add_value "To" (Headers.to h) b in
  let b := add_value "Call-ID" (Headers.call_id h) b in
  let b := add_value "CSeq" (Headers.cseq h) b in
  let b := if response_establishes_dialog request status_code
           then add_values "Record-Route" (all "Record-Route") b else b in
  let b := add_values "WWW-Authenticate" (all "WWW-Authenticate") b in
  let b := add_values "Proxy-Authenticate" (all "Proxy-Authenticate") b in
  let b := add_value "Expires" (Headers.get "Expires" h) b in
  let b := add_value "SIP-ETag" (Headers.get "SIP-ETag" h) b in
  let b := add_value "Server" server_header b in
  let b := foldl (λ b '(op, name, value),
                    match op with
                    | Replace => Builder.set_header name value b
                    | Add => Builder.header name value b
                    end) b reply_headers in
  let b := Builder.content_length 0 b in
  default (mkMessage (Response (mkStatusLine sip_2_0 500 "Internal Server Error" false)) Headers.new "")
    (Builder.build b).

Definition best_error_reason (code : N) : string :=
  match code with
  | 300 => "Multiple Choices"
  | 301 => "Moved Permanently"
  | 302 => "Moved Temporarily"
  | 305 => "Use Proxy"
  | 380 => "Alternative Service"
  | 400 => "Bad Request"
  | 401 => "Unauthorized"
  | 402 => "Payment Required"
  | 403 => "Forbidden"
  | 404 => "Not Found"
  | 405 => "Method Not Allowed"
  | 406 => "Not Acceptable"
  | 407 => "Proxy Authentication Required"
  | 408 => "Request Timeout"
  | 410 => "Gone"
  | 413 => "Request Entity Too Large"
  | 414 => "Request-URI Too Long"
  | 415 => "Unsupported Media Type"
  | 416 => "Unsupported URI Scheme"
  | 420 => "Bad Extension"
  | 421 => "Extension Required"
  | 422 => "Session Interval Too Small"
  | 423 => "Interval Too Brief"
  | 480 => "Temporarily Unavailable"
  | 481 => "Call/Transaction Does Not Exist"
  | 482 => "Loop Detected"
  | 483 => "Too Many Hops"
  | 484 => "Address Incomplete"
  | 485 => "Ambiguous"
  | 486 => "Busy Here"
  | 487 => "Request Terminated"
  | 488 => "Not Acceptable Here"
  | 491 => "Request Pending"
  | 493 => "Undecipherable"
  | 500 => "Server Internal Error"
  | 501 => "Not Implemented"
  | 502 => "Bad Gateway"
  | 503 => "Service Unavailable"
  | 504 => "Server Time-out"
  | 505 => "Version Not Supported"
  | 513 => "Message Too Large"
  | 580 => "Precondition Failure"
  | 600 => "Busy Everywhere"
  | 603 => "Decline"
  | 604 => "Does Not Exist Anywhere"
  | 606 => "Not Acceptable"
  | _ => "Error"
  end%N.

(** What goes upstream for [ForwardBestError chosen_code]; [server_header] is the
    configured identity. *)
Definition best_error_response (original_request : SipMessage) (server_header : option string)
    (chosen_code : N) (chosen_response : option SipMessage) : SipMessage :=
  let best_code := upstream_status chosen_code in
  match (if (best_code =? chosen_code)%N then chosen_response else None) with
  | Some response => response
  | None => build_response original_request best_code (best_error_reason best_code) server_header []
  end.

(** ** What a built response carries *)

Definition values (name : string) (m : SipMessage) : list string :=
  default [] (Headers.get_all name (msg_headers m)).

(** The builder's fields under the two ways to add a header. *)
Lemma add_values_fields name vs b :
  Builder.b_start_line (add_values name vs b) = Builder.b_start_line b ∧
  Builder.b_headers (add_values name vs b) = foldl (λ h v, Headers.add name v h) (Builder.b_headers b) vs ∧
  Builder.b_body (add_values name vs b) = Builder.b_body b.
Proof.
  unfold add_values. revert b. induction vs as [|v vs IH]; intros b; [done|]. cbn [foldl].
  by destruct (IH (Builder.header name v b)) as (-> & -> & ->).
Qed.

Lemma add_value_values name v b : add_value name v b = add_values name (option_list v) b.
Proof. by destruct v. Qed.

(** The values of a header after some were added under another spelling or name. *)
Lemma values_added name name' vs h :
  default [] (Headers.get_all name' (foldl (λ h v, Headers.add name v h) h vs)) =
  default [] (Headers.get_all name' h) ++ (if Headers.same_header_name name name' then vs else []).
Proof.
  rewrite Headers.get_all_foldl_add. destruct (Headers.same_header_name name name') eqn:Hs; cbn [andb].
  - case_bool_decide; subst; cbn; [by rewrite app_nil_r|]. f_equal.
    unfold Headers.get_all, Headers.same_header_name in *. apply bool_decide_eq_true in Hs. by rewrite Hs.
  - by rewrite app_nil_r.
Qed.

(** A response built without headers of a script: its status line, an empty
    body, and the values of a header other than [Content-Length]. *)
Lemma build_response_eq request code reason server :
  let r := build_response request code reason server [] in
  let pick name vs name' := if Headers.same_header_name name name' then vs else [] in
  start_line r = Response (mkStatusLine sip_2_0 code reason false) ∧ body r = "" ∧
  ∀ name, Headers.same_header_name "Content-Length" name = false →
    values name r =
      pick "Via" (values "Via" request) name ++
      pick "From" (option_list (Headers.from (msg_headers request))) name ++
      pick "To" (option_list (Headers.to (msg_headers request))) name ++
      pick "Call-ID" (option_list (Headers.call_id (msg_headers request))) name ++
      pick "CSeq" (option_list (Headers.cseq (msg_headers request))) name ++
      (if response_establishes_dialog request code
       then pick "Record-Route" (values "Record-Route" request) name else []) ++
      pick "WWW-Authenticate" (values "WWW-Authenticate" request) name ++
      pick "Proxy-Authenticate" (values "Proxy-Authenticate" request) name ++
      pick "Expires" (option_list (Headers.get "Expires" (msg_headers request))) name ++
      pick "SIP-ETag" (option_list (Headers.get "SIP-ETag" (msg_headers request))) name ++
      pick "Server" (option_list server) name.
Proof.
  cbn zeta. unfold build_response. cbn [foldl]. rewrite !add_value_values.
  set (all := λ name, default [] (Headers.get_all name (msg_headers request))).
  set (b0 := add_values "CSeq" _ _).
  set (b1 := if response_establishes_dialog request code then _ else b0).
  set (b := add_values "Server" _ _).
  assert (H0 : ∀ vs name b, Builder.b_start_line (add_values name vs b) = Builder.b_start_line b ∧
    Builder.b_body (add_values name vs b) = Builder.b_body b) by (intros; split; apply add_values_fields).
  assert (H1 : ∀ name name' vs b,
    default [] (Headers.get_all name' (Builder.b_headers (add_values name vs b))) =
    default [] (Headers.get_all name' (Builder.b_headers b)) ++
    (if Headers.same_header_name name name' then vs else [])).
  { intros name name' vs b'. destruct (add_values_fields name vs b') as (_ & -> & _). apply values_added. }
  assert (Hb0 : Builder.b_start_line b0 = Some (Response (mkStatusLine sip_2_0 code reason false)) ∧
    Builder.b_body b0 = "").
  { unfold b0. by rewrite !(proj1 (H0 _ _ _)), !(proj2 (H0 _ _ _)). }
  assert (Hb1 : Builder.b_start_line b1 = Builder.b_start_line b0 ∧ Builder.b_body b1 = Builder.b_body b0)
    by (unfold b1; destruct (response_establishes_dialog _ _); [apply H0|done]).
  assert (Hb : Builder.b_start_line b = Builder.b_start_line b1 ∧ Builder.b_body b = Builder.b_body b1).
  { unfold b. by rewrite !(proj1 (H0 _ _ _)), !(proj2 (H0 _ _ _)). }
  destruct Hb0 as [L0 B0], Hb1 as [L1 B1], Hb as [L B].
  unfold Builder.build. cbn [Builder.set_header Builder.b_start_line Builder.b_headers Builder.b_body].
  rewrite L, L1, L0. cbn [mbind option_bind default from_option id]. split_and!; [done|cbn; congruence|].
  intros name Hn. unfold values at 1. cbn [msg_headers]. rewrite Headers.get_all_set, Hn.
  unfold b. rewrite !H1.
  assert (Hh1 : default [] (Headers.get_all name (Builder.b_headers b1)) =
    default [] (Headers.get_all name (Builder.b_headers b0)) ++
    (if response_establishes_dialog request code
     then if Headers.same_header_name "Record-Route" name then all "Record-Route" else [] else [])).
  { unfold b1. destruct (response_establishes_dialog _ _); [apply H1|by rewrite app_nil_r]. }
  rewrite Hh1. unfold b0. rewrite !H1. clear. rewrite <- !(assoc_L (++)). done.
Qed.
