(* ===== verification/ForkProofs.v ===== *)
(** * What a fork sends upstream

    Theorems on the aggregator of [Fork] ([src/src/proxy/fork/mod.rs]) over
    arbitrary sequences of its operations. *)

From S2P Require Import Prelude Str Headers Uri Message Fork Replies.
Import Fork.

(** ** Runs *)

Inductive ForkOp :=
  | MarkTrying (index : nat)
  | MarkCancelled (index : nat)
  | MarkLocal (index : nat)
  | Respond (index : nat) (status_code : N) (r : SipMessage)
  | Status (index : nat) (status_code : N)
  | TakeBest.

Definition fork_step (f : ForkAggregator) (op : ForkOp) : ForkAggregator * list ForkAction :=
  match op with
  | MarkTrying i => (mark_trying i f, [])
  | MarkCancelled i => (mark_cancelled i f, [])
  | MarkLocal i => (mark_local_failure i f, [])
  | Respond i c r => let '(f, a) := on_response f i c r in (f, [a])
  | Status i c => let '(f, a) := on_branch_response f i c in (f, [a])
  | TakeBest => ((take_best_response f).1, [])
  end.

Fixpoint fork_run (f : ForkAggregator) (ops : list ForkOp) : ForkAggregator * list ForkAction :=
  match ops with
  | [] => (f, [])
  | op :: ops =>
      let '(f, a) := fork_step f op in
      let '(f, l) := fork_run f ops in (f, a ++ l)
  end.

(** ** The order of what goes upstream

    Before the fork settles: provisional responses, 100 at most once, and no
    failure outside 3xx to 5xx may be chosen.  One response settles it.  After
    that only further 2xx responses go upstream. *)
Fixpoint upstream_ok (trying settled : bool) (l : list ForkAction) : bool :=
  match l with
  | [] => true
  | a :: l =>
      match a with
      | ContinueWaiting => upstream_ok trying settled l
      | ForwardAnother2xx => settled && upstream_ok trying settled l
      | TryNext _ => negb settled && upstream_ok trying settled l
      | ForwardProvisional c =>
          negb settled && between 100 199 c && negb ((c =? 100)%N && trying) &&
          upstream_ok (trying || (c =? 100)%N) settled l
      | Forward2xx | Forward6xx => negb settled && upstream_ok trying true l
      | ForwardBestError c => negb settled && between 300 599 c && upstream_ok trying true l
      end
  end.

(** Until the fork settles no branch has ended with a 2xx or a 6xx. *)
Definition fork_inv (f : ForkAggregator) : Prop :=
  final_forwarded f = false →
  Forall (λ b, ∀ c, state b = Completed c → between 200 299 c = false ∧ (c < 600)%N) (branches f).

Lemma alter_Forall (Q : ForkBranch → Prop) g i l :
  Forall Q l → (∀ b, l !! i = Some b → Q b → Q (g b)) → Forall Q (alter g i l).
Proof.
  intros Hl Hg. apply Forall_alter; [done|]. intros b Hb HQ. by apply Hg.
Qed.

Lemma max_by_key_elem {A} (key : A → ResponseRank) l x : max_by_key key l = Some x → x ∈ l.
Proof.
  unfold max_by_key.
  enough (∀ l (o : option A) x,
    foldl (λ best x, match best with
      | None => Some x
      | Some b => match rank_compare (key b) (key x) with Gt => Some b | _ => Some x end end) o l
      = Some x → o = Some x ∨ x ∈ l) as H.
  { intros Hx. by apply H in Hx as [?|?]. }
  clear. induction l as [|y l IH]; intros o x; cbn [foldl]; [by left|].
  intros [Hx|Hx]%IH; [|right; by right].
  destruct o as [b|]; [|right; simplify_eq; by left].
  destruct (rank_compare (key b) (key y)); simplify_eq; auto; right; by left.
Qed.

Lemma ranked_elem f i r :
  (i, r) ∈ ranked f ↔ ∃ b, branches f !! i = Some b ∧ branch_rank b = Some r.
Proof.
  unfold ranked. rewrite list_elem_of_omap. split.
  - intros ([j b] & Hin & Hr). apply bind_Some in Hr as (r' & Hr & [= <- <-]).
    apply elem_of_lookup_imap in Hin as (k & b' & [= -> ->] & Hl). by exists b'.
  - intros (b & Hl & Hr). exists (i, b). split; [|by rewrite Hr].
    apply elem_of_lookup_imap. by exists i, b.
Qed.

Lemma branch_rank_Some b r :
  branch_rank b = Some r →
  ∃ c, state b = Completed c ∧ (300 ≤ c)%N ∧ r = preferring c (bool_decide (origin b = Peer)).
Proof.
  unfold branch_rank. destruct (state b) as [| | |c|]; try done.
  destruct (N.leb_spec 300 c); [|done]. intros [= <-]. by exists c.
Qed.

(** The branch that is chosen failed, with the status that is forwarded. *)
Lemma best_branch_Some f i :
  best_branch f = Some i →
  ∃ b c, branches f !! i = Some b ∧ state b = Completed c ∧ (300 ≤ c)%N.
Proof.
  unfold best_branch. intros ([j r] & Hm & ->)%fmap_Some. apply max_by_key_elem in Hm.
  apply ranked_elem in Hm as (b & Hl & (c & Hs & Hc & _)%branch_rank_Some). by exists b, c.
Qed.

Lemma settle_best_spec f :
  final_forwarded f = false → fork_inv f →
  ∃ f' c, settle_on_best_failure f = (f', ForwardBestError c) ∧
    between 300 599 c = true ∧ final_forwarded f' = true ∧ sent_100 f' = sent_100 f.
Proof.
  intros Hf Hinv. do 2 eexists. split; [reflexivity|]. split.
  - destruct (best_branch f) as [i|] eqn:Hb; [|done].
    destruct (best_branch_Some f i Hb) as (b & c & Hl & Hs & Hc). cbn. rewrite Hl. cbn. rewrite Hs.
    change (between 300 599 c = true). unfold between. apply andb_true_iff.
    rewrite !N.leb_le. split; [done|].
    specialize (Hinv Hf). rewrite Forall_lookup in Hinv. destruct (Hinv i b Hl c Hs). lia.
  - by destruct (best_branch f).
Qed.

Lemma inv_settled f : final_forwarded f = true → fork_inv f.
Proof. unfold fork_inv. congruence. Qed.

(** A change of one branch that is not a completion. *)
Lemma inv_at_branch g i f :
  (∀ b c, state (g b) = Completed c → state b = Completed c) → fork_inv f → fork_inv (at_branch g i f).
Proof.
  intros Hg Hinv Hf. apply alter_Forall; [by apply Hinv|]. intros b _ Hb c Hc. by apply Hb, Hg.
Qed.

Lemma inv_completed c i f :
  between 200 299 c = false → (c < 600)%N → fork_inv f →
  fork_inv (at_branch (set_state (Completed c)) i f).
Proof.
  intros H2 H6 Hinv Hf. apply alter_Forall; [by apply Hinv|]. by intros b _ _ c' [= <-].
Qed.

Lemma inv_new targets s : fork_inv (new targets s).
Proof. intros _. cbn. apply Forall_fmap, Forall_true. done. Qed.

(** A branch that was answered with a 2xx has settled the fork. *)
Lemma answered_settled f i b :
  fork_inv f → branches f !! i = Some b → answered (state b) = true → final_forwarded f = true.
Proof.
  intros Hinv Hb Ha. destruct (final_forwarded f) eqn:Hf; [done|]. specialize (Hinv Hf).
  rewrite Forall_lookup in Hinv. unfold answered in Ha.
  destruct (state b) as [| | |c|] eqn:Hs; try done. destruct (Hinv i b Hb c Hs). congruence.
Qed.

(** What one action does to the checker [upstream_ok]. *)
Definition action_ok (f f' : ForkAggregator) (a : ForkAction) : Prop :=
  fork_inv f' ∧
  ∀ rest, upstream_ok (sent_100 f') (final_forwarded f') rest = true →
          upstream_ok (sent_100 f) (final_forwarded f) (a :: rest) = true.

Lemma waiting_ok f f' :
  fork_inv f' → sent_100 f' = sent_100 f → final_forwarded f' = final_forwarded f →
  action_ok f f' ContinueWaiting.
Proof. unfold action_ok. intros Hinv H1 H2. rewrite H1, H2. by split. Qed.

Lemma settle_ok f a :
  final_forwarded f = false → a = Forward2xx ∨ a = Forward6xx → action_ok f (settle f) a.
Proof.
  intros Hf Ha. split; [by apply inv_settled|]. intros rest. cbn. rewrite Hf.
  by destruct Ha as [->| ->].
Qed.

Lemma settle_best_ok f :
  final_forwarded f = false → fork_inv f →
  action_ok f (settle_on_best_failure f).1 (settle_on_best_failure f).2.
Proof.
  intros Hf Hinv. destruct (settle_best_spec f Hf Hinv) as (f' & c & -> & Hc & Hfin & H100). cbn [fst snd].
  split; [by apply inv_settled|]. intros rest. rewrite Hfin, H100. cbn. by rewrite Hf, Hc.
Qed.

Lemma on_final_ok f i b c :
  fork_inv f → branches f !! i = Some b → between 100 199 c = false →
  let '(f', a) := on_final (at_branch (set_state (Completed c)) i f) (answered (state b)) c in
  action_ok f f' a.
Proof.
  intros Hinv Hb Hc. set (f1 := at_branch _ i f). unfold on_final.
  assert (final_forwarded f1 = final_forwarded f) as Hfin by done.
  assert (final_forwarded f = true → fork_inv f1) as Hset by (intros; by apply inv_settled; rewrite Hfin).
  destruct (between 200 299 c) eqn:H2.
  - destruct (answered (state b)) eqn:Ha.
    + apply waiting_ok; [|done|done]. by apply Hset, (answered_settled f i b).
    + rewrite Hfin. destruct (final_forwarded f) eqn:Hf; [|by apply (settle_ok f1); auto].
      split; [by apply Hset|]. intros rest. by cbn; rewrite Hf.
  - destruct (N.leb_spec 600 c) as [H6|H6]; rewrite Hfin.
    + destruct (final_forwarded f) eqn:Hf; [|by apply (settle_ok f1); auto].
      apply waiting_ok; [by apply Hset|done|by rewrite Hfin].
    + destruct (final_forwarded f) eqn:Hf; [apply waiting_ok; [by apply Hset|done|by rewrite Hfin]|].
      pose proof (inv_completed c i f H2 H6 Hinv) as Hinv1. fold f1 in Hinv1.
      pose proof (settle_best_ok f1 ltac:(congruence) Hinv1) as Hbest.
      destruct (settle_on_best_failure f1) as [f2 a2]. cbn [fst snd] in Hbest.
      destruct (strategy f1); [destruct (is_complete f1)|destruct (next_pending_branch f1)]; try exact Hbest.
      * by apply waiting_ok.
      * split; [done|]. intros rest. cbn. by rewrite Hf.
Qed.

Lemma on_provisional_ok f i c :
  fork_inv f → between 100 199 c = true →
  let '(f', a) := on_provisional (at_branch (set_state (Proceeding c)) i f) c in action_ok f f' a.
Proof.
  intros Hinv Hc. set (f1 := at_branch _ i f).
  assert (fork_inv f1) as Hinv1 by by apply inv_at_branch.
  unfold on_provisional. change (final_forwarded f1) with (final_forwarded f).
  change (sent_100 f1) with (sent_100 f).
  destruct (final_forwarded f) eqn:Hf; [by apply waiting_ok|].
  destruct (c =? 100)%N eqn:H1; [destruct (sent_100 f) eqn:Hs; [by apply waiting_ok|]|];
    (split; [intros _; exact (Hinv1 Hf)|]); intros rest; cbn; rewrite Hf, Hc, H1, ?Hs; cbn; [done|].
  by rewrite orb_false_r.
Qed.

Lemma on_branch_response_ok f i c :
  fork_inv f → let '(f', a) := on_branch_response f i c in action_ok f f' a.
Proof.
  intros Hinv. unfold on_branch_response. destruct (branches f !! i) as [b|] eqn:Hb; [|by apply waiting_ok].
  destruct (between 100 199 c) eqn:Hc; [by apply on_provisional_ok|by apply on_final_ok].
Qed.

Lemma on_response_ok f i c r :
  fork_inv f → let '(f', a) := on_response f i c r in action_ok f f' a.
Proof.
  intros Hinv. unfold on_response. 
  set (f1 := if (300 <=? c)%N && negb (final_forwarded f)
             then at_branch (set_response (Some r)) i f else f).
  assert (fork_inv f1 ∧ sent_100 f1 = sent_100 f ∧ final_forwarded f1 = final_forwarded f)
    as (Hinv1 & H1 & H2).
  { unfold f1. case_match; [|done]. split; [by apply inv_at_branch|done]. }
  pose proof (on_branch_response_ok f1 i c Hinv1) as Hok.
  destruct (on_branch_response f1 i c) as [f2 a]. unfold action_ok in *. by rewrite <-H1, <-H2.
Qed.

Lemma fork_step_ok f op :
  fork_inv f →
  let '(f', l) := fork_step f op in
  fork_inv f' ∧ ∀ rest, upstream_ok (sent_100 f') (final_forwarded f') rest = true →
    upstream_ok (sent_100 f) (final_forwarded f) (l ++ rest) = true.
Proof.
  intros Hinv. destruct op as [i|i|i|i c r|i c|]; cbn [fork_step].
  1,2,3: split; [by apply inv_at_branch|done].
  - pose proof (on_response_ok f i c r Hinv) as Ho. by destruct (on_response f i c r).
  - pose proof (on_branch_response_ok f i c Hinv) as Ho. by destruct (on_branch_response f i c).
  - by split.
Qed.

Lemma fork_run_ok ops f :
  fork_inv f → upstream_ok (sent_100 f) (final_forwarded f) (fork_run f ops).2 = true.
Proof.
  revert f. induction ops as [|op ops IH]; intros f Hinv; [done|]. cbn [fork_run].
  pose proof (fork_step_ok f op Hinv) as Hstep.
  destruct (fork_step f op) as [f' l]. destruct Hstep as [Hinv' Hrest].
  specialize (IH f' Hinv'). destruct (fork_run f' ops) as [f'' l']. cbn in *. by apply Hrest.
Qed.

(** C37: what a fork sends upstream, over any sequence of its operations.  At
    most one response settles the fork (a 2xx, a 6xx, or the best failure, which
    is a 3xx to 5xx); 100 Trying goes upstream at most once; provisional
    responses and attempts of further branches come before the settling
    response, and after it nothing but further 2xx responses. *)
Theorem fork_upstream_protocol (targets : list SipUri) (s : ForkStrategy) (ops : list ForkOp) :
  upstream_ok false false (fork_run (new targets s) ops).2 = true.
Proof.
  apply (fork_run_ok ops (new targets s)), inv_new.
Qed.

(** ** The best failure *)

Definition rank_le (x y : ResponseRank) : Prop :=
  (class x < class y ∨ class x = class y ∧
   (standing x < standing y ∨ standing x = standing y ∧
    (N.b2n (preferred x) < N.b2n (preferred y) ∨ N.b2n (preferred x) = N.b2n (preferred y) ∧
     rank_status x ≤ rank_status y)))%N.

Lemma rank_compare_le x y : rank_compare x y ≠ Gt ↔ rank_le x y.
Proof.
  unfold rank_compare, rank_le.
  destruct (N.compare_spec (class x) (class y)); [|split; [intros; lia|done]..|split; [done|lia]].
  destruct (N.compare_spec (standing x) (standing y)); [|split; [intros; lia|done]..|split; [done|lia]].
  destruct (preferred x), (preferred y); cbn [N.b2n];
    destruct (N.compare_spec (rank_status x) (rank_status y)); split; try done; intros; lia.
Qed.

Lemma rank_compare_Gt x y : rank_compare x y = Gt → rank_le y x.
Proof.
  intros Hg. assert (¬ rank_le x y) as Hn by (rewrite <-rank_compare_le; congruence).
  unfold rank_le in *. destruct (preferred x), (preferred y); cbn [N.b2n] in *; lia.
Qed.

Lemma max_by_key_max {A} (key : A → ResponseRank) l x y :
  max_by_key key l = Some x → y ∈ l → rank_le (key y) (key x).
Proof.
  unfold max_by_key.
  enough (∀ l (o : option A) x,
    foldl (λ best x, match best with
      | None => Some x
      | Some b => match rank_compare (key b) (key x) with Gt => Some b | _ => Some x end end) o l
      = Some x → (∀ b, o = Some b → rank_le (key b) (key x)) ∧ ∀ y, y ∈ l → rank_le (key y) (key x))
    as H.
  { intros Hx Hy. apply H in Hx as [_ Hx]. by apply Hx. }
  assert (∀ r, rank_le r r) as Hrefl by (unfold rank_le; lia).
  assert (∀ r1 r2 r3, rank_le r1 r2 → rank_le r2 r3 → rank_le r1 r3) as Htrans
    by (unfold rank_le; lia).
  clear x y l. induction l as [|z l IH]; intros o x; cbn [foldl].
  { intros ->. split; [by intros b [= ->]|by intros y ?%elem_of_nil]. }
  intros [Ho Hl]%IH. destruct o as [b|].
  - destruct (rank_compare (key b) (key z)) eqn:Hc;
      (split; [intros b' [= <-]|intros y [->|Hy]%elem_of_cons; [|by apply Hl]]);
      try (by apply Ho); eapply Htrans; try (by apply Ho).
    + apply rank_compare_le. congruence.
    + apply rank_compare_le. congruence.
    + by apply rank_compare_Gt.
  - split; [done|]. intros y [->|Hy]%elem_of_cons; [by apply Ho|by apply Hl].
Qed.

Lemma max_by_key_None {A} (key : A → ResponseRank) l : max_by_key key l = None → l = [].
Proof.
  unfold max_by_key. destruct l as [|x l]; [done|]. cbn [foldl].
  assert (∀ l (b : A), is_Some (foldl (λ best x, match best with
      | None => Some x
      | Some b => match rank_compare (key b) (key x) with Gt => Some b | _ => Some x end end)
      (Some b) l)) as H.
  { clear. induction l as [|y l IH]; intros b; cbn [foldl]; [done|].
    destruct (rank_compare (key b) (key y)); apply IH. }
  destruct (H l x) as [z Hz]. by rewrite Hz.
Qed.

(** RFC 3261 section 16.7 step 6, for the final failures [codes]: a 6xx if there
    is one, otherwise the lowest class; a response that tells how to resubmit
    ahead of the other 4xx; a 503 only when there is nothing else. *)
Definition rfc_best (codes : list N) (code : N) : Prop :=
  code ∈ codes ∧
  ((∃ c, c ∈ codes ∧ 600 ≤ c) → 600 ≤ code)%N ∧
  ((∀ c, c ∈ codes → c < 600) → ∀ c, c ∈ codes → code / 100 ≤ c / 100)%N ∧
  (400 ≤ code < 500 → (∃ c, c ∈ codes ∧ c ∈ RESUBMISSION_HINTS) → code ∈ RESUBMISSION_HINTS)%N ∧
  (code = 503 → ∀ c, c ∈ codes → c = 503)%N.

Lemma class_cases c p :
  (300 ≤ c ≤ 699)%N →
  ((600 ≤ c ∧ class (preferring c p) = 4) ∨
   (c / 100 = 3 ∧ class (preferring c p) = 3) ∨
   (c / 100 = 4 ∧ class (preferring c p) = 2) ∨
   (c / 100 = 5 ∧ class (preferring c p) = 1))%N.
Proof.
  intros Hc. unfold preferring. cbn [class]. unfold between.
  destruct (N.leb_spec 600 c); cbn [andb].
  { left. destruct (N.leb_spec c 699); [done|lia]. }
  right. assert (c = 100 * (c / 100) + c mod 100)%N as Hd by (apply N.div_mod; lia).
  assert (c mod 100 < 100)%N as Hm by (apply N.mod_lt; lia).
  revert Hd Hm. generalize (c / 100)%N (c mod 100)%N. intros q r Hd Hm.
  destruct (N.leb_spec 300 c); [|lia]. destruct (N.leb_spec c 399); cbn [andb]; [left; split; [lia|done]|].
  destruct (N.leb_spec 400 c); [|lia]. destruct (N.leb_spec c 499); cbn [andb];
    [right; left; split; [lia|done]|].
  destruct (N.leb_spec 500 c); [|lia]. destruct (N.leb_spec c 599); cbn [andb]; [|lia].
  right; right. split; [lia|done].
Qed.

Lemma standing_503 c p : standing (preferring c p) = 0%N ↔ c = 503%N.
Proof.
  unfold preferring. cbn [standing]. destruct (N.eqb_spec c 503); [done|].
  by case_bool_decide.
Qed.

Lemma hint_class c : c ∈ RESUBMISSION_HINTS → (400 ≤ c < 500)%N.
Proof. intros Hc. each_of Hc by lia. Qed.

Lemma standing_hint c p : (2 ≤ standing (preferring c p))%N ↔ c ∈ RESUBMISSION_HINTS.
Proof.
  unfold preferring. cbn [standing]. destruct (N.eqb_spec c 503) as [->|].
  - split; [lia|]. intros ?%hint_class. lia.
  - case_bool_decide; split; try done; lia.
Qed.

Lemma best_is_rfc codes code p :
  Forall (λ c, 300 ≤ c ≤ 699)%N codes → code ∈ codes →
  (∀ c, c ∈ codes → ∃ pc, rank_le (preferring c pc) (preferring code p)) → rfc_best codes code.
Proof.
  intros Hr Hin Hmax. rewrite Forall_forall in Hr.
  assert (∀ c, c ∈ codes → ∃ pc, (class (preferring c pc) < class (preferring code p) ∨
    class (preferring c pc) = class (preferring code p) ∧
    standing (preferring c pc) ≤ standing (preferring code p))%N) as Hle.
  { intros c Hc. destruct (Hmax c Hc) as [pc Hp]. exists pc. unfold rank_le in Hp. lia. }
  pose proof (class_cases code p (Hr code Hin)) as Hcode. split_and!; [done|..].
  - intros (c & Hc & H6). destruct (Hle c Hc) as [pc Hp].
    pose proof (class_cases c pc (Hr c Hc)) as Hcl.
    assert (600 ≤ c → ¬ (c / 100 ≤ 5))%N as Hd.
    { intros H. pose proof (N.Div0.div_le_mono 600 c 100 H). change (600 / 100)%N with 6%N in *. lia. }
    lia.
  - intros Hall c Hc. destruct (Hle c Hc) as [pc Hp].
    pose proof (class_cases c pc (Hr c Hc)) as Hcl. specialize (Hall c Hc) as H1.
    specialize (Hall code Hin) as H2. lia.
  - intros H4 (c & Hc & Hh). destruct (Hle c Hc) as [pc Hp].
    apply (standing_hint code p). pose proof (hint_class c Hh) as H4c.
    apply (standing_hint c pc) in Hh.
    assert (∀ x q, 400 ≤ x < 500 → class (preferring x q) = 2)%N as H2.
    { intros x q Hx. unfold preferring, between. cbn [class].
      destruct (N.leb_spec 600 x), (N.leb_spec x 399), (N.leb_spec 400 x), (N.leb_spec x 499),
        (N.leb_spec 300 x); cbn [andb]; (done || lia). }
    rewrite !H2 in Hp by lia. lia.
  - intros -> c Hc. destruct (Hle c Hc) as [pc Hp]. apply (standing_503 c pc).
    change (class (preferring 503 p)) with 1%N in Hp. change (standing (preferring 503 p)) with 0%N in Hp.
    pose proof (class_cases c pc (Hr c Hc)) as Hcl. lia.
Qed.

(** The same choice over bare statuses, as a call with several legs makes it. *)
Theorem best_status_rfc codes :
  Forall (λ c, 300 ≤ c ≤ 699)%N codes →
  match best_status codes with Some code => rfc_best codes code | None => codes = [] end.
Proof.
  intros Hr. destruct (best_status codes) as [code|] eqn:Hb; [|by eapply max_by_key_None].
  apply (best_is_rfc _ _ false Hr); [by eapply max_by_key_elem|].
  intros c Hc. exists false. exact (max_by_key_max _ _ _ _ Hb Hc).
Qed.

(** The final failures the branches ended with. *)
Definition failure (b : ForkBranch) : option N :=
  match state b with Completed c => if (300 <=? c)%N then Some c else None | _ => None end.
Definition failures (f : ForkAggregator) : list N := omap failure (branches f).

Lemma failure_rank b c :
  failure b = Some c → branch_rank b = Some (preferring c (bool_decide (origin b = Peer))).
Proof.
  unfold failure, branch_rank. destruct (state b); try done. case_match; [|done]. by intros [= ->].
Qed.

(** The chosen branch, and why. *)
Lemma best_branch_spec f :
  failures f ≠ [] →
  ∃ i b c, best_branch f = Some i ∧ branches f !! i = Some b ∧ state b = Completed c ∧
    failure b = Some c ∧
    ∀ b' c', b' ∈ branches f → failure b' = Some c' →
      rank_le (preferring c' (bool_decide (origin b' = Peer)))
              (preferring c (bool_decide (origin b = Peer))).
Proof.
  intros Hne. unfold best_branch. destruct (max_by_key snd (ranked f)) as [[i r]|] eqn:Hm.
  - pose proof (max_by_key_elem _ _ _ Hm) as Hin. apply ranked_elem in Hin as (b & Hl & Hr).
    destruct (branch_rank_Some b r Hr) as (c & Hs & Hc & ->). exists i, b, c. split_and!; [done|done|done| |].
    { unfold failure. rewrite Hs. by destruct (N.leb_spec 300 c); [|lia]. }
    intros b' c' [j Hj]%list_elem_of_lookup Hf.
    apply (max_by_key_max snd _ _ (j, preferring c' (bool_decide (origin b' = Peer)))) in Hm; [exact Hm|].
    apply ranked_elem. exists b'. split; [done|by apply failure_rank].
  - apply max_by_key_None in Hm. destruct (failures f) as [|c l] eqn:Hl; [done|].
    assert (c ∈ failures f) as Hc by (rewrite Hl; by left).
    unfold failures in Hc. apply list_elem_of_omap in Hc as (b & [j Hj]%list_elem_of_lookup & Hf).
    assert ((j, preferring c (bool_decide (origin b = Peer))) ∈ ranked f) as Hr.
    { apply ranked_elem. exists b. split; [done|by apply failure_rank]. }
    rewrite Hm in Hr. by apply elem_of_nil in Hr.
Qed.

(** ** The challenges of the other branches *)

Definition challenge_names : list string := ["WWW-Authenticate"; "Proxy-Authenticate"].

Definition is_challenge_name (name : string) : bool :=
  existsb (λ n, Headers.same_header_name n name) challenge_names.

(** The values of [name] in the kept responses of the challenged branches other
    than [chosen]. *)
Definition other_values (name : string) (chosen : nat) (l : list (nat * ForkBranch)) : list string :=
  l ≫= λ '(i, b), if bool_decide (i = chosen) || negb (is_challenge b) then []
                  else match response b with Some other => values name other | None => [] end.

Lemma add_all_get name name' vs h :
  default [] (Headers.get_all name' (add_all name vs h)) =
    default [] (Headers.get_all name' h) ++ (if Headers.same_header_name name name' then vs else []).
Proof.
  unfold add_all. rewrite Headers.get_all_foldl_add.
  destruct (Headers.same_header_name name name') eqn:Hn; cbn [andb]; [|by rewrite app_nil_r].
  case_bool_decide as Hv; cbn [negb]; [by rewrite Hv, app_nil_r|].
  apply bool_decide_eq_true in Hn. unfold Headers.get_all. by rewrite Hn.
Qed.

Lemma add_challenges_get name other h :
  default [] (Headers.get_all name (add_challenges other h)) =
    default [] (Headers.get_all name h) ++ (if is_challenge_name name then values name other else []).
Proof.
  unfold add_challenges, is_challenge_name, challenge_names, values. cbn [foldl existsb].
  rewrite !add_all_get, <-(assoc_L (++)). f_equal.
  destruct (Headers.same_header_name "WWW-Authenticate" name) eqn:H1;
    destruct (Headers.same_header_name "Proxy-Authenticate" name) eqn:H2; cbn; try done;
    rewrite ?app_nil_r; try (apply bool_decide_eq_true in H1); try (apply bool_decide_eq_true in H2).
  - rewrite <-H1 in H2. done.
  - unfold Headers.get_all. by rewrite H1.
  - unfold Headers.get_all. by rewrite H2.
Qed.

Lemma collect_challenges_values f chosen r name :
  values name (collect_challenges f chosen r) =
    values name r ++
    (if is_challenge_name name then other_values name chosen (imap pair (branches f)) else []).
Proof.
  unfold collect_challenges, values at 1 2, with_headers, other_values. cbn [msg_headers].
  generalize (msg_headers r). induction (imap pair (branches f)) as [|[i b] l IH]; intros h.
  { cbn. case_match; by rewrite app_nil_r. }
  cbn [foldl mbind list_bind]. rewrite IH.
  destruct (bool_decide (i = chosen) || negb (is_challenge b)); [done|].
  destruct (response b) as [other|]; [|done]. rewrite add_challenges_get.
  destruct (is_challenge_name name); [by rewrite <-(assoc_L (++))|by rewrite !app_nil_r].
Qed.

Definition level (c c' : N) : Prop :=
  class (rank_of c) = class (rank_of c') ∧ standing (rank_of c) = standing (rank_of c').

(** A peer's failure is never below a level failure of the proxy's own. *)
Lemma peer_ahead c c' :
  rank_le (preferring c' true) (preferring c false) → level c' c → False.
Proof.
  unfold level, rank_of, rank_le. intros Hle [Hcl Hst].
  change (class (preferring c' true)) with (class (preferring c' false)) in Hle.
  change (standing (preferring c' true)) with (standing (preferring c' false)) in Hle.
  rewrite Hcl, Hst in Hle. cbn [preferred preferring N.b2n] in Hle. lia.
Qed.

Lemma settle_response f i b c :
  best_branch f = Some i → branches f !! i = Some b → state b = Completed c →
  best_response (settle_on_best_failure f).1 =
    (λ r, if bool_decide (c ∈ [401; 407]%N)
          then collect_challenges (at_branch (set_response None) i f) i r else r) <$> response b.
Proof.
  intros Hb Hl Hs. unfold settle_on_best_failure. rewrite Hb. cbn [mbind option_bind].
  rewrite Hl. cbn [mbind option_bind]. rewrite Hs. by destruct (response b).
Qed.

Lemma imap_alter_same {A B} (h : nat → A → B) (g : A → A) i l :
  (∀ b, h i (g b) = h i b) → imap h (alter g i l) = imap h l.
Proof.
  revert i h. induction l as [|x l IH]; intros [|i] h Hg; cbn; [done|done|by rewrite Hg|].
  f_equal. by apply IH.
Qed.

Lemma list_bind_fmap_join {A B} (F : A → list B) l : l ≫= F = mjoin (F <$> l).
Proof. induction l as [|x l IH]; [done|]. change (F x ++ (l ≫= F) = F x ++ mjoin (F <$> l)). by rewrite IH. Qed.

(** Taking the chosen branch's response leaves the others' values. *)
Lemma other_values_taken name i f :
  other_values name i (imap pair (branches (at_branch (set_response None) i f))) =
  other_values name i (imap pair (branches f)).
Proof.
  unfold at_branch, with_branches, other_values. cbn [branches].
  set (F := λ '(j, b), _). rewrite !list_bind_fmap_join, !fmap_imap. f_equal.
  apply imap_alter_same. intros b. cbn. by rewrite bool_decide_eq_true_2.
Qed.

(** A failure built for [request]: the status line, no body, the headers every
    response copies, and nothing of a branch's response, of which the Retry-After
    matters. *)
Definition generated (request : SipMessage) (code : N) (r : SipMessage) : Prop :=
  start_line r = Response (mkStatusLine sip_2_0 code (best_error_reason code) false) ∧ body r = "" ∧
  values "Via" r = values "Via" request ∧
  Forall (λ name, values name r = option_list (Headers.get name (msg_headers request)))
    ["From"; "To"; "Call-ID"; "CSeq"] ∧
  values "Retry-After" r = [].

Lemma build_generated request server code :
  generated request code (build_response request code (best_error_reason code) server []).
Proof.
  destruct (build_response_eq request code (best_error_reason code) server) as (Hl & Hb & Hv).
  cbn zeta in Hv. split_and!; [done|done| | |].
  - rewrite Hv by done. compare_names. destruct (response_establishes_dialog _ _); by rewrite ?app_nil_r.
  - repeat apply Forall_cons_2; [..|by apply Forall_nil_2]; rewrite Hv by done; compare_names;
      destruct (response_establishes_dialog _ _); by rewrite ?app_nil_r.
  - rewrite Hv by done. compare_names. by destruct (response_establishes_dialog _ _).
Qed.

(** C38: when every branch failed, with a final response of 300 to 699, the
    failure that goes upstream is the one RFC 3261 section 16.7 asks for.  The
    status chosen is the best of the branches' ([rfc_best]), and a failure a peer
    sent goes ahead of a level one the proxy made up.  What is sent is the chosen
    branch's own response, a 401 or 407 with the challenges of all other
    challenged branches added, in branch order.  A 503 is not passed on: a 500
    built from the request goes in its place, without the 503's Retry-After; and
    where the branch kept no response one of its status is built. *)
Theorem fork_best_failure (f : ForkAggregator) (request : SipMessage) (server : option string) :
  failures f ≠ [] → Forall (λ c, 300 ≤ c ≤ 699)%N (failures f) →
  ∃ f' i b code,
    settle_on_best_failure f = (f', ForwardBestError code) ∧
    branches f !! i = Some b ∧ state b = Completed code ∧ rfc_best (failures f) code ∧
    (origin b = Local → ∀ b' c, b' ∈ branches f → failure b' = Some c → level c code →
       origin b' = Local) ∧
    let sent := best_error_response request server code (take_best_response f').2 in
    match response b with
    | Some r =>
        if decide (code = 503%N) then generated request 500 sent
        else start_line sent = start_line r ∧ body sent = body r ∧
             ∀ name, values name sent = values name r ++
               (if bool_decide (code ∈ [401; 407]%N) && is_challenge_name name
                then other_values name i (imap pair (branches f)) else [])
    | None => generated request (if decide (code = 503%N) then 500 else code)%N sent
    end.
Proof.
  intros Hne Hr. destruct (best_branch_spec f Hne) as (i & b & c & Hb & Hl & Hs & Hf & Hmax).
  exists (settle_on_best_failure f).1, i, b, c.
  assert (c ∈ failures f) as Hc.
  { apply list_elem_of_omap. exists b. split; [by apply list_elem_of_lookup_2 in Hl|done]. }
  split_and!; [|done|done| | |].
  - unfold settle_on_best_failure. rewrite Hb. cbn. rewrite Hl. cbn. by rewrite Hs.
  - apply (best_is_rfc _ _ (bool_decide (origin b = Peer))); [done|done|].
    intros c' (b' & Hb' & Hf')%list_elem_of_omap. eexists. by apply Hmax.
  - intros Ho b' c' Hb' Hf' [Hcl Hst]. specialize (Hmax b' c' Hb' Hf').
    destruct (origin b') eqn:Ho'; [|done]. rewrite Ho in Hmax.
    destruct (peer_ahead c c' Hmax). by split.
  - pose proof (settle_response f i b c Hb Hl Hs) as Hbest.
    unfold best_error_response, upstream_status. cbn [take_best_response snd]. rewrite Hbest.
    destruct (decide (c = 503%N)) as [->|H503].
    { destruct (response b); apply build_generated. }
    rewrite (proj2 (N.eqb_neq c 503) H503), N.eqb_refl.
    destruct (response b) as [r|]; [|apply build_generated]. cbn. case_bool_decide; cbn [andb].
    + split_and!; [done|done|]. intros name. rewrite collect_challenges_values. repeat f_equal.
      by rewrite other_values_taken.
    + split_and!; [done|done|]. intros name. by rewrite app_nil_r.
Qed.

(** Two challenged branches and one that found nobody: the 401 of the first goes
    upstream with the second one's challenge. *)
Definition challenged_fork : ForkAggregator :=
  let answer v := mkMessage (Response (mkStatusLine sip_2_0 401 "Unauthorized" false)) (Headers.add "WWW-Authenticate" v Headers.new) "" in
  mkFork [mkBranch (uri_new "a") (Completed 404) Peer None;
          mkBranch (uri_new "b") (Completed 401) Peer (Some (answer "Digest realm=b"));
          mkBranch (uri_new "c") (Completed 407) Local (Some (answer "Digest realm=c"))]
    Parallel false false None.

Definition forked_invite : SipMessage :=
  mkMessage (Request (mkRequestLine Invite (uri_new "a") sip_2_0)) (Headers.add "CSeq" "1 INVITE" Headers.new) "".

Lemma fork_best_failure_witness :
  ∃ f' i b code,
    settle_on_best_failure challenged_fork = (f', ForwardBestError code) ∧
    branches challenged_fork !! i = Some b ∧ state b = Completed code ∧
    rfc_best (failures challenged_fork) code.
Proof.
  destruct (fork_best_failure challenged_fork forked_invite None) as (f' & i & b & code & H1 & H2 & H3 & H4 & _).
  - done.
  - apply Forall_forall. intros c Hc. vm_compute in Hc. each_of Hc by lia.
  - by exists f', i, b, code.
Defined.

(** Two branches that are out of service: the caller gets a 500. *)
Example unavailable_fork :
  let busy := mkMessage (Response (mkStatusLine sip_2_0 503 "Service Unavailable" false))
                (Headers.add "Retry-After" "30" Headers.new) "" in
  let '(f, a) := settle_on_best_failure
    (mkFork [mkBranch (uri_new "a") (Completed 503) Peer (Some busy);
             mkBranch (uri_new "b") (Completed 503) Local None] Parallel false false None) in
  a = ForwardBestError 503 ∧
  show_start_line (start_line (best_error_response forked_invite None 503 (take_best_response f).2)) =
    "SIP/2.0 500 Server Internal Error" +:+ CRLF.
Proof. vm_compute. split; reflexivity. Qed.

(** ** A fork whose branches all ended has settled *)

Definition no_cancel (op : ForkOp) : bool :=
  match op with MarkCancelled _ => false | _ => true end.

(** What the operations keep: branches to try, and no complete fork unsettled. *)
Definition live_inv (f : ForkAggregator) : Prop :=
  branches f ≠ [] ∧ (is_complete f = true → final_forwarded f = true).

Lemma alter_nil {A} (g : A → A) i l : alter g i l = [] → l = [].
Proof. intros Hl. apply length_zero_iff_nil. by rewrite <-(length_alter g l i), Hl. Qed.

(** A branch that has not ended keeps the fork incomplete. *)
Lemma not_complete f i b : branches f !! i = Some b → ended b = false → is_complete f = false.
Proof.
  intros Hl He. apply not_true_iff_false. unfold is_complete. rewrite forallb_forall. intros Hall.
  rewrite (Hall b) in He; [done|]. by apply list_elem_of_lookup_2, list_elem_of_In in Hl.
Qed.

(** Changing a branch without ending it. *)
Lemma live_at_branch g i f :
  (∀ b, ended (g b) = true → ended b = true) → live_inv f → live_inv (at_branch g i f).
Proof.
  intros Hg [Hne Hlive]. split; [by intros ?%alter_nil|]. intros Hc. apply Hlive.
  unfold is_complete in *. rewrite forallb_forall in *. intros b Hb.
  apply list_elem_of_In, list_elem_of_lookup in Hb as [j Hj]. cbn [at_branch with_branches branches] in Hc.
  destruct (decide (i = j)) as [->|Hij].
  - apply Hg, Hc. apply list_elem_of_In, list_elem_of_lookup. exists j. by rewrite list_lookup_alter_eq, Hj.
  - apply Hc. apply list_elem_of_In, list_elem_of_lookup. exists j. by rewrite list_lookup_alter_ne.
Qed.

Lemma live_settled f : branches f ≠ [] → final_forwarded f = true → live_inv f.
Proof. by split. Qed.

Lemma live_settle f : branches f ≠ [] → live_inv (settle f).
Proof. intros Hne. apply live_settled; [|done]. cbn. by intros ?%fmap_nil_inv. Qed.

Lemma live_settle_best f : branches f ≠ [] → live_inv (settle_on_best_failure f).1.
Proof.
  intros Hne. apply live_settled; [|done]. cbn. intros Hb%fmap_nil_inv. revert Hb.
  destruct (best_branch f); cbn; [|done]. by intros ?%alter_nil.
Qed.

Lemma pending_not_complete f i : next_pending_branch f = Some i → is_complete f = false.
Proof.
  unfold next_pending_branch. intros ([j b] & (Hl & Hs & _)%list_find_Some & _)%fmap_Some.
  apply (not_complete f j b Hl). unfold ended. by rewrite Hs.
Qed.

Lemma on_provisional_same f c :
  branches (on_provisional f c).1 = branches f ∧
  final_forwarded (on_provisional f c).1 = final_forwarded f.
Proof.
  unfold on_provisional. destruct (final_forwarded f) eqn:Hf; [done|].
  destruct (c =? 100)%N; [destruct (sent_100 f)|]; done.
Qed.

Lemma live_branch_response f i c :
  fork_inv f → live_inv f → live_inv (on_branch_response f i c).1.
Proof.
  intros Hinv [Hne Hlive]. unfold on_branch_response.
  destruct (branches f !! i) as [b|] eqn:Hb; [|done].
  assert (∀ s, branches (at_branch (set_state s) i f) ≠ []) as Hne1 by (intros s ?%alter_nil; done).
  destruct (between 100 199 c).
  - assert (live_inv (at_branch (set_state (Proceeding c)) i f)) as [H1 H2] by by apply live_at_branch.
    destruct (on_provisional_same (at_branch (set_state (Proceeding c)) i f) c) as [Hbr Hfin].
    split; [by rewrite Hbr|]. unfold is_complete. rewrite Hbr, Hfin. exact H2.
  - specialize (Hne1 (Completed c)). unfold on_final.
    assert (final_forwarded (at_branch (set_state (Completed c)) i f) = final_forwarded f) as Hfin by done.
    revert Hne1 Hfin. generalize (at_branch (set_state (Completed c)) i f). intros f1 Hne1 Hfin.
    rewrite Hfin. destruct (between 200 299 c).
    + destruct (answered (state b)) eqn:Ha.
      * apply live_settled; [done|]. cbn. rewrite Hfin. by apply (answered_settled f i b).
      * destruct (final_forwarded f) eqn:Hf; [by apply live_settled|by apply live_settle].
    + destruct (600 <=? c)%N; destruct (final_forwarded f) eqn:Hf;
        try (by apply live_settled); try (by apply live_settle).
      destruct (strategy f1); [destruct (is_complete f1) eqn:Hc|destruct (next_pending_branch f1) eqn:Hp];
        try (by apply live_settle_best); (split; [done|]); cbn [fst]; [congruence|].
      apply pending_not_complete in Hp. congruence.
Qed.

Lemma live_step f op :
  no_cancel op = true → fork_inv f → live_inv f → live_inv (fork_step f op).1.
Proof.
  intros Hop Hinv Hlive. destruct op as [i|i|i|i c r|i c|]; cbn [fork_step fst]; try done.
  1,2: by apply live_at_branch.
  - unfold on_response.
    set (f1 := if (300 <=? c)%N && negb (final_forwarded f)
               then at_branch (set_response (Some r)) i f else f).
    assert (fork_inv f1 ∧ live_inv f1) as [H1 H2].
    { unfold f1. case_match; [|done]. split; [by apply inv_at_branch|by apply live_at_branch]. }
    pose proof (live_branch_response f1 i c H1 H2). by destruct (on_branch_response f1 i c).
  - pose proof (live_branch_response f i c Hinv Hlive). by destruct (on_branch_response f i c).
Qed.

Lemma live_run ops f :
  forallb no_cancel ops = true → fork_inv f → live_inv f → live_inv (fork_run f ops).1.
Proof.
  revert f. induction ops as [|op ops IH]; intros f Hops Hinv Hlive; [done|].
  apply andb_true_iff in Hops as [Hop Hops]. cbn [fork_run].
  pose proof (fork_step_ok f op Hinv) as Hok. pose proof (live_step f op Hop Hinv Hlive) as Hl.
  destruct (fork_step f op) as [f' l]. destruct Hok as [Hinv' _].
  specialize (IH f' Hops Hinv' Hl). by destruct (fork_run f' ops).
Qed.

(** What settles a fork. *)
Definition settles (a : ForkAction) : bool :=
  match a with Forward2xx | Forward6xx | ForwardBestError _ => true | _ => false end.

(** A fork that becomes settled has sent a response. *)
Lemma on_final_settles f answered_before c :
  final_forwarded f = false → final_forwarded (on_final f answered_before c).1 = true →
  settles (on_final f answered_before c).2 = true.
Proof.
  intros Hf. unfold on_final. rewrite Hf.
  repeat first [case_match | progress cbn [fst snd settles] | done | congruence]; by rewrite ?Hf.
Qed.

Lemma on_branch_response_settles f i c :
  final_forwarded f = false → final_forwarded (on_branch_response f i c).1 = true →
  settles (on_branch_response f i c).2 = true.
Proof.
  intros Hf. unfold on_branch_response. destruct (branches f !! i) as [b|]; [|cbn; congruence].
  destruct (between 100 199 c); [|by apply on_final_settles].
  destruct (on_provisional_same (at_branch (set_state (Proceeding c)) i f) c) as [_ ->]. cbn. congruence.
Qed.

Lemma fork_step_settles f op :
  final_forwarded f = false → final_forwarded (fork_step f op).1 = true →
  existsb settles (fork_step f op).2 = true.
Proof.
  intros Hf. destruct op as [i|i|i|i c r|i c|]; cbn [fork_step fst snd]; try (cbn; congruence).
  - unfold on_response. set (f1 := if _ && _ then _ else f).
    assert (Hf1 : final_forwarded f1 = false) by (unfold f1; by case_match).
    pose proof (on_branch_response_settles f1 i c Hf1) as Hs.
    destruct (on_branch_response f1 i c). cbn in *. intros ?. by rewrite Hs.
  - pose proof (on_branch_response_settles f i c Hf) as Hs.
    destruct (on_branch_response f i c). cbn in *. intros ?. by rewrite Hs.
Qed.

Lemma fork_run_settles ops f :
  final_forwarded f = false → final_forwarded (fork_run f ops).1 = true →
  existsb settles (fork_run f ops).2 = true.
Proof.
  revert f. induction ops as [|op ops IH]; intros f Hf; cbn [fork_run]; [cbn; congruence|].
  pose proof (fork_step_settles f op Hf) as Hs. destruct (fork_step f op) as [f1 l1]. cbn [fst snd] in Hs.
  specialize (IH f1). destruct (fork_run f1 ops) as [f2 l2]. cbn [fst snd] in *. intros Hf2.
  rewrite existsb_app. apply orb_true_iff.
  destruct (final_forwarded f1); [left; by apply Hs|right; by apply IH].
Qed.

(** C39: a fork never stalls.  Parallel or sequential, whatever the branches
    answered and in whatever order, provided no branch was marked cancelled:
    once every branch has ended, the fork has sent a final response upstream, a
    2xx, a 6xx or the best failure. *)
Theorem fork_never_stalls (targets : list SipUri) (s : ForkStrategy) (ops : list ForkOp) :
  targets ≠ [] → forallb no_cancel ops = true →
  let '(f, actions) := fork_run (new targets s) ops in
  is_complete f = true → has_settled f = true ∧ existsb settles actions = true.
Proof.
  intros Hne Hops. pose proof (fork_run_settles ops (new targets s) eq_refl) as Hs.
  pose proof (live_run ops (new targets s) Hops (inv_new targets s)) as Hl.
  destruct (fork_run (new targets s) ops) as [f actions]. cbn [fst snd] in *. intros Hc.
  destruct Hl as [_ Hl]; [|split; [by apply Hl|by apply Hs, Hl]].
  split; [by intros ?%fmap_nil_inv|]. by destruct targets.
Qed.

Lemma fork_never_stalls_witness :
  let '(f, actions) := fork_run (new [uri_new "a"; uri_new "b"] Sequential)
              [MarkTrying 0; Status 0 486; MarkTrying 1; Status 1 180; Status 1 404] in
  is_complete f = true ∧ has_settled f = true ∧ existsb settles actions = true.
Proof.
  pose proof (fork_never_stalls [uri_new "a"; uri_new "b"] Sequential
    [MarkTrying 0; Status 0 486; MarkTrying 1; Status 1 180; Status 1 404] ltac:(done) ltac:(done)) as H.
  destruct (fork_run _ _) as [f actions] eqn:Hf. assert (Hc : is_complete f = true).
  { vm_compute in Hf. by simplify_eq. }
  split; [exact Hc|exact (H Hc)].
Defined.
