(* ===== verification/Blank.v ===== *)
(** * White space around a value

    [str::trim] on text that is a value with white space around it, and folded
    header values: the parser and the stream framer join the lines of a folded
    value with different amounts of white space, and these lemmas show that the
    trimmed value is the same. *)

From S2P Require Import Prelude Str Nom Headers Uri Message Parser.

(** ** Blank text *)

(** White space only, character by character. *)
Inductive blank : string → Prop :=
  | blank_nil : blank ""
  | blank_cons c s : is_whitespace c = true → blank s → blank (c +:+ s).

(** The white-space characters as text. *)
Definition text (l : list N) : string := String.string_of_list_ascii (ascii_of_N <$> l).

Definition whitespace_texts : list string :=
  text <$>
    [[9]; [10]; [11]; [12]; [13]; [32]; [194; 133]; [194; 160]; [225; 154; 128];
     [226; 128; 128]; [226; 128; 129]; [226; 128; 130]; [226; 128; 131];
     [226; 128; 132]; [226; 128; 133]; [226; 128; 134]; [226; 128; 135];
     [226; 128; 136]; [226; 128; 137]; [226; 128; 138]; [226; 128; 168];
     [226; 128; 169]; [226; 128; 175]; [226; 129; 159]; [227; 128; 128]]%N.

Lemma whitespace_text c : is_whitespace c = true → c ∈ whitespace_texts.
Proof.
  unfold is_whitespace. intros Hc%bool_decide_eq_true.
  assert (c = text (code <$> String.list_ascii_of_string c)) as Hback.
  { unfold text. rewrite <-list_fmap_compose, <-(String.string_of_list_ascii_of_string c) at 1.
    f_equal. clear Hc. induction (String.list_ascii_of_string c) as [|a k IH]; cbn; [done|].
    unfold compose, code. f_equal; [by rewrite ascii_N_embedding|exact IH]. }
  rewrite Hback. by apply list_elem_of_fmap_2.
Qed.

Lemma whitespace_chars c s : is_whitespace c = true → chars (c +:+ s) = c :: chars s.
Proof. intros Hc%whitespace_text. revert s. each_of Hc by (intros s; reflexivity). Qed.

Lemma whitespace_shape c :
  is_whitespace c = true →
  (∃ a, c = String a "" ∧ is_ascii_byte a = true) ∨
  str_forall (λ a, negb (is_ascii_byte a)) c = true.
Proof. intros Hc%whitespace_text. each_of Hc by ((by right) || (left; by eexists)). Qed.

(** A cut at an ASCII byte never falls inside a sequence of other bytes. *)
Lemma nonascii_cut a c s x y :
  is_ascii_byte a = true → str_forall (λ a, negb (is_ascii_byte a)) c = true →
  c +:+ s = x +:+ String a y → ∃ x', x = c +:+ x' ∧ s = x' +:+ String a y.
Proof.
  intros Ha Hn. revert x. induction c as [|b c IH]; intros x Hs.
  { rewrite append_nil_l in Hs. by exists x. }
  cbn in Hn. apply andb_prop in Hn as [Hb Hn]. rewrite append_cons in Hs.
  destruct x as [|b' x]; rewrite ?append_nil_l, ?append_cons in Hs; injection Hs as -> Hs.
  - by rewrite Ha in Hb.
  - destruct (IH Hn x Hs) as (x' & -> & ->). exists x'. by rewrite append_cons.
Qed.

Lemma whitespace_cut a c s x y :
  is_ascii_byte a = true → is_whitespace c = true → c +:+ s = x +:+ String a y →
  (x = "" ∧ c = String a "" ∧ s = y) ∨ ∃ x', x = c +:+ x' ∧ s = x' +:+ String a y.
Proof.
  intros Ha Hc. destruct (whitespace_shape c Hc) as [(b & -> & Hb)|Hn].
  - rewrite append_cons, append_nil_l. destruct x as [|b' x]; rewrite ?append_nil_l, ?append_cons.
    + intros [= -> ->]. by left.
    + intros [= <- ->]. right. exists x. by rewrite append_cons, append_nil_l.
  - intros Hs. right. by eapply nonascii_cut.
Qed.

(** Cutting before an ASCII byte keeps a string well formed. *)
Lemma utf8_valid_before a x y :
  is_ascii_byte a = true → utf8_valid (x +:+ String a y) = true → utf8_valid x = true.
Proof.
  intros Ha. remember (x +:+ String a y) as s eqn:Hs. intros Hv. revert x Hs. revert s Hv.
  apply (utf8_ind (λ s, ∀ x, s = x +:+ String a y → utf8_valid x = true)).
  - intros [|b x]; [done|]. by rewrite append_cons.
  - intros b s Hb Hv IH [|b' x]; rewrite ?append_nil_l, ?append_cons; intros [= -> ->]; [done|].
    rewrite utf8_valid_ascii_cons by done. by apply IH.
  - intros c s Hc Hv _ Hcv IH x Hs. destruct (nonascii_cut a c s x y Ha Hc Hs) as (x' & -> & ->).
    rewrite Hcv. by apply IH.
Qed.

Lemma blank_app x y : blank x → blank y → blank (x +:+ y).
Proof.
  induction 1 as [|c x Hc Hx IH]; intros Hy; [by rewrite append_nil_l|].
  rewrite append_assoc. constructor; [done|by apply IH].
Qed.

Lemma blank_wsp w : str_forall is_wsp w = true → blank w.
Proof.
  induction w as [|a w IH]; [constructor|]. intros [Ha Hw]%andb_prop.
  rewrite <-(append_nil_l w), <-append_cons. constructor; [|by apply IH].
  apply bool_decide_eq_true in Ha. by each_of Ha by done.
Qed.

Lemma blank_cut a x y :
  is_ascii_byte a = true → blank (x +:+ String a y) → blank x ∧ blank y.
Proof.
  intros Ha. remember (x +:+ String a y) as s eqn:Hs. intros Hb. revert x Hs.
  induction Hb as [|c s Hc Hb IH]; intros x Hs.
  - destruct x; rewrite ?append_cons in Hs; done.
  - destruct (whitespace_cut a c s x y Ha Hc Hs) as [(-> & -> & <-)|(x' & -> & Hs')].
    + split; [constructor|done].
    + destruct (IH x' Hs') as [??]. by split; [constructor|].
Qed.

(** ** A value with white space around it *)

Definition around (s d : string) : Prop := ∃ p q, s = p +:+ d +:+ q ∧ blank p ∧ blank q.

Lemma blank_concat l : Forall (λ c, is_whitespace c = true) l → blank (str_concat l).
Proof. induction 1; cbn; by constructor. Qed.

Lemma drop_while_dropped {A} (p : A → bool) l :
  ∃ k, l = k ++ drop_while p l ∧ Forall (λ x, p x = true) k.
Proof.
  induction l as [|x l (k & IH & Hk)]; cbn; [by exists []|]. destruct (p x) eqn:Hx; [|by exists []].
  exists (x :: k). split; [cbn; by f_equal|by constructor].
Qed.

Lemma drop_while_end_dropped {A} (p : A → bool) l :
  ∃ k, l = drop_while_end p l ++ k ∧ Forall (λ x, p x = true) k.
Proof.
  induction l as [|x l (k & IH & Hk)]; cbn; [by exists []|].
  destruct (drop_while_end p l) as [|y l'] eqn:Hd; cbn in *.
  - destruct (p x) eqn:Hx; [|by exists l; subst]. exists (x :: l). split; [done|]. subst. by constructor.
  - exists k. split; [by f_equal|done].
Qed.

Lemma trim_around s : around s (trim s).
Proof.
  destruct (drop_while_dropped is_whitespace (chars s)) as (k1 & H1 & Hk1).
  destruct (drop_while_end_dropped is_whitespace (drop_while is_whitespace (chars s))) as (k2 & H2 & Hk2).
  exists (str_concat k1), (str_concat k2). split_and!; [|by apply blank_concat..].
  unfold trim. rewrite <-!str_concat_app, <-H2, <-H1. by rewrite concat_chars.
Qed.

Lemma around_trans s d e : around s d → around d e → around s e.
Proof.
  intros (p & q & -> & Hp & Hq) (p' & q' & -> & Hp' & Hq'). exists (p +:+ p'), (q' +:+ q).
  split; [by rewrite !append_assoc|]. split; by apply blank_app.
Qed.

Lemma blank_chars p s :
  blank p → ∃ l, chars (p +:+ s) = l ++ chars s ∧ Forall (λ c, is_whitespace c = true) l.
Proof.
  induction 1 as [|c p Hc Hp (l & IH & Hl)]; [by exists []|].
  exists (c :: l). rewrite append_assoc, whitespace_chars, IH by done. split; [done|by constructor].
Qed.

Lemma drop_while_all {A} (p : A → bool) l k :
  Forall (λ x, p x = true) l → drop_while p (l ++ k) = drop_while p k.
Proof. induction 1 as [|x l Hx Hl IH]; cbn; [done|]. by rewrite Hx. Qed.

Lemma drop_while_end_all {A} (p : A → bool) l k :
  Forall (λ x, p x = true) k → drop_while_end p (l ++ k) = drop_while_end p l.
Proof.
  intros Hk. induction l as [|x l IH]; cbn; [|by rewrite IH].
  induction Hk as [|x k Hx Hk IH]; cbn; [done|]. by rewrite IH, Hx.
Qed.

(** [trim] finds a visible value again. *)
Lemma around_trim s d : around s d → graphic d = true → d ≠ "" → trim s = d.
Proof.
  intros (p & q & -> & Hp & Hq) Hd Hne. unfold trim.
  destruct (blank_chars p (d +:+ q) Hp) as (l & -> & Hl). rewrite drop_while_all by done.
  rewrite chars_app_ascii by by apply is_ascii_graphic.
  rewrite drop_while_app by auto using graphic_chars, chars_not_nil.
  destruct (blank_chars q "" Hq) as (l' & Hq' & Hl'). rewrite append_nil_r in Hq'.
  change (chars "") with ([] : list char) in Hq'. rewrite app_nil_r in Hq'.
  rewrite Hq', drop_while_end_all by done.
  rewrite <-(app_nil_l (chars d)), drop_while_end_app by auto using graphic_chars, chars_not_nil.
  by rewrite app_nil_l, concat_chars.
Qed.

(** A number is visible text. *)
Lemma digits_graphic acc s n : digits_value acc s = Some n → graphic s = true.
Proof.
  revert acc. induction s as [|a s IH]; intros acc; [done|]. cbn [digits_value].
  destruct (is_ascii_digit a) eqn:Ha; [|done]. intros Hs%IH. unfold graphic. cbn [str_forall].
  fold (graphic s). rewrite Hs, andb_true_r. unfold is_ascii_digit, is_graphic in *.
  rewrite in_range_true in *. lia.
Qed.

Lemma parse_uint_graphic max s n : parse_uint max s = Some n → graphic s = true ∧ s ≠ "".
Proof.
  unfold parse_uint. destruct (strip_prefix "+" s) as [t|] eqn:Hs; cbn [default from_option].
  - apply strip_prefix_Some in Hs as ->. case_match; [done|].
    intros (v & Hv%digits_graphic & _)%bind_Some. by split.
  - destruct s as [|a s]; [done|]. cbn [is_empty]. intros (v & Hv%digits_graphic & _)%bind_Some. done.
Qed.

(** ** Folded values *)

(** [f] is [v] with more white space: at the front, and after the space a fold
    is replaced with. *)
Inductive spaced : string → string → Prop :=
  | spaced_start w s : str_forall is_wsp w = true → spaced s (w +:+ s)
  | spaced_fold v f w t :
      spaced v f → str_forall is_wsp w = true → spaced (v +:+ " " +:+ t) (f +:+ " " +:+ w +:+ t).

Lemma spaced_blank v f : spaced v f → blank v → blank f.
Proof.
  induction 1 as [w s Hw|v f w t Hvf IH Hw]; intros Hb.
  - by apply blank_app; [apply blank_wsp|].
  - change (" " +:+ t) with (String SP t) in Hb. apply blank_cut in Hb as [Hv Ht]; [|done].
    apply blank_app; [by apply IH|]. apply blank_app; [by apply blank_wsp|].
    apply blank_app; [by apply blank_wsp|done].
Qed.

(** Cutting a value with white space around it at a space. *)
Lemma around_cut p d q v t :
  graphic d = true → p +:+ d +:+ q = v +:+ String SP t →
  (∃ p', p = v +:+ String SP p' ∧ t = p' +:+ d +:+ q) ∨
  (∃ q', q = q' +:+ String SP t ∧ v = p +:+ d +:+ q').
Proof.
  intros Hd. revert v. induction p as [|a p IHp]; intros v.
  - rewrite append_nil_l. intros Hs. right.
    revert v Hs. induction d as [|b d IHd]; intros v.
    { rewrite append_nil_l. intros ->. exists v. by rewrite !append_nil_l. }
    cbn in Hd. apply andb_prop in Hd as [Hb Hd]. rewrite append_cons.
    destruct v as [|b' v]; rewrite ?append_nil_l, ?append_cons; intros [= -> Hs]; [done|].
    destruct (IHd Hd v Hs) as (q' & -> & ->). exists q'. by rewrite !append_nil_l, append_cons.
  - rewrite append_cons. destruct v as [|a' v]; rewrite ?append_nil_l, ?append_cons; intros [= -> Hs].
    + left. exists p. by rewrite append_nil_l.
    + destruct (IHp v Hs) as [(p' & -> & ->)|(q' & -> & ->)].
      * left. exists p'. by rewrite append_cons.
      * right. exists q'. by rewrite append_cons.
Qed.

Lemma spaced_around v f d : spaced v f → graphic d = true → around v d → around f d.
Proof.
  intros Hs Hd. induction Hs as [w s Hw|v f w t Hvf IH Hw]; intros (p & q & Heq & Hp & Hq).
  - exists (w +:+ p), q. subst. rewrite !append_assoc. split; [done|].
    split; [|done]. by apply blank_app; [apply blank_wsp|].
  - apply eq_sym in Heq. change (" " +:+ t) with (String SP t) in Heq.
    apply around_cut in Heq as [(p' & -> & ->)|(q' & -> & ->)]; [..|done].
    + apply blank_cut in Hp as [Hv Hp']; [|done].
      exists (f +:+ " " +:+ w +:+ p'), q. split; [by rewrite !append_assoc|]. split; [|done].
      apply blank_app; [by eapply spaced_blank|]. apply blank_app; [by apply blank_wsp|].
      apply blank_app; [by apply blank_wsp|done].
    + apply blank_cut in Hq as [Hq' Ht]; [|done].
      destruct IH as (p1 & q1 & -> & Hp1 & Hq1); [by exists p, q'|].
      exists p1, (q1 +:+ " " +:+ w +:+ t). split; [by rewrite !append_assoc|]. split; [done|].
      apply blank_app; [done|]. apply blank_app; [by apply blank_wsp|].
      apply blank_app; [by apply blank_wsp|done].
Qed.

(** The number read from the trimmed value is read from the other folding. *)
Lemma spaced_number max v f n :
  spaced v f → parse_uint max (trim (trim v)) = Some n → parse_uint max (trim f) = Some n.
Proof.
  intros Hs Hn. destruct (parse_uint_graphic _ _ _ Hn) as [Hg Hne].
  rewrite <-Hn. f_equal. apply around_trim; [|done|done].
  eapply spaced_around; [exact Hs|done|]. eapply around_trans; apply trim_around.
Qed.
