(* ===== verification/Framer.v ===== *)
(** * Framing SIP messages on a stream
    ([src/src/transport/tcp.rs], [stream.rs], [crlf_keepalive.rs])

    A stream transport has to find where a message ends before it can be parsed:
    the framer looks for the end of the headers and reads Content-Length from
    the raw bytes.  This file has the framer, the handling of CRLF keep-alives
    and the loop that a connection's read task runs on what it has received.
    Positions in a buffer ([windows(n).position(..)]) are the two halves
    [find_str] returns; lengths are in [N], as [usize] values. *)

From S2P Require Import Prelude Str Nom Headers Uri Message Parser.

Definition saturating_add (a b : N) : N := N.min (a + b) USIZE_MAX.

(** ** Content-Length, before parsing *)

(** The non-empty lines of a header block, without their line ends. *)
Definition block_lines (headers : bytes) : list bytes :=
  filter (λ l, l ≠ "") ((λ l, default l (strip_suffix_byte CR l)) <$> split LF headers).

Definition is_content_length (name : bytes) : bool :=
  bool_decide (trim_ascii (to_ascii_lowercase name) ∈ ["content-length"; "l"]).

(** The value with the continuation lines that follow it. *)
Fixpoint fold_lines (value : bytes) (lines : list bytes) : bytes :=
  match lines with
  | next :: lines =>
      if starts_with_byte is_wsp next then fold_lines (value +:+ " " +:+ next) lines else value
  | [] => value
  end.

Definition read_length (value : bytes) : option N :=
  if utf8_valid value then parse_uint USIZE_MAX (trim value) else None.

Fixpoint scan_lines (lines : list bytes) : option N :=
  match lines with
  | [] => None
  | line :: lines =>
      if starts_with_byte is_wsp line then scan_lines lines else
      match split_once ":" line with
      | None => scan_lines lines
      | Some (name, value) =>
          if is_content_length name then read_length (fold_lines value lines) else scan_lines lines
      end
  end.

Definition extract_content_length (headers : bytes) : option N :=
  match block_lines headers with
  | [] => None
  | _ :: lines => scan_lines lines
  end.

Definition extract_sip_message_length (buffer : bytes) : option N :=
  let rest := skip_leading_crlf buffer in
  let prefix := (blen buffer - blen rest)%N in
  '(header_block, _) ← find_header_boundary rest;
  let headers_len := (prefix + blen header_block + 4)%N in
  Some (saturating_add headers_len (default 0%N (extract_content_length header_block))).

(** ** Verdicts *)

Abbreviation MAX_INCOMPLETE_HEADER_BYTES := (64 * 1024)%N (only parsing).

Inductive StreamVerdict := MaybeSip | StreamGarbage.

Definition is_sip_start_line (line : bytes) : bool :=
  starts_with "SIP/2.0 " line || ends_with " SIP/2.0" line.

(** A control byte that is not part of a line end or a tab. *)
Definition is_control (a : byte) : bool := (code a <? 32)%N && negb (byte_in [CR; LF; HT] a).

Definition classify_incomplete_stream (buffer : bytes) : StreamVerdict :=
  if (MAX_INCOMPLETE_HEADER_BYTES <? blen buffer)%N then StreamGarbage else
  if str_exists is_control (String.substring 0 512 buffer) then StreamGarbage else
  match find_str CRLF buffer with
  | Some (line, _) => if is_sip_start_line line then MaybeSip else StreamGarbage
  | None => MaybeSip
  end.

Inductive FrameVerdict :=
  | Complete (len : N)
  | NeedMore
  | Oversized (declared header_len : N)
  | Garbage.

Definition frame_sip_message (buffer : bytes) (max_message_bytes : N) : FrameVerdict :=
  match extract_sip_message_length buffer with
  | None =>
      match classify_incomplete_stream buffer with
      | MaybeSip => NeedMore
      | StreamGarbage => Garbage
      end
  | Some len =>
      let rest := skip_leading_crlf buffer in
      let prefix := (blen buffer - blen rest)%N in
      let first_line := match find_str CRLF rest with Some (line, _) => line | None => rest end in
      if negb (is_sip_start_line first_line) then Garbage else
      if (max_message_bytes <? len)%N then
        Oversized len (match find_header_boundary rest with
                       | Some (block, _) => prefix + blen block + 4
                       | None => blen buffer
                       end)
      else if (len <=? blen buffer)%N then Complete len else NeedMore
  end.

(** ** Keep-alives *)

(** What a connection's read task does besides reading. *)
Inductive StreamEvent :=
  | Deliver (data : bytes)        (* a framed message to the dispatcher *)
  | SendPong                      (* CRLF queued to the peer *)
  | RecordPong                    (* the peer answered our ping *)
  | SendResponse (data : bytes)   (* a response queued to the peer *)
  | RecordMalformed.              (* the source is counted as malformed *)

(** [drain_leading_crlf_keepalives]: a double CRLF is a ping to be answered, a
    single one a pong or a stray line end. *)
Fixpoint drain_leading_crlf_keepalives (tracked : bool) (s : bytes) : list StreamEvent * bytes :=
  let pong := if tracked then [RecordPong] else [] in
  match s with
  | String a (String b t) =>
      if is_byte CR a && is_byte LF b then
        match t with
        | String c (String d u) =>
            if is_byte CR c && is_byte LF d then
              let '(ev, s) := drain_leading_crlf_keepalives tracked u in (SendPong :: ev, s)
            else let '(ev, s) := drain_leading_crlf_keepalives tracked t in (pong ++ ev, s)
        | _ => let '(ev, s) := drain_leading_crlf_keepalives tracked t in (pong ++ ev, s)
        end
      else ([], s)
  | _ => ([], s)
  end.

(** ** The read task *)

Section reader.
Context {U : Unicode} {P : Nom}.
Context (max_message_bytes : N) (tracked : bool).

(** 513 to a request whose declared size is refused. *)
Definition too_large (header_block : bytes) : list StreamEvent :=
  match parse_sip_headers_only header_block with
  | Ok request =>
      if is_request request
      then [SendResponse (to_bytes (build_response_skeleton request 513 "Message Too Large"))]
      else []
  | Err _ => []
  end.

(** All complete messages in the accumulator; the second component is what is
    left of it, or [None] when the connection is closed.  The whole is [None]
    when the fuel runs out. *)
Fixpoint frame_loop (fuel : nat) (accumulator : bytes) : option (list StreamEvent * option bytes) :=
  match fuel with
  | O => None
  | S fuel =>
      let '(drained, acc) := drain_leading_crlf_keepalives tracked accumulator in
      if is_empty acc then Some (drained, Some acc) else
      match frame_sip_message acc max_message_bytes with
      | Complete len =>
          let n := N.to_nat len in
          '(events, final) ← frame_loop fuel (String.substring n (String.length acc - n) acc);
          Some (drained ++ Deliver (String.substring 0 n acc) :: events, final)
      | NeedMore => Some (drained, Some acc)
      | Oversized _ header_len =>
          Some (drained ++ too_large (String.substring 0 (N.to_nat header_len) acc) ++
                [RecordMalformed], None)
      | Garbage => Some (drained ++ [RecordMalformed], None)
      end
  end.

(** Each message takes at least the four bytes that end its headers. *)
Definition read_step (accumulator chunk : bytes) : option (list StreamEvent * option bytes) :=
  let acc := accumulator +:+ chunk in frame_loop (S (String.length acc)) acc.

(** The connection over the chunks it reads, the first of which is the seed the
    sniff at accept has read, possibly empty.  A read of no bytes, which in the
    source is the end of the stream, is the end of the list here; the other ways
    a connection ends are not part of the model. *)
Fixpoint read_chunks (accumulator : bytes) (chunks : list bytes)
    : option (list StreamEvent * option bytes) :=
  match chunks with
  | [] => Some ([], Some accumulator)
  | chunk :: chunks =>
      '(events, acc) ← read_step accumulator chunk;
      match acc with
      | None => Some (events, None)
      | Some acc =>
          '(more, final) ← read_chunks acc chunks;
          Some (events ++ more, final)
      end
  end.
End reader.
