(* ===== verification/FramerAgree.v ===== *)
(** * The framer and the parser agree on where a message ends

    [Framer] ([src/src/transport/tcp.rs]) reads Content-Length from raw bytes,
    [Parser] ([src/src/sip/parser.rs]) from the parsed headers.  Bytes that
    belong to one message for the one and to the next for the other would let a
    peer smuggle a request past whoever looks at the first; these lemmas show
    that for an accepted message there are none. *)

From S2P Require Import Prelude Str Nom Headers Uri Message Parser Blank Framer.
From S2P Require Import MessageRoundTrip.

(** ** The lines of a header block *)

Definition unlines (ls : list string) : string := str_concat ((λ l, l +:+ CRLF) <$> ls).

Lemma unlines_cons l ls : unlines (l :: ls) = l +:+ CRLF +:+ unlines ls.
Proof. unfold unlines. cbn. by rewrite append_assoc. Qed.

Lemma one_line_cons a s :
  one_line (String a s) = true ↔ a ≠ CR ∧ a ≠ LF ∧ one_line s = true.
Proof.
  unfold one_line. cbn [str_forall]. rewrite andb_true_iff, negb_true_iff. unfold byte_in.
  rewrite bool_decide_eq_false. set_solver.
Qed.

Lemma join_unlines l ls : join CRLF (l :: ls) +:+ CRLF = unlines (l :: ls).
Proof.
  revert l. induction ls as [|l' ls IH]; intros l; rewrite unlines_cons; [by rewrite append_nil_r|].
  rewrite <-IH. change (join CRLF (l :: l' :: ls)) with (l +:+ CRLF +:+ join CRLF (l' :: ls)).
  by rewrite !append_assoc.
Qed.

(** Text with proper line ends is a sequence of lines. *)
Lemma lines_exist s :
  endings_ok false (s +:+ CRLF) = true →
  ∃ l ls, s = join CRLF (l :: ls) ∧ Forall (λ l, one_line l = true) (l :: ls).
Proof.
  enough (∀ n s, String.length s ≤ n → endings_ok false (s +:+ CRLF) = true →
    ∃ l ls, s = join CRLF (l :: ls) ∧ Forall (λ l, one_line l = true) (l :: ls)) by eauto.
  clear s. induction n as [|n IH]; intros s Hn He.
  all: destruct s as [|a s]; [by exists "", []; split; [|repeat constructor]|cbn in Hn; try lia].
  rewrite append_cons in He. cbn [endings_ok] in He. apply andb_prop in He as [[Hl Hc]%andb_prop He].
  destruct (is_byte CR a) eqn:Ha.
  - cbn in Hc. apply bool_decide_eq_true in Ha as <-. destruct s as [|b s]; [done|].
    rewrite append_cons in Hc, He. cbn in Hc, He. apply bool_decide_eq_true in Hc as <-.
    destruct (IH s) as (l & ls & -> & Hls); [cbn in Hn; lia| |].
    { by apply andb_prop in He as [_ He]. }
    exists "", (l :: ls). split; [done|by constructor].
  - destruct (IH s) as (l & ls & -> & Hls); [lia|done|].
    exists (String a l), ls. split; [by destruct ls|].
    apply Forall_cons in Hls as [Hl1 Hls]. constructor; [|done]. apply one_line_cons.
    rewrite orb_false_r in Hl. apply negb_true_iff, bool_decide_eq_false in Hl.
    apply bool_decide_eq_false in Ha. by split_and!.
Qed.

(** The framer's view of the lines. *)
Lemma split_one_line l s :
  one_line l = true → split LF (l +:+ CRLF +:+ s) = (l +:+ String CR "") :: split LF s.
Proof.
  induction l as [|a l IH]; intros Hl.
  - rewrite append_nil_l. reflexivity.
  - apply one_line_cons in Hl as (Hcr & Hlf & Hl). rewrite !append_cons. cbn [split].
    rewrite (IH Hl). unfold is_byte. by rewrite bool_decide_eq_false_2 by congruence.
Qed.

Lemma split_last_line l : one_line l = true → split LF l = [l].
Proof.
  induction l as [|a l IH]; intros Hl; [done|]. apply one_line_cons in Hl as (Hcr & Hlf & Hl). cbn [split].
  rewrite (IH Hl). unfold is_byte. by rewrite bool_decide_eq_false_2 by congruence.
Qed.

Lemma strip_cr l : strip_suffix_byte CR (l +:+ String CR "") = Some l.
Proof.
  induction l as [|a l IH]; [done|]. rewrite append_cons. cbn [strip_suffix_byte]. rewrite IH.
  by destruct l.
Qed.

Lemma strip_cr_one_line l : one_line l = true → strip_suffix_byte CR l = None.
Proof.
  induction l as [|a l IH]; [done|]. intros (Hcr & _ & Hl)%one_line_cons. cbn [strip_suffix_byte].
  unfold is_byte. rewrite bool_decide_eq_false_2 by congruence. rewrite (IH Hl). by destruct l.
Qed.

Lemma block_lines_spec l ls :
  Forall (λ l, one_line l = true) (l :: ls) → Forall (λ l, l ≠ "") (l :: ls) →
  block_lines (join CRLF (l :: ls)) = l :: ls.
Proof.
  intros Hls Hne. unfold block_lines.
  enough ((λ l, default l (strip_suffix_byte CR l)) <$> split LF (join CRLF (l :: ls)) = l :: ls) as ->.
  { clear -Hne. induction Hne as [|x k Hx Hk IH]; [done|].
    rewrite filter_cons_True by done. by rewrite IH. }
  clear Hne. revert l Hls. induction ls as [|l' ls IH]; intros l [Hl Hls]%Forall_cons.
  - cbn [join]. rewrite split_last_line by done. cbn. by rewrite strip_cr_one_line.
  - change (join CRLF (l :: l' :: ls)) with (l +:+ CRLF +:+ join CRLF (l' :: ls)).
    rewrite split_one_line by done. cbn [fmap list_fmap]. rewrite strip_cr. cbn [default from_option].
    f_equal. by apply IH.
Qed.

(** ** No empty lines *)

(** [find_str] finds the first occurrence. *)
Lemma find_str_first pat s x y u v :
  find_str pat s = Some (x, y) → s = u +:+ pat +:+ v → String.length x ≤ String.length u.
Proof.
  revert x u. induction s as [|a s IH]; intros x u; cbn [find_str].
  - case_match; [|done]. intros [= <- <-]. cbn. lia.
  - destruct (starts_with pat (String a s)) eqn:Hst; [intros [= <- <-]; cbn; lia|].
    intros ([x' y'] & Hf & [= <- <-])%bind_Some. destruct u as [|b u].
    + rewrite append_nil_l. intros Hs. by rewrite Hs, starts_with_app in Hst.
    + rewrite append_cons. intros [= -> Hs]. cbn. specialize (IH _ _ Hf Hs). lia.
Qed.

Lemma empty_line_boundary l ls :
  "" ∈ ls → ∃ u v, join CRLF (l :: ls) +:+ CRLF = u +:+ (CRLF +:+ CRLF) +:+ v ∧
    String.length u < String.length (join CRLF (l :: ls)).
Proof.
  revert l. induction ls as [|l' ls IH]; intros l Hin; [by apply elem_of_nil in Hin|].
  change (join CRLF (l :: l' :: ls)) with (l +:+ CRLF +:+ join CRLF (l' :: ls)).
  apply elem_of_cons in Hin as [<-|Hin].
  - exists l. eexists. rewrite !append_assoc, join_unlines, unlines_cons, append_nil_l.
    split; [reflexivity|]. rewrite !str_length_app. cbn. lia.
  - destruct (IH l' Hin) as (u & v & Huv & Hlen). exists (l +:+ CRLF +:+ u), v.
    rewrite !append_assoc, Huv, !append_assoc. split; [done|]. rewrite !str_length_app. lia.
Qed.

Lemma skip_leading_crlf_not s t : skip_leading_crlf s ≠ CRLF +:+ t.
Proof.
  enough (∀ n s, String.length s ≤ n → skip_leading_crlf s ≠ CRLF +:+ t) by eauto.
  clear s. induction n as [|n IH]; intros s Hn.
  all: destruct s as [|a [|b s]]; try done; cbn in Hn; try lia.
  cbn [skip_leading_crlf]. destruct (is_byte CR a && is_byte LF b) eqn:Hab; [by apply IH; lia|].
  intros [= -> -> _]. done.
Qed.

(** The lines of the header block of a buffer. *)
Lemma header_block_lines buffer block after :
  find_header_boundary (skip_leading_crlf buffer) = Some (block, after) →
  endings_ok false (block +:+ CRLF +:+ CRLF) = true →
  ∃ l ls, block = join CRLF (l :: ls) ∧ Forall (λ l, one_line l = true) (l :: ls) ∧
    Forall (λ l, l ≠ "") (l :: ls) ∧
    skip_leading_crlf buffer = block +:+ CRLF +:+ CRLF +:+ after.
Proof.
  unfold find_header_boundary. intros ([x y] & Hf & (r & Hst & [= -> ->])%bind_Some)%bind_Some He.
  apply strip_prefix_Some in Hst as ->. pose proof Hf as Hf'.
  apply find_str_Some in Hf' as [Hbuf _].
  destruct (lines_exist block) as (l & ls & -> & Hls).
  { revert He. rewrite <-append_assoc. generalize (block +:+ CRLF). intros t. clear.
    generalize false. induction t as [|a t IH]; intros b; [done|]. rewrite append_cons. cbn [endings_ok].
    intros [[H1 H2]%andb_prop H3]%andb_prop. rewrite H1, (IH _ H3). 
    destruct t as [|c t]; [|by rewrite append_cons in H2; cbn in *; rewrite H2].
    cbn in H2. by destruct (is_byte CR a). }
  exists l, ls. split_and!; [done|done| |by rewrite Hbuf, !append_assoc]. constructor.
  - intros ->. destruct ls as [|l' ls]; eapply (skip_leading_crlf_not buffer).
    + rewrite Hbuf. reflexivity.
    + rewrite Hbuf. change (join CRLF ("" :: l' :: ls)) with (CRLF +:+ join CRLF (l' :: ls)).
      by rewrite append_assoc.
  - apply Forall_forall. intros l' Hin ->. destruct (empty_line_boundary l ls Hin) as (u & v & Huv & Hlen).
    enough (String.length (join CRLF (l :: ls)) ≤ String.length u) by lia.
    eapply (find_str_first _ _ _ _ u (v +:+ CRLF +:+ after) Hf). rewrite Hbuf.
    rewrite <-!append_assoc, Huv. by rewrite !append_assoc.
Qed.

(** ** The parser's view of the lines *)

(** The value with its continuation lines, as the parser joins them. *)
Fixpoint fold_trimmed (value : string) (lines : list string) : string :=
  match lines with
  | next :: lines =>
      if starts_with_byte is_wsp next
      then fold_trimmed (value +:+ " " +:+ trim_start_matches is_wsp next) lines else value
  | [] => value
  end.

Definition after_fold : list string → list string := drop_while (starts_with_byte is_wsp).

Lemma wsp_span s :
  ∃ w, s = w +:+ trim_start_matches is_wsp s ∧ str_forall is_wsp w = true ∧
    starts_with_byte is_wsp (trim_start_matches is_wsp s) = false.
Proof.
  unfold trim_start_matches. induction s as [|a s (w & IH & Hw & Hs)]; [by exists ""|]. cbn.
  destruct (is_wsp a) eqn:Ha.
  - exists (String a w). rewrite append_cons, <-IH. split; [done|]. cbn. by rewrite Ha.
  - exists "". cbn. by rewrite String.string_of_list_ascii_of_string.
Qed.

Lemma ascii_wsp_stops s : starts_with_byte is_wsp s = false → stops (ascii_char is_wsp) s = true.
Proof.
  destruct s as [|a s]; [done|]. cbn. intros Ha. destruct (is_ascii_byte a) eqn:Hasc.
  { apply stops_ascii; [done|]. unfold ascii_char. cbn. by rewrite Hasc. }
  unfold stops. cbn [chars]. repeat case_match; simplify_eq; cbn; by rewrite ?Hasc.
Qed.

Lemma wsp_chars_all w : str_forall is_wsp w = true → chars_all (ascii_char is_wsp) w = true.
Proof.
  induction w as [|a w IH]; [done|]. intros [Ha Hw]%andb_prop.
  specialize (IH Hw). unfold chars_all, is_ascii in *. cbn [str_forall].
  apply andb_prop in IH as [-> ->]. rewrite !andb_true_r.
  assert (is_ascii_byte a = true) as Hasc by (apply bool_decide_eq_true in Ha; by each_of Ha by done).
  unfold ascii_char. cbn. by rewrite Hasc, Ha.
Qed.

Lemma starts_with_byte_app p s t : s ≠ "" → starts_with_byte p (s +:+ t) = starts_with_byte p s.
Proof. destruct s; [done|]. by rewrite append_cons. Qed.

Lemma trim_not_empty x y : is_empty (trim_start_matches is_wsp (x +:+ String CR y)) = false.
Proof.
  unfold trim_start_matches. induction x as [|a x IH]; [done|]. rewrite append_cons. cbn.
  by destruct (is_wsp a).
Qed.

(** Lines that are lines, and not empty. *)
Definition good_lines (ls : list string) : Prop :=
  Forall (λ l, one_line l = true ∧ l ≠ "") ls.

Lemma good_lines_after ls : good_lines ls → good_lines (after_fold ls).
Proof.
  intros H. destruct (drop_while_suffix (starts_with_byte is_wsp) ls) as [k Hk].
  unfold good_lines in *. rewrite Hk in H. by apply Forall_app in H as [_ ?].
Qed.

Section parsers.
Context {U : Unicode} {P : Nom}.

Lemma value_loop_lines fuel name value v ls :
  one_line v = true → good_lines ls → length ls < fuel →
  header_value_loop fuel name value (v +:+ CRLF +:+ unlines ls +:+ CRLF) =
    Some (unlines (after_fold ls) +:+ CRLF, (trim_ascii name, trim (fold_trimmed (value +:+ v) ls))).
Proof.
  revert fuel value v. induction ls as [|next ls IH]; intros [|fuel] value v Hv Hls Hf;
    [cbn in Hf; lia| |cbn in Hf; lia|]; cbn [header_value_loop];
    rewrite take_until_eq, find_crlf by done; cbn [mbind option_bind];
    unfold parse_crlf; rewrite alt_eq, tag_app; cbn [mbind option_bind].
  { reflexivity. }
  apply Forall_cons in Hls as [[Hn1 Hn2] Hls]. rewrite unlines_cons, !append_assoc.
  assert (is_empty (next +:+ CRLF +:+ unlines ls +:+ CRLF) = false) as ->.
  { destruct next; [done|]. by rewrite append_cons. }
  rewrite (trim_not_empty next (String LF (unlines ls +:+ CRLF)) : is_empty (trim_start_matches is_wsp
    (next +:+ CRLF +:+ unlines ls +:+ CRLF)) = false).
  rewrite starts_with_byte_app by done. cbn [fold_trimmed]. unfold after_fold. cbn [drop_while].
  destruct (starts_with_byte is_wsp next) eqn:Hw; [|by rewrite unlines_cons, !append_assoc].
  destruct (wsp_span next) as (w & Hnext & Hww & Hst). set (t := trim_start_matches is_wsp next) in *.
  rewrite Hnext, !append_assoc at 1.
  rewrite take_while1_app; [| |by apply wsp_chars_all|].
  - cbn [mbind option_bind]. rewrite IH; [by rewrite !append_assoc| |done|cbn in Hf; lia].
    rewrite Hnext in Hn1. unfold one_line in *. rewrite str_forall_app in Hn1.
    by apply andb_prop in Hn1 as [_ ?].
  - intros ->. rewrite append_nil_l in Hnext. by rewrite Hnext, Hst in Hw.
  - apply ascii_wsp_stops. destruct t as [|b t]; [done|]. by rewrite append_cons.
Qed.

Lemma trim_wsp_id s : starts_with_byte is_wsp s = false → trim_start_matches is_wsp s = s.
Proof.
  unfold trim_start_matches. destruct s as [|a s]; [done|]. cbn. intros ->. cbn.
  by rewrite String.string_of_list_ascii_of_string.
Qed.

(** Reading the white space at the front of a line. *)
Lemma take_wsp z t :
  starts_with_byte is_wsp t = false →
  ∃ w z', z = w +:+ z' ∧ str_forall is_wsp w = true ∧
    take_while (ascii_char is_wsp) (z +:+ t) = Some (z' +:+ t, w).
Proof.
  intros Ht. destruct (wsp_span z) as (w & Hz & Hw & Hs).
  exists w, (trim_start_matches is_wsp z). split_and!; [done|done|].
  rewrite Hz at 1. rewrite append_assoc. apply take_while_app; [by apply wsp_chars_all|].
  apply ascii_wsp_stops. destruct (trim_start_matches is_wsp z); [done|by rewrite append_cons].
Qed.

Lemma unlines_length ls : length ls ≤ String.length (unlines ls).
Proof.
  induction ls as [|l ls IH]; [done|]. rewrite unlines_cons, !str_length_app. cbn in *. lia.
Qed.

(** The value part of a header line is one line. *)
Lemma one_line_suffixes n w b w' v :
  one_line (n +:+ w +:+ String b (w' +:+ v)) = true → one_line v = true.
Proof.
  unfold one_line. rewrite !str_forall_app. cbn [str_forall]. rewrite str_forall_app.
  rewrite !andb_true_iff. tauto.
Qed.

(** What is read before a CR lies within the line. *)
Lemma prefix_in_line line t x y :
  str_forall (λ b, negb (is_byte CR b)) x = true → line +:+ CRLF +:+ t = x +:+ y →
  ∃ z, line = x +:+ z ∧ y = z +:+ CRLF +:+ t.
Proof.
  revert line. induction x as [|a x IH]; intros line Hx Hs.
  { exists line. by rewrite append_nil_l in *. }
  cbn in Hx. apply andb_prop in Hx as [Ha Hx]. rewrite append_cons in Hs.
  destruct line as [|b line]; rewrite ?append_nil_l, ?append_cons in Hs.
  - injection Hs as <- _. by rewrite is_byte_refl in Ha.
  - injection Hs as -> Hs. destruct (IH _ Hx Hs) as (z & -> & ->). exists z. by rewrite append_cons.
Qed.

Lemma wsp_no_cr w : str_forall is_wsp w = true → str_forall (λ b, negb (is_byte CR b)) w = true.
Proof. apply str_forall_impl. intros a Ha%bool_decide_eq_true. by each_of Ha by done. Qed.

(** One header line and its continuations. *)
Lemma header_line_lines line ls r nm v :
  utf8_valid (line +:+ CRLF +:+ unlines ls +:+ CRLF) = true →
  one_line line = true → starts_with_byte is_wsp line = false → good_lines ls →
  parse_header_line (line +:+ CRLF +:+ unlines ls +:+ CRLF) = Some (r, (nm, v)) →
  ∃ n w w' v0, line = n +:+ w +:+ ":" +:+ w' +:+ v0 ∧
    str_forall (λ b, negb (is_byte ":" b)) n = true ∧
    str_forall is_wsp w = true ∧ str_forall is_wsp w' = true ∧
    nm = trim_ascii n ∧ v = trim (fold_trimmed v0 ls) ∧ r = unlines (after_fold ls) +:+ CRLF.
Proof.
  intros Hu Hl Hw Hls. unfold parse_header_line. cbv zeta. set (T := unlines ls +:+ CRLF) in *.
  rewrite trim_wsp_id by (destruct line; [done|by rewrite append_cons]).
  rewrite take_while1_eq. case_match; [done|]. cbn [mbind option_bind].
  set (p := none_of _). pose proof (char_span_concat p (line +:+ CRLF +:+ T)) as Hs.
  pose proof (char_span_avoids p _ CR eq_refl Hu eq_refl) as Hcr.
  pose proof (char_span_avoids p _ ":" eq_refl Hu eq_refl) as Hcolon.
  destruct (char_span p (line +:+ CRLF +:+ T)) as [n t1]. cbn [fst snd] in *. apply eq_sym in Hs.
  destruct (prefix_in_line _ _ _ _ Hcr Hs) as (z1 & -> & ->). clear Hs.
  destruct (take_wsp z1 (CRLF +:+ T) eq_refl) as (w & z2 & -> & Hww & ->). cbn [mbind option_bind].
  rewrite nchar_eq. destruct z2 as [|b z2]; [done|]. rewrite append_cons.
  unfold is_byte at 1. case_bool_decide as Hb; [subst b|done]. cbn [mbind option_bind].
  destruct (take_wsp z2 (CRLF +:+ T) eq_refl) as (w' & v0 & -> & Hw' & ->). cbn [mbind option_bind].
  unfold T. rewrite value_loop_lines; [|by apply one_line_suffixes in Hl|done|].
  - intros [= <- <- <-]. exists n, w, w', v0. split_and!; [|done..]. by rewrite append_cons.
  - rewrite !str_length_app. pose proof (unlines_length ls). lia.
Qed.
End parsers.

(** ** The name of the header *)

Lemma drop_while_map {A} (f : A → A) (p : A → bool) l :
  (∀ a, p (f a) = p a) → drop_while p (f <$> l) = f <$> drop_while p l.
Proof. intros Hf. induction l as [|x l IH]; cbn; [done|]. rewrite Hf. by destruct (p x). Qed.

Lemma drop_while_end_map {A} (f : A → A) (p : A → bool) l :
  (∀ a, p (f a) = p a) → drop_while_end p (f <$> l) = f <$> drop_while_end p l.
Proof.
  intros Hf. induction l as [|x l IH]; cbn; [done|]. rewrite IH, Hf.
  destruct (drop_while_end p l); cbn; by destruct (p x).
Qed.

Lemma drop_both_app {A} (p : A → bool) l k :
  Forall (λ x, p x = true) k →
  drop_while_end p (drop_while p (l ++ k)) = drop_while_end p (drop_while p l).
Proof.
  intros Hk. induction l as [|x l IH]; cbn.
  - rewrite <-(app_nil_r k), drop_while_all by done. done.
  - destruct (p x) eqn:Hx; [done|]. apply (drop_while_end_all p (x :: l) k Hk).
Qed.

Lemma list_ascii_map f s :
  String.list_ascii_of_string (str_map f s) = f <$> String.list_ascii_of_string s.
Proof. induction s as [|a s IH]; cbn; [done|]. by rewrite IH. Qed.

Lemma list_ascii_app s t :
  String.list_ascii_of_string (s +:+ t) = String.list_ascii_of_string s ++ String.list_ascii_of_string t.
Proof. induction s as [|a s IH]; [done|]. rewrite append_cons. cbn. by rewrite IH. Qed.

Lemma string_of_map f l :
  String.string_of_list_ascii (f <$> l) = str_map f (String.string_of_list_ascii l).
Proof. induction l as [|a l IH]; cbn; [done|]. by rewrite IH. Qed.

Lemma trim_lower_wsp n w :
  str_forall is_wsp w = true →
  trim_ascii (to_ascii_lowercase (n +:+ w)) = to_ascii_lowercase (trim_ascii n).
Proof.
  intros Hw. unfold trim_ascii, trim_matches, to_ascii_lowercase.
  assert (∀ a, is_ascii_whitespace (byte_lower a) = is_ascii_whitespace a) as Hl
    by (intros [[] [] [] [] [] [] [] []]; reflexivity).
  rewrite list_ascii_map, list_ascii_app, fmap_app, drop_both_app.
  - rewrite drop_while_map, drop_while_end_map by done. by rewrite string_of_map.
  - rewrite str_forall_list, forallb_forall in Hw. apply Forall_forall.
    intros a (b & -> & Hb%list_elem_of_In%Hw%bool_decide_eq_true)%list_elem_of_fmap. by each_of Hb by done.
Qed.

Lemma canonical_content_length k :
  bool_decide (canonical_key k = canonical_key "Content-Length") =
  bool_decide (to_ascii_lowercase k ∈ ["content-length"; "l"]).
Proof.
  destruct k as [|a [|b k]]; [reflexivity| |].
  - destruct a as [[] [] [] [] [] [] [] []]; vm_compute; reflexivity.
  - apply bool_decide_ext. change (canonical_key "Content-Length") with "content-length".
    change (canonical_key (String a (String b k))) with (to_ascii_lowercase (String a (String b k))).
    rewrite !elem_of_cons. split; [by left|]. intros [H|[H|H%elem_of_nil]]; done.
Qed.

Lemma content_length_name n w :
  str_forall is_wsp w = true →
  is_content_length (n +:+ w) = same_header_name (trim_ascii n) "Content-Length".
Proof.
  intros Hw. unfold is_content_length, same_header_name.
  by rewrite trim_lower_wsp, canonical_content_length.
Qed.

(** ** The two scans *)

Lemma spaced_folds v f ls : spaced v f → spaced (fold_trimmed v ls) (fold_lines f ls).
Proof.
  revert v f. induction ls as [|next ls IH]; intros v f Hs; cbn; [done|].
  destruct (starts_with_byte is_wsp next); [|done]. apply IH.
  destruct (wsp_span next) as (w & Hnext & Hw & _). rewrite Hnext at 2. by constructor.
Qed.

Lemma fold_lines_valid f ls :
  utf8_valid f = true → Forall (λ l, utf8_valid l = true) ls → utf8_valid (fold_lines f ls) = true.
Proof.
  intros Hf Hls. revert f Hf. induction Hls as [|l ls Hl Hls IH]; intros f Hf; cbn; [done|].
  destruct (starts_with_byte is_wsp l); [|done]. apply IH. by rewrite utf8_valid_app.
Qed.

Lemma scan_after_fold ls : scan_lines (after_fold ls) = scan_lines ls.
Proof.
  unfold after_fold. induction ls as [|l ls IH]; cbn; [done|].
  destruct (starts_with_byte is_wsp l) eqn:Hl; [done|]. cbn. by rewrite Hl.
Qed.

Lemma unlines_valid ls :
  utf8_valid (unlines ls +:+ CRLF) = true → Forall (λ l, utf8_valid l = true) ls.
Proof.
  induction ls as [|l ls IH]; [constructor|]. rewrite unlines_cons, !append_assoc. intros Hv.
  change (CRLF +:+ ?x) with (String CR (String LF x)) in Hv.
  pose proof (utf8_valid_after CR _ _ eq_refl Hv) as Ht.
  rewrite utf8_valid_ascii_cons in Ht by done.
  constructor; [by apply utf8_valid_before in Hv|by apply IH].
Qed.

Lemma valid_unlines ls :
  Forall (λ l, utf8_valid l = true) ls → utf8_valid (unlines ls +:+ CRLF) = true.
Proof.
  induction 1 as [|l ls Hl Hls IH]; [done|]. rewrite unlines_cons, !append_assoc.
  by rewrite utf8_valid_app.
Qed.

Lemma split_colon n w t :
  str_forall (λ b, negb (is_byte ":" b)) n = true → str_forall is_wsp w = true →
  split_once ":" (n +:+ w +:+ String ":" t) = Some (n +:+ w, t).
Proof.
  intros Hn Hw. unfold split_once, split_once_by. rewrite <-append_assoc, break_stop; [done| |done].
  rewrite str_forall_app, Hn. eapply str_forall_impl; [|exact Hw].
  intros a Ha%bool_decide_eq_true. by each_of Ha by done.
Qed.

Lemma strip_prefix_line p line t :
  one_line line = true → line ≠ "" → starts_with_byte (byte_in [CR; LF]) p = true →
  strip_prefix p (line +:+ t) = None.
Proof.
  destruct line as [|a line]; [done|]. intros (H1 & H2 & _)%one_line_cons _. destruct p as [|b p]; [done|].
  rewrite append_cons. cbn. intros Hb%bool_decide_eq_true. unfold is_byte.
  rewrite bool_decide_eq_false_2; [done|]. intros ->. set_solver.
Qed.

Section scans.
Context {U : Unicode} {P : Nom}.

Lemma loop_keeps n h s r h' v :
  headers_loop n h s = Some (r, h') →
  Headers.get "Content-Length" h = Some v → Headers.get "Content-Length" h' = Some v.
Proof.
  revert h s. induction n as [|n IH]; intros h s; cbn [headers_loop]; [done|].
  destruct (is_empty s); [by intros [= _ <-]|]. case_match; [by intros [= _ <-]|].
  case_match; [by intros [= _ <-]|]. case_match; [done|].
  intros ([i [name value]] & _ & Hl)%bind_Some Hv. eapply IH; [exact Hl|].
  rewrite Headers.get_head in Hv |- *. rewrite Headers.get_all_add.
  destruct (same_header_name name "Content-Length") eqn:Hn; [|done].
  apply bool_decide_eq_true in Hn. unfold Headers.get_all in *. rewrite Hn.
  destruct (IndexMap.get _ _) as [[? [|x l]]|]; try done.
Qed.

(** What the parsed headers say of Content-Length, and what the framer reads. *)
Definition scans_agree (ls : list string) (h : SipHeaders) : Prop :=
  match Headers.get "Content-Length" h with
  | None => scan_lines ls = None
  | Some v => ∃ V F, v = trim V ∧ spaced V F ∧ utf8_valid F = true ∧ scan_lines ls = read_length F
  end.

Lemma loop_agrees n h ls r h' :
  utf8_valid (unlines ls +:+ CRLF) = true → good_lines ls →
  headers_loop n h (unlines ls +:+ CRLF) = Some (r, h') →
  Headers.get "Content-Length" h = None → scans_agree ls h'.
Proof.
  revert h ls. induction n as [|n IH]; intros h ls Hu Hls; [done|]. cbn [headers_loop].
  destruct ls as [|line ls].
  { cbn. intros [= _ <-] Hh. unfold scans_agree. by rewrite Hh. }
  apply Forall_cons in Hls as [[Hl1 Hl2] Hls]. pose proof (unlines_valid _ Hu) as Hvs.
  rewrite unlines_cons, !append_assoc in Hu |- *.
  set (T := unlines ls +:+ CRLF) in *.
  assert (is_empty (line +:+ CRLF +:+ T) = false) as -> by by destruct line.
  rewrite !strip_prefix_line by done. rewrite starts_with_byte_app by done.
  destruct (starts_with_byte is_wsp line) eqn:Hw; [done|].
  intros ([i [nm v]] & Hp & Hl)%bind_Some Hh.
  destruct (header_line_lines line ls i nm v Hu Hl1 Hw Hls Hp)
    as (n' & w & w' & v0 & Hline & Hn & Hw1 & Hw2 & Hnm & Hv & Hi).
  apply Forall_cons in Hvs as [Hvl Hvs].
  assert (scan_lines (line :: ls) =
    if same_header_name nm "Content-Length" then read_length (fold_lines (w' +:+ v0) ls)
    else scan_lines ls) as Hscan.
  { cbn [scan_lines]. rewrite Hw, Hline. change (":" +:+ ?x) with (String ":" x).
    rewrite split_colon, content_length_name by done. by rewrite Hnm. }
  destruct (same_header_name nm "Content-Length") eqn:Hcl.
  - unfold scans_agree. rewrite (loop_keeps _ _ _ _ _ v Hl).
    + exists (fold_trimmed v0 ls), (fold_lines (w' +:+ v0) ls). split_and!; [done| | |done].
      * by apply spaced_folds, spaced_start.
      * apply fold_lines_valid; [|done]. rewrite Hline in Hvl.
        rewrite <-append_assoc in Hvl. by apply utf8_valid_after in Hvl.
    + rewrite Headers.get_head in Hh |- *. rewrite Headers.get_all_add, Hcl.
      apply bool_decide_eq_true in Hcl. unfold Headers.get_all in *. rewrite Hcl.
      destruct (IndexMap.get _ _) as [[? [|x l]]|]; done.
  - subst i. unfold scans_agree. rewrite Hscan, <-(scan_after_fold ls).
    apply (IH (Headers.add nm v h) (after_fold ls)); [|by apply good_lines_after|done|].
    + apply valid_unlines. destruct (drop_while_suffix (starts_with_byte is_wsp) ls) as [k Hk].
      rewrite Hk in Hvs. by apply Forall_app in Hvs as [_ ?].
    + rewrite Headers.get_head in Hh |- *. by rewrite Headers.get_all_add, Hcl.
Qed.
End scans.

(** ** The message *)

Section message.
Context {U : Unicode} {P : Nom}.

(** The framer's reading of the header block of an accepted message. *)
Lemma block_content_length buffer start_line h rest :
  parse_header_block buffer = Ok (start_line, h, rest) →
  ∃ block, find_header_boundary (skip_leading_crlf buffer) = Some (block, rest) ∧
    match Headers.get "Content-Length" h with
    | None => extract_content_length block = None
    | Some v => ∀ n, parse_uint USIZE_MAX (trim v) = Some n → extract_content_length block = Some n
    end.
Proof.
  unfold parse_header_block.
  intros ([block rest'] & Hb%ok_or_Ok & ([] & Hv & H)%bind_Ok)%bind_Ok.
  destruct (negb (utf8_valid (block +:+ CRLF +:+ CRLF))) eqn:Hu; [done|].
  apply bind_Ok in H as ([? ?] & _ & ([r' h'] & Hh%ok_or_Ok & [= -> -> ->])%bind_Ok).
  apply line_endings_from_ok in Hv. apply negb_false_iff in Hu. exists block. split; [done|].
  destruct (header_block_lines buffer block rest Hb Hv) as (l & ls & -> & Hls & Hne & _).
  unfold extract_content_length. rewrite block_lines_spec by done.
  apply Forall_cons in Hls as [Hl Hls]. apply Forall_cons in Hne as [_ Hne].
  rewrite <-append_assoc, join_unlines, unlines_cons, !append_assoc in Hh, Hu.
  rewrite find_crlf, strip_prefix_app in Hh by done. cbn [default from_option] in Hh.
  assert (scans_agree ls h) as Ha.
  { eapply loop_agrees; [| |exact Hh|done].
    - change (CRLF +:+ ?x) with (String CR (String LF x)) in Hu.
      apply utf8_valid_after in Hu; [|done]. by rewrite utf8_valid_ascii_cons in Hu.
    - unfold good_lines. apply Forall_and. by split. }
  unfold scans_agree in Ha. destruct (Headers.get "Content-Length" h) as [v|]; [|done].
  destruct Ha as (V & F & -> & Hs & HF & ->). intros n Hn. unfold read_length. rewrite HF.
  by eapply spaced_number.
Qed.

Lemma accepted_length buffer start_line h rest :
  parse_header_block buffer = Ok (start_line, h, rest) → check_content_length h rest = Ok tt →
  ∃ head, buffer = head +:+ CRLF +:+ CRLF +:+ rest ∧
    extract_sip_message_length buffer =
      Some (saturating_add (blen (head +:+ CRLF +:+ CRLF)) (default 0%N (Headers.content_length h))).
Proof.
  intros Hp Hc. destruct (block_content_length _ _ _ _ Hp) as (block & Hb & Hcl).
  destruct (skip_leading_crlf_suffix buffer) as [x Hx]. pose proof Hb as Hb'.
  unfold find_header_boundary in Hb'.
  apply bind_Some in Hb' as ([? y] & Hf & (r & Hst & [= -> ->])%bind_Some).
  apply find_str_Some in Hf as [Hs _]. apply strip_prefix_Some in Hst as ->.
  exists (x +:+ block). split; [by rewrite Hx, Hs, !append_assoc|].
  unfold extract_sip_message_length. rewrite Hb. cbn [mbind option_bind]. do 2 f_equal.
  - rewrite Hx at 1. rewrite !blen_app. change (blen CRLF) with 2%N. lia.
  - unfold check_content_length in Hc. unfold Headers.content_length.
    destruct (Headers.get "Content-Length" h) as [v|]; [|by rewrite Hcl].
    apply bind_Ok in Hc as (d & Hd%ok_or_Ok & _). cbn. by rewrite (Hcl d Hd), Hd.
Qed.
End message.

(** C11: the stream framer and the parser agree.  For every buffer the parser
    accepts, the framer's length is that of the bytes the parser reads as the
    message, its header block and its body: whatever the folding, the spelling
    and the white space of the Content-Length header, no byte belongs to this
    message for the one and to the next for the other. *)
Theorem framer_agrees_with_parser `{U : Unicode, P : Nom} (buffer : bytes) (m : SipMessage) :
  (blen buffer ≤ USIZE_MAX)%N → parse_sip_message_bytes buffer = Ok m →
  ∃ head rest, buffer = head +:+ CRLF +:+ CRLF +:+ body m +:+ rest ∧
    extract_sip_message_length buffer = Some (blen (head +:+ CRLF +:+ CRLF +:+ body m)) ∧
    ∀ max len, frame_sip_message buffer max = Complete len →
      String.substring 0 (N.to_nat len) buffer = head +:+ CRLF +:+ CRLF +:+ body m.
Proof.
  intros Hlen (rest & Hb & Hc & Hn & Hbody)%parse_message_body.
  set (n := default 0%N (Headers.content_length (msg_headers m))) in *.
  destruct (accepted_length _ _ _ _ Hb Hc) as (head & Hbuf & Hext). fold n in Hext.
  set (tail := String.substring (N.to_nat n) (String.length rest - N.to_nat n) rest).
  assert (rest = body m +:+ tail) as Hrest by (rewrite Hbody; unfold tail; by rewrite substring_split by lia).
  assert (buffer = (head +:+ CRLF +:+ CRLF +:+ body m) +:+ tail) as Hsplit.
  { rewrite Hbuf, Hrest at 1. by rewrite !append_assoc. }
  assert (extract_sip_message_length buffer = Some (blen (head +:+ CRLF +:+ CRLF +:+ body m))) as Hlen'.
  { rewrite Hext. unfold saturating_add. f_equal.
    assert (blen (body m) = n) as Hbn by (unfold blen; rewrite Hbody, substring_length; lia).
    rewrite Hsplit in Hlen. rewrite !blen_app in *. lia. }
  exists head, tail. split_and!; [by rewrite Hsplit at 1; rewrite !append_assoc|done|].
  intros max len. unfold frame_sip_message. rewrite Hlen'.
  destruct (negb _); [done|]. destruct (_ <? _)%N; [done|]. destruct (_ <=? _)%N; [|done].
  intros [= <-]. rewrite Hsplit. unfold blen. rewrite Nat2N.id. apply substring_app.
Qed.

(** A folded Content-Length in its compact form, and bytes of the next message. *)
Definition folded_buffer : bytes :=
  CRLF +:+ "OPTIONS sip:a SIP/2.0" +:+ CRLF +:+ "Subject: x" +:+ CRLF +:+ " Content-Length: 9" +:+ CRLF +:+
  "L :" +:+ CRLF +:+ String HT " 4" +:+ CRLF +:+ CRLF +:+ "bodySIP/2.0 200".

Definition folded_message : SipMessage :=
  mkMessage (Request (mkRequestLine Options (uri_new "a") sip_2_0))
    (Headers.add "L" "4" (Headers.add "Subject" "x Content-Length: 9" Headers.new)) "body".

Lemma folded_parses :
  @parse_sip_message_bytes unicode_ascii nom_reference folded_buffer = Ok folded_message.
Proof. vm_compute. reflexivity. Qed.

Lemma framer_agrees_with_parser_witness :
  ∃ head rest, folded_buffer = head +:+ CRLF +:+ CRLF +:+ body folded_message +:+ rest ∧
    extract_sip_message_length folded_buffer =
      Some (blen (head +:+ CRLF +:+ CRLF +:+ body folded_message)).
Proof.
  destruct (@framer_agrees_with_parser unicode_ascii nom_reference folded_buffer folded_message
    ltac:(vm_compute; discriminate) folded_parses) as (head & rest & H1 & H2 & _).
  exact (ex_intro _ head (ex_intro _ rest (conj H1 H2))).
Defined.
