(* ===== verification/FramerStream.v ===== *)
(** * However the stream is cut up, the messages sent are the messages framed

    The read task of [Framer] ([src/src/transport/stream.rs]) sees the bytes of
    a connection in chunks whose bounds mean nothing.  These lemmas show that it
    delivers the messages the peer wrote, CRLF keep-alives between them or not,
    for every way of cutting the stream. *)

From S2P Require Import Prelude Str Nom Headers Uri Message Parser Blank Framer FramerAgree.

(** ** What a peer writes *)

Section stream.
Context (max : N).

(** A message that can be framed: its Content-Length is its length, it starts
    with a start line, its header block is within the limit and free of control
    bytes where the framer looks. *)
Definition wire_message (s : bytes) : bool :=
  starts_with_byte (λ a, negb (is_byte CR a)) s && (blen s <=? max)%N &&
  match find_header_boundary s, find_str CRLF s with
  | Some (block, _), Some (line, _) =>
      bool_decide (extract_sip_message_length s = Some (blen s)) && is_sip_start_line line &&
      (blen block + 3 <=? MAX_INCOMPLETE_HEADER_BYTES)%N &&
      negb (str_exists is_control (String.substring 0 512 block))
  | _, _ => false
  end.

(** What goes over the connection. *)
Inductive item := Msg (s : bytes) | KeepAlive.

Definition item_text (i : item) : bytes := match i with Msg s => s | KeepAlive => CRLF end.
Definition stream_of (its : list item) : bytes := str_concat (item_text <$> its).
Definition messages (its : list item) : list bytes :=
  omap (λ i, match i with Msg s => Some s | KeepAlive => None end) its.
Definition item_ok (i : item) : bool := match i with Msg s => wire_message s | KeepAlive => true end.

(** Where one of two cuts of the same text is inside the other. *)
Lemma cut_compare x y u v :
  x +:+ y = u +:+ v → (∃ z, u = x +:+ z ∧ y = z +:+ v) ∨ (∃ z, z ≠ "" ∧ x = u +:+ z ∧ v = z +:+ y).
Proof.
  revert u. induction x as [|a x IH]; intros u Hs; [left; by exists u|].
  destruct u as [|b u].
  - right. exists (String a x). by rewrite append_nil_l in *.
  - rewrite !append_cons in Hs. injection Hs as -> Hs.
    destruct (IH u Hs) as [(z & -> & ->)|(z & Hz & -> & ->)].
    + left. by exists z.
    + right. by exists z.
Qed.

(** Text that is found in the whole but not in a part ends after the part. *)
Lemma find_str_partial pat p z x y :
  find_str pat p = None → find_str pat (p +:+ z) = Some (x, y) →
  ∃ q, q ≠ "" ∧ x +:+ pat = p +:+ q.
Proof.
  intros Hp Hf. apply find_str_Some in Hf as [Hs [r ->]]. rewrite <-append_assoc in Hs.
  destruct (cut_compare _ _ _ _ Hs) as [(q & Hq & _)|(q & Hne & Hq & _)].
  - exists q. split; [|done]. intros ->. rewrite append_nil_r in Hq.
    destruct (find_str_occurs pat x ""). by rewrite append_nil_r, Hq.
  - destruct (find_str_occurs pat x q). by rewrite <-append_assoc, <-Hq.
Qed.

Lemma skip_id s : starts_with_byte (λ a, negb (is_byte CR a)) s = true → skip_leading_crlf s = s.
Proof. destruct s as [|a [|b s]]; [done..|]. cbn. by intros ->%negb_true_iff. Qed.

(** ** One message *)

(** What [wire_message] says, once and for all. *)
Lemma wire_message_spec s :
  wire_message s = true →
  ∃ block body line after n,
    s = block +:+ CRLF +:+ CRLF +:+ body ∧ find_header_boundary s = Some (block, body) ∧
    find_str CRLF s = Some (line, after) ∧ is_sip_start_line line = true ∧
    starts_with_byte (λ a, negb (is_byte CR a)) s = true ∧ (blen s ≤ max)%N ∧
    (blen block + 3 ≤ MAX_INCOMPLETE_HEADER_BYTES)%N ∧
    str_exists is_control (String.substring 0 512 block) = false ∧
    n = extract_content_length block ∧
    saturating_add (blen block + 4) (default 0%N n) = blen s.
Proof.
  unfold wire_message. intros [[Hcr Hmax%N.leb_le]%andb_prop Hw]%andb_prop.
  destruct (find_header_boundary s) as [[block body]|] eqn:Hb; [|done].
  destruct (find_str CRLF s) as [[line after]|] eqn:Hl; [|done].
  apply andb_prop in Hw as [[[He%bool_decide_eq_true Hst]%andb_prop Hlim%N.leb_le]%andb_prop
    Hctl%negb_true_iff].
  exists block, body, line, after, (extract_content_length block). split_and!; try done.
  - unfold find_header_boundary in Hb.
    apply bind_Some in Hb as ([? ?] & [Hs _]%find_str_Some & (? & Hst'%strip_prefix_Some & [= -> ->])%bind_Some).
    by rewrite Hs, Hst', append_assoc.
  - revert He. unfold extract_sip_message_length. rewrite skip_id, Hb by done. cbn.
    intros [= <-]. f_equal. lia.
Qed.

Lemma find_boundary_app s t block body :
  find_header_boundary s = Some (block, body) → find_header_boundary (s +:+ t) = Some (block, body +:+ t).
Proof.
  unfold find_header_boundary. intros ([x y] & Hf & (r & Hst & [= -> ->])%bind_Some)%bind_Some.
  rewrite (find_str_app _ _ _ _ _ Hf). cbn [mbind option_bind].
  apply strip_prefix_Some in Hst as ->. by rewrite append_assoc, strip_prefix_app.
Qed.

Lemma first_byte_app p s t : starts_with_byte p s = true → starts_with_byte p (s +:+ t) = true.
Proof. destruct s; [done|]. by rewrite append_cons. Qed.

(** A complete message, whatever follows it. *)
Lemma frame_complete s t : wire_message s = true → frame_sip_message (s +:+ t) max = Complete (blen s).
Proof.
  intros (block & body & line & after & n & Hs & Hb & Hl & Hst & Hcr & Hmax & _ & _ & Hn & Hlen)%wire_message_spec.
  unfold frame_sip_message, extract_sip_message_length.
  rewrite skip_id by by apply first_byte_app. rewrite (find_boundary_app _ _ _ _ Hb). cbn [mbind option_bind].
  rewrite N.sub_diag, N.add_0_l, <-Hn, Hlen, (find_str_app _ _ _ _ _ Hl), Hst. cbn [negb].
  destruct (N.ltb_spec max (blen s)); [lia|]. rewrite blen_app.
  by destruct (N.leb_spec (blen s) (blen s + blen t)); [|lia].
Qed.

(** Control bytes of a part of the text are control bytes of the text. *)
Lemma control_prefix n p q :
  str_exists is_control (String.substring 0 n (p +:+ q)) = false →
  str_exists is_control (String.substring 0 n p) = false.
Proof.
  revert p. induction n as [|n IH]; intros p; [by destruct p|]. destruct p as [|a p]; [done|].
  rewrite append_cons. cbn [String.substring]. rewrite !str_exists_cons.
  intros [-> H]%orb_false_iff. by apply IH.
Qed.

Lemma control_append n block t :
  str_exists is_control (String.substring 0 n block) = false → str_exists is_control t = false →
  str_exists is_control (String.substring 0 n (block +:+ t)) = false.
Proof.
  intros Hb Ht. revert block Hb. induction n as [|n IH]; intros block Hb; [by destruct (block +:+ t)|].
  destruct block as [|a block].
  - rewrite append_nil_l. clear IH Hb. revert t Ht. generalize (S n). clear n.
    induction n as [|n IH]; intros t Ht; [by destruct t|]. destruct t as [|a t]; [done|].
    cbn [String.substring]. rewrite !str_exists_cons in *. apply orb_false_iff in Ht as [-> Ht]. by apply IH.
  - rewrite append_cons. cbn [String.substring] in Hb |- *. rewrite str_exists_cons in Hb |- *.
    apply orb_false_iff in Hb as [-> Hb]. by apply IH.
Qed.

(** A header block still arriving. *)
Lemma classify_partial p q z block line after :
  block +:+ CRLF +:+ CRLF = p +:+ q → q ≠ "" →
  find_str CRLF (p +:+ z) = Some (line, after) → is_sip_start_line line = true →
  (blen block + 3 ≤ MAX_INCOMPLETE_HEADER_BYTES)%N →
  str_exists is_control (String.substring 0 512 block) = false →
  classify_incomplete_stream p = MaybeSip.
Proof.
  intros Hpq Hq Hl Hst Hlim Hctl. unfold classify_incomplete_stream.
  assert (blen p + 1 ≤ blen block + 4)%N.
  { assert (blen block + 4 = blen p + blen q)%N.
    { rewrite <-blen_app, <-Hpq, !blen_app. change (blen CRLF) with 2%N. lia. }
    destruct q; [done|]. unfold blen in *. cbn in *. lia. }
  destruct (N.ltb_spec MAX_INCOMPLETE_HEADER_BYTES (blen p)); [lia|].
  rewrite (control_prefix 512 p q) by (rewrite <-Hpq; by apply control_append).
  destruct (find_str CRLF p) as [[l r]|] eqn:Hlp; [|done].
  pose proof (find_str_app _ _ z _ _ Hlp) as Hl2. rewrite Hl in Hl2. simplify_eq. by rewrite Hst.
Qed.

(** A message of which not everything has arrived. *)
Lemma frame_partial p z :
  wire_message (p +:+ z) = true → p ≠ "" → z ≠ "" → frame_sip_message p max = NeedMore.
Proof.
  intros (block & body & line & after & n & Hs & Hb & Hl & Hst & Hcr & Hmax & Hlim & Hctl & Hn & Hlen)%wire_message_spec.
  intros Hp Hz. assert (starts_with_byte (λ a, negb (is_byte CR a)) p = true) as Hcrp.
  { destruct p; [done|]. by rewrite append_cons in Hcr. }
  unfold frame_sip_message, extract_sip_message_length. rewrite skip_id by done.
  destruct (find_header_boundary p) as [[block' body']|] eqn:Hbp.
  - pose proof (find_boundary_app p z _ _ Hbp) as Hb2. rewrite Hb in Hb2. simplify_eq.
    cbn [mbind option_bind]. rewrite N.sub_diag, N.add_0_l, Hlen.
    assert (blen p < blen (p +:+ z))%N.
    { rewrite blen_app. destruct z; [done|]. unfold blen. cbn. lia. }
    assert (match find_str CRLF p with Some (line, _) => line | None => p end = line) as ->.
    { destruct (find_str CRLF p) as [[l r]|] eqn:Hlp.
      - pose proof (find_str_app _ _ z _ _ Hlp) as Hl2. rewrite Hl in Hl2. by simplify_eq.
      - unfold find_header_boundary in Hbp. apply bind_Some in Hbp as ([u v] & [Hpu [r Hv]]%find_str_Some & _).
        destruct (find_str_occurs CRLF u (CRLF +:+ r)). by rewrite Hpu, Hv, append_assoc in Hlp. }
    rewrite Hst. cbn [negb]. destruct (N.ltb_spec max (blen (p +:+ z))); [lia|].
    by destruct (N.leb_spec (blen (p +:+ z)) (blen p)); [lia|].
  - cbn [mbind option_bind].
    assert (find_str (CRLF +:+ CRLF) p = None) as Hnone.
    { unfold find_header_boundary in Hbp. destruct (find_str _ p) as [[u v]|] eqn:Hf; [|done].
      apply find_str_Some in Hf as [_ [r ->]]. cbn [mbind option_bind] in Hbp.
      by rewrite strip_prefix_app in Hbp. }
    assert (∃ y, find_str (CRLF +:+ CRLF) (p +:+ z) = Some (block, y)) as [y Hy].
    { unfold find_header_boundary in Hb. apply bind_Some in Hb as ([u v] & -> & (? & _ & [= -> _])%bind_Some).
      by exists v. }
    destruct (find_str_partial _ _ _ _ _ Hnone Hy) as (q & Hq & Hpq).
    by rewrite (classify_partial p q z block line after).
Qed.

(** ** The accumulator *)

Lemma stream_cons i its : stream_of (i :: its) = item_text i +:+ stream_of its.
Proof. done. Qed.

Lemma wire_first_byte s : wire_message s = true → starts_with_byte (λ a, negb (is_byte CR a)) s = true.
Proof. unfold wire_message. by intros [[? _]%andb_prop _]%andb_prop. Qed.

Lemma item_not_empty i : item_ok i = true → item_text i ≠ "".
Proof. destruct i as [s|]; [|done]. cbn. intros Hs%wire_first_byte ->. done. Qed.

(** Events that are answers to keep-alives. *)
Definition is_pong (e : StreamEvent) : bool :=
  match e with SendPong | RecordPong => true | _ => false end.

Context (tracked : bool).

Lemma keepalive_first acc r its :
  forallb item_ok its = true → String CR (String LF acc) +:+ r = stream_of its →
  ∃ its', its = KeepAlive :: its' ∧ forallb item_ok its' = true ∧ acc +:+ r = stream_of its'.
Proof.
  rewrite !append_cons. destruct its as [|[s|] its]; [done|..]; cbn [forallb];
    rewrite stream_cons; intros [Hi Hok]%andb_prop Hs.
  - apply wire_first_byte in Hi. destruct s as [|a s]; [done|]. cbn [item_text] in Hs.
    rewrite append_cons in Hs. injection Hs as <- _. done.
  - exists its. split_and!; [done|done|]. by injection Hs.
Qed.

(** What draining leaves of the items. *)
Definition drained (r : bytes) (its : list item) (acc : bytes) (res : list StreamEvent * bytes) : Prop :=
  let '(ev, acc') := res in
  ∃ its', acc' +:+ r = stream_of its' ∧ forallb item_ok its' = true ∧ messages its' = messages its ∧
    forallb is_pong ev = true ∧ String.length acc' ≤ String.length acc ∧ starts_with CRLF acc' = false.

Lemma drained_more r its its' acc acc' ev res :
  drained r its' acc' res → messages its' = messages its → forallb is_pong ev = true →
  String.length acc' ≤ String.length acc → drained r its acc (let '(e, s) := res in (ev ++ e, s)).
Proof.
  destruct res as [e s]. intros (its'' & ? & ? & Hm & ? & ? & ?) Hm' Hev Hlen. exists its''.
  split_and!; try done; [congruence|by rewrite forallb_app, Hev|lia].
Qed.

(** Draining keep-alives drops keep-alives. *)
Lemma drain_items acc r its :
  forallb item_ok its = true → acc +:+ r = stream_of its →
  drained r its acc (drain_leading_crlf_keepalives tracked acc).
Proof.
  enough (∀ n acc its, String.length acc ≤ n → forallb item_ok its = true →
    acc +:+ r = stream_of its → drained r its acc (drain_leading_crlf_keepalives tracked acc)) by eauto.
  clear acc its. induction n as [|n IH]; intros acc its Hn Hok Hs.
  all: destruct acc as [|a [|b acc]]; try (by exists its); cbn in Hn; try lia.
  { exists its. split_and!; try done. unfold starts_with. cbn. by destruct (is_byte CR a). }
  cbn [drain_leading_crlf_keepalives]. destruct (is_byte CR a && is_byte LF b) eqn:Hab.
  2: { exists its. split_and!; try done. unfold starts_with. cbn.
       by destruct (is_byte CR a), (is_byte LF b). }
  apply andb_prop in Hab as [<-%bool_decide_eq_true <-%bool_decide_eq_true].
  apply keepalive_first in Hs as (its' & -> & Hok' & Hs); [|done].
  assert (drained r (KeepAlive :: its') (String CR (String LF acc))
    (let '(ev, s) := drain_leading_crlf_keepalives tracked acc in
     ((if tracked then [RecordPong] else []) ++ ev, s))) as Hpong.
  { eapply (drained_more r _ its' _ acc); [by apply IH; [lia|..]|done|by destruct tracked|cbn; lia]. }
  destruct acc as [|c [|d u]]; [done..|]. destruct (is_byte CR c && is_byte LF d) eqn:Hcd; [|done].
  clear Hpong. apply andb_prop in Hcd as [<-%bool_decide_eq_true <-%bool_decide_eq_true].
  apply keepalive_first in Hs as (its2 & -> & Hok2 & Hs); [|done].
  eapply (drained_more r _ its2 _ u [SendPong]); [apply IH; [cbn in *; lia|done..]|done|done|cbn; lia].
Qed.

(** ** The loop *)

(** Nothing more can be framed: the accumulator is a part of the next item. *)
Definition stuck (acc : bytes) (its : list item) : Prop :=
  acc = "" ∨ ∃ i its' z, its = i :: its' ∧ z ≠ "" ∧ item_text i = acc +:+ z.

Definition deliveries (ev : list StreamEvent) : list bytes :=
  omap (λ e, match e with Deliver d => Some d | _ => None end) ev.

(** Events of a connection that behaves. *)
Definition is_orderly (e : StreamEvent) : bool :=
  match e with SendResponse _ | RecordMalformed => false | _ => true end.

Lemma pongs_orderly ev :
  forallb is_pong ev = true → forallb is_orderly ev = true ∧ deliveries ev = [].
Proof.
  induction ev as [|e ev IH]; [done|]. cbn [forallb]. intros [He Hev]%andb_prop.
  destruct (IH Hev) as [H1 H2]. by destruct e.
Qed.

Context {U : Unicode} {P : Nom}.

(** The accumulator holds a whole message, or waits for more. *)
Lemma next_item acc r its :
  forallb item_ok its = true → acc +:+ r = stream_of its → acc ≠ "" → starts_with CRLF acc = false →
  (∃ m t its', its = Msg m :: its' ∧ acc = m +:+ t ∧ t +:+ r = stream_of its') ∨
  stuck acc its ∧ frame_sip_message acc max = NeedMore.
Proof.
  intros Hok Hs Hne Hcrlf. destruct its as [|i its]; [by destruct acc|].
  cbn in Hok. apply andb_prop in Hok as [Hi Hok]. rewrite stream_cons in Hs.
  assert ((∃ t, acc = item_text i +:+ t ∧ t +:+ r = stream_of its) ∨
    ∃ z, z ≠ "" ∧ item_text i = acc +:+ z) as Hcut.
  { destruct (cut_compare _ _ _ _ Hs) as [(z & Hz & Hr)|(z & Hz & Ha & Hr)].
    - destruct z as [|b z]; [|by right; exists (String b z)]. left. exists "".
      rewrite append_nil_r in *. by rewrite append_nil_l in *.
    - left. by exists z. }
  destruct i as [m|]; destruct Hcut as [(t & Ha & Ht)|(z & Hz & Hi')]; cbn [item_text] in *.
  - left. by exists m, t, its.
  - right. split; [right; by exists (Msg m), its, z|]. eapply frame_partial; [|done|exact Hz]. by rewrite <-Hi'.
  - by rewrite Ha, starts_with_app in Hcrlf.
  - right. split; [right; by exists KeepAlive, its, z|].
    destruct acc as [|a [|b acc]]; [done|..]; rewrite !append_cons in Hi'.
    + injection Hi' as <- _. done.
    + injection Hi' as <- <- Hz'. by destruct acc, z.
Qed.

Lemma substring_rest s t :
  String.substring (String.length s) (String.length (s +:+ t) - String.length s) (s +:+ t) = t.
Proof.
  induction s as [|a s IH]; [by rewrite append_nil_l, Nat.sub_0_r, substring_whole|].
  rewrite append_cons. exact IH.
Qed.

Lemma frame_loop_items fuel acc r its :
  String.length acc < fuel → forallb item_ok its = true → acc +:+ r = stream_of its →
  ∃ ev acc' its', frame_loop max tracked fuel acc = Some (ev, Some acc') ∧
    acc' +:+ r = stream_of its' ∧ forallb item_ok its' = true ∧
    deliveries ev ++ messages its' = messages its ∧ forallb is_orderly ev = true ∧ stuck acc' its'.
Proof.
  revert acc its. induction fuel as [|fuel IH]; intros acc its Hf Hok Hs; [lia|]. cbn [frame_loop].
  pose proof (drain_items acc r its Hok Hs) as Hd.
  destruct (drain_leading_crlf_keepalives tracked acc) as [ev acc1].
  destruct Hd as (its1 & Hs1 & Hok1 & Hm1 & Hev & Hlen & Hcrlf).
  apply pongs_orderly in Hev as [Hev Hdel].
  assert (stuck acc1 its1 → ∃ ev' acc' its', Some (ev, Some acc1) = Some (ev', Some acc') ∧
    acc' +:+ r = stream_of its' ∧ forallb item_ok its' = true ∧
    deliveries ev' ++ messages its' = messages its ∧ forallb is_orderly ev' = true ∧ stuck acc' its')
    as Hwait.
  { intros Hst. exists ev, acc1, its1. split_and!; try done. by rewrite Hdel. }
  destruct (is_empty acc1) eqn:He; [apply Hwait; left; by destruct acc1|].
  destruct (next_item acc1 r its1) as [(m & t & its2 & -> & -> & Hs2)|[Hst Hneed]]; [done|done|by intros ->|done| |].
  - cbn in Hok1. apply andb_prop in Hok1 as [Hm Hok2]. rewrite (frame_complete m t Hm).
    replace (N.to_nat (blen m)) with (String.length m) by (unfold blen; lia).
    rewrite substring_app, substring_rest.
    assert (String.length t < fuel) as Ht.
    { pose proof (item_not_empty (Msg m) Hm). rewrite str_length_app in Hlen. cbn in *.
      destruct m; [done|]. cbn in *. lia. }
    destruct (IH t its2 Ht Hok2 Hs2) as (ev' & acc' & its' & -> & Hs' & Hok' & Hm' & Hev' & Hst).
    cbn [mbind option_bind]. eexists _, acc', its'. split_and!; [done..| | |done].
    + unfold deliveries. rewrite omap_app. fold (deliveries ev). rewrite Hdel. cbn.
      fold (deliveries ev'). rewrite Hm', <-Hm1. done.
    + rewrite forallb_app, Hev. cbn. done.
  - rewrite Hneed. by apply Hwait.
Qed.

Lemma read_chunks_items chunks acc r its :
  forallb item_ok its = true → acc +:+ str_concat chunks +:+ r = stream_of its → stuck acc its →
  ∃ ev acc' its', read_chunks max tracked acc chunks = Some (ev, Some acc') ∧
    acc' +:+ r = stream_of its' ∧ forallb item_ok its' = true ∧
    deliveries ev ++ messages its' = messages its ∧ forallb is_orderly ev = true ∧ stuck acc' its'.
Proof.
  revert acc its. induction chunks as [|c chunks IH]; intros acc its Hok Hs Hst; cbn [read_chunks].
  { exists [], acc, its. by split_and!. }
  unfold read_step. cbn [str_concat] in Hs. rewrite append_assoc, <-(append_assoc acc) in Hs.
  destruct (frame_loop_items (S (String.length (acc +:+ c))) (acc +:+ c) _ its ltac:(lia) Hok Hs)
    as (ev & acc1 & its1 & -> & Hs1 & Hok1 & Hm1 & Hev & Hst1).
  cbn [mbind option_bind].
  destruct (IH acc1 its1 Hok1 Hs1 Hst1) as (ev2 & acc2 & its2 & -> & Hs2 & Hok2 & Hm2 & Hev2 & Hst2).
  cbn [mbind option_bind]. eexists _, acc2, its2. split_and!; [done..| | |done].
  - unfold deliveries in *. by rewrite omap_app, <-(assoc_L (++)), Hm2.
  - by rewrite forallb_app, Hev.
Qed.

(** At the end of the stream nothing is left. *)
Lemma stuck_end acc its :
  forallb item_ok its = true → acc = stream_of its → stuck acc its → acc = "" ∧ its = [].
Proof.
  intros Hok Hs Hst. destruct its as [|i its]; [by destruct Hst as [->|(?&?&?&?&?)]|].
  cbn in Hok. apply andb_prop in Hok as [Hi _]. rewrite stream_cons in Hs.
  pose proof (item_not_empty i Hi) as Hne. destruct Hst as [->|(i' & its' & z & [= <- <-] & Hz & Ht)].
  - by destruct (item_text i).
  - exfalso. rewrite Hs in Ht. apply (f_equal String.length) in Ht. rewrite !str_length_app in Ht.
    destruct z; [done|]. cbn in Ht. lia.
Qed.
End stream.

(** C12: Framing of well-formed traffic does not depend on how the stream is cut
    up.  Let a peer write messages with CRLF keep-alives between them, each
    message with a Content-Length that is the length of its body, a SIP start
    line, within the size limit, with a header block of at most 64 KiB and no
    control byte in its first 512 octets.  However these bytes are split into
    reads, the read task delivers exactly these messages, in order; it reports
    nothing malformed, keeps the connection open and has nothing left over. *)
Theorem framing_chunk_independent `{U : Unicode, P : Nom} (max : N) (tracked : bool)
    (its : list item) (chunks : list bytes) :
  forallb (item_ok max) its = true → str_concat chunks = stream_of its →
  ∃ events, read_chunks max tracked "" chunks = Some (events, Some "") ∧
    deliveries events = messages its ∧ forallb is_orderly events = true.
Proof.
  intros Hok Hs.
  destruct (read_chunks_items max tracked chunks "" "" its) as (ev & acc & its' & Hr & Hs' & Hok' & Hm & Hev & Hst).
  - done.
  - by rewrite append_nil_l, append_nil_r.
  - by left.
  - rewrite append_nil_r in Hs'. destruct (stuck_end max acc its' Hok' Hs' Hst) as [-> ->].
    exists ev. rewrite app_nil_r in Hm. by split_and!.
Qed.

Definition wire_sample : bytes :=
  "OPTIONS sip:a SIP/2.0" +:+ CRLF +:+ "Content-Length: 2" +:+ CRLF +:+ CRLF +:+ "ab".

(** The sample twice with a keep-alive between, cut inside a line end, inside
    the keep-alive and inside the body. *)
Definition wire_chunks : list bytes :=
  let s := wire_sample +:+ CRLF +:+ wire_sample in
  [String.substring 0 22 s; String.substring 22 23 s; String.substring 45 22 s;
   String.substring 67 100 s].

Lemma framing_chunk_independent_witness :
  ∃ events, @read_chunks unicode_ascii nom_reference 100 true "" wire_chunks = Some (events, Some "") ∧
    deliveries events = [wire_sample; wire_sample].
Proof.
  destruct (@framing_chunk_independent unicode_ascii nom_reference 100 true
    [Msg wire_sample; KeepAlive; Msg wire_sample] wire_chunks
    ltac:(vm_compute; reflexivity) ltac:(vm_compute; reflexivity)) as (events & H1 & H2 & _).
  exact (ex_intro _ events (conj H1 H2)).
Defined.

(** Of a message with a control byte in its header block the cut does decide:
    read at once it is delivered, read in two parts it closes the connection. *)
Example control_byte_depends_on_cut :
  let s := "OPTIONS sip:a SIP/2.0" +:+ CRLF +:+ "X: " +:+ String "001" "" +:+ CRLF +:+
           "Content-Length: 0" +:+ CRLF +:+ CRLF in
  let read := @read_chunks unicode_ascii nom_reference 100 true "" in
  (∃ events, read [s] = Some (events, Some "") ∧ deliveries events = [s]) ∧
  (∃ events, read [String.substring 0 40 s; String.substring 40 100 s] = Some (events, None) ∧
     deliveries events = []).
Proof. vm_compute. split; by eexists. Qed.
