(* ===== verification/ProxyProtocol.v ===== *)
(** * The PROXY protocol header of inbound connections
    ([src/src/transport/proxy_protocol.rs])

    A front that terminates a connection sends the endpoints of its client ahead
    of the payload: a text line (version 1) or a binary header (version 2).
    [parse] is the pure classifier of the bytes seen so far, [read_proxy_header]
    the loop that reads until it decides, [accept_proxied] what the accept site
    makes of it.  A connection is the segments its reads return, and how it
    ends. *)

From S2P Require Import Prelude Str Bytes Transport.

Module Proxy.
#[local] Open Scope N_scope.

Definition V1_PREFIX : bytes := "PROXY ".

Definition V2_SIGNATURE : bytes :=
  String "013" (String "010" (String "013" (String "010" (String "000"
    (String "013" (String "010" ("QUIT" +:+ String "010" ""))))))).

Abbreviation V1_MAX_LEN := 108%N (only parsing).
Abbreviation V2_HEADER_LEN := 16%N (only parsing).
Abbreviation V2_MAX_BODY := 1024%N (only parsing).
Abbreviation V2_CMD_PROXY := 1%N (only parsing).
Abbreviation V2_CMD_LOCAL := 0%N (only parsing).
Abbreviation V2_TCP4 := 17%N (only parsing).
Abbreviation V2_TCP6 := 33%N (only parsing).
Abbreviation PP2_TYPE_SSL := 32%N (only parsing).
Abbreviation PP2_SUBTYPE_SSL_VERSION := 33%N (only parsing).
Abbreviation PP2_CLIENT_SSL := 1%N (only parsing).

Record EdgeTls := mkEdgeTls {
  used_tls : bool;
  client_cert_verified : bool;
  version : option string;
}.

Record ProxiedAddresses := mkProxied {
  source : SocketAddr;
  destination : SocketAddr;
  edge_tls : option EdgeTls;
}.

Inductive ProxyHeader :=
  | Decided (addresses : ProxiedAddresses) (consumed : N)
  | NeedMore
  | NoAddresses (consumed : N)
  | Invalid.

Definition starts_with_or_is_prefix_of (buffer signature : bytes) : bool :=
  if blen signature <=? blen buffer then starts_with signature buffer else starts_with buffer signature.

(** ** Version 1 *)

Definition socket_addr (ip_text port : string) (family : N) : option SocketAddr :=
  ip ← Ip.parse ip_text;
  if match ip with V4 _ => family =? V2_TCP4 | V6 _ => family =? V2_TCP6 end
  then port ← parse_uint U16_MAX port; Some (mkSocket ip port)
  else None.

(** The fields after the family. *)
Definition v1_addresses (fields : list string) (family : N) (consumed : N) : ProxyHeader :=
  match fields with
  | [source_ip; destination_ip; source_port; destination_port] =>
      match socket_addr source_ip source_port family,
            socket_addr destination_ip destination_port family with
      | Some source, Some destination => Decided (mkProxied source destination None) consumed
      | _, _ => Invalid
      end
  | _ => Invalid
  end.

Definition parse_v1 (buffer : bytes) : ProxyHeader :=
  match find_str CRLF buffer with
  | None => if V1_MAX_LEN <=? blen buffer then Invalid else NeedMore
  | Some (line, _) =>
      let consumed := blen line + 2 in
      if V1_MAX_LEN <? consumed then Invalid else
      if negb (utf8_valid line) then Invalid else
      match split " " line with
      | "PROXY" :: "TCP4" :: fields => v1_addresses fields V2_TCP4 consumed
      | "PROXY" :: "TCP6" :: fields => v1_addresses fields V2_TCP6 consumed
      | "PROXY" :: "UNKNOWN" :: _ => NoAddresses consumed
      | _ => Invalid
      end
  end.

(** ** Version 2 *)

(** The TLVs inside a [PP2_TYPE_SSL] value: the last readable version wins. *)
Fixpoint nested_version (fuel : nat) (nested : bytes) (found : option string) : option string :=
  match fuel with
  | O => found
  | S fuel =>
      if blen nested <? 3 then found else
      let length := from_be (sub 1 2 nested) in
      if blen nested <? 3 + length then found else
      let value := sub 3 (N.to_nat length) nested in
      let found := if from_be (sub 0 1 nested) =? PP2_SUBTYPE_SSL_VERSION
                   then if utf8_valid value then Some value else None else found in
      nested_version fuel (str_drop (3 + N.to_nat length) nested) found
  end.

Definition parse_ssl_value (value : bytes) : EdgeTls :=
  let client := from_be (sub 0 1 value) in
  let nested := str_drop 5 value in
  mkEdgeTls (negb (N.land client PP2_CLIENT_SSL =? 0))
    ((5 <=? blen value) && (from_be (sub 1 4 value) =? 0))
    (nested_version (String.length nested) nested None).

Fixpoint parse_ssl_tlv (fuel : nat) (rest : bytes) : option EdgeTls :=
  match fuel with
  | O => None
  | S fuel =>
      if blen rest <? 3 then None else
      let length := from_be (sub 1 2 rest) in
      if blen rest <? 3 + length then None else
      if from_be (sub 0 1 rest) =? PP2_TYPE_SSL
      then Some (parse_ssl_value (sub 3 (N.to_nat length) rest))
      else parse_ssl_tlv fuel (str_drop (3 + N.to_nat length) rest)
  end.

(** The address block of [n] bytes per address, and the TLVs after it. *)
Definition v2_addresses (of_bits : N → IpAddr) (n : nat) (body : bytes) (consumed : N) : ProxyHeader :=
  if blen body <? 2 * N.of_nat n + 4 then Invalid else
  let rest := str_drop (2 * n + 4) body in
  Decided
    (mkProxied (mkSocket (of_bits (from_be (sub 0 n body))) (from_be (sub (2 * n) 2 body)))
       (mkSocket (of_bits (from_be (sub n n body))) (from_be (sub (2 * n + 2) 2 body)))
       (parse_ssl_tlv (String.length rest) rest)) consumed.

Definition parse_v2 (buffer : bytes) : ProxyHeader :=
  if blen buffer <? V2_HEADER_LEN then NeedMore else
  let ver_cmd := from_be (sub 12 1 buffer) in
  if negb (N.shiftr ver_cmd 4 =? 2) then Invalid else
  let body_len := from_be (sub 14 2 buffer) in
  if V2_MAX_BODY <? body_len then Invalid else
  let consumed := V2_HEADER_LEN + body_len in
  if blen buffer <? consumed then NeedMore else
  let body := sub 16 (N.to_nat body_len) buffer in
  let cmd := N.land ver_cmd 15 in
  if cmd =? V2_CMD_LOCAL then NoAddresses consumed else
  if negb (cmd =? V2_CMD_PROXY) then Invalid else
  let family := from_be (sub 13 1 buffer) in
  if family =? V2_TCP4 then v2_addresses V4 4 body consumed
  else if family =? V2_TCP6 then v2_addresses V6 16 body consumed
  else NoAddresses consumed.

Definition parse (buffer : bytes) : ProxyHeader :=
  if starts_with V2_SIGNATURE buffer then parse_v2 buffer
  else if starts_with V1_PREFIX buffer then parse_v1 buffer
  else if starts_with_or_is_prefix_of buffer V1_PREFIX ||
          starts_with_or_is_prefix_of buffer V2_SIGNATURE then NeedMore
  else Invalid.

(** ** The accept site *)

Definition secure_form (t : Net.Transport) : Net.Transport :=
  match t with
  | Net.WebSocket | Net.WebSocketSecure => Net.WebSocketSecure
  | Net.Udp | Net.Tcp | Net.Tls => Net.Tls
  | Net.Sctp => Net.Sctp
  end.

Definition client_transport (edge : option EdgeTls) (hop : Net.Transport) : option Net.Transport :=
  match edge with
  | Some e => if used_tls e then Some (secure_form hop) else None
  | None => None
  end.

(** How the reads end when no verdict comes: the peer closes, the deadline
    passes or the socket fails. *)
Inductive ReadError := UnexpectedEof | TimedOut | SocketError.

(** The verdict, every byte read, and the segments not read. [segments] are what
    the reads return, at most 256 bytes each; a read of nothing is the end of
    the stream. *)
Fixpoint read_proxy_header (buffer : bytes) (segments : list bytes) (ending : ReadError)
    : result ReadError (ProxyHeader * bytes * list bytes) :=
  match parse buffer with
  | NeedMore =>
      match segments with
      | [] => Err ending
      | "" :: _ => Err UnexpectedEof
      | chunk :: segments => read_proxy_header (buffer +:+ chunk) segments ending
      end
  | verdict => Ok (verdict, buffer, segments)
  end.

(** The address to key on, the client's TLS, the bytes to replay, and the
    segments not read. *)
Definition accept_proxied (segments : list bytes) (ending : ReadError) (peer : SocketAddr)
    : option (SocketAddr * option EdgeTls * bytes * list bytes) :=
  match read_proxy_header "" segments ending with
  | Err _ => None
  | Ok (Decided addresses consumed, buffer, unread) =>
      Some (source addresses, edge_tls addresses, str_drop (N.to_nat consumed) buffer, unread)
  | Ok (NoAddresses consumed, buffer, unread) =>
      Some (peer, None, str_drop (N.to_nat consumed) buffer, unread)
  | Ok _ => None
  end.

End Proxy.
