(* ===== verification/ProxyProtocolProofs.v ===== *)
(** * The PROXY header is read the same however it arrives

    A verdict on the first bytes of a connection stands whatever follows, and
    until there is one only a bounded number of bytes is held; so a header is
    accepted or refused, and the payload replayed, independently of the segments
    the connection delivers. *)

From S2P Require Import Prelude Str Bytes Transport ProxyProtocol.
Import Proxy.

#[local] Open Scope N_scope.

(** ** Prefixes *)

(** A signature still possible after more bytes was possible before them. *)
Lemma viable_before s x p :
  starts_with_or_is_prefix_of (s +:+ x) p = true → starts_with_or_is_prefix_of s p = true.
Proof.
  unfold starts_with_or_is_prefix_of. destruct (N.leb_spec (blen p) (blen (s +:+ x))) as [H1|H1];
    destruct (N.leb_spec (blen p) (blen s)) as [H2|H2].
  - by apply starts_with_long.
  - apply starts_with_short. lia.
  - rewrite blen_app in H1. lia.
  - apply starts_with_trans.
Qed.

Lemma starts_with_viable p s : starts_with p s = true → starts_with_or_is_prefix_of s p = true.
Proof.
  intros H. unfold starts_with_or_is_prefix_of. apply starts_with_spec in H as Ht. destruct Ht as [t ->].
  rewrite blen_app. by rewrite (proj2 (N.leb_le _ _)) by lia.
Qed.

Lemma sub_app i n s x :
  (i + n ≤ String.length s)%nat → sub i n (s +:+ x) = sub i n s.
Proof.
  revert i n. induction s as [|a s IH]; intros i n; cbn [String.length]; intros Hl.
  - assert (i = 0%nat) as -> by lia. assert (n = 0%nat) as -> by lia. by destruct x.
  - rewrite append_cons. destruct i as [|i]; cbn.
    + destruct n as [|n]; [done|]. f_equal. apply IH. cbn. lia.
    + apply IH. lia.
Qed.

(** ** Verdicts *)

Lemma parse_v1_stable b x : parse_v1 b ≠ NeedMore → parse_v1 (b +:+ x) = parse_v1 b.
Proof.
  unfold parse_v1. destruct (find_str CRLF b) as [[line r]|] eqn:Hf.
  - by rewrite (find_str_app _ _ x _ _ Hf).
  - destruct (N.leb_spec 108 (blen b)) as [Hl|]; [|done]. intros _.
    destruct (find_str CRLF (b +:+ x)) as [[line r]|] eqn:Hf'.
    + apply (find_str_new _ _ _ _ _ Hf) in Hf'. change (blen CRLF) with 2 in Hf'.
      by rewrite (proj2 (N.ltb_lt _ _)) by lia.
    + rewrite blen_app. by rewrite (proj2 (N.leb_le _ _)) by lia.
Qed.

Lemma parse_v2_stable b x : parse_v2 b ≠ NeedMore → parse_v2 (b +:+ x) = parse_v2 b.
Proof.
  unfold parse_v2. rewrite blen_app. destruct (N.ltb_spec (blen b) 16) as [|Hl]; [done|].
  rewrite (proj2 (N.ltb_ge (blen b + blen x) 16)) by lia. unfold blen in Hl.
  rewrite !(sub_app 12), !(sub_app 13), !(sub_app 14) by lia.
  destruct (negb _); [done|]. destruct (1024 <? _); [done|].
  set (n := from_be (sub 14 2 b)). destruct (N.ltb_spec (blen b) (16 + n)) as [|Hn]; [done|].
  rewrite (proj2 (N.ltb_ge (blen b + blen x) (16 + n))) by lia.
  rewrite (sub_app 16) by (unfold blen in Hn; lia). done.
Qed.

Lemma v1_not_v2 b x : starts_with V1_PREFIX b = true → starts_with V2_SIGNATURE (b +:+ x) = false.
Proof. intros [t ->]%starts_with_spec. by rewrite append_assoc. Qed.

(** What is decided of the first bytes is decided of the connection. *)
Lemma parse_stable b x : parse b ≠ NeedMore → parse (b +:+ x) = parse b.
Proof.
  unfold parse. destruct (starts_with V2_SIGNATURE b) eqn:H2.
  { rewrite (starts_with_mono _ _ x H2). apply parse_v2_stable. }
  destruct (starts_with V1_PREFIX b) eqn:H1.
  { rewrite (v1_not_v2 _ x H1), (starts_with_mono _ _ x H1). apply parse_v1_stable. }
  destruct (starts_with_or_is_prefix_of b V1_PREFIX) eqn:Hp1; [done|].
  destruct (starts_with_or_is_prefix_of b V2_SIGNATURE) eqn:Hp2; [done|]. cbn. intros _.
  assert (∀ p, starts_with_or_is_prefix_of b p = false →
    starts_with_or_is_prefix_of (b +:+ x) p = false ∧ starts_with p (b +:+ x) = false) as Hv.
  { intros p Hp. assert (starts_with_or_is_prefix_of (b +:+ x) p = false) as Hx.
    { apply not_true_iff_false. intros Ht%viable_before. congruence. }
    split; [done|]. apply not_true_iff_false. intros Ht%starts_with_viable. congruence. }
  destruct (Hv _ Hp1) as [-> ->], (Hv _ Hp2) as [-> ->]. done.
Qed.

(** A header undecided is shorter than the longest one. *)
Lemma need_more_short b : parse b = NeedMore → blen b < 1040.
Proof.
  unfold parse. destruct (starts_with V2_SIGNATURE b) eqn:H2.
  { unfold parse_v2. destruct (N.ltb_spec (blen b) 16); [lia|]. destruct (negb _); [done|].
    destruct (N.ltb_spec 1024 (from_be (sub 14 2 b))); [done|].
    destruct (N.ltb_spec (blen b) (16 + from_be (sub 14 2 b))); [lia|].
    unfold v2_addresses. by repeat case_match. }
  destruct (starts_with V1_PREFIX b) eqn:H1.
  { unfold parse_v1. destruct (find_str CRLF b) as [[line r]|].
    - unfold v1_addresses. by repeat case_match.
    - destruct (N.leb_spec 108 (blen b)); [done|lia]. }
  unfold starts_with_or_is_prefix_of. rewrite H1, H2.
  change (blen V1_PREFIX) with 6. change (blen V2_SIGNATURE) with 12.
  destruct (N.leb_spec 12 (blen b)); [|lia]. by rewrite (proj2 (N.leb_le 6 (blen b))) by lia.
Qed.

(** The header is part of what was read. *)
Definition consumed_of (v : ProxyHeader) : N :=
  match v with Decided _ n | NoAddresses n => n | _ => 0 end.

Lemma parse_consumed b : consumed_of (parse b) <= blen b.
Proof.
  unfold parse. destruct (starts_with V2_SIGNATURE b).
  { unfold parse_v2. destruct (blen b <? 16); [cbn; lia|]. destruct (negb _); [cbn; lia|].
    destruct (1024 <? _); [cbn; lia|].
    destruct (N.ltb_spec (blen b) (16 + from_be (sub 14 2 b))); [cbn; lia|].
    unfold v2_addresses. repeat case_match; cbn; lia. }
  destruct (starts_with V1_PREFIX b); [|repeat case_match; cbn; lia].
  unfold parse_v1. destruct (find_str CRLF b) as [[line r]|] eqn:Hf; [|case_match; cbn; lia].
  apply find_str_Some in Hf as (-> & t & ->). rewrite !blen_app. change (blen CRLF) with 2.
  unfold v1_addresses. repeat case_match; cbn; lia.
Qed.

(** ** The read loop *)

(** Reads that return something, and at most the 256 bytes of the chunk. *)
Definition read_chunk (c : bytes) : Prop := c ≠ "" ∧ blen c <= 256.

Lemma read_step_chunk b c segs ending :
  read_chunk c → parse b = NeedMore →
  read_proxy_header b (c :: segs) ending = read_proxy_header (b +:+ c) segs ending.
Proof. intros [Hc _] Hp. cbn [read_proxy_header]. rewrite Hp. by destruct c. Qed.

Lemma read_proxy_header_spec b segs ending :
  Forall read_chunk segs →
  match read_proxy_header b segs ending with
  | Ok (v, buffer, unread) =>
      v = parse buffer ∧ v ≠ NeedMore ∧ buffer +:+ str_concat unread = b +:+ str_concat segs
  | Err e => e = ending ∧ parse (b +:+ str_concat segs) = NeedMore
  end.
Proof.
  intros Hs. revert b. induction Hs as [|c segs Hc Hs IH]; intros b.
  - cbn. rewrite append_nil_r. destruct (parse b) eqn:Hp; cbn [str_concat];
      by rewrite ?append_nil_r, ?Hp.
  - destruct (parse b) eqn:Hp; try (cbn [read_proxy_header]; by rewrite Hp).
    rewrite read_step_chunk by done. specialize (IH (b +:+ c)).
    rewrite append_assoc in IH. done.
Qed.

Lemma str_drop_prefix n s t :
  (n ≤ String.length s)%nat → str_drop n (s +:+ t) = str_drop n s +:+ t.
Proof.
  revert s. induction n as [|n IH]; intros [|a s]; cbn [String.length]; intros; try done; [lia|].
  rewrite append_cons. apply IH. lia.
Qed.

(** C13: Whatever segments a connection delivers its first bytes in, the accept
    site does what [parse] says of all of them at once: it takes the addresses
    of the header, or lets the peer's own stand, and replays exactly the bytes
    after the header; or it drops the connection, for a header that is invalid
    or never complete. *)
Theorem proxy_accept_chunk_independent (segs : list bytes) (ending : ReadError) (peer : SocketAddr) :
  Forall read_chunk segs →
  let stream := str_concat segs in
  let replayed (who : SocketAddr) (tls : option EdgeTls) (n : N) :=
    ∃ replay unread, accept_proxied segs ending peer = Some (who, tls, replay, unread) ∧
      replay +:+ str_concat unread = str_drop (N.to_nat n) stream in
  match parse stream with
  | Decided addresses n => replayed (source addresses) (edge_tls addresses) n
  | NoAddresses n => replayed peer None n
  | NeedMore | Invalid => accept_proxied segs ending peer = None
  end.
Proof.
  intros Hs. cbv zeta. unfold accept_proxied.
  pose proof (read_proxy_header_spec "" segs ending Hs) as Hr.
  rewrite append_nil_l in Hr. destruct (read_proxy_header "" segs ending) as [[[v buffer] unread]|e].
  - destruct Hr as (-> & Hv & <-). rewrite (parse_stable _ _ Hv).
    pose proof (parse_consumed buffer) as Hc. unfold blen in Hc.
    destruct (parse buffer); [|done| |done]; cbn in Hc;
      (eexists _, _; split; [done|]; by rewrite str_drop_prefix by lia).
  - destruct Hr as [_ ->]. done.
Qed.

Definition proxied_register : list bytes :=
  ["PROX"; "Y TCP4 10.0.0.1 10.0.0.2 5060 5061" +:+ CRLF +:+ "REG"; "ISTER"].

Lemma proxy_accept_chunk_independent_witness :
  ∃ replay unread,
    accept_proxied proxied_register TimedOut (mkSocket (V4 1) 1) =
      Some (mkSocket (V4 167772161) 5060, None, replay, unread) ∧
    replay +:+ str_concat unread = str_drop 40 (str_concat proxied_register).
Proof.
  refine (proxy_accept_chunk_independent proxied_register TimedOut (mkSocket (V4 1) 1) _).
  repeat constructor; by vm_compute.
Defined.

Lemma read_proxy_header_bound b segs ending :
  Forall read_chunk segs → blen b < 1296 →
  match read_proxy_header b segs ending with
  | Ok (_, buffer, _) => blen buffer < 1296
  | Err _ => blen (b +:+ str_concat segs) < 1040
  end.
Proof.
  intros Hs. revert b. induction Hs as [|c segs Hc Hs IH]; intros b Hb.
  - cbn. destruct (parse b) eqn:Hp; try done. rewrite append_nil_r. by apply need_more_short.
  - destruct (parse b) eqn:Hp; try (cbn [read_proxy_header]; by rewrite Hp).
    rewrite read_step_chunk by done. specialize (IH (b +:+ c)).
    rewrite append_assoc in IH. apply IH. rewrite blen_app.
    apply need_more_short in Hp. destruct Hc. lia.
Qed.

(** A peer cannot make the accept site hold on to its bytes: reading at most
    256 at a time it has decided before 1296 are buffered, and a connection that
    ended undecided sent fewer than 1040. *)
Theorem proxy_header_read_bounded (segs : list bytes) (ending : ReadError) :
  Forall read_chunk segs →
  match read_proxy_header "" segs ending with
  | Ok (_, buffer, _) => blen buffer < 1296
  | Err e => e = ending ∧ blen (str_concat segs) < 1040
  end.
Proof.
  intros Hs. pose proof (read_proxy_header_bound "" segs ending Hs ltac:(done)) as Hb.
  pose proof (read_proxy_header_spec "" segs ending Hs) as Hr.
  destruct (read_proxy_header "" segs ending) as [[[v buffer] unread]|e]; [done|].
  destruct Hr as [-> _]. by rewrite append_nil_l in Hb.
Qed.

Lemma proxy_header_read_bounded_witness :
  match read_proxy_header "" ["PROX"; "Y TCP4 10.0.0.1 10"] TimedOut with
  | Ok (_, buffer, _) => blen buffer < 1296
  | Err e => e = TimedOut ∧ blen (str_concat ["PROX"; "Y TCP4 10.0.0.1 10"]) < 1040
  end.
Proof. apply proxy_header_read_bounded. repeat constructor; by vm_compute. Defined.

(** ** What a front sends *)

(** A version 2 header for a TCP connection, as the specification has it: the
    endpoints, then TLVs. *)
Definition v2_wire (n : nat) (family : N) (src dst sport dport : N) (tlvs : bytes) : bytes :=
  V2_SIGNATURE +:+ to_be 1 33 +:+ to_be 1 family +:+ to_be 2 (2 * N.of_nat n + 4 + blen tlvs) +:+
  to_be n src +:+ to_be n dst +:+ to_be 2 sport +:+ to_be 2 dport +:+ tlvs.

Lemma field_at pre k n t i :
  i = String.length pre → n < 256 ^ N.of_nat k → from_be (sub i k (pre +:+ to_be k n +:+ t)) = n.
Proof.
  intros -> Hn. rewrite <-(Nat.add_0_r (String.length pre)), sub_skip. by apply field_read.
Qed.

Lemma v2_addresses_wire of_bits n src dst sport dport tlvs consumed :
  src < 256 ^ N.of_nat n → dst < 256 ^ N.of_nat n → sport < 65536 → dport < 65536 →
  v2_addresses of_bits n (to_be n src +:+ to_be n dst +:+ to_be 2 sport +:+ to_be 2 dport +:+ tlvs) consumed =
  Decided (mkProxied (mkSocket (of_bits src) sport) (mkSocket (of_bits dst) dport)
             (parse_ssl_tlv (String.length tlvs) tlvs)) consumed.
Proof.
  intros Hs Hd Hsp Hdp. unfold v2_addresses. rewrite !blen_app, !blen_to_be.
  rewrite (proj2 (N.ltb_ge _ _)) by lia.
  set (body := to_be n src +:+ _).
  assert (str_drop (2 * n + 4) body = tlvs) as ->.
  { subst body. rewrite <-!append_assoc.
    replace (2 * n + 4)%nat
      with (String.length (((to_be n src +:+ to_be n dst) +:+ to_be 2 sport) +:+ to_be 2 dport));
      [apply str_drop_app|]. rewrite !str_length_app, !to_be_length. lia. }
  subst body. f_equal. f_equal; f_equal.
  - f_equal. by apply (field_at "").
  - rewrite <-append_assoc. apply (field_at (_ +:+ _)); [|done]. rewrite str_length_app, !to_be_length. lia.
  - f_equal. apply field_at; [by rewrite to_be_length|done].
  - rewrite <-!append_assoc. rewrite append_assoc. apply (field_at (_ +:+ _)); [|done].
    rewrite !str_length_app, !to_be_length. lia.
Qed.

(** The endpoints and the TLVs of the header are decoded, and the payload after
    it is not touched. *)
Theorem v2_wire_decoded n family src dst sport dport tlvs payload :
  (n = 4%nat ∧ family = V2_TCP4 ∨ n = 16%nat ∧ family = V2_TCP6) →
  src < 256 ^ N.of_nat n → dst < 256 ^ N.of_nat n → sport < 65536 → dport < 65536 →
  2 * N.of_nat n + 4 + blen tlvs <= V2_MAX_BODY →
  let of_bits := if family =? V2_TCP4 then V4 else V6 in
  let wire := v2_wire n family src dst sport dport tlvs in
  parse (wire +:+ payload) =
  Decided (mkProxied (mkSocket (of_bits src) sport) (mkSocket (of_bits dst) dport)
             (parse_ssl_tlv (String.length tlvs) tlvs)) (blen wire).
Proof.
  intros Hf Hs Hd Hsp Hdp Hl. cbv zeta.
  assert (family < 256) by (destruct Hf as [[_ ->]|[_ ->]]; done).
  set (wire := v2_wire n family src dst sport dport tlvs).
  set (body := to_be n src +:+ to_be n dst +:+ to_be 2 sport +:+ to_be 2 dport +:+ tlvs).
  assert (blen body = 2 * N.of_nat n + 4 + blen tlvs) as Hb
    by (subst body; rewrite !blen_app, !blen_to_be; lia).
  assert (wire = V2_SIGNATURE +:+ to_be 1 33 +:+ to_be 1 family +:+ to_be 2 (blen body) +:+ body) as Hw
    by (by rewrite Hb).
  assert (blen wire = 16 + blen body) as Hbw by (rewrite Hw, !blen_app, !blen_to_be; change (blen V2_SIGNATURE) with 12; lia).
  assert (parse wire = Decided (mkProxied (mkSocket ((if family =? V2_TCP4 then V4 else V6) src) sport)
    (mkSocket ((if family =? V2_TCP4 then V4 else V6) dst) dport)
    (parse_ssl_tlv (String.length tlvs) tlvs)) (blen wire)) as Hp; [|by rewrite parse_stable; rewrite Hp].
  unfold parse. rewrite Hw, starts_with_app, <-Hw. unfold parse_v2. rewrite Hbw.
  rewrite (proj2 (N.ltb_ge _ _)) by lia.
  assert (from_be (sub 12 1 wire) = 33) as -> by (rewrite Hw; by apply field_at).
  assert (from_be (sub 13 1 wire) = family) as ->.
  { rewrite Hw, <-(append_assoc V2_SIGNATURE). by apply field_at. }
  assert (from_be (sub 14 2 wire) = blen body) as ->.
  { rewrite Hw, <-(append_assoc (to_be 1 33)), <-(append_assoc V2_SIGNATURE). apply field_at; [done|].
    change (256 ^ N.of_nat 2) with 65536. lia. }
  assert (sub 16 (N.to_nat (blen body)) wire = body) as ->.
  { rewrite Hw, <-(append_assoc (to_be 1 family)), <-(append_assoc (to_be 1 33)), <-(append_assoc V2_SIGNATURE).
    set (pre := V2_SIGNATURE +:+ _). assert (16 = String.length pre + 0)%nat as ->.
    { subst pre. by rewrite !str_length_app, !to_be_length. }
    rewrite sub_skip. unfold blen. rewrite Nat2N.id. apply substring_whole. }
  cbn -[blen N.ltb v2_addresses]. rewrite (proj2 (N.ltb_ge 1024 _)) by lia. rewrite N.ltb_irrefl.
  destruct Hf as [[-> ->]|[-> ->]]; by apply v2_addresses_wire.
Qed.

(** ** Fuel *)

(** Each TLV takes at least three octets off the rest. *)
Lemma nested_version_enough fuel fuel' nested found :
  (String.length nested ≤ fuel)%nat → (String.length nested ≤ fuel')%nat →
  nested_version fuel nested found = nested_version fuel' nested found.
Proof.
  revert fuel' nested found. induction fuel as [|fuel IH]; intros [|fuel'] nested found H H'; cbn [nested_version];
    [done|destruct nested; [done|cbn in H; lia]|destruct nested; [done|cbn in H'; lia]|].
  destruct (N.ltb_spec (blen nested) 3); [done|]. destruct (N.ltb_spec (blen nested) (3 + from_be (sub 1 2 nested))); [done|].
  apply IH; rewrite str_drop_length; unfold blen in *; lia.
Qed.

Lemma parse_ssl_tlv_enough fuel fuel' rest :
  (String.length rest ≤ fuel)%nat → (String.length rest ≤ fuel')%nat →
  parse_ssl_tlv fuel rest = parse_ssl_tlv fuel' rest.
Proof.
  revert fuel' rest. induction fuel as [|fuel IH]; intros [|fuel'] rest H H'; cbn [parse_ssl_tlv];
    [done|destruct rest; [done|cbn in H; lia]|destruct rest; [done|cbn in H'; lia]|].
  destruct (N.ltb_spec (blen rest) 3); [done|]. destruct (N.ltb_spec (blen rest) (3 + from_be (sub 1 2 rest))); [done|].
  destruct (_ =? PP2_TYPE_SSL)%N; [done|]. apply IH; rewrite str_drop_length; unfold blen in *; lia.
Qed.
