(* ===== verification/Limiter.v ===== *)
(** * The connection limiter ([src/src/security.rs])

    Inbound stream connections take one established-connection slot and one
    handshake slot, each counted in total and per source, before they are
    served; the permit that holds them gives them back when it is dropped.
    [Limiter] has the operations as functions of the whole limiter.  [Tasks] has
    them as the accept tasks run them, one access to a shared counter or row at
    a time, so that the steps of any number of tasks interleave. *)

From stdpp Require Import gmap.
From S2P Require Import Prelude Transport.

#[local] Open Scope N_scope.

#[export] Instance IpAddr_countable : Countable IpAddr.
Proof.
  refine (inj_countable' (λ a, match a with V4 b => inl b | V6 b => inr b end)
            (λ x, match x with inl b => V4 b | inr b => V6 b end) _).
  by intros [].
Defined.

Module Limiter.

Record ConnectionLimits := mkLimits {
  max_handshakes_per_source : N; (* u32, as the others; 0 disables a ceiling *)
  max_handshakes : N;
  max_connections_per_source : N;
  max_connections : N;
}.

Inductive RefusedReason := HandshakesPerSource | Handshakes | ConnectionsPerSource | Connections.

Record ConnectionLimiter := mkLimiter {
  limits : ConnectionLimits;
  handshakes : gmap IpAddr N;
  connections : gmap IpAddr N;
  handshakes_total : N;   (* AtomicU32 *)
  connections_total : N;
}.

Definition new (limits : ConnectionLimits) : ConnectionLimiter := mkLimiter limits ∅ ∅ 0 0.

(** ** One slot of a counter or a map *)

Definition take_per_source (map : gmap IpAddr N) (source : IpAddr) (limit : N) : gmap IpAddr N * bool :=
  if limit =? 0 then (map, true) else
  let entry := default 0 (map !! source) in
  if limit <=? entry then (<[source := entry]> map, false)
  else (<[source := entry + 1]> map, true).

(** The decrement under the row's guard, and whether the row is to go. *)
Definition decrement_row (map : gmap IpAddr N) (source : IpAddr) : gmap IpAddr N * bool :=
  match map !! source with
  | Some entry => (<[source := entry - 1]> map, entry - 1 =? 0)
  | None => (map, false)
  end.

(** [remove_if]: the row goes if it is zero by then. *)
Definition remove_row (map : gmap IpAddr N) (source : IpAddr) : gmap IpAddr N :=
  if decide (map !! source = Some 0) then delete source map else map.

Definition release_per_source (map : gmap IpAddr N) (source : IpAddr) : gmap IpAddr N :=
  let '(map, now_empty) := decrement_row map source in
  if now_empty then remove_row map source else map.

Definition take_global (counter limit : N) : N * bool :=
  if limit =? 0 then ((counter + 1) mod 2 ^ 32, true)
  else if counter <? limit then (counter + 1, true) else (counter, false).

Definition release_global (counter : N) : N := counter - 1.

(** ** The two kinds of slot *)

Inductive Slot := Connection | Handshake.

Definition rows (k : Slot) (l : ConnectionLimiter) : gmap IpAddr N :=
  match k with Connection => connections l | Handshake => handshakes l end.
Definition total (k : Slot) (l : ConnectionLimiter) : N :=
  match k with Connection => connections_total l | Handshake => handshakes_total l end.
Definition row_limit (k : Slot) (c : ConnectionLimits) : N :=
  match k with Connection => max_connections_per_source c | Handshake => max_handshakes_per_source c end.
Definition total_limit (k : Slot) (c : ConnectionLimits) : N :=
  match k with Connection => max_connections c | Handshake => max_handshakes c end.

Definition with_rows (k : Slot) (m : gmap IpAddr N) (l : ConnectionLimiter) : ConnectionLimiter :=
  match k with
  | Connection => mkLimiter (limits l) (handshakes l) m (handshakes_total l) (connections_total l)
  | Handshake => mkLimiter (limits l) m (connections l) (handshakes_total l) (connections_total l)
  end.
Definition with_total (k : Slot) (n : N) (l : ConnectionLimiter) : ConnectionLimiter :=
  match k with
  | Connection => mkLimiter (limits l) (handshakes l) (connections l) (handshakes_total l) n
  | Handshake => mkLimiter (limits l) (handshakes l) (connections l) n (connections_total l)
  end.

Definition take_total (k : Slot) (l : ConnectionLimiter) : ConnectionLimiter * bool :=
  let '(n, ok) := take_global (total k l) (total_limit k (limits l)) in (with_total k n l, ok).
Definition take_row (k : Slot) (source : IpAddr) (l : ConnectionLimiter) : ConnectionLimiter * bool :=
  let '(m, ok) := take_per_source (rows k l) source (row_limit k (limits l)) in (with_rows k m l, ok).
Definition give_total (k : Slot) (l : ConnectionLimiter) : ConnectionLimiter :=
  with_total k (release_global (total k l)) l.
Definition give_row (k : Slot) (source : IpAddr) (l : ConnectionLimiter) : ConnectionLimiter :=
  with_rows k (release_per_source (rows k l) source) l.

(** ** Permits *)

Record AcceptPermit := mkPermit {
  metered : bool;          (* a limiter to give slots back to *)
  permit_source : IpAddr;
  handshake_held : bool;
  connection_held : bool;
}.

Definition unmetered (source : IpAddr) : AcceptPermit := mkPermit false source false false.

(** [trusted] is what the trusted networks and gateways say of the source. *)
Definition try_accept (trusted : bool) (source : IpAddr) (l : ConnectionLimiter)
    : ConnectionLimiter * result RefusedReason AcceptPermit :=
  if trusted then (l, Ok (unmetered source)) else
  let '(l, ok) := take_total Connection l in
  if negb ok then (l, Err Connections) else
  let '(l, ok) := take_row Connection source l in
  if negb ok then (give_total Connection l, Err ConnectionsPerSource) else
  let '(l, ok) := take_total Handshake l in
  if negb ok then (give_total Connection (give_row Connection source l), Err Handshakes) else
  let '(l, ok) := take_row Handshake source l in
  if negb ok
  then (give_total Connection (give_row Connection source (give_total Handshake l)), Err HandshakesPerSource)
  else (l, Ok (mkPermit true source true true)).

Definition release_slot (k : Slot) (source : IpAddr) (l : ConnectionLimiter) : ConnectionLimiter :=
  give_total k (give_row k source l).

Definition handshake_done (p : AcceptPermit) (l : ConnectionLimiter) : ConnectionLimiter * AcceptPermit :=
  if negb (handshake_held p) then (l, p) else
  (if metered p then release_slot Handshake (permit_source p) l else l,
   mkPermit (metered p) (permit_source p) false (connection_held p)).

Definition drop_permit (p : AcceptPermit) (l : ConnectionLimiter) : ConnectionLimiter :=
  if negb (metered p) then l else
  let l := if handshake_held p then release_slot Handshake (permit_source p) l else l in
  if connection_held p then release_slot Connection (permit_source p) l else l.

End Limiter.

(** ** Interleaved accept tasks *)
Module Tasks.
Import Limiter.

(** What a task holds: a slot in total, and one of its source. *)
Inductive Res := Total (k : Slot) | Row (k : Slot).

#[export] Instance Slot_eq_dec : EqDecision Slot.
Proof. solve_decision. Defined.
#[export] Instance Res_eq_dec : EqDecision Res.
Proof. solve_decision. Defined.

(** What it still has to do: give back what it holds, or remove a row it
    brought to zero. *)
Inductive Act := Give (r : Res) | Sweep (k : Slot).

Inductive Outcome := Unmetered | Refused (reason : RefusedReason) | Served | Closed.

Inductive Stage :=
  | Arrived
  | Accepting (next : Res)                      (* in [try_accept], before it takes [next] *)
  | Holding (handshake : bool)                  (* with a permit *)
  | Releasing (todo : list Act) (after : Outcome)
  | Ended (outcome : Outcome).

Definition take (r : Res) (source : IpAddr) (l : ConnectionLimiter) : ConnectionLimiter * bool :=
  match r with Total k => take_total k l | Row k => take_row k source l end.

Definition taken (r : Res) : Stage :=
  match r with
  | Total Connection => Accepting (Row Connection)
  | Row Connection => Accepting (Total Handshake)
  | Total Handshake => Accepting (Row Handshake)
  | Row Handshake => Holding true
  end.

Definition resume (todo : list Act) (after : Outcome) : Stage :=
  match todo, after with
  | [], Served => Holding false
  | [], _ => Ended after
  | _, _ => Releasing todo after
  end.

Definition not_taken (r : Res) : Stage :=
  match r with
  | Total Connection => resume [] (Refused Connections)
  | Row Connection => resume [Give (Total Connection)] (Refused ConnectionsPerSource)
  | Total Handshake => resume [Give (Row Connection); Give (Total Connection)] (Refused Handshakes)
  | Row Handshake =>
      resume [Give (Total Handshake); Give (Row Connection); Give (Total Connection)]
        (Refused HandshakesPerSource)
  end.

Definition give_back (handshake : bool) : list Act :=
  (if handshake then [Give (Row Handshake); Give (Total Handshake)] else []) ++
  [Give (Row Connection); Give (Total Connection)].

(** One step of a task. [choice] is what its surroundings decide: whether the
    source is trusted, and whether the handshake is done or the permit dropped. *)
Definition task_step (choice : bool) (source : IpAddr) (st : Stage) (l : ConnectionLimiter)
    : option (Stage * ConnectionLimiter) :=
  match st with
  | Arrived => Some (if choice then Ended Unmetered else Accepting (Total Connection), l)
  | Accepting r =>
      let '(l, ok) := take r source l in Some (if ok then taken r else not_taken r, l)
  | Holding handshake =>
      Some (if choice
            then if handshake then resume [Give (Row Handshake); Give (Total Handshake)] Served
                 else Holding false
            else resume (give_back handshake) Closed, l)
  | Releasing (Give (Total k) :: todo) after => Some (resume todo after, give_total k l)
  | Releasing (Give (Row k) :: todo) after =>
      let '(m, now_empty) := decrement_row (rows k l) source in
      Some (resume (if now_empty then Sweep k :: todo else todo) after, with_rows k m l)
  | Releasing (Sweep k :: todo) after =>
      Some (resume todo after, with_rows k (remove_row (rows k l) source) l)
  | Releasing [] _ | Ended _ => None
  end.

Abbreviation task := (IpAddr * Stage)%type (only parsing).
Definition system : Type := ConnectionLimiter * list task.

Inductive step : system → system → Prop :=
  | task_steps i choice source st st' l l' ts :
      ts !! i = Some (source, st) → task_step choice source st l = Some (st', l') →
      step (l, ts) (l', <[i := (source, st')]> ts).

(** Tasks that accept connections of [sources], on a new limiter. *)
Definition start (c : ConnectionLimits) (sources : list IpAddr) : system :=
  (new c, (λ s, (s, Arrived)) <$> sources).

Definition reachable (c : ConnectionLimits) (sources : list IpAddr) (y : system) : Prop :=
  rtc step (start c sources) y.

(** A schedule: which task makes a step, and the choice of its surroundings. *)
Fixpoint run (schedule : list (nat * bool)) (y : system) : option system :=
  match schedule with
  | [] => Some y
  | (i, choice) :: schedule =>
      '(source, st) ← y.2 !! i;
      '(st', l') ← task_step choice source st y.1;
      run schedule (l', <[i := (source, st')]> y.2)
  end.

(** The slots open permits hold: every permit one of a connection, one before
    the end of its handshake also that of a handshake; in total and of one
    source. *)
Definition of_kind (k : Slot) (handshake : bool) : bool :=
  match k with Connection => true | Handshake => handshake end.
Definition slots (k : Slot) (ts : list task) : nat :=
  sum_list_with (λ t : task, match t.2 with Holding h => Nat.b2n (of_kind k h) | _ => 0%nat end) ts.
Definition slots_of (k : Slot) (s : IpAddr) (ts : list task) : nat :=
  slots k (filter (λ t : task, t.1 = s) ts).

(** Not inside an operation. *)
Definition settled (t : task) : Prop :=
  match t.2 with Arrived | Holding _ | Ended _ => True | _ => False end.

End Tasks.
