(* ===== verification/LimiterProofs.v ===== *)
(** * The connection limiter never miscounts

    Whatever the interleaving of the accept tasks, no ceiling is passed, and as
    soon as no task is inside an operation the counters say exactly how many
    permits are open, per source and in total, with no row left of a source that
    has none. *)

From stdpp Require Import gmap.
From S2P Require Import Prelude Transport Limiter.
Import Limiter Tasks.

#[local] Open Scope N_scope.

(** ** What a task holds *)

Definition given (a : Act) : option Res := match a with Give r => Some r | Sweep _ => None end.
Definition swept (a : Act) : option Slot := match a with Sweep k => Some k | Give _ => None end.

Definition held_after (o : Outcome) : list Res :=
  match o with Served => [Total Connection; Row Connection] | _ => [] end.

Definition held (st : Stage) : list Res :=
  match st with
  | Arrived | Ended _ | Accepting (Total Connection) => []
  | Accepting (Row Connection) => [Total Connection]
  | Accepting (Total Handshake) => [Total Connection; Row Connection]
  | Accepting (Row Handshake) => [Total Connection; Row Connection; Total Handshake]
  | Holding false => [Total Connection; Row Connection]
  | Holding true => [Total Connection; Row Connection; Total Handshake; Row Handshake]
  | Releasing todo after => omap given todo ++ held_after after
  end.

Definition sweeps (st : Stage) : list Slot :=
  match st with Releasing todo _ => omap swept todo | _ => [] end.

Lemma held_resume todo o : held (resume todo o) = omap given todo ++ held_after o.
Proof. by destruct todo, o. Qed.
Lemma sweeps_resume todo o : sweeps (resume todo o) = omap swept todo.
Proof. by destruct todo, o. Qed.

(** What one step does to the limiter, to what the task holds and to the rows it
    still has to look at. *)
Inductive effect (source : IpAddr) (l : ConnectionLimiter) (h : list Res) (w : list Slot)
    : ConnectionLimiter → list Res → list Slot → Prop :=
  | nothing l' h' : l' = l ∨ (∃ r, take r source l = (l', false)) → h' ≡ₚ h →
      effect source l h w l' h' w
  | takes r l' h' : take r source l = (l', true) → h' ≡ₚ r :: h → effect source l h w l' h' w
  | gives_total k h' : h ≡ₚ Total k :: h' → effect source l h w (give_total k l) h' w
  | gives_row k h' :
      h ≡ₚ Row k :: h' →
      effect source l h w (with_rows k (decrement_row (rows k l) source).1 l) h'
        (if (decrement_row (rows k l) source).2 then k :: w else w)
  | sweeps_row k w' : w = k :: w' →
      effect source l h w (with_rows k (remove_row (rows k l) source) l) h w'.

Lemma task_step_effect choice source st l st' l' :
  task_step choice source st l = Some (st', l') →
  effect source l (held st) (sweeps st) l' (held st') (sweeps st').
Proof.
  destruct st as [|r|h|[|[[k|k]|k] todo] o|o]; cbn [task_step]; [..|done].
  - intros [= <- <-]. destruct choice; by constructor; [left|].
  - destruct (take r source l) as [m ok] eqn:Ht. intros [= <- <-]. destruct ok.
    + replace (sweeps (taken r)) with (sweeps (Accepting r)) by by destruct r as [[]|[]].
      apply (takes _ _ _ _ r); [done|]. destruct r as [[]|[]]; cbn; solve_Permutation.
    + replace (sweeps (not_taken r)) with (sweeps (Accepting r)) by by destruct r as [[]|[]].
      apply nothing; [by right; exists r|]. destruct r as [[]|[]]; cbn; solve_Permutation.
  - intros [= <- <-]. destruct choice, h; (apply nothing; [by left|]); cbn; solve_Permutation.
  - done.
  - intros [= <- <-]. rewrite held_resume, sweeps_resume. by apply gives_total.
  - destruct (decrement_row (rows k l) source) as [m e] eqn:Hd. intros [= <- <-].
    rewrite held_resume, sweeps_resume.
    replace m with (decrement_row (rows k l) source).1 by by rewrite Hd.
    replace (omap given (if e then Sweep k :: todo else todo)) with (omap given todo) by by destruct e.
    replace (omap swept (if e then Sweep k :: todo else todo))
      with (if (decrement_row (rows k l) source).2 then k :: omap swept todo else omap swept todo)
      by by rewrite Hd; destruct e.
    by apply gives_row.
  - intros [= <- <-]. rewrite held_resume, sweeps_resume. by apply sweeps_row.
Qed.

Lemma task_step_nodup choice source st l st' l' :
  task_step choice source st l = Some (st', l') → NoDup (held st) → NoDup (held st').
Proof.
  assert (∀ r, NoDup (held (taken r)) ∧ NoDup (held (not_taken r))) as Htaken.
  { intros r. split; (apply (bool_decide_unpack _); by destruct r as [[]|[]]). }
  destruct st as [|r|h|[|[[k|k]|k] todo] o|o]; cbn [task_step]; [..|done].
  - intros [= <- _] _. destruct choice; constructor.
  - destruct (take r source l) as [m ok]. intros [= <- _] _. destruct ok; apply Htaken.
  - intros [= <- _] _. apply (bool_decide_unpack _). by destruct choice, h.
  - done.
  - intros [= <- _] Hn. rewrite held_resume. cbn in Hn. by apply NoDup_cons in Hn as [_ ?].
  - destruct (decrement_row (rows k l) source) as [m e]. intros [= <- _] Hn. rewrite held_resume.
    cbn in Hn. apply NoDup_cons in Hn as [_ ?]. by destruct e.
  - intros [= <- _] Hn. by rewrite held_resume.
Qed.

(** ** Counting over the tasks *)

Definition mult (r : Res) (h : list Res) : nat := length (filter (eq r) h).

Definition count (r : Res) (ts : list task) : nat := sum_list_with (λ t : task, mult r (held t.2)) ts.
Definition count_of (k : Slot) (s : IpAddr) (ts : list task) : nat :=
  sum_list_with (λ t : task, if decide (t.1 = s) then mult (Row k) (held t.2) else 0%nat) ts.

Lemma mult_perm r h h' : h ≡ₚ h' → mult r h = mult r h'.
Proof. intros Hp. unfold mult. by rewrite Hp. Qed.

Lemma mult_cons r r' h : mult r (r' :: h) = (Nat.b2n (bool_decide (r = r')) + mult r h)%nat.
Proof. unfold mult. rewrite filter_cons. by repeat case_decide || case_bool_decide. Qed.

Lemma mult_absent r h : r ∉ h → mult r h = 0%nat.
Proof.
  induction h as [|x h IH]; [done|]. rewrite not_elem_of_cons, mult_cons. intros [Hx Hh].
  by rewrite bool_decide_false, IH.
Qed.

Lemma mult_nodup r h : NoDup h → (mult r h ≤ 1)%nat.
Proof.
  induction 1 as [|x h Hx Hn IH]; [unfold mult; cbn; lia|]. rewrite mult_cons.
  case_bool_decide as He; cbn; [|done]. subst. by rewrite mult_absent.
Qed.

Lemma sum_insert {A} (f : A → nat) ts i t t' :
  ts !! i = Some t →
  (sum_list_with f (<[i := t']> ts) + f t = sum_list_with f ts + f t')%nat.
Proof.
  revert i. induction ts as [|x ts IH]; intros [|i] Ht; [done..| |].
  - cbn in *. simplify_eq. lia.
  - change (<[S i := t']> (x :: ts)) with (x :: <[i := t']> ts). cbn [sum_list_with].
    specialize (IH i Ht). lia.
Qed.

Lemma slot_sum_le {A} (f : A → nat) ts :
  Forall (λ t, f t ≤ 1)%nat ts → (sum_list_with f ts ≤ length ts)%nat.
Proof. induction 1; cbn in *; lia. Qed.

(** ** The invariant *)

Record inv (c : ConnectionLimits) (l : ConnectionLimiter) (ts : list task) : Prop := {
  inv_limits : limits l = c;
  inv_nodup : Forall (λ t : task, NoDup (held t.2)) ts;
  inv_total k : total k l = N.of_nat (count (Total k) ts);
  inv_total_max k : total_limit k c ≠ 0 → total k l <= total_limit k c;
  inv_off k : row_limit k c = 0 → rows k l = ∅;
  inv_row k s : row_limit k c ≠ 0 → default 0 (rows k l !! s) = N.of_nat (count_of k s ts);
  inv_row_max k s : row_limit k c ≠ 0 → default 0 (rows k l !! s) <= row_limit k c;
  inv_zero k s : rows k l !! s = Some 0 → ∃ st, (s, st) ∈ ts ∧ k ∈ sweeps st;
}.

Lemma inv_start c sources : inv c (start c sources).1 (start c sources).2.
Proof.
  assert (∀ f : task → nat, (∀ s, f (s, Arrived) = 0%nat) →
    sum_list_with f ((λ s, (s, Arrived)) <$> sources) = 0%nat) as Hz.
  { intros f Hf. induction sources as [|s sources IH]; cbn; [done|]. by rewrite Hf, IH. }
  split; cbn [start fst snd new limits]; try done.
  - apply Forall_fmap, Forall_forall. intros s _. constructor.
  - intros k. unfold count. rewrite Hz by done. by destruct k.
  - destruct k; cbn; lia.
  - by destruct k.
  - intros k s _. unfold count_of. rewrite Hz by (intros; by case_decide). by destruct k.
  - intros k s _. destruct k; cbn; rewrite lookup_empty; cbn; lia.
  - intros k s. destruct k; cbn; by rewrite lookup_empty.
Qed.

(** ** Accessors *)

Lemma rows_with_rows k k' m l : rows k' (with_rows k m l) = if decide (k' = k) then m else rows k' l.
Proof. by destruct k, k'. Qed.
Lemma total_with_rows k k' m l : total k' (with_rows k m l) = total k' l.
Proof. by destruct k, k'. Qed.
Lemma rows_with_total k k' n l : rows k' (with_total k n l) = rows k' l.
Proof. by destruct k, k'. Qed.
Lemma total_with_total k k' n l : total k' (with_total k n l) = if decide (k' = k) then n else total k' l.
Proof. by destruct k, k'. Qed.
Lemma limits_with_rows k m l : limits (with_rows k m l) = limits l.
Proof. by destruct k. Qed.
Lemma limits_with_total k n l : limits (with_total k n l) = limits l.
Proof. by destruct k. Qed.
Lemma with_rows_id k l : with_rows k (rows k l) l = l.
Proof. by destruct k, l. Qed.
Lemma with_total_id k l : with_total k (total k l) l = l.
Proof. by destruct k, l. Qed.

Create Rewrite HintDb limiter.
#[local] Hint Rewrite rows_with_rows total_with_rows rows_with_total total_with_total
  limits_with_rows limits_with_total : limiter.

(** A take that is refused changes nothing. *)
Lemma refused_take r source l l' : take r source l = (l', false) → l' = l.
Proof.
  destruct r as [k|k]; cbn [take].
  - unfold take_total, take_global. destruct (N.eqb_spec (total_limit k (limits l)) 0); [done|].
    destruct (_ <? _); intros [= <-]. apply with_total_id.
  - unfold take_row, take_per_source. destruct (N.eqb_spec (row_limit k (limits l)) 0); [done|].
    destruct (N.leb_spec (row_limit k (limits l)) (default 0 (rows k l !! source))) as [Hl|]; [|done].
    intros [= <-]. rewrite insert_id; [apply with_rows_id|].
    destruct (rows k l !! source); [done|]. cbn in *. lia.
Qed.

(** ** Preservation *)

Section preservation.
Context (c : ConnectionLimits) (l : ConnectionLimiter) (ts : list task).
Context (i : nat) (source : IpAddr) (st st' : Stage).
Context (Hinv : inv c l ts) (Hi : ts !! i = Some (source, st)).
Context (Hnd : NoDup (held st')).

#[local] Abbreviation ts' := (<[i := (source, st')]> ts).

Lemma count_step r :
  (count r ts' + mult r (held st) = count r ts + mult r (held st'))%nat.
Proof. exact (sum_insert (λ t : task, mult r (held t.2)) ts i _ _ Hi). Qed.

Lemma count_of_step k s :
  (count_of k s ts' + (if decide (source = s) then mult (Row k) (held st) else 0) =
   count_of k s ts + (if decide (source = s) then mult (Row k) (held st') else 0))%nat.
Proof.
  exact (sum_insert (λ t : task, if decide (t.1 = s) then mult (Row k) (held t.2) else 0%nat) ts i _ _ Hi).
Qed.

Lemma nodup_step : Forall (λ t : task, NoDup (held t.2)) ts'.
Proof. apply Forall_insert; [apply Hinv|done]. Qed.

Lemma count_bound r : N.of_nat (length ts) < 2 ^ 32 → N.of_nat (count r ts') < 2 ^ 32.
Proof.
  intros Hlen.   assert (count r ts' ≤ length ts)%nat; [|lia].
  rewrite <-(length_insert ts i (source, st')). apply slot_sum_le.
  eapply Forall_impl; [apply nodup_step|]. cbn. intros t. apply mult_nodup.
Qed.

(** A row to look at stays on the list of a task. *)
Lemma sweep_kept k s st0 :
  (s, st0) ∈ ts → k ∈ sweeps st0 → (s = source → k ∈ sweeps st → k ∈ sweeps st') →
  ∃ st1, (s, st1) ∈ ts' ∧ k ∈ sweeps st1.
Proof.
  intros [j Hj]%list_elem_of_lookup Hk Hs. destruct (decide (j = i)) as [->|Hij].
  - rewrite Hi in Hj. simplify_eq. exists st'. split; [|by apply Hs].
    apply list_elem_of_lookup. exists i. apply list_lookup_insert_eq. by eapply lookup_lt_Some.
  - exists st0. split; [|done]. apply list_elem_of_lookup. exists j. by rewrite list_lookup_insert_ne.
Qed.

(** Holding the same, on the same limiter. *)
Lemma inv_nothing : held st' ≡ₚ held st → sweeps st' = sweeps st → inv c l ts'.
Proof.
  intros Hh Hw. split; try apply Hinv.
  - apply nodup_step.
  - intros k. pose proof (count_step (Total k)) as Hc. rewrite (mult_perm _ _ _ Hh) in Hc.
    rewrite (inv_total _ _ _ Hinv). lia.
  - intros k s Hl. pose proof (count_of_step k s) as Hc. rewrite (mult_perm _ _ _ Hh) in Hc.
    rewrite (inv_row _ _ _ Hinv) by done. lia.
  - intros k s Hz. destruct (inv_zero _ _ _ Hinv k s Hz) as (st0 & H0 & Hk).
    apply (sweep_kept k s st0 H0 Hk). by rewrite Hw.
Qed.

(** A change of one total. *)
Lemma inv_total_step k n :
  N.of_nat (count (Total k) ts') = n → (total_limit k c ≠ 0 → n <= total_limit k c) →
  (∀ r, r ≠ Total k → mult r (held st') = mult r (held st)) → sweeps st' = sweeps st →
  inv c (with_total k n l) ts'.
Proof.
  intros Hn Hm Hr Hw. split; intros; autorewrite with limiter; try apply Hinv; try done.
  - apply nodup_step.
  - case_decide; [by subst|]. pose proof (count_step (Total k0)) as Hc.
    rewrite Hr in Hc by congruence. rewrite (inv_total _ _ _ Hinv). lia.
  - case_decide; [subst; by apply Hm|by apply Hinv].
  - pose proof (count_of_step k0 s) as Hc. rewrite Hr in Hc by done.
    rewrite (inv_row _ _ _ Hinv) by done. lia.
  - rewrite rows_with_total in *. destruct (inv_zero _ _ _ Hinv k0 s ltac:(done)) as (st0 & H0 & Hk).
    apply (sweep_kept k0 s st0 H0 Hk). by rewrite Hw.
Qed.

(** A change of the row of the task's source. *)
Lemma inv_row_step k m :
  (row_limit k c = 0 → m = ∅) →
  (∀ s, s ≠ source → m !! s = rows k l !! s) →
  (row_limit k c ≠ 0 → default 0 (m !! source) = N.of_nat (count_of k source ts')) →
  (row_limit k c ≠ 0 → default 0 (m !! source) <= row_limit k c) →
  (m !! source = Some 0 → k ∈ sweeps st') →
  (∀ r, r ≠ Row k → mult r (held st') = mult r (held st)) →
  (∀ k', k' ∈ sweeps st → k' = k ∨ k' ∈ sweeps st') → inv c (with_rows k m l) ts'.
Proof.
  intros Hoff Hne Hc Hmax Hz Hr Hw. split; intros; autorewrite with limiter; try apply Hinv; try done.
  - apply nodup_step.
  - pose proof (count_step (Total k0)) as Hc'. rewrite Hr in Hc' by done.
    rewrite (inv_total _ _ _ Hinv). lia.
  - case_decide; [subst; by apply Hoff|by apply Hinv].
  - pose proof (count_of_step k0 s) as Hc'. destruct (decide (k0 = k)) as [->|Hk].
    + destruct (decide (source = s)) as [<-|Hs]; [by apply Hc|].
      rewrite Hne, (inv_row _ _ _ Hinv) by done. lia.
    + rewrite Hr in Hc' by congruence. rewrite (inv_row _ _ _ Hinv) by done. lia.
  - destruct (decide (k0 = k)) as [->|]; [|by apply Hinv].
    destruct (decide (s = source)) as [->|]; [by apply Hmax|]. rewrite Hne by done. by apply Hinv.
  - rewrite rows_with_rows in *. destruct (decide (k0 = k)) as [->|Hk].
    + destruct (decide (s = source)) as [->|Hs].
      * exists st'. split; [|by apply Hz]. apply list_elem_of_lookup. exists i.
        apply list_lookup_insert_eq. by eapply lookup_lt_Some.
      * rewrite Hne in * by done. destruct (inv_zero _ _ _ Hinv k s ltac:(done)) as (st0 & H0 & Hk0).
        by apply (sweep_kept k s st0 H0 Hk0).
    + destruct (inv_zero _ _ _ Hinv k0 s ltac:(done)) as (st0 & H0 & Hk0).
      apply (sweep_kept k0 s st0 H0 Hk0). intros _ [?|?]%Hw; done.
Qed.

End preservation.

Lemma mult_take r r' h h' : h' ≡ₚ r :: h → mult r' h' = (Nat.b2n (bool_decide (r' = r)) + mult r' h)%nat.
Proof. intros Hp. by rewrite (mult_perm _ _ _ Hp), mult_cons. Qed.

Lemma mult_take_ne r r' h h' : h' ≡ₚ r :: h → r' ≠ r → mult r' h' = mult r' h.
Proof. intros Hp Hr. by rewrite (mult_take _ _ _ _ Hp), bool_decide_false. Qed.

Lemma mult_take_eq r h h' : h' ≡ₚ r :: h → mult r h' = S (mult r h).
Proof. intros Hp. by rewrite (mult_take _ _ _ _ Hp), bool_decide_true. Qed.

Section effects.
Context (c : ConnectionLimits) (l l' : ConnectionLimiter) (ts : list task).
Context (i : nat) (source : IpAddr) (st st' : Stage).
Context (Hinv : inv c l ts) (Hi : ts !! i = Some (source, st)).
Context (Hnd : NoDup (held st')).

Lemma inv_take_total k :
  N.of_nat (length ts) < 2 ^ 32 → take_total k l = (l', true) → held st' ≡ₚ Total k :: held st → sweeps st' = sweeps st →
  inv c l' (<[i := (source, st')]> ts).
Proof.
  intros Hlen Ht Hh Hw. pose proof (count_step ts i source st st' Hi (Total k)) as Hc.
  pose proof (count_bound _ _ _ i source st' Hinv Hnd (Total k) Hlen) as Hb.
  rewrite (mult_take_eq _ _ _ Hh) in Hc. pose proof (inv_total _ _ _ Hinv k) as Htot.
  assert (∃ n, l' = with_total k n l ∧ n = total k l + 1 ∧ (total_limit k c ≠ 0 → n <= total_limit k c))
    as (n & -> & Hn & Hm).
  { unfold take_total, take_global in Ht. rewrite (inv_limits _ _ _ Hinv) in Ht.
    destruct (N.eqb_spec (total_limit k c) 0) as [H0|H0].
    - injection Ht as <-. eexists. split; [done|]. rewrite N.mod_small by lia. done.
    - destruct (N.ltb_spec (total k l) (total_limit k c)) as [Hl|Hl]; [|done].
      injection Ht as <-. eexists. split; [done|]. lia. }
  apply (inv_total_step c l ts i source st st' Hinv Hi Hnd); [lia|done| |done].
  intros r Hr. by apply (mult_take_ne (Total k)).
Qed.

Lemma inv_take_row k :
  take_row k source l = (l', true) → held st' ≡ₚ Row k :: held st → sweeps st' = sweeps st →
  inv c l' (<[i := (source, st')]> ts).
Proof.
  intros Ht Hh Hw. pose proof (count_of_step ts i source st st' Hi k source) as Hc.
  rewrite !decide_True, (mult_take_eq _ _ _ Hh) in Hc by done.
  unfold take_row, take_per_source in Ht. rewrite (inv_limits _ _ _ Hinv) in Ht.
  pose proof (inv_row _ _ _ Hinv k source) as Hrow.
  destruct (N.eqb_spec (row_limit k c) 0) as [H0|H0].
  - injection Ht as <-. pose proof (inv_off _ _ _ Hinv k H0) as He.
    apply (inv_row_step c l ts i source st st' Hinv Hi Hnd); try done.
    + rewrite He. by rewrite lookup_empty.
    + intros r Hr. by apply (mult_take_ne (Row k)).
    + rewrite Hw. auto.
  - specialize (Hrow H0). destruct (N.leb_spec (row_limit k c) (default 0 (rows k l !! source))); [done|].
    injection Ht as <-. apply (inv_row_step c l ts i source st st' Hinv Hi Hnd); try done.
    + intros s Hs. by rewrite lookup_insert_ne.
    + rewrite lookup_insert_eq. cbn. lia.
    + rewrite lookup_insert_eq. cbn. lia.
    + rewrite lookup_insert_eq. intros [= ?]. lia.
    + intros r Hr. by apply (mult_take_ne (Row k)).
    + rewrite Hw. auto.
Qed.

Lemma inv_give_total k :
  held st ≡ₚ Total k :: held st' → sweeps st' = sweeps st →
  inv c (give_total k l) (<[i := (source, st')]> ts).
Proof.
  intros Hh Hw. pose proof (count_step ts i source st st' Hi (Total k)) as Hc.
  rewrite (mult_take_eq _ _ _ Hh) in Hc. pose proof (inv_total _ _ _ Hinv k) as Htot.
  apply (inv_total_step c l ts i source st st' Hinv Hi Hnd); [unfold release_global; lia| | |done].
  - intros Hl%(inv_total_max _ _ _ Hinv). unfold release_global. lia.
  - intros r Hr. symmetry. by apply (mult_take_ne (Total k)).
Qed.

Lemma inv_give_row k :
  held st ≡ₚ Row k :: held st' →
  sweeps st' = (if (decrement_row (rows k l) source).2 then k :: sweeps st else sweeps st) →
  inv c (with_rows k (decrement_row (rows k l) source).1 l) (<[i := (source, st')]> ts).
Proof.
  intros Hh Hw. pose proof (count_of_step ts i source st st' Hi k source) as Hc.
  rewrite !decide_True, (mult_take_eq _ _ _ Hh) in Hc by done.
  pose proof (inv_row _ _ _ Hinv k source) as Hrow. pose proof (inv_row_max _ _ _ Hinv k source) as Hmax.
  assert (∀ r, r ≠ Row k → mult r (held st') = mult r (held st)) as Hne.
  { intros r Hr. symmetry. by apply (mult_take_ne (Row k)). }
  unfold decrement_row in *. destruct (rows k l !! source) as [e|] eqn:He; cbn in *.
  - apply (inv_row_step c l ts i source st st' Hinv Hi Hnd); try done.
    + intros H0%(inv_off _ _ _ Hinv). by rewrite H0, lookup_empty in He.
    + intros s Hs. by rewrite lookup_insert_ne.
    + intros H0. rewrite lookup_insert_eq. cbn. specialize (Hrow H0). lia.
    + intros H0. rewrite lookup_insert_eq. cbn. specialize (Hmax H0). lia.
    + rewrite lookup_insert_eq. intros [= H0]. rewrite Hw, H0, N.eqb_refl. by left.
    + intros k' Hk'. rewrite Hw. right. by case_match; [right|].
  - apply (inv_row_step c l ts i source st st' Hinv Hi Hnd); try done.
    + by apply Hinv.
    + intros H0. specialize (Hrow H0). lia.
    + by rewrite He.
    + by rewrite He.
    + rewrite Hw. auto.
Qed.

Lemma inv_sweep k :
  held st' = held st → sweeps st = k :: sweeps st' →
  inv c (with_rows k (remove_row (rows k l) source) l) (<[i := (source, st')]> ts).
Proof.
  intros Hh Hw. pose proof (count_of_step ts i source st st' Hi k source) as Hc.
  rewrite !decide_True, Hh in Hc by done.
  pose proof (inv_row _ _ _ Hinv k source) as Hrow. pose proof (inv_row_max _ _ _ Hinv k source) as Hmax.
  apply (inv_row_step c l ts i source st st' Hinv Hi Hnd); try done; unfold remove_row.
  - intros H0%(inv_off _ _ _ Hinv). by rewrite H0, lookup_empty.
  - intros s Hs. case_decide; [by rewrite lookup_delete_ne|done].
  - intros H0. specialize (Hrow H0). case_decide as Hz; [rewrite Hz in Hrow|]; rewrite ?lookup_delete_eq; cbn in *; lia.
  - intros H0. specialize (Hmax H0). case_decide; rewrite ?lookup_delete_eq; cbn; lia.
  - case_decide; [by rewrite lookup_delete_eq|done].
  - intros r _. by rewrite Hh.
  - rewrite Hw. intros k' [->|?]%elem_of_cons; auto.
Qed.

End effects.

Lemma limiter_inv_step c l ts l' ts' :
  N.of_nat (length ts) < 2 ^ 32 → inv c l ts → step (l, ts) (l', ts') → inv c l' ts'.
Proof.
  intros Hlen Hinv Hs. inversion Hs as [i choice source st st' ? ? ? Hi Ht]; subst.
  assert (NoDup (held st')) as Hnd.
  { apply (task_step_nodup _ _ _ _ _ _ Ht). exact (Forall_lookup_1 _ _ _ _ (inv_nodup _ _ _ Hinv) Hi). }
  pose proof (task_step_effect _ _ _ _ _ _ Ht) as He.
  inversion He as [? ? Hl Hh|[k|k] ? ? Hr Hh| | |]; subst.
  - destruct Hl as [->|[r ->%refused_take]]; by eapply inv_nothing.
  - by eapply inv_take_total.
  - by eapply inv_take_row.
  - by eapply inv_give_total.
  - by eapply inv_give_row.
  - by eapply inv_sweep.
Qed.

Lemma inv_reachable c sources y :
  N.of_nat (length sources) < 2 ^ 32 → reachable c sources y →
  inv c y.1 y.2 ∧ length y.2 = length sources.
Proof.
  intros Hlen. revert y. apply (rtc_ind_r (λ y, inv c y.1 y.2 ∧ length y.2 = length sources)).
  - split; [apply inv_start|apply length_fmap].
  - intros [l1 ts1] [l2 ts2] _ Hs [Hinv IH]. cbn in *. split; [eapply limiter_inv_step; [|done..]; by rewrite IH|].
    inversion Hs; subst. by rewrite length_insert.
Qed.

(** ** Permits and counters *)

Definition task_slots (k : Slot) (st : Stage) : nat :=
  match st with Holding h => Nat.b2n (of_kind k h) | _ => 0%nat end.

Lemma task_slots_le k st : (task_slots k st ≤ mult (Total k) (held st))%nat ∧
  (task_slots k st ≤ mult (Row k) (held st))%nat.
Proof. destruct st as [| |h| |]; cbn [task_slots]; try lia; destruct k, h; vm_compute; lia. Qed.

Lemma task_slots_settled k t :
  settled t → task_slots k t.2 = mult (Total k) (held t.2) ∧ task_slots k t.2 = mult (Row k) (held t.2).
Proof. destruct t as [s [| |[]| |]]; cbn; by destruct k. Qed.

Lemma slots_of_sum k s ts :
  slots_of k s ts = sum_list_with (λ t : task, if decide (t.1 = s) then task_slots k t.2 else 0%nat) ts.
Proof.
  unfold slots_of, slots. induction ts as [|t ts IH]; [done|]. rewrite filter_cons. cbn [sum_list_with].
  rewrite <-IH. by case_decide.
Qed.

Lemma sum_mono {A} (f g : A → nat) ts :
  (∀ t, t ∈ ts → f t ≤ g t)%nat → (sum_list_with f ts ≤ sum_list_with g ts)%nat.
Proof.
  induction ts as [|t ts IH]; cbn; intros H; [done|]. pose proof (H t ltac:(by left)).
  assert (sum_list_with f ts ≤ sum_list_with g ts)%nat; [|lia]. apply IH. intros u Hu. apply H. by right.
Qed.

Lemma slots_le k s ts : (slots k ts ≤ count (Total k) ts)%nat ∧ (slots_of k s ts ≤ count_of k s ts)%nat.
Proof.
  rewrite slots_of_sum. split; apply sum_mono; intros t _; [apply (task_slots_le k t.2)|].
  case_decide; [apply task_slots_le|done].
Qed.

Lemma slots_settled k s ts :
  Forall settled ts → slots k ts = count (Total k) ts ∧ slots_of k s ts = count_of k s ts.
Proof.
  intros Hs. rewrite Forall_forall in Hs. rewrite slots_of_sum.
  split; apply Nat.le_antisymm; apply sum_mono; intros t Ht%Hs;
    try case_decide; pose proof (task_slots_settled k t Ht) as [H1 H2]; unfold task_slots in *; lia.
Qed.

Lemma settled_no_sweeps ts s st k : Forall settled ts → (s, st) ∈ ts → k ∉ sweeps st.
Proof. intros Hs Ht. rewrite Forall_forall in Hs. apply Hs in Ht. destruct st; (apply not_elem_of_nil || done). Qed.

(** C14: No interleaving of accept tasks makes the limiter miscount. However the
    steps of any number of tasks mix, accepting, giving back a handshake slot
    and dropping permits, no more permits are open than any ceiling allows, in
    total and per source; and when no task is inside an operation the counters
    and the rows say exactly how many are open, with no row left of a source
    that has none. *)
Theorem connection_slots_exact (c : ConnectionLimits) (sources : list IpAddr) (l : ConnectionLimiter)
    (ts : list task) :
  N.of_nat (length sources) < 2 ^ 32 → reachable c sources (l, ts) →
  (∀ k, total_limit k c ≠ 0 → N.of_nat (slots k ts) <= total_limit k c) ∧
  (∀ k s, row_limit k c ≠ 0 → N.of_nat (slots_of k s ts) <= row_limit k c) ∧
  (Forall settled ts → ∀ k,
     total k l = N.of_nat (slots k ts) ∧
     ∀ s, rows k l !! s = if decide (row_limit k c = 0 ∨ slots_of k s ts = 0%nat) then None
                          else Some (N.of_nat (slots_of k s ts))).
Proof.
  intros Hlen Hr. destruct (inv_reachable _ _ _ Hlen Hr) as [Hinv _]. cbn [fst snd] in Hinv.
  split_and!.
  - intros k Hk. pose proof (inv_total_max _ _ _ Hinv k Hk). rewrite (inv_total _ _ _ Hinv) in *.
    destruct (slots_le k (V4 0) ts). lia.
  - intros k s Hk. pose proof (inv_row_max _ _ _ Hinv k s Hk). rewrite (inv_row _ _ _ Hinv) in * by done.
    destruct (slots_le k s ts). lia.
  - intros Hs k. split.
    { rewrite (inv_total _ _ _ Hinv). f_equal. symmetry. by apply (slots_settled k (V4 0)). }
    intros s. destruct (slots_settled k s ts Hs) as [_ He].
    case_decide as Hz; [destruct Hz as [Hz|Hz]|].
    + by rewrite (inv_off _ _ _ Hinv k Hz), lookup_empty.
    + destruct (rows k l !! s) as [n|] eqn:Hn; [|done]. exfalso.
      destruct (decide (row_limit k c = 0)) as [H0|H0].
      { by rewrite (inv_off _ _ _ Hinv k H0), lookup_empty in Hn. }
      pose proof (inv_row _ _ _ Hinv k s H0) as Hrow. rewrite Hn in Hrow. cbn in Hrow.
      assert (n = 0) as -> by lia. destruct (inv_zero _ _ _ Hinv k s Hn) as (st & Hst & Hk).
      by eapply settled_no_sweeps.
    + apply Decidable.not_or in Hz as [H0 Hz]. pose proof (inv_row _ _ _ Hinv k s H0) as Hrow.
      destruct (rows k l !! s) as [n|]; cbn in Hrow; [f_equal|exfalso]; lia.
Qed.

Lemma run_limiter_reachable c sources schedule y y' :
  reachable c sources y → run schedule y = Some y' → reachable c sources y'.
Proof.
  revert y. induction schedule as [|[i choice] schedule IH]; cbn; intros [l ts] Hy; [by intros [= <-]|].
  intros ([source st] & Hi & ([st' l'] & Ht & Hr)%bind_Some)%bind_Some.
  apply (IH _ ltac:(eapply rtc_r; [exact Hy|by eapply task_steps]) Hr).
Qed.

(** Two connections of one source against a ceiling of one: the first takes its
    slots between the steps of the second, which is refused; then the first
    ends. *)
Definition ceiling_of_one : ConnectionLimits := mkLimits 0 0 1 2.
Definition contention : list (nat * bool) :=
  [(0, false); (1, false); (0, false); (1, false); (0, false); (1, false); (0, false); (1, false);
   (0, false); (0, true); (0, false); (0, false); (0, false); (0, false); (0, false); (0, false)]%nat.

Definition after_contention : system :=
  default (start ceiling_of_one []) (run contention (start ceiling_of_one [V4 1; V4 1])).

Lemma connection_slots_exact_witness :
  after_contention.2 = [(V4 1, Ended Closed); (V4 1, Ended (Refused ConnectionsPerSource))] ∧
  total Connection after_contention.1 = 0 ∧ rows Connection after_contention.1 !! V4 1 = None.
Proof.
  split; [by vm_compute|].
  assert (reachable ceiling_of_one [V4 1; V4 1] after_contention) as Hr.
  { apply (run_limiter_reachable _ _ contention (start ceiling_of_one [V4 1; V4 1])); [apply rtc_refl|].
    by vm_compute. }
  destruct (connection_slots_exact ceiling_of_one [V4 1; V4 1] after_contention.1 after_contention.2
    ltac:(done) Hr) as (_ & _ & Hsettled).
  destruct (Hsettled ltac:(vm_compute; repeat constructor) Connection) as [-> Hrows].
  rewrite Hrows. by vm_compute.
Defined.

(** ** A task that runs alone *)

Definition alone (source : IpAddr) (x y : Stage * ConnectionLimiter) : Prop :=
  ∃ choice, task_step choice source x.1 x.2 = Some y.

Definition stage_of (r : result RefusedReason AcceptPermit) : Stage :=
  match r with
  | Ok p => if metered p then Holding (handshake_held p) else Ended Unmetered
  | Err reason => Ended (Refused reason)
  end.

Lemma alone_give_total source k todo o l y :
  rtc (alone source) (resume todo o, give_total k l) y →
  rtc (alone source) (Releasing (Give (Total k) :: todo) o, l) y.
Proof. intros H. eapply rtc_l; [by exists true|done]. Qed.

(** The decrement and the removal of the row are [release_per_source]. *)
Lemma alone_give_row source k todo o l y :
  rtc (alone source) (resume todo o, give_row k source l) y →
  rtc (alone source) (Releasing (Give (Row k) :: todo) o, l) y.
Proof.
  intros H. unfold give_row, release_per_source in H.
  destruct (decrement_row (rows k l) source) as [m e] eqn:Hd. eapply rtc_l.
  { exists true. cbn [task_step fst snd]. by rewrite Hd. }
  destruct e; [|done]. eapply rtc_l; [by exists true|].
  cbn [task_step fst snd]. rewrite rows_with_rows, decide_True by done.
  replace (with_rows k (remove_row m source) (with_rows k m l)) with (with_rows k (remove_row m source) l);
    [done|by destruct k].
Qed.

Lemma alone_take source r l y :
  (∀ l', take r source l = (l', true) → rtc (alone source) (taken r, l') y) →
  (∀ l', take r source l = (l', false) → rtc (alone source) (not_taken r, l') y) →
  rtc (alone source) (Accepting r, l) y.
Proof.
  intros Ht Hf. destruct (take r source l) as [l' ok] eqn:He. eapply rtc_l.
  { exists true. cbn [task_step fst snd]. by rewrite He. }
  destruct ok; auto.
Qed.

(** [try_accept] and the drop of its permit are the steps of a task with no other
    in between. *)
Theorem try_accept_alone trusted source l :
  let '(l', r) := try_accept trusted source l in rtc (alone source) (Arrived, l) (stage_of r, l').
Proof.
  unfold try_accept. destruct trusted; [by apply rtc_once; exists true|].
  destruct (take_total Connection l) as [l1 []] eqn:H1; cbn [negb];
    [destruct (take_row Connection source l1) as [l2 []] eqn:H2; cbn [negb];
      [destruct (take_total Handshake l2) as [l3 []] eqn:H3; cbn [negb];
        [destruct (take_row Handshake source l3) as [l4 []] eqn:H4; cbn [negb]|]|]|];
    (eapply rtc_l; [by exists false|]);
    repeat (apply alone_take; cbn [take taken not_taken snd]; intros ? Ht;
            repeat match goal with H : ?t = (_, _), H' : ?t = (_, _) |- _ => rewrite H in H' end;
            simplify_eq);
    repeat (apply alone_give_total || apply alone_give_row); apply rtc_refl.
Qed.

Theorem drop_permit_alone source (h : bool) l :
  rtc (alone source) (Holding h, l) (Ended Closed, drop_permit (mkPermit true source h true) l).
Proof.
  eapply rtc_l; [by exists false|].
  destruct h; repeat (apply alone_give_total || apply alone_give_row); apply rtc_refl.
Qed.
