(* ===== verification/AutoBan.v ===== *)
(** * The auto-ban store ([src/src/security.rs])

    Sources are banned when the weighted failures of one fixed window reach a
    threshold; a ban slides with further abuse up to a deadline fixed when it
    was raised.  Every operation is a function of the whole store and of the
    instant it reads; what it tells the kernel firewall and the transports is a
    list of effects.  [is_trusted] is what the trusted networks and gateways say
    at the time of the call. *)

From stdpp Require Import gmap.
From S2P Require Import Prelude Str Timer Transport Limiter.

#[local] Open Scope N_scope.

Module Ban.

(** Instants and durations in nanoseconds. *)
Record FailureWindow := mkWindow { count : N (* u32 *); window_start : N }.

Record BanEntry := mkBan { expiry : N; hard_deadline : N }.

Record BanPolicy := mkPolicy {
  threshold : N; (* u32, as the weights *)
  window : N;
  ban_duration : N;
  max_ban_duration : N;
  strong_weight : N;
  missing_credentials_weight : N;
}.

Definition policy_new (threshold window_secs ban_duration_secs strong_weight missing_credentials_weight
    max_ban_duration_secs : N) : BanPolicy :=
  let threshold := N.max threshold 1 in
  let ban_duration := Timer.from_secs (N.max ban_duration_secs 1) in
  mkPolicy threshold (Timer.from_secs (N.max window_secs 1)) ban_duration
    (N.max (Timer.from_secs max_ban_duration_secs) ban_duration)
    (N.max strong_weight 1) (N.min missing_credentials_weight threshold).

Record FailedAuthBanConfig := mkConfig {
  cfg_threshold : N;
  cfg_window_secs : N;
  cfg_ban_duration_secs : N;
  cfg_strong_signal_weight : N;
  cfg_missing_credentials_weight : N;
  cfg_max_ban_duration_secs : option N;
}.

Definition from_config (c : FailedAuthBanConfig) : BanPolicy :=
  policy_new (cfg_threshold c) (cfg_window_secs c) (cfg_ban_duration_secs c)
    (cfg_strong_signal_weight c) (cfg_missing_credentials_weight c)
    (default (N.min (cfg_ban_duration_secs c * 24) U32_MAX) (cfg_max_ban_duration_secs c)).

(** What leaves the store: elements of the kernel set, and the connections of a
    newly banned source to close. *)
Inductive Effect :=
  | FirewallBan (source : IpAddr) (ttl : N)
  | FirewallUnban (source : IpAddr)
  | CloseBannedSource (source : IpAddr).

Record AutoBanStore := mkStore {
  failures : gmap IpAddr FailureWindow;
  bans : gmap IpAddr BanEntry;
  policy : option BanPolicy;
  firewall : bool; (* a kernel firewall is attached *)
}.

Definition with_policy (p : BanPolicy) : AutoBanStore := mkStore ∅ ∅ (Some p) false.

Definition with_failures (m : gmap IpAddr FailureWindow) (st : AutoBanStore) : AutoBanStore :=
  mkStore m (bans st) (policy st) (firewall st).
Definition with_bans (m : gmap IpAddr BanEntry) (st : AutoBanStore) : AutoBanStore :=
  mkStore (failures st) m (policy st) (firewall st).

Definition wired (st : AutoBanStore) (e : Effect) : list Effect := if firewall st then [e] else [].

Definition set_policy (p : BanPolicy) (st : AutoBanStore) : AutoBanStore :=
  mkStore (failures st) (bans st) (Some p) (firewall st).

Definition set_firewall (st : AutoBanStore) : AutoBanStore :=
  mkStore (failures st) (bans st) (policy st) true.

Definition disable (st : AutoBanStore) : AutoBanStore * list Effect :=
  (mkStore ∅ ∅ None (firewall st),
   map_to_list (bans st) ≫= λ b, wired st (FirewallUnban b.1)).

Definition is_enabled (st : AutoBanStore) : bool := match policy st with Some _ => true | None => false end.

(** [lift_trusted]; [inside] is whether one of the networks contains the source. *)
Definition lift_trusted (inside : IpAddr → bool) (st : AutoBanStore) : AutoBanStore * nat * list Effect :=
  let lifted := filter (λ b : IpAddr * BanEntry, inside b.1 = true) (map_to_list (bans st)) in
  (mkStore (filter (λ f : IpAddr * FailureWindow, inside f.1 = false) (failures st))
     (filter (λ b : IpAddr * BanEntry, inside b.1 = false) (bans st)) (policy st) (firewall st),
   length lifted, lifted ≫= λ b, wired st (FirewallUnban b.1)).

Definition live_bans_at (is_trusted : IpAddr → bool) (now : N) (st : AutoBanStore) : list (IpAddr * N) :=
  omap (λ b : IpAddr * BanEntry,
          let remaining := expiry b.2 - now in
          if negb (remaining =? 0) && negb (is_trusted b.1) then Some (b.1, remaining) else None)
    (map_to_list (bans st)).

(** ** Signals *)

(** Whether the source is banned, its ban then pushed out. *)
Definition extend_ban_at (is_trusted : IpAddr → bool) (source : IpAddr) (now : N) (p : BanPolicy)
    (st : AutoBanStore) : AutoBanStore * bool * list Effect :=
  if is_trusted source then (st, false, []) else
  match bans st !! source with
  | Some entry =>
      if now <? expiry entry then
        let extended := N.min (now + ban_duration p) (hard_deadline entry) in
        let entry := if expiry entry <? extended then mkBan extended (hard_deadline entry) else entry in
        (with_bans (<[source := entry]> (bans st)) st, true,
         wired st (FirewallBan source (expiry entry - now)))
      else (with_bans (delete source (bans st)) st, false, [])
  | None => (st, false, [])
  end.

(** A failure of a source that is not banned: the window, and the ban when the
    count reaches the threshold. *)
Definition count_failure_at (source : IpAddr) (weight now : N) (p : BanPolicy) (st : AutoBanStore)
    : AutoBanStore * bool * list Effect :=
  let entry := default (mkWindow 0 now) (failures st !! source) in
  let entry := if window p <? now - window_start entry then mkWindow 0 now else entry in
  let entry := mkWindow (N.min (count entry + weight) U32_MAX) (window_start entry) in
  if threshold p <=? count entry then
    (mkStore (delete source (failures st))
       (<[source := mkBan (now + ban_duration p) (now + max_ban_duration p)]> (bans st))
       (policy st) (firewall st), true,
     wired st (FirewallBan source (ban_duration p)) ++ [CloseBannedSource source])
  else (with_failures (<[source := entry]> (failures st)) st, false, []).

(** Whether the source is newly banned. *)
Definition record_failure_weighted_at (is_trusted : IpAddr → bool) (source : IpAddr)
    (weight : BanPolicy → N) (now : N) (st : AutoBanStore) : AutoBanStore * bool * list Effect :=
  match policy st with
  | None => (st, false, [])
  | Some p =>
      if weight p =? 0 then (st, false, []) else
      if is_trusted source then (st, false, []) else
      let '(st, extended, effects) := extend_ban_at is_trusted source now p st in
      if extended then (st, false, effects) else count_failure_at source (weight p) now p st
  end.

Section signals.
Context (is_trusted : IpAddr → bool) (source : IpAddr) (now : N).

Definition record_failure : AutoBanStore → AutoBanStore * bool * list Effect :=
  record_failure_weighted_at is_trusted source (λ _, 1) now.
Definition record_missing_credentials : AutoBanStore → AutoBanStore * bool * list Effect :=
  record_failure_weighted_at is_trusted source missing_credentials_weight now.
Definition record_strong_failure : AutoBanStore → AutoBanStore * bool * list Effect :=
  record_failure_weighted_at is_trusted source strong_weight now.
Definition record_unwanted_call (verified_source : bool)
    : AutoBanStore → AutoBanStore * bool * list Effect :=
  record_failure_weighted_at is_trusted source (λ p, if verified_source then strong_weight p else 1) now.

Definition record_success (st : AutoBanStore) : AutoBanStore :=
  with_failures (delete source (failures st)) st.

Definition is_banned_at (st : AutoBanStore) : AutoBanStore * bool :=
  match bans st !! source with
  | Some entry =>
      if is_trusted source then (st, false) else
      if now <? expiry entry then (st, true) else (with_bans (delete source (bans st)) st, false)
  | None => (st, false)
  end.

Definition unban (st : AutoBanStore) : AutoBanStore * bool * list Effect :=
  let was_banned := bool_decide (is_Some (bans st !! source)) in
  (mkStore (delete source (failures st)) (delete source (bans st)) (policy st) (firewall st), was_banned,
   if was_banned then wired st (FirewallUnban source) else []).

End signals.

Definition active_bans (st : AutoBanStore) : nat := size (bans st).

Definition banned_sources (now : N) (st : AutoBanStore) : list (IpAddr * N) :=
  omap (λ b : IpAddr * BanEntry,
          let remaining := expiry b.2 - now in
          if remaining =? 0 then None else Some (b.1, remaining / Timer.from_secs 1))
    (map_to_list (bans st)).

Definition prune_at (now : N) (st : AutoBanStore) : AutoBanStore :=
  mkStore
    (match policy st with
     | Some p => filter (λ f : IpAddr * FailureWindow, now - window_start f.2 <= window p) (failures st)
     | None => ∅
     end)
    (filter (λ b : IpAddr * BanEntry, now < expiry b.2) (bans st)) (policy st) (firewall st).

End Ban.
