(* ===== verification/AutoBanProofs.v ===== *)
(** * What the auto-ban store does to one source

    A source has a standing: the failures counted in its current window, and its
    ban.  The store is a map of such standings, each moved by the events of its
    own source and by what concerns all of them (the policy, the trust, pruning),
    never by those of another; the lazy removal of lapsed bans does not show.
    From the standings: who is banned, when, and for how long. *)

From stdpp Require Import gmap.
From S2P Require Import Prelude Str Timer Transport Limiter AutoBan.
Import Ban.

#[local] Open Scope N_scope.

Definition policy_ok (p : BanPolicy) : Prop :=
  1 <= threshold p <= U32_MAX ∧ 0 < ban_duration p <= max_ban_duration p.

Lemma policy_new_ok threshold window_secs ban_duration_secs strong missing max_ban :
  threshold <= U32_MAX →
  policy_ok (policy_new threshold window_secs ban_duration_secs strong missing max_ban).
Proof. intros Ht. unfold policy_ok, policy_new, Timer.from_secs, U32_MAX in *. cbn. lia. Qed.

(** ** Standings *)

Record Standing := mkStanding {
  suspicion : option (N * N); (* failures counted, since *)
  ban : option (N * N);       (* until, at most until *)
}.

Definition clean : Standing := mkStanding None None.

Definition in_window (p : BanPolicy) (now : N) (f : N * N) : option (N * N) :=
  if now - f.2 <=? window p then Some f else None.
Definition in_force (now : N) (b : N * N) : option (N * N) := if now <? b.1 then Some b else None.

(** The standing of a source at an instant: its row of failures, and its ban
    while it is in force. *)
Definition standing (now : N) (s : IpAddr) (st : AutoBanStore) : Standing :=
  mkStanding ((λ w, (count w, window_start w)) <$> failures st !! s)
    (b ← bans st !! s; in_force now (expiry b, hard_deadline b)).

(** What time alone does. *)
Definition lapse (now : N) (x : Standing) : Standing := mkStanding (suspicion x) (ban x ≫= in_force now).

(** What a failure of weight [w] does, and whether it raises a ban. *)
Definition signalled (p : BanPolicy) (w now : N) (x : Standing) : Standing * bool :=
  match ban x with
  | Some (until, deadline) =>
      (mkStanding (suspicion x) (Some (N.max until (N.min (now + ban_duration p) deadline), deadline)), false)
  | None =>
      let '(n, since) := default (0, now) (suspicion x ≫= in_window p now) in
      let n := N.min (n + w) U32_MAX in
      if threshold p <=? n
      then (mkStanding None (Some (now + ban_duration p, now + max_ban_duration p)), true)
      else (mkStanding (Some (n, since)) None, false)
  end.

(** ** Operations *)

(** Those of the store, a live reload of the policy ([SetPolicy], [Disable]) and
    a change of what is trusted included. *)
Inductive Op :=
  | Signal (s : IpAddr) (weight : BanPolicy → N)
  | Success (s : IpAddr)
  | Ask (s : IpAddr)
  | Unban (s : IpAddr)
  | Prune
  | Lift (inside : IpAddr → bool)
  | SetPolicy (p : BanPolicy)
  | Disable
  | Trust (trusted : IpAddr → bool).

Definition about (op : Op) : option IpAddr :=
  match op with Signal s _ | Success s | Ask s | Unban s => Some s | _ => None end.

Definition trust_after (op : Op) (is_trusted : IpAddr → bool) : IpAddr → bool :=
  match op with Trust trusted => trusted | _ => is_trusted end.

Definition policy_after (op : Op) (p : option BanPolicy) : option BanPolicy :=
  match op with SetPolicy p => Some p | Disable => None | _ => p end.

(** An operation of the store, with its answer: newly banned for a signal,
    banned for a question. *)
Definition exec (is_trusted : IpAddr → bool) (op : Op) (now : N) (st : AutoBanStore) : AutoBanStore * bool :=
  match op with
  | Signal s weight => (record_failure_weighted_at is_trusted s weight now st).1
  | Success s => (record_success s st, false)
  | Ask s => is_banned_at is_trusted s now st
  | Unban s => ((unban s st).1.1, false)
  | Prune => (prune_at now st, false)
  | Lift inside => ((lift_trusted inside st).1.1, false)
  | SetPolicy p => (set_policy p st, false)
  | Disable => ((disable st).1, false)
  | Trust _ => (st, false)
  end.

(** The same for one source, on its standing. *)
Definition judge (is_trusted : IpAddr → bool) (p : option BanPolicy) (s : IpAddr) (op : Op) (now : N)
    (x : Standing) : Standing * bool :=
  match op with
  | Signal s' weight =>
      match p with
      | Some p => if bool_decide (s' = s) && negb (weight p =? 0) && negb (is_trusted s)
                  then signalled p (weight p) now x else (x, false)
      | None => (x, false)
      end
  | Success s' => (if bool_decide (s' = s) then mkStanding None (ban x) else x, false)
  | Ask s' => (x, bool_decide (s' = s) && negb (is_trusted s) && bool_decide (is_Some (ban x)))
  | Unban s' => (if bool_decide (s' = s) then clean else x, false)
  | Prune => (mkStanding (p ← p; suspicion x ≫= in_window p now) (ban x), false)
  | Lift inside => (if inside s then clean else x, false)
  | Disable => (clean, false)
  | SetPolicy _ | Trust _ => (x, false)
  end.

(** The answers given about a source. *)
Fixpoint answers (is_trusted : IpAddr → bool) (s : IpAddr) (ops : list (Op * N)) (st : AutoBanStore)
    : list bool * AutoBanStore :=
  match ops with
  | [] => ([], st)
  | (op, now) :: ops =>
      let '(st, answer) := exec is_trusted op now st in
      let '(rest, st) := answers (trust_after op is_trusted) s ops st in
      (if bool_decide (about op = Some s) then answer :: rest else rest, st)
  end.

Fixpoint judgements (is_trusted : IpAddr → bool) (p : option BanPolicy) (s : IpAddr) (ops : list (Op * N))
    (x : Standing) : list bool * Standing :=
  match ops with
  | [] => ([], x)
  | (op, now) :: ops =>
      let '(x, answer) := judge is_trusted p s op now (lapse now x) in
      let '(rest, x) := judgements (trust_after op is_trusted) (policy_after op p) s ops x in
      (if bool_decide (about op = Some s) then answer :: rest else rest, x)
  end.

(** The policies in force are ones [policy_new] makes. *)
Definition in_force_ok (p : option BanPolicy) : Prop := match p with Some p => policy_ok p | None => True end.
Definition op_ok (op : Op * N) : Prop := match op.1 with SetPolicy p => policy_ok p | _ => True end.

(** ** Simulation *)

Lemma in_force_later now now' b : now <= now' → in_force now b ≫= in_force now' = in_force now' b.
Proof.
  intros Hn. unfold in_force. destruct (N.ltb_spec now b.1); cbn; [done|].
  by rewrite (proj2 (N.ltb_ge _ _)) by lia.
Qed.

Lemma standing_lapse now now' s st : now <= now' → standing now' s st = lapse now' (standing now s st).
Proof.
  intros Hn. unfold standing, lapse. cbn. f_equal. destruct (bans st !! s) as [b|]; [|done]. cbn.
  by rewrite in_force_later.
Qed.

Lemma count_failure_policy s w now p st : policy (count_failure_at s w now p st).1.1 = policy st.
Proof. unfold count_failure_at. by case_match. Qed.

Lemma record_policy is_trusted s weight now st :
  policy (record_failure_weighted_at is_trusted s weight now st).1.1 = policy st.
Proof.
  unfold record_failure_weighted_at, extend_ban_at.
  repeat (case_match; simplify_eq; cbn; try done); by rewrite count_failure_policy.
Qed.

Lemma exec_policy is_trusted op now st : policy (exec is_trusted op now st).1 = policy_after op (policy st).
Proof.
  destruct op; cbn; try done; [apply record_policy|]. unfold is_banned_at. by repeat case_match.
Qed.

Section store.
Context (is_trusted : IpAddr → bool).

(** The rows of other sources stay. *)
Lemma count_failure_other s' s w now p st :
  s' ≠ s →
  let st' := (count_failure_at s' w now p st).1.1 in
  failures st' !! s = failures st !! s ∧ bans st' !! s = bans st !! s.
Proof.
  intros Hs. unfold count_failure_at.
  case_match; cbn; by rewrite ?lookup_insert_ne, ?lookup_delete_ne by done.
Qed.

Lemma record_other s' s weight now st :
  s' ≠ s →
  let st' := (record_failure_weighted_at is_trusted s' weight now st).1.1 in
  failures st' !! s = failures st !! s ∧ bans st' !! s = bans st !! s.
Proof.
  intros Hs. unfold record_failure_weighted_at, extend_ban_at. cbv zeta.
  repeat (case_match; simplify_eq; cbn; try done);
    try (pose proof (count_failure_other s' s (weight b) now b) as Hc; cbv zeta in Hc;
         rewrite !(proj1 (Hc _ Hs)), !(proj2 (Hc _ Hs)); cbn);
    by rewrite ?lookup_insert_ne, ?lookup_delete_ne by done.
Qed.

Lemma count_failure_own p s w now st :
  policy_ok p → ban (standing now s st) = None →
  let '(st', newly, _) := count_failure_at s w now p st in
  signalled p w now (standing now s st) = (standing now s st', newly).
Proof.
  intros [Ht Hb] Hban. unfold count_failure_at, signalled. rewrite Hban.
  unfold standing in Hban |- *. cbn [ban suspicion] in Hban |- *.
  assert (default (0, now) (((λ w0, (count w0, window_start w0)) <$> failures st !! s) ≫= in_window p now) =
    let e := default (mkWindow 0 now) (failures st !! s) in
    let e := if window p <? now - window_start e then mkWindow 0 now else e in
    (count e, window_start e)) as ->.
  { destruct (failures st !! s) as [e|]; cbn; [|by case_match].
    unfold in_window. cbn. rewrite N.ltb_antisym. by destruct (_ <=? _). }
  cbv zeta. set (e := if window p <? _ then _ else _).
  cbn [count window_start]. destruct (threshold p <=? _); cbn.
  - rewrite lookup_delete_eq, lookup_insert_eq. cbn. unfold in_force. cbn.
    by rewrite (proj2 (N.ltb_lt _ _)) by lia.
  - by rewrite lookup_insert_eq, Hban.
Qed.

Lemma record_own p s weight now st :
  policy st = Some p → policy_ok p → weight p ≠ 0 → is_trusted s = false →
  let '(st', newly, _) := record_failure_weighted_at is_trusted s weight now st in
  signalled p (weight p) now (standing now s st) = (standing now s st', newly).
Proof.
  intros Hp Hok Hw Htr. unfold record_failure_weighted_at, extend_ban_at. rewrite Hp, Htr.
  rewrite (proj2 (N.eqb_neq _ _) Hw). destruct (bans st !! s) as [b|] eqn:Hbs.
  2: { apply count_failure_own; [done|]. cbn. by rewrite Hbs. }
  destruct (N.ltb_spec now (expiry b)) as [Hl|Hl].
  - unfold signalled, standing. cbn. rewrite Hbs, lookup_insert_eq. cbn. unfold in_force. cbn.
    rewrite (proj2 (N.ltb_lt _ _) Hl). repeat f_equal.
    set (x := N.min _ _). destruct (N.ltb_spec (expiry b) x); cbn;
      rewrite (proj2 (N.ltb_lt now _)) by lia; repeat f_equal; lia.
  - set (st1 := with_bans _ _). assert (standing now s st = standing now s st1) as ->.
    { unfold standing, st1. cbn. rewrite Hbs, lookup_delete_eq. cbn. unfold in_force. cbn.
      by rewrite (proj2 (N.ltb_ge _ _) Hl). }
    apply count_failure_own; [done|]. unfold st1. cbn. by rewrite lookup_delete_eq.
Qed.

Lemma standing_rows now s st st' :
  failures st' !! s = failures st !! s ∧ bans st' !! s = bans st !! s →
  standing now s st' = standing now s st.
Proof. intros [Hf Hb]. unfold standing. by rewrite Hf, Hb. Qed.

(** What [exec] and [judge] have to agree on. *)
Definition agree (s : IpAddr) (op : Op) (now : N) (st : AutoBanStore) : Prop :=
  standing now s (exec is_trusted op now st).1 =
    (judge is_trusted (policy st) s op now (standing now s st)).1 ∧
  (about op = Some s →
   (exec is_trusted op now st).2 = (judge is_trusted (policy st) s op now (standing now s st)).2).

Lemma exec_signal s s' weight now st : in_force_ok (policy st) → agree s (Signal s' weight) now st.
Proof.
  intros Hok. unfold agree. cbn [exec judge about].
  destruct (policy st) as [p|] eqn:Hp; [|by unfold record_failure_weighted_at; rewrite Hp].
  case_bool_decide as Hs; cbn [andb].
  2: { split; [|congruence]. by apply standing_rows, record_other. }
  subst s'. destruct (N.eqb_spec (weight p) 0) as [Hw|Hw]; cbn [negb andb].
  { unfold record_failure_weighted_at. by rewrite Hp, Hw. }
  destruct (is_trusted s) eqn:Ht; cbn [negb].
  { unfold record_failure_weighted_at. rewrite Hp, Ht. by case_match. }
  pose proof (record_own p s weight now st Hp Hok Hw Ht) as Hr.
  destruct (record_failure_weighted_at is_trusted s weight now st) as [[st' newly] eff]. by rewrite Hr.
Qed.

Lemma exec_ask s s' now st : agree s (Ask s') now st.
Proof.
  unfold agree. cbn [exec judge about]. unfold is_banned_at, standing. cbn [ban].
  destruct (decide (s' = s)) as [->|Hs].
  2: { split; [|congruence]. repeat case_match; cbn; by rewrite ?lookup_delete_ne by done. }
  rewrite bool_decide_true by done. cbn [andb fst snd].
  destruct (bans st !! s) as [b|] eqn:Hb; cbn; [|rewrite Hb; by rewrite andb_false_r].
  unfold in_force. cbn. destruct (is_trusted s); cbn; [by rewrite Hb|].
  destruct (now <? expiry b) eqn:Hl; cbn; rewrite ?Hb, ?lookup_delete_eq; cbn; by rewrite ?Hl.
Qed.

Lemma exec_prune s now st : agree s Prune now st.
Proof.
  unfold agree. cbn. split; [|done]. unfold standing, prune_at. cbn. f_equal.
  - destruct (policy st) as [p|]; [|done]. cbn. rewrite map_lookup_filter.
    destruct (failures st !! s) as [w|]; [|done]. cbn. unfold in_window. cbn.
    destruct (N.leb_spec (now - window_start w) (window p)); case_guard; cbn; try done; lia.
  - rewrite map_lookup_filter. destruct (bans st !! s) as [b|]; [|done]. cbn. unfold in_force. cbn.
    destruct (N.ltb_spec now (expiry b)); case_guard; cbn; try done; try lia.
    by rewrite (proj2 (N.ltb_lt _ _)).
Qed.

Lemma exec_judge s op now st : in_force_ok (policy st) → agree s op now st.
Proof.
  intros Hok. destruct op as [s' weight|s'|s'|s'| |inside|p| |trusted]; [by apply exec_signal| |apply exec_ask| |
    apply exec_prune| |done..]; unfold agree; cbn; (split; [|done]).
  - case_bool_decide; unfold standing; cbn; subst; by rewrite ?lookup_delete_eq, ?lookup_delete_ne by done.
  - case_bool_decide; unfold standing; cbn; subst; by rewrite ?lookup_delete_eq, ?lookup_delete_ne by done.
  - unfold standing. cbn. rewrite !map_lookup_filter. destruct (inside s) eqn:Hi.
    + unfold clean. f_equal; [destruct (failures st !! s)|destruct (bans st !! s)]; cbn; rewrite ?Hi; by try case_guard.
    + f_equal; [destruct (failures st !! s)|destruct (bans st !! s)]; cbn; try done; by case_guard.
Qed.

End store.

(** Instants that do not go back. *)
Fixpoint in_order (t : N) (ops : list (Op * N)) : Prop :=
  match ops with [] => True | (_, now) :: ops => t <= now ∧ in_order now ops end.
Fixpoint end_of (t : N) (ops : list (Op * N)) : N :=
  match ops with [] => t | (_, now) :: ops => end_of now ops end.

Lemma answers_judged is_trusted s ops st t :
  in_force_ok (policy st) → Forall op_ok ops → in_order t ops →
  judgements is_trusted (policy st) s ops (standing t s st) =
  ((answers is_trusted s ops st).1, standing (end_of t ops) s (answers is_trusted s ops st).2).
Proof.
  intros Hp Hok. revert is_trusted st Hp t.
  induction Hok as [|[op now] ops Hop Hok IH]; intros is_trusted st Hp t Ho; [done|].
  destruct Ho as [Ht Ho]. cbn [judgements answers end_of]. rewrite <-standing_lapse by done.
  destruct (exec_judge is_trusted s op now st Hp) as [Hs Ha]. pose proof (exec_policy is_trusted op now st) as Hp'.
  destruct (exec is_trusted op now st) as [st' a], (judge is_trusted (policy st) s op now (standing now s st)) as [x a'].
  cbn in Hs, Ha, Hp'. subst x. rewrite <-Hp', IH; [|rewrite Hp'; by destruct op|done].
  destruct (answers (trust_after op is_trusted) s ops st') as [rest st'']. cbn. case_bool_decide; [|done].
  by rewrite Ha.
Qed.

(** C15: Each source is judged by its own history. Over any operations of the
    store on any sources, in the order of their instants, with the policy
    replaced or removed by reloads and the trusted sources changing in between,
    the answers about a source (newly banned, banned) and its standing in the
    end are those of an automaton of that source alone. The automaton is moved
    by the source's own signals and successes, its unbanning, the networks that
    are lifted, and what concerns every source: the policy in force (each made
    by BanPolicy::new), the trust, the removal of the policy, and pruning, which
    drops a failure window that is over. What other sources do, and the lazy
    removal of lapsed bans, never show. *)
Theorem auto_ban_refines (is_trusted : IpAddr → bool) (s : IpAddr) (ops : list (Op * N))
    (st : AutoBanStore) (t : N) :
  in_force_ok (policy st) → Forall op_ok ops → in_order t ops →
  let '(answered, st') := answers is_trusted s ops st in
  judgements is_trusted (policy st) s ops (standing t s st) = (answered, standing (end_of t ops) s st').
Proof.
  intros Hp Hok Ho. pose proof (answers_judged is_trusted s ops st t Hp Hok Ho) as Hj.
  by destruct (answers is_trusted s ops st).
Qed.

(** A ban, the removal of the policy, and a new one under which the source is
    trusted from some point on. *)
Definition reloads : list (Op * N) :=
  [(Signal (V4 1) (λ _, 7), 1); (Prune, 2); (Ask (V4 1), 3); (Disable, 4); (Ask (V4 1), 5);
   (SetPolicy (policy_new 2 600 3600 3 0 86400), 6); (Signal (V4 1) (λ _, 2), 7);
   (Trust (λ _, true), 8); (Ask (V4 1), 9)].

Lemma auto_ban_refines_witness :
  let '(answered, st') :=
    answers (λ _, false) (V4 1) reloads (with_policy (policy_new 5 600 3600 3 0 86400)) in
  answered = [true; true; false; true; false] ∧
  judgements (λ _, false) (Some (policy_new 5 600 3600 3 0 86400)) (V4 1) reloads clean =
  (answered, standing 9 (V4 1) st').
Proof.
  pose proof (auto_ban_refines (λ _, false) (V4 1) reloads (with_policy (policy_new 5 600 3600 3 0 86400)) 0) as H.
  split; [vm_compute; reflexivity|]. apply H; [done| |cbn; lia]. repeat constructor; done.
Defined.

(** ** The threshold *)

(** Operations that leave the standing of [s] to its signals. *)
Definition signals_only (s : IpAddr) (op : Op * N) : Prop :=
  match op.1 with
  | Signal _ _ | Prune => True
  | Success s' | Ask s' | Unban s' => s' ≠ s
  | Lift inside => inside s = false
  | SetPolicy _ | Disable => False
  | Trust trusted => trusted s = false
  end.

Definition weight_of (p : BanPolicy) (s : IpAddr) (op : Op * N) : option N :=
  match op.1 with Signal s' weight => if decide (s' = s) then Some (weight p) else None | _ => None end.

(** Which of the weights, added up from [n], is the one that reaches [limit]. *)
Fixpoint crossings (limit n : N) (ws : list N) : list bool :=
  match ws with [] => [] | w :: ws => ((n <? limit) && (limit <=? n + w)) :: crossings limit (n + w) ws end.

Definition tallied (p : BanPolicy) (t n : N) (x : Standing) : Prop :=
  (n < threshold p ∧ ban x = None ∧
    (suspicion x ≫= in_window p t = None ∧ n = 0 ∨ ∃ since, suspicion x = Some (n, since) ∧ t <= since)) ∨
  (threshold p <= n ∧ ∃ until deadline, ban x = Some (until, deadline) ∧ t + window p < until).

Lemma in_window_later p t now o :
  t <= now → o ≫= in_window p t = None → o ≫= in_window p now = None.
Proof.
  intros Hn. destruct o as [[n since]|]; [|done]. cbn. unfold in_window. cbn.
  destruct (N.leb_spec (t - since) (window p)); [done|]. intros _. by rewrite (proj2 (N.leb_gt _ _)) by lia.
Qed.

Lemma in_window_open p t now n since :
  t <= since → now <= t + window p → in_window p now (n, since) = Some (n, since).
Proof. intros Hs Hn. unfold in_window. cbn. by rewrite (proj2 (N.leb_le _ _)) by lia. Qed.

Lemma tallied_lapse p t n now x : now <= t + window p → tallied p t n x → tallied p t n (lapse now x).
Proof.
  intros Hn [(Hl & Hb & Hs)|(Hl & u & d & Hb & Hu)]; [left|right].
  - unfold lapse. cbn. by rewrite Hb.
  - split; [done|]. exists u, d. unfold lapse. cbn. rewrite Hb. cbn. unfold in_force. cbn.
    by rewrite (proj2 (N.ltb_lt _ _)) by lia.
Qed.

Lemma tallied_pruned p t n now x :
  t <= now <= t + window p → tallied p t n x →
  tallied p t n (mkStanding (suspicion x ≫= in_window p now) (ban x)).
Proof.
  intros Hn [(Hl & Hb & Hs)|?]; [left|by right]. cbn. split_and!; [done..|].
  destruct Hs as [[Hs ->]|(since & -> & Ht)]; [left|right].
  - by rewrite (in_window_later p t now) by (done || lia).
  - exists since. cbn. by rewrite (in_window_open p t) by lia.
Qed.

Lemma signalled_tallied p t n w now x :
  policy_ok p → window p < ban_duration p → t <= now <= t + window p → tallied p t n x →
  (signalled p w now x).2 = (n <? threshold p) && (threshold p <=? n + w) ∧
  tallied p t (n + w) (signalled p w now x).1.
Proof.
  intros [Ht _] Hw Hn [(Hl & Hb & Hs)|(Hl & u & d & Hb & Hu)]; unfold signalled; rewrite Hb.
  - rewrite (proj2 (N.ltb_lt _ _) Hl). cbn [andb].
    assert (∃ since, default (0, now) (suspicion x ≫= in_window p now) = (n, since) ∧ t <= since)
      as (since & -> & Hsince).
    { destruct Hs as [[Hs ->]|(since & -> & ?)].
      - rewrite (in_window_later p t) by (done || lia). exists now. split; [done|lia].
      - exists since. cbn. by rewrite (in_window_open p t) by lia. }
    destruct (N.leb_spec (threshold p) (n + w)) as [Hc|Hc].
    + rewrite (proj2 (N.leb_le _ _)) by lia. split; [done|]. right. split; [done|].
      cbn. eexists _, _. split; [done|]. lia.
    + rewrite N.min_l, (proj2 (N.leb_gt _ _)) by lia. split; [done|]. left. cbn. split_and!; [done..|].
      right. by exists since.
  - rewrite (proj2 (N.ltb_ge _ _) Hl). split; [done|]. right. cbn. split; [lia|].
    eexists _, _. split; [done|]. lia.
Qed.

(** An operation that is no signal of [s] leaves its tally. *)
Lemma judge_tallied is_trusted p s op now t n x :
  signals_only s (op, now) → weight_of p s (op, now) = None → t <= now <= t + window p → tallied p t n x →
  tallied p t n (judge is_trusted (Some p) s op now x).1.
Proof.
  intros Hop Hw Hn Hx. destruct op as [s' weight|s'|s'|s'| |inside|p'| |trusted]; cbn in Hop, Hw |- *; try done.
  - unfold weight_of in Hw. cbn in Hw. destruct (decide (s' = s)); [done|]. by rewrite bool_decide_false.
  - by rewrite bool_decide_false.
  - by rewrite bool_decide_false.
  - by apply tallied_pruned.
  - by rewrite Hop.
Qed.

Lemma signals_only_step is_trusted p s op now :
  signals_only s (op, now) → is_trusted s = false →
  trust_after op is_trusted s = false ∧ policy_after op (Some p) = Some p ∧
  (about op = Some s → is_Some (weight_of p s (op, now))).
Proof.
  intros Hop Ht. destruct op; cbn in Hop |- *; split_and!; try done; try congruence.
  unfold weight_of. cbn. intros [= ->]. by rewrite decide_True.
Qed.

Lemma judgements_cross is_trusted p s ops t n x :
  policy_ok p → window p < ban_duration p → is_trusted s = false → Forall (signals_only s) ops →
  Forall (λ op, t <= op.2 <= t + window p) ops → tallied p t n x →
  (judgements is_trusted (Some p) s ops x).1 = crossings (threshold p) n (omap (weight_of p s) ops) ∧
  tallied p t (foldl N.add n (omap (weight_of p s) ops)) (judgements is_trusted (Some p) s ops x).2.
Proof.
  intros Hok Hw Htr Hs. revert is_trusted Htr n x.
  induction Hs as [|[op now] ops Hop Hs IH]; intros is_trusted Htr n x Ht Hx; [done|].
  apply Forall_cons in Ht as [Hnow Ht]. cbn [snd] in Hnow.
  pose proof (tallied_lapse p t n now x ltac:(lia) Hx) as Ha. cbn [judgements omap list_omap].
  destruct (signals_only_step is_trusted p s op now Hop Htr) as (Htr' & -> & Habout).
  set (y := lapse now x) in *. destruct (weight_of p s (op, now)) as [w|] eqn:Hwt.
  - destruct op as [s' weight|s'|s'|s'| |inside|p'| |trusted]; try done. unfold weight_of in Hwt. cbn in Hwt.
    destruct (decide (s' = s)) as [->|]; [|done]. injection Hwt as <-. cbn [judge about].
    rewrite !bool_decide_true, Htr by done. cbn [andb negb]. rewrite andb_true_r.
    assert (∃ z a, (if negb (weight p =? 0) then signalled p (weight p) now y else (y, false)) = (z, a) ∧
      a = (n <? threshold p) && (threshold p <=? n + weight p) ∧ tallied p t (n + weight p) z)
      as (z & a & -> & -> & Hz).
    { destruct (N.eqb_spec (weight p) 0) as [->|H0]; cbn [negb].
      - exists y, false. rewrite N.add_0_r. split_and!; [done| |done]. symmetry. apply andb_false_iff.
        destruct (N.ltb_spec n (threshold p)); [right; by apply N.leb_gt|by left].
      - destruct (signalled_tallied p t n (weight p) now y Hok Hw Hnow Ha) as [H1 H2].
        destruct (signalled p (weight p) now y) as [z a]. by exists z, a. }
    destruct (IH _ Htr' _ z Ht Hz) as [H1 H2]. cbn [trust_after] in H1, H2 |- *.
    destruct (judgements is_trusted (Some p) s ops z) as [rest z']. cbn in H1, H2. cbn. by rewrite H1.
  - pose proof (judge_tallied is_trusted p s op now t n y Hop Hwt Hnow Ha) as Hz.
    destruct (judge is_trusted (Some p) s op now y) as [z a]. cbn [fst] in Hz.
    destruct (IH _ Htr' n z Ht Hz) as [H1 H2].
    destruct (judgements (trust_after op is_trusted) (Some p) s ops z) as [rest z'].
    rewrite bool_decide_false by (intros Hab; by destruct (Habout Hab)). done.
Qed.

Lemma in_order_bounds t t0 ops :
  in_order t ops → t0 <= t → Forall (λ op : Op * N, t0 <= op.2 <= end_of t ops) ops.
Proof.
  revert t. induction ops as [|[op now] ops IH]; cbn; intros t Ho Ht; constructor; destruct Ho as [Hn Ho].
  - cbn. split; [lia|]. clear IH. revert now Hn Ho.
    induction ops as [|[op' now'] ops IH]; cbn; intros now Hn Ho; [done|].
    destruct Ho as [Hn' Ho]. specialize (IH now' ltac:(lia) Ho). lia.
  - apply IH; [done|lia].
Qed.

Lemma is_banned_standing is_trusted s now st :
  in_force_ok (policy st) → is_trusted s = false →
  (is_banned_at is_trusted s now st).2 = bool_decide (is_Some (ban (standing now s st))).
Proof.
  intros Hok Ht. destruct (exec_judge is_trusted s (Ask s) now st Hok) as [_ Ha].
  cbn [exec judge about] in Ha. rewrite Ha by done. by rewrite bool_decide_true, Ht.
Qed.

Lemma answers_policy is_trusted s ops st :
  Forall (signals_only s) ops → policy (answers is_trusted s ops st).2 = policy st.
Proof.
  intros Hs. revert is_trusted st. induction Hs as [|[op now] ops Hop Hs IH]; intros is_trusted st; [done|]. cbn.
  pose proof (exec_policy is_trusted op now st) as Hp. destruct (exec is_trusted op now st) as [st' a].
  specialize (IH (trust_after op is_trusted) st'). destruct (answers _ s ops st'). cbn in *.
  rewrite IH, Hp. by destruct op.
Qed.

Lemma signals_only_ok s ops : Forall (signals_only s) ops → Forall op_ok ops.
Proof. intros Hs. eapply Forall_impl; [exact Hs|]. by intros [[] ?]. Qed.

(** A source that is not suspect is banned by the signal whose weight brings
    the sum of its weights up to the threshold, neither earlier nor later, and
    that signal alone reports the ban, within one window and whatever else
    happens to other sources in between; in the end it is banned if and only if
    the sum has reached the threshold. *)
Theorem banned_at_threshold (is_trusted : IpAddr → bool) (p : BanPolicy) (s : IpAddr)
    (ops : list (Op * N)) (st : AutoBanStore) (t : N) :
  policy st = Some p → policy_ok p → window p < ban_duration p → is_trusted s = false →
  suspicion (standing t s st) ≫= in_window p t = None → ban (standing t s st) = None → in_order t ops → end_of t ops <= t + window p →
  Forall (signals_only s) ops →
  let weights := omap (weight_of p s) ops in
  let '(answered, st') := answers is_trusted s ops st in
  answered = crossings (threshold p) 0 weights ∧
  (is_banned_at is_trusted s (end_of t ops) st').2 = (threshold p <=? foldl N.add 0 weights).
Proof.
  intros Hp Hok Hw Ht Hc Hb Ho He Hs. cbv zeta.
  pose proof (answers_judged is_trusted s ops st t) as Hj. rewrite Hp in Hj.
  specialize (Hj Hok (signals_only_ok s ops Hs) Ho).
  destruct (judgements_cross is_trusted p s ops t 0 (standing t s st) Hok Hw Ht Hs) as [H1 H2].
  { eapply Forall_impl; [by apply (in_order_bounds t t)|]. cbn. lia. }
  { left. split_and!; [destruct Hok; lia|done|by left]. }
  pose proof (answers_policy is_trusted s ops st Hs) as Hp'.
  destruct (answers is_trusted s ops st) as [answered st']. cbn in Hj, Hp'. rewrite Hj in H1, H2.
  cbn in H1, H2. split; [done|]. rewrite is_banned_standing by (done || by rewrite Hp', Hp).
  destruct H2 as [(Hl & -> & _)|(Hl & u & d & -> & _)]; symmetry; [by apply N.leb_gt|by apply N.leb_le].
Qed.

Definition strict_policy : BanPolicy := policy_new 5 600 3600 3 0 86400.
Definition scanner : IpAddr := V4 3405803783.

Definition probes : list (Op * N) :=
  [(Signal scanner strong_weight, 1); (Signal (V4 1) strong_weight, 2); (Prune, 3);
   (Signal scanner (λ _, 1), 4); (Signal scanner (λ _, 1), 5); (Signal scanner strong_weight, 6)].

Lemma banned_at_threshold_witness :
  let '(answered, st') := answers (λ _, false) scanner probes (with_policy strict_policy) in
  answered = [false; false; true; false] ∧ (is_banned_at (λ _, false) scanner 6 st').2 = true.
Proof.
  refine (banned_at_threshold (λ _, false) strict_policy scanner probes (with_policy strict_policy) 0
    _ _ _ _ _ _ _ _ _); try done. repeat constructor.
Defined.

(** ** The end of a ban *)









(** The window does not slide: it is counted from its first signal. With three
    signals in ten minutes to a ban, those at 590, 601 and 602 seconds are not
    enough when another came at 0, and are without it. *)
Example window_does_not_slide :
  let signals (l : list N) := (λ t, (Signal scanner (λ _, 1), Timer.from_secs t)) <$> l in
  let banned (l : list N) :=
    (is_banned_at (λ _, false) scanner (Timer.from_secs 603)
       (answers (λ _, false) scanner (signals l) (with_policy (policy_new 3 600 3600 3 0 86400))).2).2 in
  banned [0; 590; 601; 602] = false ∧ banned [590; 601; 602] = true.
Proof. by vm_compute. Qed.
