(* ===== verification/Digest.v ===== *)
(** * Digest authentication, the answering side ([src/src/auth/mod.rs])

    Challenges as they are read off a [WWW-Authenticate] or
    [Proxy-Authenticate] value, the response of RFC 2617, RFC 7616 and
    RFC 3310, and the [Authorization] value that carries it.  The hash functions
    are library code and a class; a random UUID is an argument. *)

From S2P Require Import Prelude Str Bytes.

#[local] Open Scope N_scope.

(** The digests of the [md5] and [sha2] crates, as octets. *)
Class DigestHash := {
  md5 : bytes → bytes;
  sha256 : bytes → bytes;
  sha512_256 : bytes → bytes;
}.

Definition eq_ignore_ascii_case (a b : string) : bool :=
  (to_ascii_lowercase a =? to_ascii_lowercase b)%string.

Definition quoted (s : string) : string := String DQUOTE s +:+ String DQUOTE "".

Module Digest.

Inductive DigestAlgorithm :=
  | Md5 | Md5Sess | Sha256 | Sha256Sess | Sha512_256 | Sha512_256Sess | AkaV1Md5.

#[export] Instance DigestAlgorithm_eq_dec : EqDecision DigestAlgorithm.
Proof. solve_decision. Defined.

Definition is_session (a : DigestAlgorithm) : bool :=
  match a with Md5Sess | Sha256Sess | Sha512_256Sess => true | _ => false end.

Definition strength (a : DigestAlgorithm) : N :=
  match a with
  | AkaV1Md5 => 1
  | Md5 => 1
  | Md5Sess => 2
  | Sha256 => 3
  | Sha256Sess => 4
  | Sha512_256 => 5
  | Sha512_256Sess => 6
  end.

Definition stored_ha1_hash (a : DigestAlgorithm) : DigestAlgorithm :=
  match a with
  | Md5 | Md5Sess | AkaV1Md5 => Md5
  | Sha256 | Sha256Sess => Sha256
  | Sha512_256 | Sha512_256Sess => Sha512_256
  end.

Definition show_algorithm (a : DigestAlgorithm) : string :=
  match a with
  | Md5 => "MD5"
  | Md5Sess => "MD5-sess"
  | Sha256 => "SHA-256"
  | Sha256Sess => "SHA-256-sess"
  | Sha512_256 => "SHA-512-256"
  | Sha512_256Sess => "SHA-512-256-sess"
  | AkaV1Md5 => "AKAv1-MD5"
  end.

(** [replace('_', "-")]. *)
Definition underscores_to_hyphens : string → string :=
  str_map (λ a, if is_byte "_" a then "-"%char else a).

Record DigestChallenge := mkChallenge {
  realm : string;
  nonce : string;
  opaque : option string;
  qop : option string;
  algorithm : DigestAlgorithm;
  stale : bool;
}.

Record DigestCredentials := mkCredentials { username : string; password : string }.

Inductive StoredSecret :=
  | Password (password : string)
  | Ha1 (value : string) (ha1_algorithm : DigestAlgorithm).

(** The refusals of a configured secret, each a text in the source. *)
Inductive SecretError := TwoSecrets | NoSecret | UnknownAlgorithm | EmptyHa1 | Ha1NotHex.

Definition can_answer (s : StoredSecret) (a : DigestAlgorithm) : bool :=
  match s with
  | Password _ => true
  | Ha1 _ stored => bool_decide (stored_ha1_hash stored = stored_ha1_hash a)
  end.

(** ** Nonce counts *)

Definition NonceCounter : Type := option (string * N (* u32 *)).

Definition next_for (nonce : string) (c : NonceCounter) : NonceCounter * N :=
  match c with
  | Some (last, count) =>
      if (last =? nonce)%string
      then let count := N.min (count + 1) U32_MAX in (Some (last, count), count)
      else (Some (nonce, 1), 1)
  | None => (Some (nonce, 1), 1)
  end.

Definition reset (c : NonceCounter) : NonceCounter := None.

(** ** Parameters *)

(** The pieces between commas outside quotes; [piece] is the one being read. *)
Fixpoint split_params (in_quotes : bool) (piece input : string) : list string :=
  match input with
  | "" => if is_empty piece then [] else [piece]
  | String a input =>
      if is_byte DQUOTE a then split_params (negb in_quotes) (piece +:+ String a "") input
      else if is_byte "," a && negb in_quotes then piece :: split_params in_quotes "" input
      else split_params in_quotes (piece +:+ String a "") input
  end.

Definition unquote (value : string) : string :=
  if starts_with_byte (is_byte DQUOTE) value && ends_with (String DQUOTE "") value && (2 <=? blen value)
  then sub 1 (String.length value - 2) value else value.

(** The first eight octets of a UUID. *)
Definition generate_cnonce (uuid : bytes) : string := hex_encode (sub 0 8 uuid).

(** A 32-bit number in eight hexadecimal digits. *)
Definition nc_text (nc : N) : string := hex_encode (to_be 4 nc).

Section client.
Context `{U : Unicode} `{D : DigestHash}.

(** [DigestAlgorithm::parse]. *)
Definition parse_name (name : string) : option DigestAlgorithm :=
  let normalized := underscores_to_hyphens (to_uppercase name) in
  match normalized with
  | "MD5" | "" => Some Md5
  | "MD5-SESS" => Some Md5Sess
  | "SHA-256" | "SHA256" => Some Sha256
  | "SHA-256-SESS" | "SHA256-SESS" => Some Sha256Sess
  | "SHA-512-256" | "SHA512-256" => Some Sha512_256
  | "SHA-512-256-SESS" | "SHA512-256-SESS" => Some Sha512_256Sess
  | "AKAV1-MD5" => Some AkaV1Md5
  | _ => None
  end.

(** [StoredSecret::from_config]. *)
Definition secret_from_config (password ha1 : option string) (ha1_algorithm : string)
    : result SecretError StoredSecret :=
  match password, ha1 with
  | Some _, Some _ => Err TwoSecrets
  | None, None => Err NoSecret
  | Some password, None => Ok (Password password)
  | None, Some ha1 =>
      algorithm ← ok_or UnknownAlgorithm (parse_name ha1_algorithm);
      if is_empty (trim ha1) then Err EmptyHa1
      else if negb (str_forall is_ascii_hexdigit ha1) then Err Ha1NotHex
      else Ok (Ha1 (to_ascii_lowercase ha1) algorithm)
  end.

(** ** Challenges *)

(** What the parameters of a challenge have given so far. *)
Record Params := mkParams {
  p_realm : option string;
  p_nonce : option string;
  p_opaque : option string;
  p_qop : option string;
  p_algorithm : DigestAlgorithm;
  p_stale : bool;
}.

Definition read_param (c : Params) (param : string) : option Params :=
  match split_once "=" (trim param) with
  | None => Some c
  | Some (key, value) =>
      let value := unquote (trim value) in
      match to_lowercase (trim key) with
      | "realm" => Some (mkParams (Some value) (p_nonce c) (p_opaque c) (p_qop c) (p_algorithm c) (p_stale c))
      | "nonce" => Some (mkParams (p_realm c) (Some value) (p_opaque c) (p_qop c) (p_algorithm c) (p_stale c))
      | "opaque" => Some (mkParams (p_realm c) (p_nonce c) (Some value) (p_qop c) (p_algorithm c) (p_stale c))
      | "qop" => Some (mkParams (p_realm c) (p_nonce c) (p_opaque c) (Some value) (p_algorithm c) (p_stale c))
      | "algorithm" =>
          a ← parse_name value;
          Some (mkParams (p_realm c) (p_nonce c) (p_opaque c) (p_qop c) a (p_stale c))
      | "stale" =>
          Some (mkParams (p_realm c) (p_nonce c) (p_opaque c) (p_qop c) (p_algorithm c)
                  (eq_ignore_ascii_case value "true"))
      | _ => Some c
      end
  end.

Fixpoint read_params (params : list string) (c : Params) : option Params :=
  match params with
  | [] => Some c
  | param :: params => c ← read_param c param; read_params params c
  end.

Definition parse_challenge (header_value : string) : option DigestChallenge :=
  body ← strip_prefix "Digest" header_value;
  c ← read_params (split_params false "" (trim body)) (mkParams None None None None Md5 false);
  realm ← p_realm c;
  nonce ← p_nonce c;
  Some (mkChallenge realm nonce (p_opaque c) (p_qop c) (p_algorithm c) (p_stale c)).

(** ** The response *)

Definition hash_hex (a : DigestAlgorithm) (input : bytes) : string :=
  hex_encode match a with
             | Md5 | Md5Sess | AkaV1Md5 => md5 input
             | Sha256 | Sha256Sess => sha256 input
             | Sha512_256 | Sha512_256Sess => sha512_256 input
             end.

Definition qop_has_auth (c : DigestChallenge) : bool :=
  match qop c with
  | Some q => existsb (λ token, (trim token =? "auth")%string) (split "," q)
  | None => false
  end.

Definition digest_response_from_ha1 (c : DigestChallenge) (base_ha1 method digest_uri : string)
    (nonce_count : option N) (cnonce : option string) (uuid : bytes) : string :=
  let hash := algorithm c in
  let cnonce_value :=
    if is_session hash || bool_decide (is_Some (qop c)) then default (generate_cnonce uuid) cnonce else "" in
  let ha1 :=
    if is_session hash then hash_hex hash (base_ha1 +:+ ":" +:+ nonce c +:+ ":" +:+ cnonce_value)
    else base_ha1 in
  let ha2 := hash_hex hash (method +:+ ":" +:+ digest_uri) in
  if qop_has_auth c then
    hash_hex hash (ha1 +:+ ":" +:+ nonce c +:+ ":" +:+ nc_text (default 1 nonce_count) +:+ ":" +:+
                   cnonce_value +:+ ":auth:" +:+ ha2)
  else hash_hex hash (ha1 +:+ ":" +:+ nonce c +:+ ":" +:+ ha2).

(** [H(username:realm:password)], of a text password or the octets of an AKA RES. *)
Definition ha1_of (a : DigestAlgorithm) (username realm : string) (secret : bytes) : string :=
  hash_hex a (username +:+ ":" +:+ realm +:+ ":" +:+ secret).

Definition compute_digest_response (c : DigestChallenge) (credentials : DigestCredentials)
    (method digest_uri : string) (nonce_count : option N) (cnonce : option string) (uuid : bytes) : string :=
  digest_response_from_ha1 c (ha1_of (algorithm c) (username credentials) (realm c) (password credentials))
    method digest_uri nonce_count cnonce uuid.

Definition compute_aka_response (c : DigestChallenge) (username : string) (res : bytes)
    (method digest_uri : string) (nonce_count : option N) (cnonce : option string) (uuid : bytes) : string :=
  digest_response_from_ha1 c (ha1_of (algorithm c) username (realm c) res)
    method digest_uri nonce_count cnonce uuid.

(** ** The [Authorization] value *)

Definition derive_cnonce (c : DigestChallenge) (cnonce : option string) (has_qop_auth : bool)
    (uuid : bytes) : option string :=
  match cnonce with
  | Some _ => cnonce
  | None => if has_qop_auth || is_session (algorithm c) then Some (generate_cnonce uuid) else None
  end.

Definition build_authorization_header (username : string) (c : DigestChallenge)
    (digest_uri response : string) (has_qop_auth : bool) (nonce_count : option N)
    (cnonce auts : option string) : string :=
  "Digest username=" +:+ quoted username +:+ ", realm=" +:+ quoted (realm c) +:+
  ", nonce=" +:+ quoted (nonce c) +:+ ", uri=" +:+ quoted digest_uri +:+
  ", algorithm=" +:+ show_algorithm (algorithm c) +:+ ", response=" +:+ quoted response +:+
  (if has_qop_auth
   then ", qop=auth, nc=" +:+ nc_text (default 1 nonce_count) +:+
        ", cnonce=" +:+ quoted (default "" cnonce)
   else "") +:+
  match opaque c with Some o => ", opaque=" +:+ quoted o | None => "" end +:+
  match auts with Some a => ", auts=" +:+ quoted a | None => "" end.

(** [uuid] is drawn for the header's cnonce; [response] is computed with it. *)
Definition authorize (username : string) (c : DigestChallenge) (digest_uri : string)
    (nonce_count : option N) (cnonce auts : option string) (uuid : bytes)
    (response : option string → string) : string :=
  let has_qop_auth := qop_has_auth c in
  let cnonce := derive_cnonce c cnonce has_qop_auth uuid in
  build_authorization_header username c digest_uri (response cnonce) has_qop_auth nonce_count cnonce auts.

(** [uuid'] is drawn by the response when it has to make a cnonce itself. *)
Definition format_authorization_header (c : DigestChallenge) (credentials : DigestCredentials)
    (method digest_uri : string) (nonce_count : option N) (cnonce : option string)
    (uuid uuid' : bytes) : string :=
  authorize (username credentials) c digest_uri nonce_count cnonce None uuid
    (λ cnonce, compute_digest_response c credentials method digest_uri nonce_count cnonce uuid').

(** The refusal names the hash of the stored secret and that of the challenge. *)
Definition format_stored_authorization_header (c : DigestChallenge) (username : string)
    (secret : StoredSecret) (method digest_uri : string) (nonce_count : option N)
    (cnonce : option string) (uuid uuid' : bytes) : result (DigestAlgorithm * DigestAlgorithm) string :=
  base_ha1 ←
    match secret with
    | Password password => Ok (ha1_of (algorithm c) username (realm c) password)
    | Ha1 value stored =>
        if can_answer secret (algorithm c) then Ok value else Err (stored, algorithm c)
    end;
  Ok (authorize username c digest_uri nonce_count cnonce None uuid
        (λ cnonce, digest_response_from_ha1 c base_ha1 method digest_uri nonce_count cnonce uuid')).

Definition format_aka_authorization_header (c : DigestChallenge) (username : string) (res : bytes)
    (digest_uri : string) (nonce_count : option N) (cnonce auts : option string)
    (uuid uuid' : bytes) : string :=
  authorize username c digest_uri nonce_count cnonce auts uuid
    (λ cnonce, compute_aka_response c username res "REGISTER" digest_uri nonce_count cnonce uuid').

End client.
End Digest.
