(* ===== verification/DigestServer.v ===== *)
(** * Digest authentication, the challenging side
    ([src/src/script/api/auth.rs], [src/src/auth/credential_cache.rs],
    [src/src/auth/server.rs])

    The nonces a challenge carries, the fields of an [Authorization] value, the
    check of its response against the configured credentials, and what a verdict
    does to the request, to the challenge and to the auto-ban store.  Texts are
    octets, so a slice of a text panics where it is not on the boundary of a
    character ([Panicked]).  The credential sources are what they answer at the
    time of the call. *)

From stdpp Require Import gmap strings.
From S2P Require Import Prelude Str Bytes Headers Uri Message Transport Timer Limiter AutoBan Digest.
Import Digest.

#[local] Open Scope N_scope.

(** ** Text helpers *)

(** Why a function that returns [None], or panics, has no value. *)
Inductive Stop := Missing | Panicked.

Definition optional {A} (r : result Stop A) : result Stop (option A) :=
  match r with
  | Ok a => Ok (Some a)
  | Err Missing => Ok None
  | Err Panicked => Err Panicked
  end.

Definition is_char_boundary (s : string) (i : nat) : bool :=
  (Nat.leb i (String.length s)) &&
  match str_drop i s with "" => true | String a _ => (Nat.eqb i 0) || negb (is_continuation a) end.

(** [&s[i..]]. *)
Definition slice_from (s : string) (i : nat) : result Stop string :=
  if is_char_boundary s i then Ok (str_drop i s) else Err Panicked.

(** [u64::from_str_radix(s, 16)]. *)
Fixpoint hex_value (max acc : N) (s : string) : option N :=
  match s with
  | "" => Some acc
  | String a s => d ← hex_digit a; if max <? acc * 16 + d then None else hex_value max (acc * 16 + d) s
  end.
Definition parse_hex (max : N) (s : string) : option N :=
  match (if starts_with "+" s then str_drop 1 s else s) with "" => None | digits => hex_value max 0 digits end.

Definition U64_MAX : N := 18446744073709551615.

Module Server.

Section server.
Context `{U : Unicode} `{D : DigestHash}.

(** ** Nonces *)

Definition BLOCK : nat := 64.

Definition xor_bytes (n : N) : bytes → bytes := str_map (λ b, ascii_of_N (N.lxor n (code b))).

Fixpoint zeros (n : nat) : bytes := match n with O => "" | S n => String "000" (zeros n) end.

Definition hmac_sha256_hex (key message : bytes) : string :=
  let key := if Nat.ltb BLOCK (String.length key) then sha256 key else key in
  let block_key := key +:+ zeros (BLOCK - String.length key) in
  let inner_digest := sha256 (xor_bytes 54 block_key +:+ message) in
  hex_encode (sha256 (xor_bytes 92 block_key +:+ inner_digest)).

Fixpoint difference (a b : bytes) : N :=
  match a, b with
  | String x a, String y b => N.lor (N.lxor (code x) (code y)) (difference a b)
  | _, _ => 0
  end.

Definition constant_time_eq (a b : bytes) : bool :=
  if negb (Nat.eqb (String.length a) (String.length b)) then false else difference a b =? 0.

(** The policy of [PyAuth::set_nonce_policy]. *)
Record NoncePolicy := mkNoncePolicy { nonce_secret : option bytes; nonce_ttl_secs : N (* u64 *) }.

Abbreviation DEFAULT_NONCE_TTL_SECS := 3600%N (only parsing).

Definition set_nonce_policy (secret : option bytes) (ttl_secs : N) (p : NoncePolicy) : NoncePolicy :=
  mkNoncePolicy
    match secret with Some s => if is_empty s then None else Some s | None => None end
    (if 0 <? ttl_secs then ttl_secs else nonce_ttl_secs p).

(** The seconds in sixteen hexadecimal digits, and a tag. *)
Definition generate_nonce (p : NoncePolicy) (now : N) (uuid : bytes) : string :=
  let timestamp_hex := hex_encode (to_be 8 now) in
  let tag := match nonce_secret p with
             | Some secret => hmac_sha256_hex secret timestamp_hex
             | None => hex_encode uuid
             end in
  timestamp_hex +:+ "." +:+ tag.

Definition validate_nonce (p : NoncePolicy) (now : N) (nonce : string) : bool :=
  match split_once "." nonce with
  | None => false
  | Some (timestamp_hex, tag) =>
      match parse_hex U64_MAX timestamp_hex with
      | None => false
      | Some timestamp =>
          if (nonce_ttl_secs p <? now - timestamp) || (60 <? timestamp - now) then false
          else match nonce_secret p with
               | Some secret => constant_time_eq (hmac_sha256_hex secret timestamp_hex) tag
               | None => true
               end
      end
  end.

(** ** Fields of an [Authorization] value *)

(** [parse_param_value], and the same lines in the other extractors. *)
Definition parse_param_value (rest : string) : result Stop string :=
  match strip_prefix (String DQUOTE "") rest with
  | Some after =>
      match split_once DQUOTE after with Some (value, _) => Ok value | None => Err Missing end
  | None => Ok (trim (break (is_byte ",") rest).1)
  end.

Definition value_at (auth_value : string) (pos : nat) : result Stop string :=
  rest ← slice_from auth_value pos; parse_param_value rest.

(** The first occurrence of [needle] at [search_start] or later that does not
    follow an alphanumeric byte. *)
Fixpoint find_param (fuel : nat) (needle lower : string) (search_start : nat) : option nat :=
  match fuel with
  | O => None
  | S fuel =>
      '(before, _) ← find_str needle (str_drop search_start lower);
      let abs_pos := (search_start + String.length before)%nat in
      if match abs_pos with
         | O => true
         | S i => match String.get i lower with Some a => negb (is_ascii_alphanumeric a) | None => true end
         end
      then Some abs_pos
      else find_param fuel needle lower (abs_pos + String.length needle)
  end.

Definition extract_digest_param (auth_value param : string) : result Stop string :=
  let auth_lower := to_lowercase auth_value in
  let needle := param +:+ "=" in
  pos ← ok_or Missing (find_param (S (String.length auth_lower)) needle auth_lower 0);
  value_at auth_value (pos + String.length needle).

Definition extract_nonce_field (auth_value : string) : result Stop string :=
  let auth_lower := to_lowercase auth_value in
  abs_pos ← ok_or Missing (find_param (S (String.length auth_lower)) "nonce=" auth_lower 0);
  value_at auth_value (abs_pos + 6).

Definition extract_response_field (auth_value : string) : result Stop string :=
  let auth_lower := to_lowercase auth_value in
  '(before, _) ← ok_or Missing (find_str "response=" auth_lower);
  value_at auth_value (String.length before + 9).

Definition extract_username (auth_value : string) : result Stop string :=
  let auth_lower := to_lowercase auth_value in
  '(before, _) ← ok_or Missing (find_str "username=" auth_lower);
  value_at auth_value (String.length before + 9).

Record DigestFields := mkFields {
  f_username : string;
  f_realm : string;
  f_nonce : string;
  f_uri : string;
  f_response : string;
  f_qop : option string;
  f_cnonce : option string;
  f_nc : option string;
  f_algorithm : DigestAlgorithm;
}.

Definition parse_algorithm (value : option string) : DigestAlgorithm :=
  match value with
  | None => Md5
  | Some raw =>
      match underscores_to_hyphens (to_uppercase raw) with
      | "MD5" | "" => Md5
      | "MD5-SESS" => Md5Sess
      | "SHA-256" | "SHA256" => Sha256
      | "SHA-256-SESS" | "SHA256-SESS" => Sha256Sess
      | "SHA-512-256" | "SHA512-256" => Sha512_256
      | "SHA-512-256-SESS" | "SHA512-256-SESS" => Sha512_256Sess
      | _ => Md5
      end
  end.

Definition parse_fields (auth_value : string) : result Stop DigestFields :=
  algorithm_str ← optional (extract_digest_param auth_value "algorithm");
  username ← extract_username auth_value;
  realm ← extract_digest_param auth_value "realm";
  nonce ← extract_nonce_field auth_value;
  uri ← extract_digest_param auth_value "uri";
  response ← extract_response_field auth_value;
  qop ← optional (extract_digest_param auth_value "qop");
  cnonce ← optional (extract_digest_param auth_value "cnonce");
  nc ← optional (extract_digest_param auth_value "nc");
  Ok (mkFields username realm nonce uri response qop cnonce nc (parse_algorithm algorithm_str)).

Definition verify (f : DigestFields) (ha1 method : string) : bool :=
  let alg := f_algorithm f in
  let ha2 := hash_hex alg (method +:+ ":" +:+ f_uri f) in
  let expected :=
    if bool_decide (f_qop f = Some "auth") then
      let nc := default "00000001" (f_nc f) in
      let cnonce := default "" (f_cnonce f) in
      hash_hex alg (ha1 +:+ ":" +:+ f_nonce f +:+ ":" +:+ nc +:+ ":" +:+ cnonce +:+ ":auth:" +:+ ha2)
    else hash_hex alg (ha1 +:+ ":" +:+ f_nonce f +:+ ":" +:+ ha2) in
  eq_ignore_ascii_case expected (f_response f).

End server.
End Server.
