(* ===== verification/AuthVerdict.v ===== *)
(** * Verdicts on credentials and what they lead to
    ([src/src/script/api/auth.rs], [src/src/auth/credential_cache.rs],
    [src/src/auth/server.rs])

    The credential cache, the backends a response is checked against, and
    [require_digest]: the read of the request, the verdict, the challenge or the
    removal of the credentials, and the signal to the auto-ban store. *)

From stdpp Require Import gmap strings.
From S2P Require Import Prelude Str Bytes Headers Uri Message Transport Timer Limiter AutoBan Digest.
From S2P Require Import DigestServer.
Import Digest Server Ban.

#[local] Open Scope N_scope.

(** ** The credential cache *)
Module Cache.

Record CredentialKey := mkKey { key_realm : string; key_username : string; column : option string }.

#[global] Instance CredentialKey_eq_dec : EqDecision CredentialKey.
Proof. solve_decision. Defined.
#[global] Instance CredentialKey_countable : Countable CredentialKey.
Proof.
  refine (inj_countable' (λ k, (key_realm k, key_username k, column k))
            (λ x : string * string * option string, mkKey x.1.1 x.1.2 x.2) _).
  by intros [].
Defined.

(** A credential and the instant it was read at, in nanoseconds. *)
Record CachedCredential := mkCached { value : string; fetched_at : N }.

Abbreviation CredentialCache := (gmap CredentialKey CachedCredential) (only parsing).

Inductive Invalidation :=
  | All
  | Realm (realm : string)
  | User (realm username : string).

Definition is_fresh (age ttl : N) : bool := age <? ttl.

Definition get (key : CredentialKey) (ttl_secs now : N) (c : CredentialCache) : option string :=
  if ttl_secs =? 0 then None else
  entry ← c !! key;
  if is_fresh (now - fetched_at entry) (Timer.from_secs ttl_secs) then Some (value entry) else None.

Definition store (key : CredentialKey) (v : string) (now : N) (c : CredentialCache) : CredentialCache :=
  <[key := mkCached v now]> c.

Definition remove (key : CredentialKey) (c : CredentialCache) : CredentialCache := delete key c.

Definition invalidate (scope : Invalidation) (c : CredentialCache) : CredentialCache * nat :=
  let after : CredentialCache :=
    match scope with
    | All => ∅
    | Realm r => filter (λ e : CredentialKey * CachedCredential, key_realm e.1 ≠ r) c
    | User r u => filter (λ e : CredentialKey * CachedCredential, key_realm e.1 ≠ r ∨ key_username e.1 ≠ u) c
    end in
  (after, (size c - size after)%nat).

End Cache.

Module Verdict.

(** ** Credential sources *)

Inductive CredentialLookup := Found (credential : string) | NotFound | LookupUnavailable.

Inductive CredentialCheck := Valid | Absent | Rejected | Unavailable.

Definition from_verified (verified : bool) : CredentialCheck := if verified then Valid else Rejected.
Definition is_valid (c : CredentialCheck) : bool := match c with Valid => true | _ => false end.

Inductive AuthBackendType := Static | Database | Http | DiameterCx.

Record HttpAuthConfig := mkHttp { url : string; http_ha1 : bool; http_cache_ttl_secs : N }.
Record DatabaseAuthConfig := mkDatabase { stores_ha1 : bool; database_cache_ttl_secs : N }.

(** What the sources answer: an HTTP GET gives an error, a status that is not a
    success, or a body; the database gives a lookup of username, realm and
    column. *)
Record Sources := mkSources {
  http_get : string → option (option string);
  database_lookup : string → string → string → CredentialLookup;
}.

(** The users of each realm, in the order the map iterates. *)
Record PyAuth := mkAuth {
  backend_type : AuthBackendType;
  static_users : list (string * gmap string string);
  default_realm : string;
  http_config : option HttpAuthConfig;
  database : option DatabaseAuthConfig;
  credential_cache : option Cache.CredentialCache;
  nonce_policy : NoncePolicy;
  challenge_algorithms : list DigestAlgorithm;
}.

Definition with_cache (a : PyAuth) (c : option Cache.CredentialCache) : PyAuth :=
  mkAuth (backend_type a) (static_users a) (default_realm a) (http_config a) (database a) c
    (nonce_policy a) (challenge_algorithms a).

Definition set_challenge_algorithms (algorithms : list DigestAlgorithm) (a : PyAuth) : PyAuth :=
  match algorithms with
  | [] => a
  | _ => mkAuth (backend_type a) (static_users a) (default_realm a) (http_config a) (database a)
           (credential_cache a) (nonce_policy a) algorithms
  end.

Inductive SuppliedSecret := SuppliedPassword (password : string) | SuppliedHa1 (ha1 : string).

Abbreviation MAX_AUTH_USERNAME_LEN := 255%N (only parsing).

Definition ha1_column_for (a : DigestAlgorithm) : string :=
  match stored_ha1_hash a with
  | Sha256 => "ha1_sha256"
  | Sha512_256 => "ha1_sha512_256"
  | _ => "ha1_md5"
  end.

(** Upper-case hexadecimal digits. *)
Definition url_digit (n : N) : byte := ascii_of_N (if n <? 10 then 48 + n else 55 + n).

Fixpoint encode_url_path_segment (value : bytes) : string :=
  match value with
  | "" => ""
  | String b value =>
      if is_ascii_alphanumeric b || byte_in ["-"; "."; "_"; "~"]%char b
      then String b (encode_url_path_segment value)
      else String "%" (String (url_digit (N.shiftr (code b) 4))
                         (String (url_digit (N.land (code b) 15)) (encode_url_path_segment value)))
  end.

(** [str::replace]. *)
Fixpoint replace_all (fuel : nat) (from to s : string) : string :=
  match fuel with
  | O => s
  | S fuel =>
      match find_str from s with
      | Some (before, rest) => before +:+ to +:+ replace_all fuel from to (str_drop (String.length from) rest)
      | None => s
      end
  end.

Definition credential_url (c : HttpAuthConfig) (username : string) : string :=
  replace_all (S (String.length (url c))) "{username}" (encode_url_path_segment username) (url c).

Definition fetch_http_credential (sources : Sources) (c : HttpAuthConfig) (username : string)
    : CredentialLookup :=
  match http_get sources (credential_url c username) with
  | Some (Some body) => Found (trim body)
  | Some None => NotFound
  | None => LookupUnavailable
  end.

(** The credential to verify, or the verdict already reached. *)
Definition settle_lookup (key : Cache.CredentialKey) (lookup : CredentialLookup) (revalidating : bool)
    (instant : N) (cache : option Cache.CredentialCache)
    : option Cache.CredentialCache * result CredentialCheck string :=
  match lookup with
  | Found credential => (Cache.store key credential instant <$> cache, Ok credential)
  | NotFound => (Cache.remove key <$> cache, Err Rejected)
  | LookupUnavailable => (cache, Err (if revalidating then Rejected else Unavailable))
  end.

Section verdict.
Context `{U : Unicode} `{D : DigestHash}.

(** ** Checking a response *)

Definition ha1_from (stored : bool) (f : DigestFields) (realm credential : string) : string :=
  if stored then credential else ha1_of (f_algorithm f) (f_username f) realm credential.

(** [http_finish] and [database_finish]. *)
Definition finish (stored : bool) (f : DigestFields) (credential realm method : string) : CredentialCheck :=
  from_verified (verify f (ha1_from stored f realm credential) method).

(** The tail of [validate_http] and [validate_database]: the cached credential
    first, then the source, whose answer goes into the cache. *)
Definition consult (stored : bool) (f : DigestFields) (key : Cache.CredentialKey) (cached : option string)
    (lookup : CredentialLookup) (instant : N) (realm method : string) (a : PyAuth)
    : CredentialCheck * PyAuth :=
  if match cached with Some c => is_valid (finish stored f c realm method) | None => false end
  then (Valid, a)
  else let '(cache, settled) :=
         settle_lookup key lookup (bool_decide (is_Some cached)) instant (credential_cache a) in
       (match settled with
        | Ok credential => finish stored f credential realm method
        | Err decided => decided
        end, with_cache a cache).

Definition cached_credential (a : PyAuth) (key : Cache.CredentialKey) (ttl_secs instant : N) : option string :=
  c ← credential_cache a; Cache.get key ttl_secs instant c.

Definition username_refused (f : DigestFields) : bool :=
  is_empty (f_username f) || (MAX_AUTH_USERNAME_LEN <? blen (f_username f)).

Definition fields_or {A} (auth_value : string) (rejected : A) (k : DigestFields → A) : result Stop A :=
  fields ← optional (parse_fields auth_value);
  Ok match fields with Some f => k f | None => rejected end.

Definition validate_http (sources : Sources) (instant : N) (auth_value realm method : string) (a : PyAuth)
    : result Stop (CredentialCheck * PyAuth) :=
  fields_or auth_value (Rejected, a) (λ f,
    if username_refused f then (Rejected, a) else
    match http_config a with
    | None => (Unavailable, a)
    | Some c =>
        let key := Cache.mkKey realm (f_username f) None in
        consult (http_ha1 c) f key (cached_credential a key (http_cache_ttl_secs c) instant)
          (fetch_http_credential sources c (f_username f)) instant realm method a
    end).

Definition validate_database (sources : Sources) (instant : N) (auth_value realm method : string) (a : PyAuth)
    : result Stop (CredentialCheck * PyAuth) :=
  fields_or auth_value (Rejected, a) (λ f,
    if username_refused f then (Rejected, a) else
    match database a with
    | None => (Unavailable, a)
    | Some d =>
        let ha1_column := ha1_column_for (f_algorithm f) in
        let key := Cache.mkKey realm (f_username f) (if stores_ha1 d then Some ha1_column else None) in
        consult (stores_ha1 d) f key (cached_credential a key (database_cache_ttl_secs d) instant)
          (database_lookup sources (f_username f) realm ha1_column) instant realm method a
    end).

Definition validate_supplied (auth_value realm method : string) (secret : SuppliedSecret)
    : result Stop bool :=
  fields_or auth_value false (λ f,
    let ha1 := match secret with
               | SuppliedPassword password => ha1_of (f_algorithm f) (f_username f) realm password
               | SuppliedHa1 ha1 => ha1
               end in
    verify f ha1 method).

(** The password of the first realm that has the user. *)
Fixpoint find_password (users : list (string * gmap string string)) (username : string) : option string :=
  match users with
  | [] => None
  | (_, realm_users) :: users =>
      match realm_users !! username with Some p => Some p | None => find_password users username end
  end.

Definition validate_static (a : PyAuth) (auth_value realm method : string) : result Stop bool :=
  fields_or auth_value false (λ f,
    match find_password (static_users a) (f_username f) with
    | None => false
    | Some password => verify f (ha1_of (f_algorithm f) (f_username f) realm password) method
    end).

(** [now] is the wall clock in seconds. *)
Definition replay_or_supplied (a : PyAuth) (now : N) (auth_value realm method : string)
    (supplied : option SuppliedSecret) : result Stop (option CredentialCheck) :=
  nonce ← optional (extract_nonce_field auth_value);
  if match nonce with Some nonce => validate_nonce (nonce_policy a) now nonce | None => false end then
    match supplied with
    | Some secret =>
        verified ← validate_supplied auth_value realm method secret; Ok (Some (from_verified verified))
    | None => Ok None
    end
  else Ok (Some Rejected).

Definition validate_credentials_with (sources : Sources) (now instant : N)
    (auth_value realm method : string) (supplied : option SuppliedSecret) (a : PyAuth)
    : result Stop (CredentialCheck * PyAuth) :=
  decided ← replay_or_supplied a now auth_value realm method supplied;
  match decided with
  | Some decided => Ok (decided, a)
  | None =>
      match backend_type a with
      | Static =>
          verified ← validate_static a auth_value realm method; Ok (from_verified verified, a)
      | Http => validate_http sources instant auth_value realm method a
      | Database => validate_database sources instant auth_value realm method a
      | DiameterCx => Ok (Unavailable, a)
      end
  end.

(** ** The request *)

Record AuthTarget := mkTarget {
  message : SipMessage;
  auth_user : option string;
  challenge : option (N * string); (* the armed reply or reject *)
  source_ip_str : string;
  transport_name : string;
}.

Record DigestRead := mkDigestRead { auth_header : option string; method : string }.

Definition digest_read (target : AuthTarget) : DigestRead :=
  let headers := msg_headers (message target) in
  mkDigestRead
    match Headers.get "Authorization" headers with
    | Some v => Some v
    | None => Headers.get "Proxy-Authorization" headers
    end
    match start_line (message target) with
    | Request rl => method_as_str (Message.method rl)
    | Response _ => "REGISTER"
    end.

(** What the auto-ban store is told. *)
Definition ban_signal (is_trusted : IpAddr → bool) (source : IpAddr) (instant : N)
    (outcome : CredentialCheck) (source_validated : bool) (st : AutoBanStore)
    : AutoBanStore * bool * list Effect :=
  match outcome with
  | Rejected =>
      if source_validated then record_strong_failure is_trusted source instant st
      else record_failure is_trusted source instant st
  | Absent => record_missing_credentials is_trusted source instant st
  | Unavailable | Valid => (st, false, [])
  end.

(** With the store installed, if any, and an address that can be read. *)
Definition signal_failure (is_trusted : IpAddr → bool) (instant : N) (outcome : CredentialCheck)
    (target : AuthTarget) (ban : option AutoBanStore) : option AutoBanStore * list Effect :=
  match ban, Ip.parse (source_ip_str target) with
  | Some st, Some source =>
      let '(st, _, effects) :=
        ban_signal is_trusted source instant outcome
          (negb (transport_name target =? "udp")%string) st in
      (Some st, effects)
  | _, _ => (ban, [])
  end.

Definition signal_success (target : AuthTarget) (ban : option AutoBanStore) : option AutoBanStore :=
  match ban, Ip.parse (source_ip_str target) with
  | Some st, Some source => Some (record_success source st)
  | _, _ => ban
  end.

Definition challenge_value (realm nonce : string) (algorithm : DigestAlgorithm) : string :=
  "Digest realm=" +:+ quoted realm +:+ ", nonce=" +:+ quoted nonce +:+
  ", algorithm=" +:+ show_algorithm algorithm +:+ ", qop=" +:+ quoted "auth".

(** The armed challenge and its header rows. *)
Definition arm_challenge (a : PyAuth) (now : N) (uuid : bytes) (realm : string) (challenge_code : N)
    (target : AuthTarget) : AuthTarget :=
  let reason := if challenge_code =? 401 then "Unauthorized" else "Proxy Authentication Required" in
  let header_name := if challenge_code =? 401 then "WWW-Authenticate" else "Proxy-Authenticate" in
  let nonce := generate_nonce (nonce_policy a) now uuid in
  let values := challenge_value realm nonce <$> challenge_algorithms a in
  let headers :=
    foldl (λ h v, Headers.add header_name v h) (Headers.remove header_name (msg_headers (message target)))
      values in
  mkTarget (with_headers (message target) headers) (auth_user target) (Some (challenge_code, reason))
    (source_ip_str target) (transport_name target).

(** The verified user, and no credentials for the next hop. *)
Definition accept (user : option string) (target : AuthTarget) : AuthTarget :=
  mkTarget
    (with_headers (message target)
       (Headers.remove "Proxy-Authorization" (Headers.remove "Authorization" (msg_headers (message target)))))
    match user with Some u => Some u | None => auth_user target end
    (challenge target) (source_ip_str target) (transport_name target).

(** What surrounds one call: the clocks, a random UUID, the trusted sources and
    the credential sources. *)
Record World := mkWorld {
  now_unix_secs : N;
  instant : N;
  uuid : bytes;
  is_trusted : IpAddr → bool;
  sources : Sources;
}.

Definition digest_apply (w : World) (a : PyAuth) (read : DigestRead) (outcome : CredentialCheck)
    (realm : string) (challenge_code : N) (target : AuthTarget) (ban : option AutoBanStore)
    : result Stop (bool * AuthTarget * option AutoBanStore * list Effect) :=
  match auth_header read with
  | Some value =>
      if is_valid outcome then
        user ← optional (extract_username value);
        Ok (true, accept user target, signal_success target ban, [])
      else
        let '(ban, effects) := signal_failure (is_trusted w) (instant w) outcome target ban in
        Ok (false, arm_challenge a (now_unix_secs w) (uuid w) realm challenge_code target, ban, effects)
  | None =>
      let '(ban, effects) := signal_failure (is_trusted w) (instant w) outcome target ban in
      Ok (false, arm_challenge a (now_unix_secs w) (uuid w) realm challenge_code target, ban, effects)
  end.

Definition require_digest_inner (w : World) (realm : option string) (challenge_code : N)
    (supplied : option SuppliedSecret) (a : PyAuth) (target : AuthTarget) (ban : option AutoBanStore)
    : result Stop (bool * PyAuth * AuthTarget * option AutoBanStore * list Effect) :=
  let realm := default (default_realm a) realm in
  let read := digest_read target in
  '(outcome, a) ←
    match auth_header read with
    | Some value =>
        validate_credentials_with (sources w) (now_unix_secs w) (instant w) value realm (method read) supplied a
    | None => Ok (Absent, a)
    end;
  '(passed, target, ban, effects) ← digest_apply w a read outcome realm challenge_code target ban;
  Ok (passed, a, target, ban, effects).

End verdict.
End Verdict.
