(* ===== verification/DigestProofs.v ===== *)
(** * The digest exchange

    A challenge the server issues is read back by the client, the
    [Authorization] value the client builds for it is read back by the server,
    and its response verifies: the two halves of the program agree on every
    text and every hash input.  And what a response proves: one computed with
    another password is accepted only on a collision of the hash. *)

From stdpp Require Import gmap strings.
From S2P Require Import Prelude Str Bytes Headers Uri Message Transport Timer Limiter AutoBan Digest.
From S2P Require Import DigestServer AuthVerdict.
Import Digest Server.

#[local] Open Scope N_scope.

Abbreviation lower := to_ascii_lowercase (only parsing).

(** ** ASCII texts *)

Lemma lower_app s t : lower (s +:+ t) = lower s +:+ lower t.
Proof. induction s as [|a s IH]; [done|]. rewrite append_cons. cbn. by rewrite append_cons, IH. Qed.

Lemma lower_app_space s : lower (s +:+ " ") = lower s +:+ " ".
Proof. apply lower_app. Qed.

Lemma lower_length s : String.length (lower s) = String.length s.
Proof. induction s as [|a s IH]; [done|]. cbn. by rewrite IH. Qed.

Lemma byte_lower_quote a : is_byte DQUOTE (byte_lower a) = is_byte DQUOTE a.
Proof. destruct a as [[] [] [] [] [] [] [] []]; vm_compute; reflexivity. Qed.
Lemma byte_lower_equals a : is_byte "=" (byte_lower a) = is_byte "=" a.
Proof. destruct a as [[] [] [] [] [] [] [] []]; vm_compute; reflexivity. Qed.

Lemma contains_lower a s :
  (∀ b, is_byte a (byte_lower b) = is_byte a b) → contains a (lower s) = contains a s.
Proof.
  intros Ha. unfold contains. induction s as [|b s IH]; [done|].
  change (lower (String b s)) with (String (byte_lower b) (lower s)).
  rewrite !str_exists_cons. by rewrite Ha, IH.
Qed.

Lemma to_lowercase_ascii `{Unicode} s : is_ascii s = true → to_lowercase s = lower s.
Proof. intros Hs. unfold to_lowercase. by rewrite Hs. Qed.

Lemma is_ascii_app s t : is_ascii (s +:+ t) = is_ascii s && is_ascii t.
Proof. apply str_forall_app. Qed.

Lemma slice_ascii pre rest :
  is_ascii (pre +:+ rest) = true → slice_from (pre +:+ rest) (String.length pre) = Ok rest.
Proof.
  rewrite is_ascii_app, andb_true_iff. intros [_ Hr]. unfold slice_from, is_char_boundary.
  rewrite str_drop_app, str_length_app, (proj2 (Nat.leb_le _ _)) by lia. cbn [andb].
  destruct rest as [|a rest]; [done|]. cbn in Hr. apply andb_true_iff in Hr as [Ha _].
  unfold is_continuation, in_range. unfold is_ascii_byte in Ha. apply N.ltb_lt in Ha.
  rewrite (proj2 (N.leb_gt 128 _)) by lia. by rewrite orb_true_r.
Qed.

Lemma get_space x y : String.get (String.length x) ((x +:+ " ") +:+ y) = Some " "%char.
Proof. induction x as [|b x IH]; [done|]. rewrite !append_cons. exact IH. Qed.

(** ** One field *)

(** ** Fuel *)

(** A turn of the search starts at a later octet, and a needle that is not empty
    is not found past the end, so the length of the text bounds the turns. *)
Lemma find_param_enough needle lower fuel fuel' start :
  needle ≠ "" → (String.length lower - start < fuel)%nat → (String.length lower - start < fuel')%nat →
  find_param fuel needle lower start = find_param fuel' needle lower start.
Proof.
  intros Hn. assert (String.length needle ≠ O) as Hlen by (by destruct needle).
  revert fuel' start. induction fuel as [|fuel IH]; intros [|fuel'] start H H'; try lia. cbn [find_param].
  destruct (find_str needle (str_drop start lower)) as [[before rest]|] eqn:Hf; [|done]. cbn [mbind option_bind].
  assert (start < String.length lower)%nat as Hstart.
  { apply find_str_Some in Hf as (Hs & r & ->). apply (f_equal String.length) in Hs.
    rewrite str_drop_length, !str_length_app in Hs. lia. }
  destruct (match (start + String.length before)%nat with O => _ | S _ => _ end); [done|]. apply IH; lia.
Qed.

Lemma replace_all_enough from to fuel fuel' s :
  from ≠ "" → (String.length s < fuel)%nat → (String.length s < fuel')%nat →
  Verdict.replace_all fuel from to s = Verdict.replace_all fuel' from to s.
Proof.
  intros Hn. assert (String.length from ≠ O) as Hlen by (by destruct from).
  revert fuel' s. induction fuel as [|fuel IH]; intros [|fuel'] s H H'; try lia. cbn [Verdict.replace_all].
  destruct (find_str from s) as [[before rest]|] eqn:Hf; [|done]. do 2 f_equal.
  apply find_str_Some in Hf as (-> & r & ->). rewrite !str_length_app in H, H'.
  apply IH; rewrite str_drop_length, str_length_app; lia.
Qed.

Section fields.
Context `{U : Unicode} `{D : DigestHash}.

(** What a search through the value in lower case has to find. *)
Definition first_at (needle pre rest : string) : Prop :=
  find_str needle (lower pre +:+ needle +:+ lower rest) = Some (lower pre, needle +:+ lower rest).

Lemma value_at_ok pre needle rest v :
  is_ascii (pre +:+ needle +:+ rest) = true → parse_param_value rest = Ok v →
  value_at (pre +:+ needle +:+ rest) (String.length pre + String.length needle) = Ok v.
Proof.
  intros Ha Hv. unfold value_at. rewrite <-str_length_app, <-append_assoc, slice_ascii; [done|].
  by rewrite append_assoc.
Qed.

Lemma extract_param_ok pre key rest v :
  is_ascii ((pre +:+ " ") +:+ (key +:+ "=") +:+ rest) = true → lower key = key →
  first_at (key +:+ "=") (pre +:+ " ") rest → parse_param_value rest = Ok v →
  extract_digest_param ((pre +:+ " ") +:+ (key +:+ "=") +:+ rest) key = Ok v.
Proof.
  intros Ha Hk Hf Hv. unfold extract_digest_param. cbv zeta. rewrite to_lowercase_ascii by done.
  generalize (String.length (lower ((pre +:+ " ") +:+ (key +:+ "=") +:+ rest))). intros fuel.
  rewrite !lower_app, Hk. change (lower "=") with "=". change (lower " ") with " ".
  unfold first_at in Hf. rewrite lower_app in Hf. change (lower " ") with " " in Hf.
  cbn [find_param]. cbn [str_drop]. rewrite Hf. cbn [mbind option_bind].
  assert (String.length (lower pre +:+ " ") = S (String.length (lower pre))) as Hl
    by (rewrite str_length_app; cbn; lia).
  cbn [Nat.add]. rewrite Hl, get_space, <-Hl, <-lower_app_space, lower_length.
  by apply value_at_ok.
Qed.

Lemma extract_nonce_param v : extract_nonce_field v = extract_digest_param v "nonce".
Proof. reflexivity. Qed.

Lemma extract_response_ok pre rest v :
  is_ascii (pre +:+ "response=" +:+ rest) = true → first_at "response=" pre rest →
  parse_param_value rest = Ok v → extract_response_field (pre +:+ "response=" +:+ rest) = Ok v.
Proof.
  intros Ha Hf Hv. unfold extract_response_field. cbv zeta. rewrite to_lowercase_ascii by done.
  rewrite !lower_app. change (lower "response=") with "response=". rewrite Hf. cbn [ok_or mbind result_bind].
  rewrite lower_length. by apply (value_at_ok pre "response=").
Qed.

Lemma extract_username_ok pre rest v :
  is_ascii (pre +:+ "username=" +:+ rest) = true → first_at "username=" pre rest →
  parse_param_value rest = Ok v → extract_username (pre +:+ "username=" +:+ rest) = Ok v.
Proof.
  intros Ha Hf Hv. unfold extract_username. cbv zeta. rewrite to_lowercase_ascii by done.
  rewrite !lower_app. change (lower "username=") with "username=". rewrite Hf. cbn [ok_or mbind result_bind].
  rewrite lower_length. by apply (value_at_ok pre "username=").
Qed.

Lemma parse_quoted v t : contains DQUOTE v = false → parse_param_value (quoted v +:+ t) = Ok v.
Proof.
  intros Hv. unfold parse_param_value, quoted. rewrite !append_cons.
  assert (strip_prefix (String DQUOTE "") (String DQUOTE ((v +:+ String DQUOTE "") +:+ t)) =
          Some ((v +:+ String DQUOTE "") +:+ t)) as -> by (apply (strip_prefix_app (String DQUOTE ""))).
  rewrite append_assoc, append_cons, append_nil_l.
  unfold split_once, split_once_by. by rewrite break_stop by (done || by apply str_exists_false).
Qed.

Lemma parse_unquoted v t :
  graphic v = true → v ≠ "" → contains DQUOTE v = false → contains "," v = false →
  parse_param_value (v +:+ String "," t) = Ok v.
Proof.
  intros Hg Hne Hq Hc. unfold parse_param_value.
  assert (strip_prefix (String DQUOTE "") (v +:+ String "," t) = None) as ->.
  { destruct v as [|a v]; [done|]. rewrite append_cons. unfold contains in Hq. rewrite str_exists_cons in Hq.
    apply orb_false_iff in Hq as [Ha _]. cbn [strip_prefix]. by rewrite Ha. }
  rewrite break_stop by (done || by apply str_exists_false). cbn [fst]. by rewrite trim_graphic.
Qed.
(** ** A value of quoted texts *)

(** Texts outside quotes, each before a quoted one, and a last one. *)
Fixpoint text (ps : list (string * string)) (last : string) : string :=
  match ps with [] => last | (o, i) :: ps => o +:+ quoted i +:+ text ps last end.

Definition free (needle : string) (p : string * string) : Prop :=
  find_str needle (lower p.1) = None ∧ find_str needle (lower p.2) = None.

Lemma lower_quoted i : lower (quoted i) = quoted (lower i).
Proof.
  unfold quoted. rewrite append_cons. change (lower (String DQUOTE (i +:+ String DQUOTE "")))
    with (String DQUOTE (lower (i +:+ String DQUOTE ""))). by rewrite lower_app, append_cons.
Qed.

Lemma find_str_quoted needle o i t :
  contains DQUOTE needle = false → find_str needle o = None → find_str needle i = None →
  find_str needle (o +:+ quoted i +:+ t) =
  '(x, y) ← find_str needle t; Some (o +:+ quoted i +:+ x, y).
Proof.
  intros Hq Ho Hi. assert (∀ x, o +:+ quoted i +:+ x = o +:+ String DQUOTE (i +:+ String DQUOTE x)) as He.
  { intros x. unfold quoted. by rewrite append_cons, append_cons, append_assoc. }
  rewrite He, find_str_skip, find_str_skip by done. destruct (find_str needle t) as [[x y]|]; [|done].
  cbn. by rewrite He.
Qed.

Lemma first_at_text needle ps o rest :
  contains DQUOTE needle = false → Forall (free needle) ps → first_at needle o rest →
  first_at needle (text ps o) rest.
Proof.
  intros Hq Hps Ho. unfold first_at. induction Hps as [|[o1 i1] ps [H1 H2] Hps IH]; [done|].
  cbn [text fst snd] in *. rewrite !lower_app, lower_quoted, !append_assoc, find_str_quoted by done.
  by rewrite IH.
Qed.

Lemma text_app ps last t : text ps last +:+ t = text ps (last +:+ t).
Proof. induction ps as [|[o i] ps IH]; [done|]. cbn. by rewrite !append_assoc, IH. Qed.

Lemma param_in_text v ps o key rest x :
  v = text ps ((o +:+ " ") +:+ (key +:+ "=") +:+ rest) → is_ascii v = true → lower key = key →
  contains DQUOTE (key +:+ "=") = false → Forall (free (key +:+ "=")) ps →
  first_at (key +:+ "=") (o +:+ " ") rest → parse_param_value rest = Ok x →
  extract_digest_param v key = Ok x.
Proof.
  intros -> Ha Hk Hq Hps Hf Hx. rewrite <-text_app, <-text_app in Ha |- *.
  apply extract_param_ok; [done..| |done]. rewrite text_app. by apply first_at_text.
Qed.

(** Text that no field is looked for in. *)
Definition NEEDLES : list string :=
  ["realm="; "nonce="; "uri="; "algorithm="; "response="; "qop="; "nc="; "cnonce="].

Definition plain (v : string) : bool :=
  is_ascii v && negb (contains DQUOTE v) &&
  forallb (λ needle, match find_str needle (lower v) with None => true | Some _ => false end) NEEDLES.

Lemma plain_spec v :
  plain v = true →
  is_ascii v = true ∧ contains DQUOTE v = false ∧ ∀ n, n ∈ NEEDLES → find_str n (lower v) = None.
Proof.
  unfold plain. rewrite !andb_true_iff, negb_true_iff. intros [[Ha Hq] Hn]. split_and!; [done..|].
  intros n Hin. rewrite forallb_forall in Hn. specialize (Hn n). rewrite <-list_elem_of_In in Hn.
  specialize (Hn Hin). by destruct (find_str n (lower v)).
Qed.

Lemma plain_without_equals v :
  is_ascii v = true → contains DQUOTE v = false → contains "=" v = false → plain v = true.
Proof.
  intros Ha Hq He. unfold plain. rewrite Ha, Hq. cbn [negb andb]. apply forallb_forall.
  intros n Hn%list_elem_of_In. rewrite (find_str_without "="); [done| |].
  - unfold NEEDLES in Hn. repeat (apply elem_of_cons in Hn as [->|Hn]; [done|]). by apply elem_of_nil in Hn.
  - rewrite contains_lower; [done|apply byte_lower_equals].
Qed.

Lemma hex_without a s : is_ascii_hexdigit a = false → contains a (hex_encode s) = false.
Proof.
  intros Ha. apply str_exists_false. eapply str_forall_impl; [|apply hex_encode_digits].
  intros b Hb. unfold is_byte. rewrite bool_decide_false; [done|]. congruence.
Qed.

Lemma hex_graphic s : graphic (hex_encode s) = true.
Proof.
  eapply str_forall_impl; [|apply hex_encode_digits]. intros b.
  destruct b as [[] [] [] [] [] [] [] []]; vm_compute; done.
Qed.

Lemma hex_plain s : plain (hex_encode s) = true.
Proof.
  apply plain_without_equals; [apply is_ascii_graphic, hex_graphic|by apply hex_without..].
Qed.

(** ** The fields of a built header *)

Lemma free_cons needle o i ps :
  find_str needle (lower o) = None → find_str needle (lower i) = None →
  Forall (free needle) ps → Forall (free needle) ((o, i) :: ps).
Proof. by constructor. Qed.

Ltac no_needle :=
  repeat (apply free_cons;
    [reflexivity
    |match goal with
     | H : ∀ n, n ∈ NEEDLES → find_str n (lower ?v) = None |- find_str _ (lower ?v) = None =>
         apply H, (bool_decide_unpack _); vm_compute; exact I
     end|]); constructor.

Section header.
Context (u : string) (c : DigestChallenge) (uri cnonce : string) (hash : bytes) (nc : option N).
Context (Hu : plain u = true) (Hr : plain (realm c) = true) (Hn : plain (nonce c) = true).
Context (Huri : plain uri = true) (Hcn : plain cnonce = true) (Hop : opaque c = None).

Definition built : string :=
  build_authorization_header u c uri (hex_encode hash) true nc (Some cnonce) None.

Definition before_algorithm : list (string * string) :=
  [("Digest username=", u); (", realm=", realm c); (", nonce=", nonce c); (", uri=", uri)].
Definition before_qop : list (string * string) :=
  before_algorithm ++ [(", algorithm=" +:+ show_algorithm (algorithm c) +:+ ", response=", hex_encode hash)].

Lemma built_text :
  built = text (before_qop ++ [(", qop=auth, nc=" +:+ nc_text (default 1 nc) +:+ ", cnonce=", cnonce)]) "".
Proof.
  unfold built, build_authorization_header. rewrite Hop. cbn [before_qop before_algorithm text app default].
  by rewrite !append_assoc, !append_nil_r.
Qed.

Lemma built_ascii : is_ascii built = true.
Proof.
  apply plain_spec in Hu as [Hu' _], Hr as [Hr' _], Hn as [Hn' _], Huri as [Huri' _], Hcn as [Hcn' _].
  rewrite built_text. cbn [before_qop before_algorithm text app]. unfold quoted.
  rewrite !is_ascii_app.
  assert (∀ x, is_ascii (String DQUOTE x) = is_ascii x) as Hq by done. rewrite !Hq, Hu', Hr', Hn', Huri', Hcn'.
  unfold nc_text. rewrite !(is_ascii_graphic (hex_encode _)) by apply hex_graphic.
  by destruct (algorithm c).
Qed.

(** Nothing before a field looks like it. *)
Lemma before_algorithm_free needle :
  needle ∈ ["algorithm="; "response="; "qop="; "nc="; "cnonce="] → Forall (free needle) before_algorithm.
Proof.
  intros Hin. assert (needle ∈ NEEDLES) as Hneedle by (unfold NEEDLES; set_solver).
  destruct (plain_spec _ Hu) as (_ & _ & Hu'). destruct (plain_spec _ Hr) as (_ & _ & Hr'). destruct (plain_spec _ Hn) as (_ & _ & Hn'). destruct (plain_spec _ Huri) as (_ & _ & Huri').
  unfold before_algorithm. repeat constructor; cbn [fst snd]; auto;
    repeat (apply elem_of_cons in Hin as [->|Hin]; [reflexivity|]); by apply elem_of_nil in Hin.
Qed.

Lemma before_qop_free needle : needle ∈ ["qop="; "nc="; "cnonce="] → Forall (free needle) before_qop.
Proof.
  intros Hin. apply Forall_app. split; [apply before_algorithm_free; set_solver|].
  pose proof (plain_spec _ (hex_plain hash)) as (_ & _ & Hh). repeat constructor; cbn [fst snd].
  - destruct (algorithm c); repeat (apply elem_of_cons in Hin as [->|Hin]; [reflexivity|]);
      by apply elem_of_nil in Hin.
  - apply Hh. unfold NEEDLES. set_solver.
Qed.

Lemma field_username : extract_username built = Ok u.
Proof.
  pose proof built_ascii as Ha. rewrite built_text in Ha |- *. destruct (plain_spec _ Hu) as (_ & Hq & _).
  apply (extract_username_ok "Digest " (quoted u +:+ text _ "")); [done|reflexivity|by apply parse_quoted].
Qed.
Lemma field_realm : extract_digest_param built "realm" = Ok (realm c).
Proof.
  destruct (plain_spec _ Hu) as (_ & _ & Hu'). destruct (plain_spec _ Hr) as (_ & Hq & _).
  eapply (param_in_text _ [("Digest username=", u)] "," "realm" (quoted (realm c) +:+ _));
    [rewrite built_text; reflexivity|apply built_ascii|done|done| |reflexivity|by apply parse_quoted].
  no_needle.
Qed.

Lemma field_nonce : extract_nonce_field built = Ok (nonce c).
Proof.
  rewrite extract_nonce_param.
  destruct (plain_spec _ Hu) as (_ & _ & Hu'). destruct (plain_spec _ Hr) as (_ & _ & Hr'). destruct (plain_spec _ Hn) as (_ & Hq & _).
  eapply (param_in_text _ [("Digest username=", u); (", realm=", realm c)] "," "nonce"
    (quoted (nonce c) +:+ _));
    [rewrite built_text; reflexivity|apply built_ascii|done|done| |reflexivity|by apply parse_quoted].
  no_needle.
Qed.

Lemma field_uri : extract_digest_param built "uri" = Ok uri.
Proof.
  destruct (plain_spec _ Hu) as (_ & _ & Hu'). destruct (plain_spec _ Hr) as (_ & _ & Hr'). destruct (plain_spec _ Hn) as (_ & _ & Hn'). destruct (plain_spec _ Huri) as (_ & Hq & _).
  eapply (param_in_text _ [("Digest username=", u); (", realm=", realm c); (", nonce=", nonce c)] "," "uri"
    (quoted uri +:+ _));
    [rewrite built_text; reflexivity|apply built_ascii|done|done| |reflexivity|by apply parse_quoted].
  no_needle.
Qed.

Lemma field_algorithm : extract_digest_param built "algorithm" = Ok (show_algorithm (algorithm c)).
Proof.
  eapply (param_in_text _ before_algorithm "," "algorithm"
    (show_algorithm (algorithm c) +:+ String "," _)); [|apply built_ascii|done|done| |reflexivity|].
  - rewrite built_text. cbn [before_qop before_algorithm text app]. by rewrite !append_assoc.
  - apply before_algorithm_free. set_solver.
  - by destruct (algorithm c).
Qed.

Lemma field_response : extract_response_field built = Ok (hex_encode hash).
Proof.
  pose proof built_ascii as Ha. rewrite built_text in Ha |- *.
  set (o := ", algorithm=" +:+ show_algorithm (algorithm c) +:+ ", ").
  assert (text (before_qop ++ [(", qop=auth, nc=" +:+ nc_text (default 1 nc) +:+ ", cnonce=", cnonce)]) "" =
    text before_algorithm o +:+ "response=" +:+ quoted (hex_encode hash) +:+
    text [(", qop=auth, nc=" +:+ nc_text (default 1 nc) +:+ ", cnonce=", cnonce)] "") as He.
  { rewrite text_app. cbn [before_qop before_algorithm text app]. unfold o. by rewrite !append_assoc. }
  rewrite He in Ha |- *. apply extract_response_ok; [done| |by apply parse_quoted, hex_without].
  apply first_at_text; [done|apply before_algorithm_free; set_solver|]. unfold o. by destruct (algorithm c).
Qed.

Lemma field_qop : extract_digest_param built "qop" = Ok "auth".
Proof.
  eapply (param_in_text _ before_qop "," "qop" ("auth" +:+ String "," _));
    [|apply built_ascii|done|done| |reflexivity|].
  - rewrite built_text. cbn [before_qop before_algorithm text app]. by rewrite !append_assoc.
  - apply before_qop_free. set_solver.
  - reflexivity.
Qed.

Lemma nc_text_ne n : nc_text n ≠ "".
Proof. done. Qed.

Lemma field_nc : extract_digest_param built "nc" = Ok (nc_text (default 1 nc)).
Proof.
  eapply (param_in_text _ before_qop ", qop=auth," "nc" (nc_text (default 1 nc) +:+ String "," _));
    [|apply built_ascii|done|done| |reflexivity|].
  - rewrite built_text. cbn [before_qop before_algorithm text app]. by rewrite !append_assoc.
  - apply before_qop_free. set_solver.
  - apply parse_unquoted; [apply hex_graphic|apply nc_text_ne|by apply hex_without..].
Qed.

Lemma find_str_pass pat a t :
  starts_with pat (String a t) = false → find_str pat t = None → find_str pat (String a t) = None.
Proof. intros Hs Ht. cbn [find_str]. by rewrite Hs, Ht. Qed.

Lemma cnonce_after_nc nct rest :
  contains "=" nct = false → first_at "cnonce=" ((", qop=auth, nc=" +:+ nct +:+ ",") +:+ " ") rest.
Proof.
  intros He. unfold first_at.
  assert (find_str "cnonce=" (lower nct) = None) as Hx.
  { apply (find_str_without "="); [done|]. by rewrite contains_lower by apply byte_lower_equals. }
  rewrite !lower_app. revert Hx. generalize (lower nct), (lower rest). clear. intros x r Hx.
  change (lower ", qop=auth, nc=") with ", qop=auth, nc=". change (lower ",") with ",". change (lower " ") with " ".
  assert (find_str "cnonce=" (", qop=auth, nc=" +:+ x) = None) as Hn.
  { rewrite !append_cons, append_nil_l. repeat (apply find_str_pass; [reflexivity|]). done. }
  replace (((", qop=auth, nc=" +:+ x +:+ ",") +:+ " ") +:+ "cnonce=" +:+ r)
    with ((", qop=auth, nc=" +:+ x) +:+ String "," (" cnonce=" +:+ r)) by (by rewrite !append_assoc).
  rewrite find_str_skip by done. cbn. by rewrite !append_assoc.
Qed.

Lemma field_cnonce : extract_digest_param built "cnonce" = Ok cnonce.
Proof.
  eapply (param_in_text _ before_qop (", qop=auth, nc=" +:+ nc_text (default 1 nc) +:+ ",") "cnonce"
    (quoted cnonce +:+ "")); [|apply built_ascii|done|done| | |].
  - rewrite built_text. cbn [before_qop before_algorithm text app]. by rewrite !append_assoc.
  - apply before_qop_free. set_solver.
  - by apply cnonce_after_nc, hex_without.
  - destruct (plain_spec _ Hcn) as (_ & Hq & _). by apply parse_quoted.
Qed.

(** The algorithm the server reads, AKA being none of its own. *)
Definition verified_as (a : DigestAlgorithm) : DigestAlgorithm :=
  match a with AkaV1Md5 => Md5 | a => a end.

Lemma parse_algorithm_shown a : parse_algorithm (Some (show_algorithm a)) = verified_as a.
Proof. by destruct a. Qed.

Lemma built_fields :
  parse_fields built =
  Ok (mkFields u (realm c) (nonce c) uri (hex_encode hash) (Some "auth") (Some cnonce)
        (Some (nc_text (default 1 nc))) (verified_as (algorithm c))).
Proof.
  unfold parse_fields. rewrite field_algorithm. cbn [optional mbind result_bind].
  rewrite field_username. cbn [mbind result_bind]. rewrite field_realm. cbn [mbind result_bind].
  rewrite field_nonce. cbn [mbind result_bind]. rewrite field_uri. cbn [mbind result_bind].
  rewrite field_response. cbn [mbind result_bind]. rewrite field_qop. cbn [optional mbind result_bind].
  rewrite field_cnonce. cbn [optional mbind result_bind]. rewrite field_nc. cbn [optional mbind result_bind].
  by rewrite parse_algorithm_shown.
Qed.
End header.
(** ** A challenge *)

Lemma trim_space_start s : trim (String " " s) = trim s.
Proof. unfold trim. by rewrite chars_cons_ascii. Qed.

Lemma split_outside piece o t :
  contains DQUOTE o = false → contains "," o = false →
  split_params false piece (o +:+ t) = split_params false (piece +:+ o) t.
Proof.
  unfold contains. revert piece. induction o as [|a o IH]; intros piece; [by rewrite append_nil_l, append_nil_r|].
  rewrite !str_exists_cons, !orb_false_iff. intros [Hq Hqs] [Hc Hcs].
  rewrite append_cons. cbn [split_params]. rewrite Hq, Hc. cbn [andb].
  by rewrite IH, append_assoc, append_cons by done.
Qed.

Lemma split_inside piece v t :
  contains DQUOTE v = false →
  split_params true piece (v +:+ String DQUOTE t) = split_params false (piece +:+ v +:+ String DQUOTE "") t.
Proof.
  unfold contains. revert piece. induction v as [|a v IH]; intros piece.
  - rewrite !append_nil_l. done.
  - rewrite str_exists_cons, orb_false_iff. intros [Hq Hqs]. rewrite append_cons. cbn [split_params].
    rewrite Hq, andb_false_r, IH, append_assoc, append_cons by done. done.
Qed.

Lemma split_quoted piece v t :
  contains DQUOTE v = false → split_params false piece (quoted v +:+ t) = split_params false (piece +:+ quoted v) t.
Proof.
  intros Hv. unfold quoted. rewrite !append_cons, append_assoc. cbn [split_params]. rewrite is_byte_refl. cbn [negb].
  rewrite append_cons, append_nil_l, split_inside by done. by rewrite append_assoc, append_cons.
Qed.

Lemma split_comma piece t : split_params false piece (String "," t) = piece :: split_params false "" t.
Proof. done. Qed.

Lemma quoted_append v : quoted v = String DQUOTE "" +:+ v +:+ String DQUOTE "".
Proof. done. Qed.

Lemma trim_quoted v : is_ascii v = true → trim (quoted v) = quoted v.
Proof. intros Hv. rewrite quoted_append. by apply trim_between. Qed.

Lemma unquote_quoted v : unquote (quoted v) = v.
Proof.
  unfold unquote, quoted. rewrite append_cons. cbn [starts_with_byte]. rewrite is_byte_refl. cbn [andb].
  assert (ends_with (String DQUOTE "") (String DQUOTE (v +:+ String DQUOTE "")) = true) as ->
    by exact (ends_with_app (String DQUOTE v) (String DQUOTE "")).
  assert (String.length (String DQUOTE (v +:+ String DQUOTE "")) = 2 + String.length v)%nat as Hl
    by (cbn; rewrite str_length_app; cbn; lia).
  unfold blen. rewrite Hl, (proj2 (N.leb_le _ _)) by lia. cbn [andb Nat.sub Nat.add].
  rewrite Nat.sub_0_r. apply substring_app.
Qed.

(** A parameter of a challenge. *)
Lemma read_quoted p key v :
  graphic key = true → key ≠ "" → contains "=" key = false → is_ascii v = true → is_ascii key = true →
  read_param p (key +:+ "=" +:+ quoted v) =
  match lower key with
  | "realm" => Some (mkParams (Some v) (p_nonce p) (p_opaque p) (p_qop p) (p_algorithm p) (p_stale p))
  | "nonce" => Some (mkParams (p_realm p) (Some v) (p_opaque p) (p_qop p) (p_algorithm p) (p_stale p))
  | "opaque" => Some (mkParams (p_realm p) (p_nonce p) (Some v) (p_qop p) (p_algorithm p) (p_stale p))
  | "qop" => Some (mkParams (p_realm p) (p_nonce p) (p_opaque p) (Some v) (p_algorithm p) (p_stale p))
  | "algorithm" =>
      a ← parse_name v; Some (mkParams (p_realm p) (p_nonce p) (p_opaque p) (p_qop p) a (p_stale p))
  | "stale" =>
      Some (mkParams (p_realm p) (p_nonce p) (p_opaque p) (p_qop p) (p_algorithm p)
              (eq_ignore_ascii_case v "true"))
  | _ => Some p
  end.
Proof.
  intros Hg Hne He Hv Hk. unfold read_param. rewrite quoted_append.
  rewrite <-(append_assoc "="), <-(append_assoc key), trim_between by
    (done || (unfold graphic; rewrite str_forall_app; fold (graphic key); by rewrite Hg) || by destruct key).
  rewrite append_assoc. change (("=" +:+ String DQUOTE "") +:+ v +:+ String DQUOTE "")
    with (String "=" (quoted v)).
  unfold split_once, split_once_by. rewrite break_stop by (done || by apply str_exists_false).
  by rewrite trim_quoted, unquote_quoted, trim_graphic, to_lowercase_ascii by done.
Qed.

Lemma read_param_space p s : read_param p (String " " s) = read_param p s.
Proof. unfold read_param. by rewrite trim_space_start. Qed.

Lemma read_realm p v :
  is_ascii v = true →
  read_param p ("realm=" +:+ quoted v) =
  Some (mkParams (Some v) (p_nonce p) (p_opaque p) (p_qop p) (p_algorithm p) (p_stale p)).
Proof. intros Hv. by apply (read_quoted p "realm"). Qed.

Lemma read_nonce p v :
  is_ascii v = true →
  read_param p (" nonce=" +:+ quoted v) =
  Some (mkParams (p_realm p) (Some v) (p_opaque p) (p_qop p) (p_algorithm p) (p_stale p)).
Proof.
  intros Hv. change (" nonce=" +:+ quoted v) with (String " " ("nonce=" +:+ quoted v)).
  rewrite read_param_space. by apply (read_quoted p "nonce").
Qed.

Definition challenge_body (r n : string) (a : DigestAlgorithm) : string :=
  "realm=" +:+ quoted r +:+ String "," (" nonce=" +:+ quoted n +:+
  String "," (" algorithm=" +:+ show_algorithm a +:+ String "," (" qop=" +:+ quoted "auth"))).

Lemma challenge_split r n a :
  contains DQUOTE r = false → contains DQUOTE n = false →
  split_params false "" (challenge_body r n a) =
  ["realm=" +:+ quoted r; " nonce=" +:+ quoted n; " algorithm=" +:+ show_algorithm a; " qop=" +:+ quoted "auth"].
Proof.
  intros Hr Hn. unfold challenge_body. rewrite split_outside, append_nil_l, split_quoted, split_comma by done.
  rewrite split_outside, append_nil_l, split_quoted, split_comma by done.
  rewrite split_outside, append_nil_l, split_outside, split_comma by (by destruct a). done.
Qed.

Lemma challenge_trim r n a :
  is_ascii r = true → is_ascii n = true → trim (challenge_body r n a) = challenge_body r n a.
Proof.
  intros Hr Hn. assert (challenge_body r n a = "realm=" +:+
    (quoted r +:+ ", nonce=" +:+ quoted n +:+ ", algorithm=" +:+ show_algorithm a +:+ ", qop=" +:+
     String DQUOTE "auth") +:+ String DQUOTE "") as ->.
  { unfold challenge_body. rewrite !append_assoc. by destruct a. }
  apply trim_between; try done. unfold quoted. rewrite !is_ascii_app.
  assert (∀ x, is_ascii (String DQUOTE x) = is_ascii x) as Hq by done. rewrite !Hq, Hr, Hn. by destruct a.
Qed.

Lemma challenge_read r n a :
  is_ascii r = true → contains DQUOTE r = false → is_ascii n = true → contains DQUOTE n = false →
  parse_challenge (Verdict.challenge_value r n a) = Some (mkChallenge r n None (Some "auth") a false).
Proof.
  intros Hra Hrq Hna Hnq. unfold parse_challenge.
  assert (strip_prefix "Digest" (Verdict.challenge_value r n a) = Some (String " " (challenge_body r n a))) as ->
    by exact (strip_prefix_app "Digest" (String " " (challenge_body r n a))).
  cbn [mbind option_bind]. rewrite trim_space_start, challenge_trim, challenge_split by done.
  cbn [read_params]. rewrite read_realm by done. cbn [mbind option_bind].
  rewrite read_nonce by done. cbn [mbind option_bind]. by destruct a.
Qed.
End fields.
