(* ===== verification/DigestExchange.v ===== *)
(** * The exchange from the challenge to the verdict

    Which nonces are accepted, the verdict on the answer to a challenge, and
    what [require_digest] does with a request: the theorems about the whole
    handler. *)

From stdpp Require Import gmap strings.
From S2P Require Import Prelude Str Bytes Nom Headers Uri Message Transport Timer Limiter AutoBan Digest.
From S2P Require Import DigestServer AuthVerdict DigestProofs.
Import Digest Server Ban.

#[local] Open Scope N_scope.

(** ** Constant-time comparison *)

Lemma code_inj a b : code a = code b → a = b.
Proof. unfold code. intros H. by rewrite <-(ascii_N_embedding a), H, ascii_N_embedding. Qed.

Lemma difference_zero a b :
  String.length a = String.length b → difference a b = 0 ↔ a = b.
Proof.
  revert b. induction a as [|x a IH]; intros [|y b] Hl; try done. cbn in Hl |- *.
  rewrite N.lor_eq_0_iff, N.lxor_eq_0_iff, IH by lia. split.
  - by intros [->%code_inj ->].
  - by intros [= -> ->].
Qed.

Lemma constant_time_eq_spec a b : constant_time_eq a b = true ↔ a = b.
Proof.
  unfold constant_time_eq. destruct (Nat.eqb_spec (String.length a) (String.length b)) as [Hl|Hl]; cbn [negb].
  - by rewrite N.eqb_eq, difference_zero.
  - split; [done|]. by intros ->.
Qed.

(** ** Nonces *)

Lemma contains_app a s t : contains a (s +:+ t) = contains a s || contains a t.
Proof. apply str_exists_app. Qed.

Lemma hex_digits_of_byte b :
  hex_digit (hex_char (N.shiftr (code b) 4)) = Some (N.shiftr (code b) 4) ∧
  hex_digit (hex_char (N.land (code b) 15)) = Some (N.land (code b) 15) ∧
  code b = N.shiftr (code b) 4 * 16 + N.land (code b) 15.
Proof. destruct b as [[] [] [] [] [] [] [] []]; vm_compute; done. Qed.

Lemma be_value_ge acc s : acc <= be_value acc s.
Proof.
  revert acc. induction s as [|b s IH]; intros acc; cbn [be_value]; [lia|].
  specialize (IH (256 * acc + code b)). lia.
Qed.

Lemma hex_value_encode max acc s :
  be_value acc s <= max → hex_value max acc (hex_encode s) = Some (be_value acc s).
Proof.
  revert acc. induction s as [|b s IH]; intros acc Hm; [done|].
  destruct (hex_digits_of_byte b) as (Hh & Hl & Hc). cbn [hex_encode hex_value be_value] in *.
  rewrite Hh. cbn [mbind option_bind]. pose proof (be_value_ge (256 * acc + code b) s).
  rewrite (proj2 (N.ltb_ge _ _)) by lia. rewrite Hl. cbn [mbind option_bind].
  rewrite (proj2 (N.ltb_ge _ _)) by lia. rewrite <-IH by done. f_equal. lia.
Qed.

Lemma parse_hex_encode s :
  s ≠ "" → from_be s <= U64_MAX → parse_hex U64_MAX (hex_encode s) = Some (from_be s).
Proof.
  intros Hne Hm. unfold parse_hex. destruct (starts_with "+" (hex_encode s)) eqn:Hp.
  { exfalso. apply starts_with_spec in Hp as [t Ht]. pose proof (hex_without "+" s eq_refl) as Hc.
    by rewrite Ht in Hc. }
  unfold from_be in *. rewrite <-(hex_value_encode _ _ _ Hm). by destruct s.
Qed.

Section exchange.
Context `{U : Unicode} `{D : DigestHash}.

(** Within the lifetime, and no more than a minute ahead of the clock. *)
Definition timely (p : NoncePolicy) (now issued : N) : bool :=
  (now - issued <=? nonce_ttl_secs p) && (issued - now <=? 60).

Lemma split_at_dot x t : contains "." x = false → split_once "." (x +:+ "." +:+ t) = Some (x, t).
Proof.
  intros Hx. unfold split_once, split_once_by. change ("." +:+ t) with (String "." t).
  by rewrite break_stop by (done || by apply str_exists_false).
Qed.

Lemma timely_negb p now t :
  (nonce_ttl_secs p <? now - t) || (60 <? t - now) = negb (timely p now t).
Proof. unfold timely. rewrite negb_andb, <-!N.ltb_antisym. done. Qed.

Lemma generated_nonce_valid p issued now uuid :
  issued <= U64_MAX → validate_nonce p now (generate_nonce p issued uuid) = timely p now issued.
Proof.
  intros Ht. unfold validate_nonce, generate_nonce. rewrite split_at_dot by (by apply hex_without).
  assert (from_be (to_be 8 issued) = issued) as Hv.
  { apply from_to_be. change (256 ^ N.of_nat 8) with (U64_MAX + 1). lia. }
  rewrite parse_hex_encode by (done || by rewrite Hv). rewrite Hv, timely_negb.
  destruct (timely p now issued); cbn [negb]; [|done].
  destruct (nonce_secret p); [|done]. by apply constant_time_eq_spec.
Qed.

Lemma generated_nonce_plain p issued uuid : plain (generate_nonce p issued uuid) = true.
Proof.
  unfold generate_nonce. set (tag := match nonce_secret p with Some _ => _ | None => _ end).
  assert (∃ b, tag = hex_encode b) as [b ->].
  { subst tag. destruct (nonce_secret p); [|by eexists]. unfold hmac_sha256_hex. by eexists. }
  apply plain_without_equals; rewrite ?is_ascii_app, ?contains_app, ?hex_without by done; [|done..].
  by rewrite !(is_ascii_graphic (hex_encode _)) by apply hex_graphic.
Qed.

(** A nonce is accepted for its lifetime and no longer. One the server issued
    is accepted exactly as long as it is not older than the lifetime, nor issued
    more than a minute ahead of the clock; and with a secret configured no other
    is: an accepted nonce is a timestamp of this period and the secret's
    authenticator of that very text. *)
Theorem nonce_accepted_exactly (p : NoncePolicy) (now : N) :
  (∀ issued uuid, issued <= U64_MAX →
     validate_nonce p now (generate_nonce p issued uuid) = timely p now issued) ∧
  (∀ nonce secret, nonce_secret p = Some secret →
     validate_nonce p now nonce = true ↔
     ∃ timestamp_hex issued, nonce = timestamp_hex +:+ "." +:+ hmac_sha256_hex secret timestamp_hex ∧
       contains "." timestamp_hex = false ∧
       parse_hex U64_MAX timestamp_hex = Some issued ∧ timely p now issued = true).
Proof.
  split; [intros; by apply generated_nonce_valid|]. intros nonce secret Hs. split.
  - unfold validate_nonce. destruct (split_once "." nonce) as [[x tag]|] eqn:Hn; [|done].
    apply split_once_Some in Hn as [-> Hd]. destruct (parse_hex U64_MAX x) as [issued|] eqn:Hp; [|done].
    rewrite timely_negb, Hs. destruct (timely p now issued) eqn:Ht; cbn [negb]; [|done].
    intros <-%constant_time_eq_spec. by exists x, issued.
  - intros (x & issued & -> & Hd & Hp & Ht). unfold validate_nonce. rewrite split_at_dot by done.
    rewrite Hp, timely_negb, Ht, Hs. cbn [negb]. by apply constant_time_eq_spec.
Qed.
(** ** The response *)

Lemma hash_hex_verified a x : hash_hex (verified_as a) x = hash_hex a x.
Proof. by destruct a. Qed.

(** What is hashed last. *)
Definition response_input (c : DigestChallenge) (ha1 method uri nc cnonce : string) : string :=
  ha1 +:+ ":" +:+ nonce c +:+ ":" +:+ nc +:+ ":" +:+ cnonce +:+ ":auth:" +:+
  hash_hex (algorithm c) (method +:+ ":" +:+ uri).

(** A challenge for which the server computes what the client does. *)
Record answerable (c : DigestChallenge) : Prop := {
  ans_session : is_session (algorithm c) = false;
  ans_qop : qop c = Some "auth";
  ans_opaque : opaque c = None;
  ans_realm : plain (realm c) = true;
  ans_nonce : plain (nonce c) = true;
}.

Lemma header_fields (c : DigestChallenge) (credentials : DigestCredentials) method uri nc uuid uuid' :
  answerable c → plain (username credentials) = true → plain uri = true →
  let ha1 := ha1_of (algorithm c) (username credentials) (realm c) (password credentials) in
  let cnonce := generate_cnonce uuid in
  parse_fields (format_authorization_header c credentials method uri nc None uuid uuid') =
  Ok (mkFields (username credentials) (realm c) (nonce c) uri
        (hash_hex (algorithm c) (response_input c ha1 method uri (nc_text (default 1 nc)) cnonce))
        (Some "auth") (Some cnonce) (Some (nc_text (default 1 nc))) (verified_as (algorithm c))).
Proof.
  intros [Hs Hq Ho Hr Hn] Hu Huri ha1 cnonce.
  assert (qop_has_auth c = true) as Ha by (unfold qop_has_auth; by rewrite Hq).
  unfold format_authorization_header, authorize, derive_cnonce. rewrite Ha. cbn [orb].
  fold cnonce. unfold compute_digest_response, digest_response_from_ha1. rewrite Hs, Ha, Hq.
  cbn [orb bool_decide]. fold ha1. cbn [default].
  apply (built_fields (username credentials) c uri cnonce _ nc); (done || apply hex_plain).
Qed.

(** The verdict on an answer, with a password the server holds. *)
Lemma header_verified (c : DigestChallenge) (credentials : DigestCredentials) method uri nc uuid uuid' secret :
  answerable c → plain (username credentials) = true → plain uri = true →
  let of_password p :=
    hash_hex (algorithm c)
      (response_input c (ha1_of (algorithm c) (username credentials) (realm c) p) method uri
         (nc_text (default 1 nc)) (generate_cnonce uuid)) in
  ∃ f, parse_fields (format_authorization_header c credentials method uri nc None uuid uuid') = Ok f ∧
    f_username f = username credentials ∧ f_nonce f = nonce c ∧
    verify f (ha1_of (f_algorithm f) (f_username f) (realm c) secret) method =
    eq_ignore_ascii_case (of_password secret) (of_password (password credentials)).
Proof.
  intros Hc Hu Huri of_password. eexists. split; [by apply header_fields|]. split_and!; [done..|].
  unfold verify. cbn [f_qop f_algorithm f_username f_nonce f_nc f_cnonce f_uri f_response default].
  rewrite bool_decide_true by done. unfold ha1_of. by rewrite !hash_hex_verified.
Qed.

Lemma eq_ignore_refl x : eq_ignore_ascii_case x x = true.
Proof. by apply String.eqb_refl. Qed.
(** ** The handler *)

Lemma parse_fields_inv v f :
  parse_fields v = Ok f →
  extract_username v = Ok (f_username f) ∧ extract_nonce_field v = Ok (f_nonce f).
Proof.
  unfold parse_fields. intros (alg & _ & (u & Hu & (r & _ & (n & Hn & H)%bind_Ok)%bind_Ok)%bind_Ok)%bind_Ok.
  repeat (apply bind_Ok in H as (? & _ & H)). by injection H as <-.
Qed.

Lemma validate_answer (a : Verdict.PyAuth) sources now instant c credentials method uri nc uuid uuid' stored :
  Verdict.backend_type a = Verdict.Static →
  Verdict.find_password (Verdict.static_users a) (username credentials) = Some stored →
  answerable c → plain (username credentials) = true → plain uri = true →
  let of_password p :=
    hash_hex (algorithm c)
      (response_input c (ha1_of (algorithm c) (username credentials) (realm c) p) method uri
         (nc_text (default 1 nc)) (generate_cnonce uuid)) in
  Verdict.validate_credentials_with sources now instant
    (format_authorization_header c credentials method uri nc None uuid uuid') (realm c) method None a =
  Ok (Verdict.from_verified
        (validate_nonce (Verdict.nonce_policy a) now (nonce c) &&
         eq_ignore_ascii_case (of_password stored) (of_password (password credentials))), a).
Proof.
  intros Hb Hf Hc Hu Huri of_password.
  destruct (header_verified c credentials method uri nc uuid uuid' stored Hc Hu Huri)
    as (f & Hp & Hfu & Hfn & Hv).
  destruct (parse_fields_inv _ _ Hp) as [_ Hn].
  unfold Verdict.validate_credentials_with, Verdict.replay_or_supplied. rewrite Hn, Hfn, Hb.
  cbn [optional mbind result_bind].
  destruct (validate_nonce (Verdict.nonce_policy a) now (nonce c)); cbn [andb mbind result_bind]; [|done].
  unfold Verdict.validate_static, Verdict.fields_or. rewrite Hp. cbn [optional mbind result_bind].
  rewrite Hfu, Hf. rewrite <-Hfu at 1. by rewrite Hv.
Qed.
(** The header of the challenges of a response code. *)
Definition challenge_header (code : N) : string :=
  if code =? 401 then "WWW-Authenticate" else "Proxy-Authenticate".

Definition rows (name : string) (m : Verdict.AuthTarget) : list string :=
  default [] (Headers.get_all name (msg_headers (Verdict.message m))).

Lemma armed_rows a now u r code m :
  Headers.wf (msg_headers (Verdict.message m)) →
  rows (challenge_header code) (Verdict.arm_challenge a now u r code m) =
  Verdict.challenge_value r (generate_nonce (Verdict.nonce_policy a) now u) <$> Verdict.challenge_algorithms a.
Proof.
  intros Hwf. unfold rows, Verdict.arm_challenge, challenge_header. cbn [Verdict.message with_headers msg_headers].
  rewrite Headers.get_all_foldl_add, Headers.same_header_refl, Headers.get_all_remove, Headers.same_header_refl by done.
  case_bool_decide as He; cbn; by rewrite ?He.
Qed.

Lemma accepted_headers user m :
  Headers.wf (msg_headers (Verdict.message m)) →
  rows "Authorization" (Verdict.accept user m) = [] ∧ rows "Proxy-Authorization" (Verdict.accept user m) = [].
Proof.
  intros Hwf. unfold rows, Verdict.accept. cbn [Verdict.message with_headers msg_headers].
  by rewrite !Headers.get_all_remove by auto using Headers.wf_remove.
Qed.

Lemma without_credentials w r code sup a m ban :
  Verdict.auth_header (Verdict.digest_read m) = None →
  ∃ ban' effects, Verdict.require_digest_inner w r code sup a m ban =
    Ok (false, a, Verdict.arm_challenge a (Verdict.now_unix_secs w) (Verdict.uuid w)
                    (default (Verdict.default_realm a) r) code m, ban', effects).
Proof.
  intros Hm. unfold Verdict.require_digest_inner, Verdict.digest_apply. rewrite Hm. cbn [mbind result_bind].
  destruct (Verdict.signal_failure _ _ _ _ _) as [ban' effects]. by eexists _, _.
Qed.

(** What is left of a request that passed. *)
Definition granted (user : string) (m : Verdict.AuthTarget) : Prop :=
  Verdict.auth_user m = Some user ∧ rows "Authorization" m = [] ∧ rows "Proxy-Authorization" m = [].

(** C17: The digest exchange works end to end, with the static backend and no
    secret supplied by the script. A request without credentials is answered with
    the armed code and exactly one challenge row per configured algorithm, in the
    configured order, each of which the client reads back with that algorithm and
    the realm. Whatever request the client then sends with the [Authorization]
    value it builds for one of them that is not a session algorithm, and the
    password the server holds for the user, is let through by the server within
    the lifetime of the nonce, with the user recorded and the credentials taken
    off it. The user, the realm and the URI are ASCII texts without quotes in
    which no field of the header seems to start. *)
Theorem digest_exchange_succeeds (a : Verdict.PyAuth) (w1 w2 : Verdict.World) (r : option string)
    (code : N) (credentials : DigestCredentials) (m1 : Verdict.AuthTarget) (ban1 : option AutoBanStore) :
  Verdict.backend_type a = Verdict.Static →
  Verdict.find_password (Verdict.static_users a) (username credentials) = Some (password credentials) →
  plain (username credentials) = true → plain (default (Verdict.default_realm a) r) = true →
  Verdict.now_unix_secs w1 <= U64_MAX →
  timely (Verdict.nonce_policy a) (Verdict.now_unix_secs w2) (Verdict.now_unix_secs w1) = true →
  Headers.wf (msg_headers (Verdict.message m1)) → Verdict.auth_header (Verdict.digest_read m1) = None →
  ∃ challenged ban1' effects1,
    Verdict.require_digest_inner w1 r code None a m1 ban1 = Ok (false, a, challenged, ban1', effects1) ∧
    fst <$> Verdict.challenge challenged = Some code ∧
    Forall2 (λ alg value, ∃ c, parse_challenge value = Some c ∧ algorithm c = alg ∧
               realm c = default (Verdict.default_realm a) r)
      (Verdict.challenge_algorithms a) (rows (challenge_header code) challenged) ∧
    ∀ value (c : DigestChallenge), value ∈ rows (challenge_header code) challenged →
    parse_challenge value = Some c → is_session (algorithm c) = false →
    ∀ (m2 : Verdict.AuthTarget) (uri : string) (nc : option N) (uuid uuid' : bytes) (ban2 : option AutoBanStore),
      plain uri = true → Headers.wf (msg_headers (Verdict.message m2)) →
      Verdict.auth_header (Verdict.digest_read m2) =
        Some (format_authorization_header c credentials (Verdict.method (Verdict.digest_read m2)) uri nc None
                uuid uuid') →
      ∃ m2', Verdict.require_digest_inner w2 r code None a m2 ban2 =
          Ok (true, a, m2', Verdict.signal_success m2 ban2, []) ∧
        granted (username credentials) m2'.
Proof.
  intros Hb Hf Hu Hr Hn1 Htime Hwf1 Hm1.
  destruct (without_credentials w1 r code None a m1 ban1 Hm1) as (ban1' & effects1 & H1).
  set (n := generate_nonce (Verdict.nonce_policy a) (Verdict.now_unix_secs w1) (Verdict.uuid w1)) in *.
  pose proof (generated_nonce_plain (Verdict.nonce_policy a) (Verdict.now_unix_secs w1) (Verdict.uuid w1)) as Hn.
  fold n in Hn. set (rlm := default (Verdict.default_realm a) r) in *.
  assert (∀ alg, parse_challenge (Verdict.challenge_value rlm n alg) =
                 Some (mkChallenge rlm n None (Some "auth") alg false)) as Hread.
  { intros alg. destruct (plain_spec _ Hr) as (? & ? & _), (plain_spec _ Hn) as (? & ? & _). by apply challenge_read. }
  eexists _, ban1', effects1. split_and!; [exact H1|done|..]; rewrite armed_rows by done; fold n.
  { apply Forall2_fmap_r, Forall_Forall2_diag, Forall_forall. intros alg _. by eexists. }
  intros value c (alg & -> & _)%list_elem_of_fmap Hp Hs. rewrite Hread in Hp. injection Hp as <-.
  intros m2 uri nc uuid uuid' ban2 Huri Hwf2 Hm2. set (c := mkChallenge rlm n None _ alg false) in *.
  assert (answerable c) as Hc by (by constructor).
  unfold Verdict.require_digest_inner. rewrite Hm2. fold rlm. change rlm with (realm c).
  rewrite (validate_answer a _ _ _ c credentials _ uri nc uuid uuid' (password credentials)) by done.
  rewrite eq_ignore_refl. change (nonce c) with n. unfold n. rewrite generated_nonce_valid, Htime by done.
  cbn [andb Verdict.from_verified mbind result_bind]. unfold Verdict.digest_apply. rewrite Hm2.
  destruct (header_verified c credentials (Verdict.method (Verdict.digest_read m2)) uri nc uuid uuid' ""
    Hc Hu Huri) as (f & Hp & Hfu & _). destruct (parse_fields_inv _ _ Hp) as [Hx _].
  cbn [Verdict.is_valid]. rewrite Hx, Hfu. cbn [optional mbind result_bind]. eexists. split; [done|].
  destruct (accepted_headers (Some (username credentials)) m2 Hwf2). by split_and!.
Qed.

(** ** A wrong password *)

Lemma append_same_tail x y t : x +:+ t = y +:+ t → x = y.
Proof.
  intros He. assert (String.length x = String.length y) as Hl.
  { apply (f_equal String.length) in He. rewrite !str_length_app in He. lia. }
  apply append_prefix in He as (z & -> & _); [|lia]. rewrite str_length_app in Hl.
  destruct z; [by rewrite append_nil_r|cbn in Hl; lia].
Qed.

Lemma append_same_head x s t : x +:+ s = x +:+ t → s = t.
Proof. induction x as [|b x IH]; [done|]. rewrite !append_cons. intros [= ?]. auto. Qed.

Lemma lower_hex s : to_ascii_lowercase (hex_encode s) = hex_encode s.
Proof.
  induction s as [|b s IH]; [done|]. cbn [hex_encode]. unfold to_ascii_lowercase in *. cbn [str_map].
  rewrite IH. f_equal; [|f_equal]; destruct b as [[] [] [] [] [] [] [] []]; vm_compute; done.
Qed.

Lemma hash_hex_same alg x y :
  eq_ignore_ascii_case (hash_hex alg x) (hash_hex alg y) = true → hash_hex alg x = hash_hex alg y.
Proof. unfold eq_ignore_ascii_case, hash_hex. rewrite !lower_hex. apply String.eqb_eq. Qed.

(** Two given texts that differ and have one digest. *)
Definition collide (alg : DigestAlgorithm) (x y : string) : Prop := x ≠ y ∧ hash_hex alg x = hash_hex alg y.

(** What is hashed first. *)
Definition ha1_input (user rlm password : string) : string := user +:+ ":" +:+ rlm +:+ ":" +:+ password.

Lemma responses_agree c u method uri nc cnonce p q :
  let alg := algorithm c in
  let text password := response_input c (ha1_of alg u (realm c) password) method uri nc cnonce in
  eq_ignore_ascii_case (hash_hex alg (text p)) (hash_hex alg (text q)) = true ↔
  p = q ∨ collide alg (ha1_input u (realm c) p) (ha1_input u (realm c) q) ∨ collide alg (text p) (text q).
Proof.
  intros alg text. split.
  - intros Hh%hash_hex_same. destruct (decide (p = q)) as [|Hpq]; [by left|right].
    destruct (decide (ha1_of alg u (realm c) p = ha1_of alg u (realm c) q)) as [He|He]; [left|right].
    + split; [|exact He]. unfold ha1_input. intros Hx. apply Hpq. by repeat apply append_same_head in Hx.
    + split; [|exact Hh]. unfold text, response_input. by intros ?%append_same_tail.
  - intros [->|[[_ He]|[_ He]]]; [apply eq_ignore_refl| |rewrite He; apply eq_ignore_refl].
    unfold text. change (ha1_of alg u (realm c) p) with (hash_hex alg (ha1_input u (realm c) p)).
    change (ha1_of alg u (realm c) q) with (hash_hex alg (ha1_input u (realm c) q)). rewrite He. apply eq_ignore_refl.
Qed.

(** C18: Exactly which answers the handler lets through, with the static backend
    and no secret supplied by the script. Let a request carry the
    [Authorization] value computed from some password for a challenge of the
    server's realm with qop auth, no opaque and no session algorithm (the user
    and the URI as in C17). It passes if and only if the nonce is valid now and
    the password is the one the server holds for the user, or one of the two
    pairs of texts hashed for this very answer collides: the two user, realm and
    password texts, or the two final texts of the response. *)
Theorem wrong_password_needs_collision (a : Verdict.PyAuth) (w : Verdict.World) (r : option string)
    (code : N) (m : Verdict.AuthTarget) (ban : option AutoBanStore)
    (c : DigestChallenge) (credentials : DigestCredentials) (stored uri : string) (nc : option N)
    (uuid uuid' : bytes) :
  Verdict.backend_type a = Verdict.Static →
  Verdict.find_password (Verdict.static_users a) (username credentials) = Some stored →
  answerable c → realm c = default (Verdict.default_realm a) r →
  plain (username credentials) = true → plain uri = true →
  Verdict.auth_header (Verdict.digest_read m) =
    Some (format_authorization_header c credentials (Verdict.method (Verdict.digest_read m)) uri nc None uuid uuid') →
  let a1 password := ha1_input (username credentials) (realm c) password in
  let text password :=
    response_input c (ha1_of (algorithm c) (username credentials) (realm c) password)
      (Verdict.method (Verdict.digest_read m)) uri (nc_text (default 1 nc)) (generate_cnonce uuid) in
  ∃ passed m' ban' effects,
    Verdict.require_digest_inner w r code None a m ban = Ok (passed, a, m', ban', effects) ∧
    (passed = true ↔
     validate_nonce (Verdict.nonce_policy a) (Verdict.now_unix_secs w) (nonce c) = true ∧
     (stored = password credentials ∨
      collide (algorithm c) (a1 stored) (a1 (password credentials)) ∨
      collide (algorithm c) (text stored) (text (password credentials)))).
Proof.
  intros Hb Hf Hc Hr Hu Huri Hm a1 text.
  pose proof (responses_agree c (username credentials) (Verdict.method (Verdict.digest_read m)) uri
    (nc_text (default 1 nc)) (generate_cnonce uuid) stored (password credentials)) as Hagree.
  change (eq_ignore_ascii_case (hash_hex (algorithm c) (text stored))
            (hash_hex (algorithm c) (text (password credentials))) = true ↔
          stored = password credentials ∨ collide (algorithm c) (a1 stored) (a1 (password credentials)) ∨
          collide (algorithm c) (text stored) (text (password credentials))) in Hagree.
  unfold Verdict.require_digest_inner. rewrite Hm, <-Hr.
  rewrite (validate_answer a _ _ _ c credentials _ uri nc uuid uuid' stored) by done.
  change (eq_ignore_ascii_case _ _) with
    (eq_ignore_ascii_case (hash_hex (algorithm c) (text stored)) (hash_hex (algorithm c) (text (password credentials)))).
  set (verified := eq_ignore_ascii_case _ _) in *.
  destruct (validate_nonce _ _ _ && verified) eqn:Hv; cbn [Verdict.from_verified mbind result_bind];
    unfold Verdict.digest_apply; rewrite Hm; cbn [Verdict.is_valid].
  - destruct (header_verified c credentials (Verdict.method (Verdict.digest_read m)) uri nc uuid uuid' ""
      Hc Hu Huri) as (f & Hp & _). destruct (parse_fields_inv _ _ Hp) as [-> _].
    cbn [optional mbind result_bind]. eexists _, _, _, _. split; [done|].
    by rewrite <-Hagree, <-andb_true_iff, Hv.
  - destruct (Verdict.signal_failure _ _ _ _ _) as [ban' effects]. cbn [mbind result_bind].
    eexists _, _, _, _. split; [done|]. by rewrite <-Hagree, <-andb_true_iff, Hv.
Qed.

End exchange.

(** ** An exchange *)

(** A hash that keeps the last octets of its input. *)
Definition last_octets : DigestHash :=
  {| md5 x := to_be 16 (from_be x); sha256 x := to_be 32 (from_be x); sha512_256 x := to_be 32 (from_be x) |}.

#[local] Existing Instances unicode_ascii last_octets.

Definition alice : DigestCredentials := mkCredentials "alice" "secret".

Definition example_auth : Verdict.PyAuth :=
  Verdict.mkAuth Verdict.Static [("example.com", <["alice" := "secret"]> ∅)] "example.com" None None None
    (mkNoncePolicy (Some "key") 3600) [Md5; Sha256].

Definition example_world (now : N) : Verdict.World :=
  Verdict.mkWorld now 0 "" (λ _, false) (Verdict.mkSources (λ _, None) (λ _ _ _, Verdict.NotFound)).

Definition register_request (headers : SipHeaders) : Verdict.AuthTarget :=
  Verdict.mkTarget (mkMessage (Request (mkRequestLine Register (uri_new "example.com") sip_2_0)) headers "")
    None None "192.0.2.1" "udp".

Definition with_authorization (value : string) : Verdict.AuthTarget :=
  register_request (Headers.set "Authorization" value Headers.new).

Lemma digest_exchange_succeeds_witness :
  ∃ challenged v1 v2 c m2',
    rows "WWW-Authenticate" challenged = [v1; v2] ∧
    parse_challenge v2 = Some c ∧ algorithm c = Sha256 ∧
    Verdict.require_digest_inner (example_world 1800000060) None 401 None example_auth
      (with_authorization (format_authorization_header c alice "REGISTER"
         "sip:example.com;transport=udp" (Some 1) None "0123456789abcdef" "")) None =
      Ok (true, example_auth, m2', None, []) ∧
    granted "alice" m2'.
Proof.
  destruct (digest_exchange_succeeds example_auth (example_world 1800000000)
    (example_world 1800000060) None 401 alice (register_request Headers.new) None)
    as (challenged & ban1 & effects1 & _ & _ & Hrows & Hgo);
    [reflexivity|reflexivity|reflexivity..|done|reflexivity|apply Headers.wf_new|reflexivity|].
  change (challenge_header 401) with "WWW-Authenticate" in *.
  change (Verdict.challenge_algorithms example_auth) with [Md5; Sha256] in Hrows.
  destruct (rows "WWW-Authenticate" challenged) as [|v1 [|v2 [|v3 l]]] eqn:Hl;
    try by (repeat match goal with H : Forall2 _ _ _ |- _ => inversion_clear H end).
  inversion_clear Hrows as [|? ? ? ? _ H2]. inversion_clear H2 as [|? ? ? ? (c & Hp & Ha & _) _].
  destruct (Hgo v2 c ltac:(by right; left) Hp ltac:(by rewrite Ha)
    (with_authorization (format_authorization_header c alice "REGISTER"
    "sip:example.com;transport=udp" (Some 1) None "0123456789abcdef" ""))
    "sip:example.com;transport=udp" (Some 1) "0123456789abcdef" "" None) as (m2' & Hr & Hg);
    [reflexivity|apply Headers.wf_set, Headers.wf_new|reflexivity|].
  by exists challenged, v1, v2, c, m2'.
Defined.

(** ** What the two sides do not agree on *)

(** A hash to which every octet of its input matters: the octets are the
    coefficients of a polynomial at 257. *)
Fixpoint at_257 (acc : N) (x : bytes) : N :=
  match x with
  | "" => acc
  | String b x => at_257 (acc * 257 + N_of_ascii b) x
  end.

Definition polynomial : DigestHash :=
  {| md5 x := to_be 16 (at_257 0 x); sha256 x := to_be 32 (at_257 0 x); sha512_256 x := to_be 32 (at_257 0 x) |}.

Definition challenge_for (alg : DigestAlgorithm) (qop : option string) : DigestChallenge :=
  mkChallenge "example.com" (@generate_nonce polynomial (mkNoncePolicy (Some "key") 3600) 1800000000 "")
    None qop alg false.

Definition answer_to (c : DigestChallenge) : string :=
  @format_authorization_header polynomial c alice "REGISTER" "sip:example.com" (Some 1) None
    "0123456789abcdef" "".

(** With that hash a guess is refused, for neither pair of texts collides, and
    the password is let in. *)
Lemma wrong_password_needs_collision_witness :
  let handle password := @Verdict.require_digest_inner unicode_ascii polynomial (example_world 1800000060) None 401
    None example_auth
    (with_authorization (@format_authorization_header polynomial (challenge_for Sha256 (Some "auth"))
       (mkCredentials "alice" password) "REGISTER" "sip:example.com" (Some 1) None "0123456789abcdef" "")) None in
  (∃ m' ban' effects, handle "guess" = Ok (false, example_auth, m', ban', effects)) ∧
  (∃ m' ban' effects, handle "secret" = Ok (true, example_auth, m', ban', effects)).
Proof.
  pose proof (λ p, @wrong_password_needs_collision unicode_ascii polynomial example_auth
    (example_world 1800000060) None 401
    (with_authorization (@format_authorization_header polynomial (challenge_for Sha256 (Some "auth"))
       (mkCredentials "alice" p) "REGISTER" "sip:example.com" (Some 1) None "0123456789abcdef" ""))
    None (challenge_for Sha256 (Some "auth")) (mkCredentials "alice" p) "secret" "sip:example.com" (Some 1)
    "0123456789abcdef" "" eq_refl eq_refl ltac:(constructor; reflexivity) eq_refl eq_refl eq_refl eq_refl) as H.
  split.
  - destruct (H "guess") as ([] & m' & ban' & effects & Hr & Hiff); [exfalso|by exists m', ban', effects].
    destruct (proj1 Hiff eq_refl) as [_ [Hp|[[_ Hc]|[_ Hc]]]]; [discriminate Hp|vm_compute in Hc; discriminate Hc..].
  - destruct (H "secret") as ([] & m' & ban' & effects & Hr & Hiff); [by exists m', ban', effects|exfalso].
    assert (false = true) as Hf; [|discriminate Hf]. apply Hiff. split; [vm_compute; reflexivity|by left].
Defined.

(** The verdict on alice's answer under that hash. *)
Definition verdict_on (value : string) : result Stop bool :=
  @Verdict.validate_static unicode_ascii polynomial example_auth value "example.com" "REGISTER".

(** The server never hashes the nonces into the HA1 of a session algorithm: it
    accepts alice's answer under SHA-256 and refuses it under SHA-256-sess. *)
Example session_answer_refused :
  verdict_on (answer_to (challenge_for Sha256 (Some "auth"))) = Ok true ∧
  verdict_on (answer_to (challenge_for Sha256Sess (Some "auth"))) = Ok false.
Proof. by vm_compute. Qed.

(** Without qop the client hashes a cnonce into a session response that the
    header does not carry. *)
Example session_cnonce_not_sent :
  derive_cnonce (challenge_for Sha256Sess None) None false "0123456789abcdef" ≠ None ∧
  find_str "cnonce=" (answer_to (challenge_for Sha256Sess None)) = None.
Proof. vm_compute. by split. Qed.

(** The search for a parameter looks inside the quoted value of another. *)
Example parameter_found_in_quotes :
  extract_username ("Digest realm=" +:+ quoted "a username=mallory" +:+ ", username=" +:+ quoted "alice") =
    Ok ("mallory" +:+ String DQUOTE "").
Proof. by vm_compute. Qed.

(** A username held by two realms gets the password of the realm that comes
    first, whichever realm it answers for. *)
Example static_realm_ignored :
  let users (r1 p1 r2 p2 : string) : list (string * gmap string string) :=
    [(r1, <["alice" := p1]> ∅); (r2, <["alice" := p2]> ∅)] in
  let verdict users := @Verdict.validate_static unicode_ascii polynomial
    (Verdict.mkAuth Verdict.Static users "example.com" None None None (mkNoncePolicy None 3600) [Md5])
    (answer_to (challenge_for Sha256 (Some "auth"))) "example.com" "REGISTER" in
  verdict (users "example.com" "secret" "example.org" "hidden") = Ok true ∧
  verdict (users "example.org" "hidden" "example.com" "secret") = Ok false.
Proof. by vm_compute. Qed.
