(* ===== verification/AuthVerdictProofs.v ===== *)
(** * What verdicts rest on, and whom they ban

    The credential cache answers only with what the source answered for the same
    user and realm within its lifetime, and never keeps a changed password out;
    and the challenge handler together with the auto-ban store bans a source
    only for responses that were judged wrong. *)

From stdpp Require Import gmap strings.
From S2P Require Import Prelude Str Bytes Nom Headers Uri Message Transport Timer Limiter AutoBan AutoBanProofs.
From S2P Require Import Digest DigestServer AuthVerdict DigestProofs DigestExchange.
Import Digest Server Ban Verdict.

#[local] Open Scope N_scope.

Section proofs.
Context `{U : Unicode} `{D : DigestHash}.

(** ** The cache *)

(** One check of a response: when, of what, and what the source answers. *)
Record Request := mkCheck {
  at_instant : N;
  of_value : string;
  of_realm : string;
  of_method : string;
  from_sources : Sources;
}.

Section http.
Context (c : HttpAuthConfig).

Definition check (q : Request) (a : PyAuth) : result Stop (CredentialCheck * PyAuth) :=
  validate_http (from_sources q) (at_instant q) (of_value q) (of_realm q) (of_method q) a.

Fixpoint checks (qs : list Request) (a : PyAuth) : result Stop PyAuth :=
  match qs with
  | [] => Ok a
  | q :: qs => '(_, a) ← check q a; checks qs a
  end.

(** What the source answered for a user of a realm when it was asked for the
    value of a request. *)
Definition answer (realm user : string) (q : Request) : option (N * string) :=
  match parse_fields (of_value q) with
  | Ok f =>
      if bool_decide (f_username f = user ∧ of_realm q = realm) then
        match fetch_http_credential (from_sources q) c user with
        | Found v => Some (at_instant q, v)
        | _ => None
        end
      else None
  | Err _ => None
  end.

Definition answers_for (realm user : string) (qs : list Request) : list (N * string) :=
  omap (answer realm user) qs.

(** Every entry of the cache is an answer of the source. *)
Definition provenance (qs : list Request) (a : PyAuth) : Prop :=
  http_config a = Some c ∧
  ∀ cache key entry, credential_cache a = Some cache → cache !! key = Some entry →
    (Cache.fetched_at entry, Cache.value entry) ∈ answers_for (Cache.key_realm key) (Cache.key_username key) qs.

Lemma answers_snoc realm user qs q x :
  x ∈ answers_for realm user (qs ++ [q]) ↔ x ∈ answers_for realm user qs ∨ answer realm user q = Some x.
Proof.
  unfold answers_for. rewrite omap_app, elem_of_app. cbn. destruct (answer realm user q); [|set_solver].
  rewrite list_elem_of_singleton. naive_solver.
Qed.

Lemma provenance_more qs q a : provenance qs a → provenance (qs ++ [q]) a.
Proof.
  intros [Hc Hp]. split; [done|]. intros cache key entry Ha Hk. apply answers_snoc. left. by eapply Hp.
Qed.

Lemma provenance_consult qs q a f stored realm method key lookup cached :
  provenance qs a → parse_fields (of_value q) = Ok f →
  key = Cache.mkKey (of_realm q) (f_username f) None →
  lookup = fetch_http_credential (from_sources q) c (f_username f) →
  provenance (qs ++ [q]) (consult stored f key cached lookup (at_instant q) realm method a).2.
Proof.
  intros Hp Hf -> Hl. unfold consult. destruct (match cached with Some _ => _ | None => _ end).
  { by apply provenance_more. }
  destruct Hp as [Hc Hp]. unfold settle_lookup. split; [by destruct lookup|].
  intros cache key entry Ha Hk. apply answers_snoc.
  destruct lookup as [v| |]; cbn in Ha.
  - destruct (credential_cache a) as [old|] eqn:Hold; [|done]. injection Ha as <-. unfold Cache.store in Hk.
    apply lookup_insert_Some in Hk as [[<- <-]|[Hne Hk]]; [right|left; by eapply Hp].
    unfold answer. cbn. rewrite Hf, bool_decide_true by done. by rewrite <-Hl.
  - destruct (credential_cache a) as [old|] eqn:Hold; [|done]. injection Ha as <-. unfold Cache.remove in Hk.
    apply lookup_delete_Some in Hk as [_ Hk]. left. by eapply Hp.
  - left. by eapply Hp.
Qed.

Lemma provenance_check qs q a v a' :
  provenance qs a → check q a = Ok (v, a') → provenance (qs ++ [q]) a'.
Proof.
  intros Hp. unfold check, validate_http, fields_or. intros (fs & Hf & [= H])%bind_Ok.
  destruct fs as [f|]; [|injection H as _ <-; by apply provenance_more].
  destruct (username_refused f); [injection H as _ <-; by apply provenance_more|].
  destruct (parse_fields (of_value q)) as [f'|[]] eqn:Hpf; cbn in Hf; simplify_eq.
  pose proof (proj1 Hp) as Hc. rewrite Hc in H.
  pose proof (provenance_consult qs q a f (http_ha1 c) (of_realm q) (of_method q) _ _
    (cached_credential a (Cache.mkKey (of_realm q) (f_username f) None) (http_cache_ttl_secs c) (at_instant q))
    Hp Hpf eq_refl eq_refl) as Hx. by rewrite H in Hx.
Qed.

Lemma provenance_checks qs a qs' a' :
  provenance qs a → checks qs' a = Ok a' → provenance (qs ++ qs') a'.
Proof.
  revert qs a. induction qs' as [|q qs' IH]; intros qs a Hp; cbn.
  { intros [= <-]. by rewrite app_nil_r. }
  intros ([v a1] & Hq & Hr)%bind_Ok. rewrite cons_middle, (assoc_L (++)). by eapply IH; [eapply provenance_check|].
Qed.
(** What a response is checked against. *)
Definition verifies (f : DigestFields) (q : Request) (v : string) : bool :=
  verify f (ha1_from (http_ha1 c) f (of_realm q) v) (of_method q).

(** The verdict is positive when the cached credential verifies or the source's
    does. *)
Lemma consult_valid f q key cached lookup a :
  (consult (http_ha1 c) f key cached lookup (at_instant q) (of_realm q) (of_method q) a).1 = Valid ↔
  (∃ v, cached = Some v ∧ verifies f q v = true) ∨ (∃ v, lookup = Found v ∧ verifies f q v = true).
Proof.
  assert (∀ v, finish (http_ha1 c) f v (of_realm q) (of_method q) = from_verified (verifies f q v)) as Hfin
    by done.
  unfold consult. destruct cached as [v|]; rewrite ?Hfin; [destruct (verifies f q v) eqn:Hv|]; cbn [is_valid from_verified].
  - split; [intros _|done]. left. by exists v.
  - destruct lookup as [v'| |]; cbn; rewrite ?Hfin; [destruct (verifies f q v') eqn:Hv'|..]; cbn;
      (split; [intros ?; try done; right; by eexists|intros [(? & ? & ?)|(? & ? & ?)]; simplify_eq; (done || congruence)]).
  - destruct lookup as [v'| |]; cbn; rewrite ?Hfin; [destruct (verifies f q v') eqn:Hv'|..]; cbn;
      (split; [intros ?; try done; right; by eexists|intros [(? & ? & ?)|(? & ? & ?)]; simplify_eq; (done || congruence)]).
Qed.

Lemma check_parsed q a f :
  http_config a = Some c → parse_fields (of_value q) = Ok f → username_refused f = false →
  check q a =
  let key := Cache.mkKey (of_realm q) (f_username f) None in
  Ok (consult (http_ha1 c) f key (cached_credential a key (http_cache_ttl_secs c) (at_instant q))
        (fetch_http_credential (from_sources q) c (f_username f)) (at_instant q) (of_realm q) (of_method q) a).
Proof. intros Hc Hf Hu. unfold check, validate_http, fields_or. rewrite Hf. cbn. by rewrite Hu, Hc. Qed.

Lemma check_valid_parsed q a a' :
  check q a = Ok (Valid, a') → ∃ f, parse_fields (of_value q) = Ok f ∧ username_refused f = false.
Proof.
  unfold check, validate_http, fields_or. destruct (parse_fields (of_value q)) as [f|[]]; cbn; [|done..].
  intros H. exists f. split; [done|]. by destruct (username_refused f).
Qed.

(** C19: The credential cache of the HTTP backend changes neither who gets in nor
    for how long. After any requests, one that is let through verifies against a
    credential the source answered for that very user and realm, now or less
    than the cache's lifetime ago; and one that verifies against what the source
    answers now is let through whatever the cache holds, so that a password
    changed at the source works at once. *)
Theorem cached_credentials_sound (qs : list Request) (q : Request) (a0 a : PyAuth) :
  http_config a0 = Some c → (credential_cache a0 = None ∨ credential_cache a0 = Some ∅) →
  checks qs a0 = Ok a →
  (∀ a', check q a = Ok (Valid, a') →
     ∃ f t v, parse_fields (of_value q) = Ok f ∧ verifies f q v = true ∧
       (t, v) ∈ answers_for (of_realm q) (f_username f) (qs ++ [q]) ∧
       (t = at_instant q ∨ at_instant q - t < Timer.from_secs (http_cache_ttl_secs c))) ∧
  (∀ f v, parse_fields (of_value q) = Ok f → username_refused f = false →
     fetch_http_credential (from_sources q) c (f_username f) = Found v → verifies f q v = true →
     ∃ a', check q a = Ok (Valid, a')).
Proof.
  intros Hc Hcache Hqs. assert (provenance qs a) as Hp.
  { apply (provenance_checks [] a0 qs a); [|done]. split; [done|]. intros cache key entry Ha Hk.
    destruct Hcache as [Hcache|Hcache]; rewrite Ha in Hcache; [done|]. injection Hcache as ->.
    by rewrite lookup_empty in Hk. }
  pose proof (proj1 Hp) as Hca. split.
  - intros a' Hq. destruct (check_valid_parsed q a a' Hq) as (f & Hf & Hu). exists f.
    rewrite (check_parsed q a f) in Hq by done. cbv zeta in Hq. injection Hq as Hq.
    apply (f_equal fst), consult_valid in Hq as [(v & Hcc & Hv)|(v & Hl & Hv)].
    + apply bind_Some in Hcc as (cache & Hac & Hg). unfold Cache.get in Hg. case_match; [done|].
      apply bind_Some in Hg as (e & He & Hg). unfold Cache.is_fresh in Hg. case_match eqn:Hfresh; [|done].
      injection Hg as <-. apply N.ltb_lt in Hfresh. exists (Cache.fetched_at e), (Cache.value e).
      split_and!; [done..| |by right]. apply answers_snoc. left. exact (proj2 Hp cache _ e Hac He).
    + exists (at_instant q), v. split_and!; [done..| |by left]. apply answers_snoc. right.
      unfold answer. rewrite Hf, bool_decide_true by done. by rewrite Hl.
  - intros f v Hf Hu Hl Hv. rewrite (check_parsed q a f) by done. cbv zeta.
    destruct (consult _ _ _ _ _ _ _ _ _) as [verdict a'] eqn:Hco. exists a'. repeat f_equal.
    apply (f_equal fst) in Hco. cbn in Hco. subst verdict. apply consult_valid. right. by exists v.
Qed.
End http.
(** ** The handler and the auto-ban store *)

(** One call of the handler. *)
Record Call := mkCall {
  in_world : World;
  for_realm : option string;
  with_code : N;
  with_secret : option SuppliedSecret;
  on_target : AuthTarget;
}.

Definition handle (k : Call) (a : PyAuth) (ban : option AutoBanStore)
    : result Stop (bool * PyAuth * AuthTarget * option AutoBanStore * list Effect) :=
  require_digest_inner (in_world k) (for_realm k) (with_code k) (with_secret k) a (on_target k) ban.

Fixpoint serve (ks : list Call) (a : PyAuth) (ban : option AutoBanStore)
    : result Stop (PyAuth * option AutoBanStore) :=
  match ks with
  | [] => Ok (a, ban)
  | k :: ks => '(_, a, _, ban, _) ← handle k a ban; serve ks a ban
  end.

(** The verdict on the request of a call. *)
Definition outcome (k : Call) (a : PyAuth) : result Stop (CredentialCheck * PyAuth) :=
  let read := digest_read (on_target k) in
  match auth_header read with
  | Some value =>
      validate_credentials_with (sources (in_world k)) (now_unix_secs (in_world k)) (instant (in_world k)) value
        (default (default_realm a) (for_realm k)) (method read) (with_secret k) a
  | None => Ok (Absent, a)
  end.

Definition source_of (k : Call) : option IpAddr := Ip.parse (source_ip_str (on_target k)).

(** No request of the source carries credentials that are wrong. *)
Fixpoint honest (s : IpAddr) (ks : list Call) (a : PyAuth) : Prop :=
  match ks with
  | [] => True
  | k :: ks =>
      match outcome k a with
      | Ok (v, a) => (source_of k = Some s → v ≠ Rejected) ∧ honest s ks a
      | Err _ => True
      end
  end.

Lemma signal_failure_store trusted now v m st :
  ∃ st', (signal_failure trusted now v m (Some st)).1 = Some st' ∧
    (st' = st ∨ ∃ source weight, Ip.parse (source_ip_str m) = Some source ∧
       (v = Rejected ∨ v = Absent ∧ weight = missing_credentials_weight) ∧
       st' = (record_failure_weighted_at trusted source weight now st).1.1).
Proof.
  unfold signal_failure. destruct (Ip.parse (source_ip_str m)) as [source|] eqn:Hp; [|exists st; auto].
  unfold ban_signal, record_strong_failure, record_failure, record_missing_credentials.
  destruct v; cbn; [exists st; auto| |destruct (negb (transport_name m =? "udp")%string)|exists st; auto].
  all: match goal with |- context [record_failure_weighted_at ?t ?x ?w ?n ?y] =>
         destruct (record_failure_weighted_at t x w n y) as [[st' newly] effects] eqn:Hr;
         exists st'; split; [done|]; right; exists x, w; rewrite Hr; auto 10 end.
Qed.

Lemma handle_store k a st passed a' m' ban' effects v a1 :
  handle k a (Some st) = Ok (passed, a', m', ban', effects) → outcome k a = Ok (v, a1) →
  a' = a1 ∧ ∃ st', ban' = Some st' ∧
    (st' = st ∨ (∃ source, st' = record_success source st) ∨
     ∃ source weight, source_of k = Some source ∧ (v = Rejected ∨ v = Absent ∧ weight = missing_credentials_weight) ∧
       st' = (record_failure_weighted_at (is_trusted (in_world k)) source weight (instant (in_world k)) st).1.1).
Proof.
  unfold handle, require_digest_inner. fold (outcome k a). intros H Ho. cbv zeta in H.
  change (match auth_header (digest_read (on_target k)) with Some _ => _ | None => _ end) with (outcome k a) in H.
  rewrite Ho in H. cbn in H. apply bind_Ok in H as ([[[p m] b] e] & Happ & H). injection H as <- <- <- <- <-.
  split; [done|]. unfold digest_apply in Happ.
  destruct (signal_failure_store (is_trusted (in_world k)) (instant (in_world k)) v (on_target k) st)
    as (st' & Hs & Hcases).
  destruct (signal_failure _ _ v (on_target k) (Some st)) as [bf ef]. cbn in Hs. subst bf.
  assert (b = Some st' ∨ b = signal_success (on_target k) (Some st)) as [->| ->].
  { destruct (auth_header (digest_read (on_target k))); [destruct (is_valid v)|]; cbn in Happ;
      [apply bind_Ok in Happ as (? & _ & Happ)|..]; injection Happ as _ _ <- _; auto. }
  - exists st'. split; [done|]. destruct Hcases as [->|?]; auto.
  - unfold signal_success. destruct (Ip.parse (source_ip_str (on_target k))) as [source|].
    + eexists. split; [done|]. right. left. by exists source.
    + exists st. auto.
Qed.
Lemma outcome_handled k a ban x : handle k a ban = Ok x → ∃ v a1, outcome k a = Ok (v, a1).
Proof.
  unfold handle, require_digest_inner. cbv zeta.
  change (match auth_header (digest_read (on_target k)) with Some _ => _ | None => _ end) with (outcome k a).
  intros ([v a1] & Ho & _)%bind_Ok. by exists v, a1.
Qed.

Lemma serve_unbanned s p ks a st a' ban' :
  policy st = Some p → missing_credentials_weight p = 0 → bans st !! s = None → honest s ks a →
  serve ks a (Some st) = Ok (a', ban') → ∃ st', ban' = Some st' ∧ bans st' !! s = None.
Proof.
  intros Hp Hw. revert a st Hp. induction ks as [|k ks IH]; intros a st Hp Hb Hh Hs.
  { injection Hs as _ <-. by exists st. }
  cbn [serve] in Hs. apply bind_Ok in Hs as ([[[[passed a1] m1] ban1] effects] & Hk & Hs).
  destruct (outcome_handled _ _ _ _ Hk) as (v & a2 & Ho). cbn [honest] in Hh. rewrite Ho in Hh.
  destruct Hh as [Hv Hh]. destruct (handle_store _ _ _ _ _ _ _ _ _ _ Hk Ho) as (-> & st1 & -> & Hcases).
  destruct Hcases as [->|[[source ->]|(source & weight & Hsrc & Hw' & ->)]]; [exact (IH _ _ Hp Hb Hh Hs)|exact (IH _ (record_success source st) Hp Hb Hh Hs)|].
  set (trusted := is_trusted (in_world k)) in *. set (now := instant (in_world k)) in *.
  refine (IH _ _ _ _ Hh Hs).
  - rewrite <-Hp. exact (record_policy trusted source weight now st).
  - destruct (decide (source = s)) as [->|Hne].
    + destruct Hw' as [->|[-> ->]]; [by destruct Hv|]. unfold record_failure_weighted_at. by rewrite Hp, Hw.
    + by rewrite (proj2 (record_other trusted source s weight now st Hne)).
Qed.

(** C20: Only responses judged wrong get a source banned by the digest handler. Under a
    policy that gives requests without credentials no weight, a source none of
    whose responses is judged wrong (they are valid, absent, or the backend could
    not be asked and nothing is cached to judge them by) is never banned, however
    many requests it sends, whoever else is banned, and however the cache and the
    store change in between. *)
Theorem honest_source_never_banned (s : IpAddr) (p : BanPolicy) (ks : list Call) (a a' : PyAuth)
    (st : AutoBanStore) (ban' : option AutoBanStore) :
  policy st = Some p → missing_credentials_weight p = 0 → bans st !! s = None → honest s ks a →
  serve ks a (Some st) = Ok (a', ban') →
  ∃ st', ban' = Some st' ∧ ∀ trusted now, (is_banned_at trusted s now st').2 = false.
Proof.
  intros Hp Hw Hb Hh Hs. destruct (serve_unbanned s p ks a st a' ban' Hp Hw Hb Hh Hs) as (st' & -> & Hb').
  exists st'. split; [done|]. intros trusted now. unfold is_banned_at. by rewrite Hb'.
Qed.

End proofs.

(** ** Runs *)

#[local] Existing Instances unicode_ascii last_octets.

(** An HTTP backend whose source answers with a password. *)
Definition http_source (password : option string) : Sources :=
  mkSources (λ _, match password with Some p => Some (Some p) | None => None end) (λ _ _ _, NotFound).

Definition http_cfg : HttpAuthConfig := mkHttp "http://backend/sip/auth/{username}" false 300.

Definition http_auth : PyAuth :=
  mkAuth Http [] "example.com" (Some http_cfg) None (Some ∅) (mkNoncePolicy None 3600) [Sha256].

Definition answer_value (password : string) : string :=
  format_authorization_header
    (mkChallenge "example.com" (generate_nonce (mkNoncePolicy None 3600) 1800000000 "0123456789abcdef")
       None (Some "auth") Sha256 false)
    (mkCredentials "alice" password) "REGISTER" "sip:example.com" (Some 1) None "0123456789abcdef" "".

(** A check with the source up, and one a second later with it down. *)
Definition check_up : Request := mkCheck 0 (answer_value "secret") "example.com" "REGISTER" (http_source (Some "secret")).
Definition check_down : Request :=
  mkCheck 1000000000 (answer_value "secret") "example.com" "REGISTER" (http_source None).

Lemma cached_credentials_sound_witness :
  ∃ f t v, parse_fields (of_value check_down) = Ok f ∧ verifies http_cfg f check_down v = true ∧
    (t, v) ∈ answers_for http_cfg "example.com" (f_username f) ([check_up] ++ [check_down]) ∧
    (t = 1000000000 ∨ 1000000000 - t < Timer.from_secs 300).
Proof.
  assert (∃ a, checks [check_up] http_auth = Ok a) as [a Ha] by (vm_compute; by eexists).
  destruct (cached_credentials_sound http_cfg [check_up] check_down http_auth a eq_refl (or_intror eq_refl) Ha)
    as [Hvalid _].
  assert (∃ a', check check_down a = Ok (Valid, a')) as [a' Ha'].
  { vm_compute in Ha. injection Ha as <-. vm_compute. by eexists. }
  exact (Hvalid a' Ha').
Defined.

(** A client behind an outage: asked for credentials, it sends them three times
    while the backend does not answer. *)
Definition outage_world (now : N) : World :=
  mkWorld now (Timer.from_secs now) "0123456789abcdef" (λ _, false) (http_source None).

Definition outage_calls : list Call :=
  let call (now : N) (m : AuthTarget) := mkCall (outage_world now) None 401 None m in
  [call 1800000000 (register_request Headers.new);
   call 1800000001 (with_authorization (answer_value "secret"));
   call 1800000002 (with_authorization (answer_value "secret"));
   call 1800000003 (with_authorization (answer_value "secret"))].

Definition one_strike : AutoBanStore := with_policy (policy_new 1 600 3600 1 0 3600).
Definition caller : IpAddr := V4 3221225985.

Lemma honest_source_never_banned_witness :
  source_of (mkCall (outage_world 0) None 401 None (register_request Headers.new)) = Some caller ∧
  ∃ st', (∃ a', serve outage_calls http_auth (Some one_strike) = Ok (a', Some st')) ∧
    ∀ trusted now, (is_banned_at trusted caller now st').2 = false.
Proof.
  split; [done|].
  assert (∃ a' ban', serve outage_calls http_auth (Some one_strike) = Ok (a', ban')) as (a' & ban' & Hs)
    by (vm_compute; by eexists _, _).
  destruct (honest_source_never_banned caller (policy_new 1 600 3600 1 0 3600) outage_calls http_auth a'
    one_strike ban' eq_refl eq_refl eq_refl) as (st' & -> & Hb); [|exact Hs|].
  - vm_compute. repeat split; by intros.
  - exists st'. split; [by exists a'|exact Hb].
Defined.

(** A backend that answers with an error status counts as one that knows no such
    user: the same client is banned for its first response. *)
Example error_status_bans :
  let world := mkWorld 1800000000 (Timer.from_secs 1) "0123456789abcdef" (λ _, false)
    (mkSources (λ _, Some None) (λ _ _ _, NotFound)) in
  match serve [mkCall world None 401 None (with_authorization (answer_value "secret"))] http_auth
          (Some one_strike) with
  | Ok (_, Some st) => (is_banned_at (λ _, false) caller (Timer.from_secs 2) st).2 = true
  | _ => False
  end.
Proof. by vm_compute. Qed.
