(* ===== verification/Bencode.v ===== *)
(** * Bencode ([src/src/rtpengine/bencode.rs])

    The encoding of the control protocol to the media engine.  The decoder is
    recursive on the input; here it takes fuel, two turns per byte, which is
    enough ([decode_total]).  [usize] arithmetic wraps around, as it does in the
    release profile, and a slice whose start is past its end panics: both are
    written out, the panic as an error of its own. *)

From S2P Require Import Prelude Str Nom Headers Uri Message Parser.

(** Elimination is by hand: the values in a list or a dictionary need a motive
    of their own. *)
#[local] Unset Elimination Schemes.

Inductive BencodeValue :=
  | BString (data : bytes)
  | BInteger (number : Z)   (* i64 *)
  | BList (items : list BencodeValue)
  | BDict (pairs : list (bytes * BencodeValue)).

#[local] Set Elimination Schemes.

Section ind.
Context (Q : BencodeValue → Prop).
Context (Hstr : ∀ s, Q (BString s)) (Hint : ∀ n, Q (BInteger n)).
Context (Hlist : ∀ l, Forall Q l → Q (BList l)).
Context (Hdict : ∀ l, Forall (λ p : bytes * BencodeValue, Q p.2) l → Q (BDict l)).

Fixpoint value_induction (v : BencodeValue) : Q v :=
  match v with
  | BString s => Hstr s
  | BInteger n => Hint n
  | BList l =>
      Hlist l ((fix go l := match l return Forall Q l with
                            | [] => Forall_nil_2 _
                            | v :: l => Forall_cons_2 _ _ _ (value_induction v) (go l)
                            end) l)
  | BDict l =>
      Hdict l ((fix go l := match l return Forall (λ p : bytes * BencodeValue, Q p.2) l with
                            | [] => Forall_nil_2 _
                            | p :: l => Forall_cons_2 _ _ _ (value_induction p.2) (go l)
                            end) l)
  end.
End ind.

(** ** Reading a value *)

(** ** Encoding *)

(** [to_string] of an [i64]. *)
Definition show_int (n : Z) : string :=
  if (n <? 0)%Z then "-" +:+ dec (Z.abs_N n) else dec (Z.abs_N n).

Definition encode_string (s : bytes) : bytes := dec (N.of_nat (String.length s)) +:+ ":" +:+ s.

Fixpoint encode (v : BencodeValue) : bytes :=
  match v with
  | BString s => encode_string s
  | BInteger n => "i" +:+ show_int n +:+ "e"
  | BList l => "l" +:+ str_concat (encode <$> l) +:+ "e"
  | BDict l => "d" +:+ str_concat ((λ p : bytes * BencodeValue, encode_string p.1 +:+ encode p.2) <$> l) +:+ "e"
  end.

(** ** Decoding *)

Inductive DecodeError :=
  | EmptyInput
  | UnexpectedByte (a : byte)
  | MissingColon
  | LengthNotUtf8
  | InvalidLength
  | LengthExceeds
  | SlicePanic            (* the slice of the data starts past its end *)
  | MissingTerminator
  | IntegerNotUtf8
  | InvalidInteger
  | TrailingBytes
  | NotADict
  | OutOfFuel.

(** [usize] addition of the release profile. *)
Definition wrapping_add (a b : N) : N := ((a + b) mod 2 ^ 64)%N.

Definition decode_string (input : bytes) : result DecodeError (bytes * bytes) :=
  '(length_str, after) ← ok_or MissingColon (split_once ":" input);
  if negb (utf8_valid length_str) then Err LengthNotUtf8 else
  length ← ok_or InvalidLength (parse_uint USIZE_MAX length_str);
  let input_len := N.of_nat (String.length input) in
  let data_start := (N.of_nat (String.length length_str) + 1)%N in
  let data_end := wrapping_add data_start length in
  if (input_len <? data_end)%N then Err LengthExceeds else
  if (data_end <? data_start)%N then Err SlicePanic else
  let n := N.to_nat (data_end - data_start) in
  Ok (String.substring 0 n after, String.substring n (String.length after - n) after).

Definition I64_MAX : N := 9223372036854775807.

(** [s.parse::<i64>()]: an optional sign, then at least one digit. *)
Definition parse_i64 (s : string) : option Z :=
  match strip_prefix "-" s with
  | Some ds =>
      if is_empty ds then None else
      v ← digits_value 0 ds; if (v <=? I64_MAX + 1)%N then Some (- Z.of_N v)%Z else None
  | None => Z.of_N <$> parse_uint I64_MAX s
  end.

(** The input starts with [i]. *)
Definition decode_integer (input : bytes) : result DecodeError (BencodeValue * bytes) :=
  '(head, rest) ← ok_or MissingTerminator (split_once "e" input);
  let number_str := String.substring 1 (String.length head - 1) head in
  if negb (utf8_valid number_str) then Err IntegerNotUtf8 else
  number ← ok_or InvalidInteger (parse_i64 number_str);
  Ok (BInteger number, rest).

Fixpoint decode_fuel (fuel : nat) (input : bytes) : result DecodeError (BencodeValue * bytes) :=
  match fuel with
  | O => Err OutOfFuel
  | S fuel =>
      match input with
      | "" => Err EmptyInput
      | String a tail =>
          if is_byte "i" a then decode_integer input
          else if is_byte "l" a then
            '(items, rest) ← decode_items fuel tail; Ok (BList items, rest)
          else if is_byte "d" a then
            '(pairs, rest) ← decode_pairs fuel tail; Ok (BDict pairs, rest)
          else if is_ascii_digit a then
            '(s, rest) ← decode_string input; Ok (BString s, rest)
          else Err (UnexpectedByte a)
      end
  end
with decode_items (fuel : nat) (remaining : bytes) : result DecodeError (list BencodeValue * bytes) :=
  match fuel with
  | O => Err OutOfFuel
  | S fuel =>
      match remaining with
      | "" => Err MissingTerminator
      | String a tail =>
          if is_byte "e" a then Ok ([], tail) else
          '(value, rest) ← decode_fuel fuel remaining;
          '(items, rest) ← decode_items fuel rest;
          Ok (value :: items, rest)
      end
  end
with decode_pairs (fuel : nat) (remaining : bytes)
    : result DecodeError (list (bytes * BencodeValue) * bytes) :=
  match fuel with
  | O => Err OutOfFuel
  | S fuel =>
      match remaining with
      | "" => Err MissingTerminator
      | String a tail =>
          if is_byte "e" a then Ok ([], tail) else
          '(key, rest) ← decode_string remaining;
          '(value, rest) ← decode_fuel fuel rest;
          '(pairs, rest) ← decode_pairs fuel rest;
          Ok ((key, value) :: pairs, rest)
      end
  end.

Definition decode (input : bytes) : result DecodeError (BencodeValue * bytes) :=
  decode_fuel (2 * String.length input + 2) input.

Definition decode_full_dict (input : bytes) : result DecodeError BencodeValue :=
  '(value, remaining) ← decode input;
  if negb (is_empty remaining) then Err TrailingBytes else
  match value with BDict _ => Ok value | _ => Err NotADict end.

