(* ===== verification/BencodeProofs.v ===== *)
(** * What bencode guarantees

    The decoder of [Bencode] ([src/src/rtpengine/bencode.rs]) inverts the
    encoder, always returns, and panics on one kind of input only. *)

From S2P Require Import Prelude Str Nom Headers Uri Message Parser Bencode FramerStream.

(** ** Numbers and strings *)


(** A value an [i64] can hold. *)
Definition is_i64 (n : Z) : bool := (- Z.of_N (I64_MAX + 1) <=? n)%Z && (n <=? Z.of_N I64_MAX)%Z.

Lemma parse_show_int n : is_i64 n = true → parse_i64 (show_int n) = Some n.
Proof.
  intros [H1%Z.leb_le H2%Z.leb_le]%andb_prop. unfold parse_i64, show_int.
  pose proof (N2Z.inj_abs_N n) as Habs.
  destruct (Z.ltb_spec n 0).
  - rewrite strip_prefix_app. pose proof (dec_not_empty (Z.abs_N n)).
    assert (is_empty (dec (Z.abs_N n)) = false) as -> by by destruct (dec (Z.abs_N n)).
    rewrite digits_value_dec. cbn [mbind option_bind]. destruct (N.leb_spec (Z.abs_N n) (I64_MAX + 1)); [|lia].
    f_equal. lia.
  - assert (strip_prefix "-" (dec (Z.abs_N n)) = None) as ->.
    { pose proof (dec_digits (Z.abs_N n)) as Hd. destruct (dec (Z.abs_N n)) as [|a s]; [done|].
      cbn in Hd |- *. apply andb_prop in Hd as [Hd _]. unfold is_byte.
      by rewrite bool_decide_eq_false_2 by (intros <-; done). }
    rewrite parse_uint_dec by lia. cbn. f_equal. lia.
Qed.

Lemma split_digits s t : str_forall is_ascii_digit s = true → split_once ":" (s +:+ String ":" t) = Some (s, t).
Proof.
  intros Hs. unfold split_once, split_once_by. rewrite break_stop; [done| |done].
  eapply str_forall_impl; [|exact Hs]. intros a Ha. unfold is_byte.
  rewrite bool_decide_eq_false_2 by (intros <-; done). done.
Qed.

Lemma digits_utf8 s : str_forall is_ascii_digit s = true → utf8_valid s = true.
Proof.
  intros Hs. apply is_ascii_utf8. eapply str_forall_impl; [|exact Hs]. intros a.
  unfold is_ascii_digit, is_ascii_byte. rewrite in_range_true, N.ltb_lt. lia.
Qed.

Lemma decode_encode_string s rest :
  (N.of_nat (String.length (encode_string s +:+ rest)) ≤ USIZE_MAX)%N →
  decode_string (encode_string s +:+ rest) = Ok (s, rest).
Proof.
  unfold encode_string. rewrite !append_assoc. set (n := N.of_nat (String.length s)). intros Hlen.
  change (":" +:+ s +:+ rest) with (String ":" (s +:+ rest)) in *.
  rewrite !str_length_app in Hlen. cbn in Hlen. rewrite str_length_app in Hlen.
  unfold decode_string. rewrite split_digits by apply dec_digits. cbn [ok_or mbind result_bind].
  rewrite digits_utf8 by apply dec_digits. cbn [negb].
  rewrite parse_uint_dec by lia. cbn [ok_or mbind result_bind].
  assert (wrapping_add (N.of_nat (String.length (dec n)) + 1) n =
          N.of_nat (String.length (dec n)) + 1 + n)%N as ->.
  { unfold wrapping_add. apply N.mod_small. unfold USIZE_MAX in Hlen. lia. }
  rewrite !str_length_app. cbn [String.length]. rewrite str_length_app.
  destruct (N.ltb_spec (N.of_nat (String.length (dec n) + S (String.length s + String.length rest)))
    (N.of_nat (String.length (dec n)) + 1 + n)); [lia|].
  destruct (N.ltb_spec (N.of_nat (String.length (dec n)) + 1 + n) (N.of_nat (String.length (dec n)) + 1)); [lia|].
  replace (N.to_nat _) with (String.length s) by lia.
  rewrite substring_app. do 2 f_equal.
  rewrite <-str_length_app. apply substring_rest.
Qed.

(** ** The round trip *)

(** Values the source can build: integers within [i64]. *)
Fixpoint value_ok (v : BencodeValue) : bool :=
  match v with
  | BString _ => true
  | BInteger n => is_i64 n
  | BList l => forallb value_ok l
  | BDict l => forallb (λ p : bytes * BencodeValue, value_ok p.2) l
  end.

Lemma dec_first n : ∃ a s, dec n = String a s ∧ is_ascii_digit a = true.
Proof.
  pose proof (dec_digits n) as Hd. pose proof (dec_not_empty n) as Hne.
  destruct (dec n) as [|a t]; [done|]. eexists _, _. split; [done|]. by apply andb_prop in Hd as [? _].
Qed.

Lemma digit_not a b : is_ascii_digit a = true → is_ascii_digit b = false → is_byte b a = false.
Proof. intros Ha Hb. apply bool_decide_eq_false_2. congruence. Qed.

(** The first byte of a value is not the end of a list. *)
Lemma encode_first v : ∃ a s, encode v = String a s ∧ is_byte "e" a = false.
Proof.
  destruct v as [s|n|l|l]; cbn [encode]; [|by eexists _, _; rewrite ?append_cons..].
  unfold encode_string. destruct (dec_first (N.of_nat (String.length s))) as (a & t & -> & Ha).
  rewrite append_cons. eexists _, _. split; [done|]. by apply digit_not.
Qed.

Lemma encode_length v : 1 ≤ String.length (encode v).
Proof. destruct (encode_first v) as (a & s & -> & _). cbn. lia. Qed.

Lemma show_int_split n t : split_once "e" ("i" +:+ show_int n +:+ String "e" t) = Some ("i" +:+ show_int n, t).
Proof.
  unfold split_once, split_once_by. rewrite <-append_assoc, break_stop; [done| |done].
  rewrite str_forall_app. cbn [str_forall]. assert (∀ n, str_forall (λ a, negb (is_byte "e" a)) (dec n) = true) as Hd.
  { intros m. eapply str_forall_impl; [|apply dec_digits]. intros a Ha. unfold is_byte.
    by rewrite bool_decide_eq_false_2 by (intros <-; done). }
  unfold show_int. case_match; [|by rewrite Hd]. rewrite str_forall_app. cbn. by rewrite Hd.
Qed.

Lemma show_int_utf8 n : utf8_valid (show_int n) = true.
Proof.
  unfold show_int. case_match; [|by apply digits_utf8, dec_digits].
  rewrite utf8_valid_app by done. by apply digits_utf8, dec_digits.
Qed.

Lemma decode_encode_integer n t :
  is_i64 n = true → decode_integer ("i" +:+ show_int n +:+ String "e" t) = Ok (BInteger n, t).
Proof.
  intros Hn. unfold decode_integer. rewrite show_int_split. cbn [ok_or mbind result_bind].
  change ("i" +:+ show_int n) with (String "i" (show_int n)). cbn [String.length].
  assert (String.substring 1 (S (String.length (show_int n)) - 1) (String "i" (show_int n)) = show_int n) as ->.
  { cbn [String.substring]. rewrite Nat.sub_succ, Nat.sub_0_r. apply substring_whole. }
  rewrite show_int_utf8, parse_show_int by done. done.
Qed.

Definition decodes (v : BencodeValue) : Prop :=
  ∀ fuel rest, 2 * String.length (encode v) ≤ fuel →
    (N.of_nat (String.length (encode v +:+ rest)) ≤ USIZE_MAX)%N →
    decode_fuel fuel (encode v +:+ rest) = Ok (v, rest).

Lemma decode_encode_items l fuel rest :
  Forall decodes l → 2 * String.length (str_concat (encode <$> l)) + 1 ≤ fuel →
  (N.of_nat (String.length (str_concat (encode <$> l) +:+ String "e" rest)) ≤ USIZE_MAX)%N →
  decode_items fuel (str_concat (encode <$> l) +:+ String "e" rest) = Ok (l, rest).
Proof.
  intros Hl. revert fuel. induction Hl as [|v l Hv Hl IH]; intros [|fuel] Hf Hlen; [lia|done|lia|].
  cbn [fmap list_fmap str_concat] in *. rewrite append_assoc in *.
  destruct (encode_first v) as (a & s & Hs & Ha). pose proof (encode_length v).
  rewrite str_length_app in Hf.
  cbn [decode_items]. rewrite Hs at 1. rewrite append_cons at 1. rewrite Ha.
  rewrite Hv by (done || lia). cbn [mbind result_bind]. rewrite IH; [done|lia|].
  rewrite str_length_app in Hlen. lia.
Qed.

Lemma decode_encode_pairs l fuel rest :
  Forall (λ p : bytes * BencodeValue, decodes p.2) l →
  2 * String.length (str_concat ((λ p : bytes * BencodeValue, encode_string p.1 +:+ encode p.2) <$> l)) + 1 ≤ fuel →
  (N.of_nat (String.length (str_concat ((λ p : bytes * BencodeValue, encode_string p.1 +:+ encode p.2) <$> l)
     +:+ String "e" rest)) ≤ USIZE_MAX)%N →
  decode_pairs fuel (str_concat ((λ p : bytes * BencodeValue, encode_string p.1 +:+ encode p.2) <$> l)
     +:+ String "e" rest) = Ok (l, rest).
Proof.
  intros Hl. revert fuel. induction Hl as [|[k v] l Hv Hl IH]; intros [|fuel] Hf Hlen; [lia|done|lia|].
  cbn [fmap list_fmap str_concat fst snd] in *. rewrite !append_assoc in *.
  destruct (encode_first (BString k)) as (a & s & Hs & Ha). cbn [encode] in Hs.
  pose proof (encode_length v). pose proof (encode_length (BString k)) as Hk. cbn [encode] in Hk.
  rewrite !str_length_app in Hf.
  cbn [decode_pairs]. rewrite Hs at 1. rewrite append_cons at 1. rewrite Ha.
  rewrite decode_encode_string by done. cbn [mbind result_bind]. rewrite str_length_app in Hlen.
  rewrite Hv by lia. cbn [mbind result_bind]. rewrite str_length_app in Hlen. rewrite IH; [done|lia|lia].
Qed.

Lemma encode_decodes v : value_ok v = true → decodes v.
Proof.
  induction v as [s|n|l IH|l IH] using value_induction; intros Hok [|fuel] rest Hf Hlen;
    try (match goal with H : 2 * String.length (encode ?v) ≤ 0 |- _ =>
      pose proof (encode_length v); lia end).
  - cbn [encode] in *. assert (∃ a t, encode_string s +:+ rest = String a t ∧ is_ascii_digit a = true)
      as (a & t & Hs & Ha).
    { unfold encode_string. destruct (dec_first (N.of_nat (String.length s))) as (a & t & -> & Ha).
      rewrite !append_cons. by eexists _, _. }
    rewrite Hs in Hlen |- *. cbn [decode_fuel]. rewrite !digit_not, Ha by done. rewrite <-Hs in Hlen |- *.
    by rewrite decode_encode_string.
  - cbn [encode value_ok] in *. rewrite !append_assoc. change ("e" +:+ rest) with (String "e" rest).
    change ("i" +:+ ?x) with (String "i" x) at 1. cbn [decode_fuel]. exact (decode_encode_integer n rest Hok).
  - cbn [encode value_ok] in *. rewrite !append_assoc in *. change ("e" +:+ rest) with (String "e" rest) in *.
    rewrite !str_length_app in Hf. cbn in Hf.
    change ("l" +:+ ?x) with (String "l" x) in *. cbn [String.length] in Hlen. cbn [decode_fuel].
    assert (Forall decodes l) as Hl.
    { rewrite forallb_forall in Hok. rewrite Forall_forall in *. intros v Hv. apply IH; [done|].
      by apply Hok, list_elem_of_In. }
    change (is_byte "i" "l") with false. change (is_byte "l" "l") with true. cbn iota.
    rewrite decode_encode_items; [done|done|lia|lia].
  - cbn [encode value_ok] in *. rewrite !append_assoc in *. change ("e" +:+ rest) with (String "e" rest) in *.
    rewrite !str_length_app in Hf. cbn [String.length] in Hf.
    change ("d" +:+ ?x) with (String "d" x) in *. cbn [String.length] in Hlen. cbn [decode_fuel].
    assert (Forall (λ p : bytes * BencodeValue, decodes p.2) l) as Hl.
    { rewrite forallb_forall in Hok. rewrite Forall_forall in *. intros v Hv. apply IH; [done|].
      by apply Hok, list_elem_of_In. }
    change (is_byte "i" "d") with false. change (is_byte "l" "d") with false.
    change (is_byte "d" "d") with true. cbn iota.
    rewrite decode_encode_pairs; [done|done|cbn in *; lia|lia].
Qed.

(** C31: what is encoded is decoded again, with whatever follows it left over:
    strings of any bytes, 64-bit integers, lists and dictionaries of any depth,
    with the pairs in the order they were given. *)
Theorem bencode_round_trip (v : BencodeValue) (rest : bytes) :
  value_ok v = true → (N.of_nat (String.length (encode v +:+ rest)) ≤ USIZE_MAX)%N →
  decode (encode v +:+ rest) = Ok (v, rest).
Proof.
  intros Hok Hlen. unfold decode. apply encode_decodes; [done| |done].
  rewrite str_length_app. lia.
Qed.

Definition sample_value : BencodeValue :=
  BDict [("sdp", BString (String CR (String LF "v=0"))); ("list", BList [BInteger (-5); BList []])].

Lemma bencode_round_trip_witness :
  decode (encode sample_value +:+ "xyz") = Ok (sample_value, "xyz").
Proof. apply (bencode_round_trip sample_value "xyz"); [reflexivity|vm_compute; discriminate]. Defined.

(** ** The decoder returns *)

Definition suffix_of (rest input : bytes) : Prop := ∃ x, x ≠ "" ∧ input = x +:+ rest.

Lemma suffix_trans x y z : suffix_of x y → suffix_of y z → suffix_of x z.
Proof.
  intros (u & Hu & ->) (v & Hv & ->). exists (v +:+ u). split; [|by rewrite append_assoc].
  destruct v; [done|]. by rewrite append_cons.
Qed.

Lemma suffix_length x y : suffix_of x y → String.length x < String.length y.
Proof. intros (u & Hu & ->). rewrite str_length_app. destruct u; [done|]. cbn. lia. Qed.

Lemma suffix_cons a s : suffix_of s (String a s).
Proof. by exists (String a ""). Qed.

Lemma decode_string_suffix input s rest : decode_string input = Ok (s, rest) → suffix_of rest input.
Proof.
  unfold decode_string. intros ([l after] & Hs%ok_or_Ok & H)%bind_Ok. case_match; [done|].
  apply bind_Ok in H as (n & _ & H). cbv zeta in H. case_match; [done|]. case_match; [done|].
  injection H as _ <-. apply split_once_Some in Hs as [-> _].
  set (k := N.to_nat _). destruct (decide (k ≤ String.length after)) as [Hk|Hk].
  - exists (l +:+ String ":" (String.substring 0 k after)). split; [by destruct l|].
    by rewrite append_assoc, append_cons, substring_split.
  - assert (String.substring k (String.length after - k) after = "") as ->.
    { replace (String.length after - k) with 0 by lia. clearbody k. clear. revert k.
      induction after as [|a s IH]; intros [|k]; cbn; done || apply IH. }
    eexists. split; [|by rewrite append_nil_r]. by destruct l.
Qed.

Lemma decode_integer_suffix input v rest : decode_integer input = Ok (v, rest) → suffix_of rest input.
Proof.
  unfold decode_integer. intros ([l after] & Hs%ok_or_Ok & H)%bind_Ok. case_match; [done|].
  apply bind_Ok in H as (n & _ & [= _ <-]). apply split_once_Some in Hs as [-> _].
  exists (l +:+ "e"). split; [by destruct l|]. by rewrite append_assoc.
Qed.

(** A decoder that does not run out and consumes input. *)
Definition good_decode {A} (input : bytes) (r : result DecodeError (A * bytes)) : Prop :=
  match r with
  | Ok (_, rest) => suffix_of rest input
  | Err e => e ≠ OutOfFuel
  end.

Lemma good_bind {A B} input input' (r : result DecodeError (A * bytes))
    (k : A * bytes → result DecodeError (B * bytes)) :
  good_decode input r → (∀ x rest, suffix_of rest input → good_decode input' (k (x, rest))) →
  good_decode input' (r ≫= k).
Proof. destruct r as [[x rest]|e]; cbn; [|done]. intros H Hk. by apply Hk. Qed.

Lemma good_weaken {A} x y (r : result DecodeError (A * bytes)) :
  suffix_of x y → good_decode x r → good_decode y r.
Proof. destruct r as [[? ?]|?]; [|done]. cbn. intros H1 H2. by eapply suffix_trans. Qed.

Lemma good_string input : good_decode input (decode_string input).
Proof.
  destruct (decode_string input) as [[s rest]|e] eqn:Hs; [by eapply decode_string_suffix|].
  cbn. intros ->. revert Hs. unfold decode_string.
  destruct (split_once ":" input) as [[l after]|]; cbn; [|done]. case_match; [done|].
  destruct (parse_uint USIZE_MAX l); cbn; [|done]. by do 2 (case_match; [done|]).
Qed.

Lemma good_integer input : good_decode input (decode_integer input).
Proof.
  destruct (decode_integer input) as [[s rest]|e] eqn:Hs; [by eapply decode_integer_suffix|].
  cbn. intros ->. revert Hs. unfold decode_integer.
  destruct (split_once "e" input) as [[l after]|]; cbn; [|done]. case_match; [done|].
  by destruct (parse_i64 _).
Qed.

Lemma decode_good fuel :
  (∀ input, 2 * String.length input + 1 ≤ fuel → good_decode input (decode_fuel fuel input)) ∧
  (∀ input, 2 * String.length input + 2 ≤ fuel → good_decode input (decode_items fuel input)) ∧
  (∀ input, 2 * String.length input + 2 ≤ fuel → good_decode input (decode_pairs fuel input)).
Proof.
  induction fuel as [|fuel (IHv & IHi & IHp)]; [by split_and!; intros; lia|]. split_and!; intros [|a s] Hf.
  all: cbn [decode_fuel decode_items decode_pairs String.length] in *; try done.
  - case_match; [apply good_integer|]. case_match; [|case_match; [|case_match; [|done]]].
    + eapply good_bind; [apply IHi; lia|]. intros x rest H'. by eapply suffix_trans, suffix_cons.
    + eapply good_bind; [apply IHp; lia|]. intros x rest H'. by eapply suffix_trans, suffix_cons.
    + eapply good_bind; [apply good_string|]. by intros x rest H'.
  - case_match; [apply suffix_cons|].
    eapply good_bind; [apply IHv; cbn; lia|]. intros x rest Hr.
    pose proof (suffix_length _ _ Hr) as Hlen. cbn in Hlen.
    eapply good_bind; [apply IHi; lia|]. intros y rest' Hr'. by eapply suffix_trans.
  - case_match; [apply suffix_cons|].
    eapply good_bind; [apply good_string|]. intros k rest Hk.
    pose proof (suffix_length _ _ Hk) as Hlenk. cbn in Hlenk.
    eapply good_bind; [apply IHv; lia|]. intros x rest' Hr.
    pose proof (suffix_length _ _ Hr) as Hlen.
    eapply good_bind; [apply IHp; lia|]. intros y rest'' Hr'.
    eapply suffix_trans; [exact Hr'|]. by eapply suffix_trans.
Qed.

(** The decoder returns on every input.  The fuel never runs out, so a
    value or an error comes back, and a decoded value leaves a proper suffix of
    the input: the loops over lists and dictionaries end whatever arrives. *)
Theorem bencode_decode_total (input : bytes) :
  match decode input with
  | Ok (_, rest) => ∃ x, x ≠ "" ∧ input = x +:+ rest
  | Err e => e ≠ OutOfFuel
  end.
Proof.
  pose proof (proj1 (decode_good (2 * String.length input + 2)) input ltac:(lia)) as H.
  exact H.
Qed.

(** C32: the one input that panics.  A string whose declared length wraps the
    64-bit offset of its end around, and no other, makes [decode_string] slice
    past the end of the data: every other input gives a value or an error. *)
Theorem bencode_panics_iff_wraps (input : bytes) :
  (N.of_nat (String.length input) ≤ USIZE_MAX)%N →
  decode_string input = Err SlicePanic ↔
    ∃ length_str after n, split_once ":" input = Some (length_str, after) ∧
      utf8_valid length_str = true ∧ parse_uint USIZE_MAX length_str = Some n ∧
      (USIZE_MAX < N.of_nat (String.length length_str) + 1 + n)%N.
Proof.
  intros Hlen. unfold decode_string.
  destruct (split_once ":" input) as [[l after]|] eqn:Hs; cbn; [|by split; [|intros (?&?&?&?&?)]].
  apply split_once_Some in Hs as [Hs _]. rewrite Hs in Hlen. rewrite str_length_app in Hlen. cbn in Hlen.
  destruct (utf8_valid l) eqn:Hu; cbn; [|split; [done|intros (?&?&?&[= <- <-]&?&?); congruence]].
  destruct (parse_uint USIZE_MAX l) as [n|] eqn:Hn; cbn;
    [|split; [done|intros (?&?&?&[= <- <-]&?&?&?); congruence]].
  pose proof (parse_uint_bound _ _ _ Hn) as Hb. rewrite Hs, str_length_app. cbn [String.length].
  set (d := N.of_nat (String.length l)) in *. unfold wrapping_add.
  assert (USIZE_MAX < d + 1 + n ∧ (d + 1 + n) mod 2 ^ 64 = d + 1 + n - 2 ^ 64 ∨
          d + 1 + n ≤ USIZE_MAX ∧ (d + 1 + n) mod 2 ^ 64 = d + 1 + n)%N as Hmod.
  { unfold USIZE_MAX in *. destruct (decide (d + 1 + n < 2 ^ 64)%N).
    - right. split; [lia|]. apply N.mod_small. lia.
    - left. split; [lia|]. symmetry. apply (N.mod_unique _ _ 1); lia. }
  destruct (N.ltb_spec (N.of_nat (String.length l + S (String.length after))) ((d + 1 + n) mod 2 ^ 64)%N) as [H1|H1];
    [|destruct (N.ltb_spec ((d + 1 + n) mod 2 ^ 64)%N (d + 1)) as [H2|H2]].
  - split; [done|]. intros (? & ? & n' & [= <- <-] & _ & Hp & Hw). assert (n' = n) as -> by congruence.
    unfold USIZE_MAX in *. lia.
  - split; [|done]. intros _. exists l, after, n. split_and!; try done. unfold USIZE_MAX in *. lia.
  - split; [done|]. intros (? & ? & n' & [= <- <-] & _ & Hp & Hw). assert (n' = n) as -> by congruence.
    unfold USIZE_MAX in *. lia.
Qed.

Lemma bencode_panics_iff_wraps_witness :
  decode_string "18446744073709551615:x" = Err SlicePanic.
Proof.
  apply (bencode_panics_iff_wraps "18446744073709551615:x"); [vm_compute; discriminate|].
  exists "18446744073709551615", "x", 18446744073709551615%N.
  split_and!; [reflexivity|reflexivity|vm_compute; reflexivity|vm_compute; reflexivity].
Defined.
