(* ===== verification/AvpTable.v ===== *)
(** * The AVP dictionary

    The tables of [diameter/dictionary.rs] and [diameter/dictionary/policy.rs]:
    what a Diameter attribute-value pair (AVP) of a given code and vendor is
    called and how its value is written.  The tables are the source's, entry by
    entry and in its order, cut into pieces of a readable size; [Dictionary] has
    the functions that read them. *)

From S2P Require Import Prelude.

#[local] Open Scope N_scope.

(** How an AVP value is encoded on the wire. *)
Inductive AvpType :=
  | OctetString
  | UTF8String
  | Unsigned32
  | Unsigned64
  | Integer32
  | Enumerated
  | Grouped
  | Address
  | Time
  | DiameterIdentity
  | TbcdString.

#[export] Instance AvpType_eq_dec : EqDecision AvpType.
Proof. solve_decision. Defined.

Record AvpDef := mkAvpDef {
  def_code : N;
  def_vendor_id : N;
  def_name : string;
  def_data_type : AvpType;
}.

#[export] Instance AvpDef_eq_dec : EqDecision AvpDef.
Proof. solve_decision. Defined.

(** The 3GPP enterprise number, under the names both files have for it. *)
Abbreviation TGPP := 10415%N (only parsing).
Abbreviation VENDOR_3GPP := 10415%N (only parsing).

(** An entry of the policy tables, with whether it goes out with the M bit. *)
Record PolicyAvp := mkPolicyAvp {
  definition : AvpDef;
  mandatory : bool;
}.

Abbreviation MANDATORY := true (only parsing).
Abbreviation NOT_MANDATORY := false (only parsing).

Definition policy_avp (code : N) (name : string) (data_type : AvpType) (mandatory : bool) : PolicyAvp :=
  mkPolicyAvp (mkAvpDef code VENDOR_3GPP name data_type) mandatory.

(** ** The main table: base protocol, credit control and the 3GPP applications *)

Definition AVP_TABLE_1 : list AvpDef :=
  [ mkAvpDef 1 0 "User-Name" UTF8String;
    mkAvpDef 8 0 "Framed-IP-Address" OctetString;
    mkAvpDef 11 0 "Filter-Id" UTF8String;
    mkAvpDef 25 0 "Class" OctetString;
    mkAvpDef 27 0 "Session-Timeout" Unsigned32;
    mkAvpDef 30 0 "Called-Station-Id" UTF8String;
    mkAvpDef 33 0 "Proxy-State" OctetString;
    mkAvpDef 44 0 "Acct-Session-Id" OctetString;
    mkAvpDef 50 0 "Acct-Multi-Session-Id" UTF8String;
    mkAvpDef 55 0 "Event-Timestamp" Time;
    mkAvpDef 85 0 "Acct-Interim-Interval" Unsigned32;
    mkAvpDef 97 0 "Framed-IPv6-Prefix" OctetString;
    mkAvpDef 104 0 "Digest-Realm" UTF8String;
    mkAvpDef 110 0 "Digest-QoP" UTF8String;
    mkAvpDef 111 0 "Digest-Algorithm" UTF8String;
    mkAvpDef 121 0 "Digest-HA1" UTF8String;
    mkAvpDef 257 0 "Host-IP-Address" Address;
    mkAvpDef 258 0 "Auth-Application-Id" Unsigned32;
    mkAvpDef 259 0 "Acct-Application-Id" Unsigned32;
    mkAvpDef 260 0 "Vendor-Specific-Application-Id" Grouped;
    mkAvpDef 263 0 "Session-Id" UTF8String;
    mkAvpDef 264 0 "Origin-Host" DiameterIdentity;
    mkAvpDef 265 0 "Supported-Vendor-Id" Unsigned32;
    mkAvpDef 266 0 "Vendor-Id" Unsigned32 ].

Definition AVP_TABLE_2 : list AvpDef :=
  [ mkAvpDef 267 0 "Firmware-Revision" Unsigned32;
    mkAvpDef 268 0 "Result-Code" Unsigned32;
    mkAvpDef 269 0 "Product-Name" UTF8String;
    mkAvpDef 270 0 "Session-Binding" Unsigned32;
    mkAvpDef 274 0 "Auth-Grace-Period" Unsigned32;
    mkAvpDef 277 0 "Auth-Session-State" Enumerated;
    mkAvpDef 278 0 "Origin-State-Id" Unsigned32;
    mkAvpDef 279 0 "Failed-AVP" Grouped;
    mkAvpDef 281 0 "Error-Message" UTF8String;
    mkAvpDef 282 0 "Route-Record" DiameterIdentity;
    mkAvpDef 283 0 "Destination-Realm" DiameterIdentity;
    mkAvpDef 284 0 "Proxy-Info" Grouped;
    mkAvpDef 285 0 "Re-Auth-Request-Type" Enumerated;
    mkAvpDef 291 0 "Authorization-Lifetime" Unsigned32;
    mkAvpDef 293 0 "Destination-Host" DiameterIdentity;
    mkAvpDef 295 0 "Termination-Cause" Enumerated;
    mkAvpDef 296 0 "Origin-Realm" DiameterIdentity;
    mkAvpDef 297 0 "Experimental-Result" Grouped;
    mkAvpDef 298 0 "Experimental-Result-Code" Unsigned32;
    mkAvpDef 299 0 "Inband-Security-Id" Unsigned32;
    mkAvpDef 412 0 "CC-Input-Octets" Unsigned64;
    mkAvpDef 413 0 "CC-Money" Grouped;
    mkAvpDef 414 0 "CC-Output-Octets" Unsigned64 ].

Definition AVP_TABLE_3 : list AvpDef :=
  [ mkAvpDef 415 0 "CC-Request-Number" Unsigned32;
    mkAvpDef 416 0 "CC-Request-Type" Enumerated;
    mkAvpDef 417 0 "CC-Service-Specific-Units" Unsigned64;
    mkAvpDef 418 0 "CC-Session-Failover" Enumerated;
    mkAvpDef 419 0 "CC-Sub-Session-Id" Unsigned64;
    mkAvpDef 420 0 "CC-Time" Unsigned32;
    mkAvpDef 421 0 "CC-Total-Octets" Unsigned64;
    mkAvpDef 426 0 "Credit-Control" Enumerated;
    mkAvpDef 427 0 "Credit-Control-Failure-Handling" Enumerated;
    mkAvpDef 428 0 "Direct-Debiting-Failure-Handling" Enumerated;
    mkAvpDef 430 0 "Final-Unit-Indication" Grouped;
    mkAvpDef 431 0 "Granted-Service-Unit" Grouped;
    mkAvpDef 432 0 "Rating-Group" Unsigned32;
    mkAvpDef 433 0 "Redirect-Address-Type" Enumerated;
    mkAvpDef 434 0 "Redirect-Server" Grouped;
    mkAvpDef 435 0 "Redirect-Server-Address" UTF8String;
    mkAvpDef 436 0 "Requested-Action" Enumerated;
    mkAvpDef 437 0 "Requested-Service-Unit" Grouped;
    mkAvpDef 438 0 "Restriction-Filter-Rule" OctetString;
    mkAvpDef 439 0 "Service-Identifier" Unsigned32;
    mkAvpDef 443 0 "Subscription-Id" Grouped;
    mkAvpDef 444 0 "Subscription-Id-Data" UTF8String;
    mkAvpDef 446 0 "Used-Service-Unit" Grouped;
    mkAvpDef 448 0 "Validity-Time" Unsigned32 ].

Definition AVP_TABLE_4 : list AvpDef :=
  [ mkAvpDef 449 0 "Final-Unit-Action" Enumerated;
    mkAvpDef 450 0 "Subscription-Id-Type" Enumerated;
    mkAvpDef 451 0 "Tariff-Time-Change" Time;
    mkAvpDef 452 0 "Tariff-Change-Usage" Enumerated;
    mkAvpDef 453 0 "G-S-U-Pool-Identifier" Unsigned32;
    mkAvpDef 455 0 "Multiple-Services-Indicator" Enumerated;
    mkAvpDef 456 0 "Multiple-Services-Credit-Control" Grouped;
    mkAvpDef 457 0 "G-S-U-Pool-Reference" Grouped;
    mkAvpDef 458 0 "User-Equipment-Info" Grouped;
    mkAvpDef 459 0 "User-Equipment-Info-Type" Enumerated;
    mkAvpDef 460 0 "User-Equipment-Info-Value" OctetString;
    mkAvpDef 461 0 "Service-Context-Id" UTF8String;
    mkAvpDef 480 0 "Accounting-Record-Type" Enumerated;
    mkAvpDef 485 0 "Accounting-Record-Number" Unsigned32;
    mkAvpDef 400 TGPP "GBA-UserSecSettings" OctetString;
    mkAvpDef 401 TGPP "Transaction-Identifier" OctetString;
    mkAvpDef 402 TGPP "NAF-Id" OctetString;
    mkAvpDef 403 TGPP "GAA-Service-Identifier" OctetString;
    mkAvpDef 404 TGPP "Key-ExpiryTime" Time;
    mkAvpDef 405 TGPP "ME-Key-Material" OctetString;
    mkAvpDef 406 TGPP "UICC-Key-Material" OctetString;
    mkAvpDef 407 TGPP "GBA_U-Awareness-Indicator" Enumerated;
    mkAvpDef 408 TGPP "BootstrapInfoCreationTime" Time;
    mkAvpDef 409 TGPP "GUSS-Timestamp" Time ].

Definition AVP_TABLE_5 : list AvpDef :=
  [ mkAvpDef 410 TGPP "GBA-Type" Enumerated;
    mkAvpDef 421 TGPP "SHA-256-Indication" Enumerated;
    mkAvpDef 600 TGPP "Visited-Network-Identifier" OctetString;
    mkAvpDef 601 TGPP "Public-Identity" UTF8String;
    mkAvpDef 602 TGPP "Server-Name" UTF8String;
    mkAvpDef 603 TGPP "Server-Capabilities" Grouped;
    mkAvpDef 604 TGPP "Mandatory-Capability" Unsigned32;
    mkAvpDef 605 TGPP "Optional-Capability" Unsigned32;
    mkAvpDef 606 TGPP "User-Data" OctetString;
    mkAvpDef 607 TGPP "SIP-Number-Auth-Items" Unsigned32;
    mkAvpDef 608 TGPP "SIP-Authentication-Scheme" UTF8String;
    mkAvpDef 609 TGPP "SIP-Authenticate" OctetString;
    mkAvpDef 610 TGPP "SIP-Authorization" OctetString;
    mkAvpDef 611 TGPP "SIP-Authentication-Context" OctetString;
    mkAvpDef 612 TGPP "SIP-Auth-Data-Item" Grouped;
    mkAvpDef 613 TGPP "SIP-Item-Number" Unsigned32;
    mkAvpDef 614 TGPP "Server-Assignment-Type" Enumerated;
    mkAvpDef 615 TGPP "Deregistration-Reason" Grouped;
    mkAvpDef 616 TGPP "Reason-Code" Enumerated;
    mkAvpDef 617 TGPP "Reason-Info" UTF8String;
    mkAvpDef 618 TGPP "Charging-Information" Grouped;
    mkAvpDef 619 TGPP "Primary-Event-Charging-Function-Name" DiameterIdentity;
    mkAvpDef 620 TGPP "Secondary-Event-Charging-Function-Name" DiameterIdentity;
    mkAvpDef 621 TGPP "Primary-Charging-Collection-Function-Name" DiameterIdentity ].

Definition AVP_TABLE_6 : list AvpDef :=
  [ mkAvpDef 622 TGPP "Secondary-Charging-Collection-Function-Name" DiameterIdentity;
    mkAvpDef 623 TGPP "User-Authorization-Type" Enumerated;
    mkAvpDef 624 TGPP "User-Data-Already-Available" Enumerated;
    mkAvpDef 625 TGPP "Confidentiality-Key" OctetString;
    mkAvpDef 626 TGPP "Integrity-Key" OctetString;
    mkAvpDef 628 TGPP "Supported-Features" Grouped;
    mkAvpDef 629 TGPP "Feature-List-ID" Unsigned32;
    mkAvpDef 630 TGPP "Feature-List" Unsigned32;
    mkAvpDef 631 TGPP "Supported-Applications" Grouped;
    mkAvpDef 632 TGPP "Associated-Identities" Grouped;
    mkAvpDef 633 TGPP "Originating-Request" Enumerated;
    mkAvpDef 635 TGPP "SIP-Digest-Authenticate" Grouped;
    mkAvpDef 639 TGPP "SCSCF-Restoration-Info" Grouped;
    mkAvpDef 640 TGPP "Path" OctetString;
    mkAvpDef 641 TGPP "Contact" OctetString;
    mkAvpDef 642 TGPP "Subscription-Info" Grouped;
    mkAvpDef 643 TGPP "Call-ID-SIP-Header" OctetString;
    mkAvpDef 644 TGPP "From-SIP-Header" OctetString;
    mkAvpDef 645 TGPP "To-SIP-Header" OctetString;
    mkAvpDef 646 TGPP "Record-Route" OctetString;
    mkAvpDef 647 TGPP "Associated-Registered-Identities" Grouped;
    mkAvpDef 648 TGPP "Multiple-Registration-Indication" Enumerated;
    mkAvpDef 649 TGPP "Restoration-Info" Grouped;
    mkAvpDef 654 TGPP "Initial-CSeq-Sequence-Number" Unsigned32 ].

Definition AVP_TABLE_7 : list AvpDef :=
  [ mkAvpDef 655 TGPP "SAR-Flags" Unsigned32;
    mkAvpDef 660 TGPP "P-CSCF-Subscription-Info" Grouped;
    mkAvpDef 661 TGPP "Registration-Time-Out" Time;
    mkAvpDef 662 TGPP "Alternate-Digest-Algorithm" UTF8String;
    mkAvpDef 663 TGPP "Alternate-Digest-HA1" UTF8String;
    mkAvpDef 664 TGPP "Failed-PCSCF" Grouped;
    mkAvpDef 665 TGPP "PCSCF-FQDN" DiameterIdentity;
    mkAvpDef 666 TGPP "PCSCF-IP-Address" Address;
    mkAvpDef 700 TGPP "User-Identity" Grouped;
    mkAvpDef 701 TGPP "MSISDN" TbcdString;
    mkAvpDef 702 TGPP "User-Data-Sh" OctetString;
    mkAvpDef 703 TGPP "Data-Reference" Enumerated;
    mkAvpDef 704 TGPP "Service-Indication" OctetString;
    mkAvpDef 705 TGPP "Subs-Req-Type" Enumerated;
    mkAvpDef 706 TGPP "Requested-Domain" Enumerated;
    mkAvpDef 707 TGPP "Current-Location" Enumerated;
    mkAvpDef 708 TGPP "Identity-Set" Enumerated;
    mkAvpDef 709 TGPP "Expiry-Time" Time;
    mkAvpDef 710 TGPP "Send-Data-Indication" Enumerated;
    mkAvpDef 711 TGPP "DSAI-Tag" OctetString;
    mkAvpDef 823 TGPP "Event-Type" Grouped;
    mkAvpDef 824 TGPP "SIP-Method" UTF8String;
    mkAvpDef 825 TGPP "Event" UTF8String;
    mkAvpDef 829 TGPP "Role-of-Node" Enumerated ].

Definition AVP_TABLE_8 : list AvpDef :=
  [ mkAvpDef 830 TGPP "User-Session-Id" UTF8String;
    mkAvpDef 831 TGPP "Calling-Party-Address" UTF8String;
    mkAvpDef 832 TGPP "Called-Party-Address" UTF8String;
    mkAvpDef 833 TGPP "Time-Stamps" Grouped;
    mkAvpDef 834 TGPP "SIP-Request-Timestamp" Time;
    mkAvpDef 835 TGPP "SIP-Response-Timestamp" Time;
    mkAvpDef 836 TGPP "Application-Server" UTF8String;
    mkAvpDef 837 TGPP "Application-Provided-Called-Party-Address" UTF8String;
    mkAvpDef 838 TGPP "Inter-Operator-Identifier" Grouped;
    mkAvpDef 839 TGPP "Originating-IOI" UTF8String;
    mkAvpDef 840 TGPP "Terminating-IOI" UTF8String;
    mkAvpDef 841 TGPP "IMS-Charging-Identifier" UTF8String;
    mkAvpDef 848 TGPP "Served-Party-IP-Address" Address;
    mkAvpDef 850 TGPP "Application-Server-Information" Grouped;
    mkAvpDef 851 TGPP "Trunk-Group-Id" Grouped;
    mkAvpDef 852 TGPP "Incoming-Trunk-Group-Id" UTF8String;
    mkAvpDef 853 TGPP "Outgoing-Trunk-Group-Id" UTF8String;
    mkAvpDef 854 TGPP "Bearer-Service" OctetString;
    mkAvpDef 861 TGPP "Cause-Code" Integer32;
    mkAvpDef 862 TGPP "Node-Functionality" Enumerated;
    mkAvpDef 866 TGPP "PS-Free-Format-Data" OctetString;
    mkAvpDef 868 TGPP "Time-Quota-Threshold" Unsigned32;
    mkAvpDef 873 TGPP "Service-Information" Grouped;
    mkAvpDef 874 TGPP "PS-Information" Grouped ].

Definition AVP_TABLE_9 : list AvpDef :=
  [ mkAvpDef 876 TGPP "IMS-Information" Grouped;
    mkAvpDef 886 TGPP "Originator-Address" Grouped;
    mkAvpDef 897 TGPP "Address-Data" UTF8String;
    mkAvpDef 899 TGPP "Address-Type" Enumerated;
    mkAvpDef 1201 TGPP "Recipient-Address" Grouped;
    mkAvpDef 1263 TGPP "Access-Network-Information" OctetString;
    mkAvpDef 1400 TGPP "Subscription-Data" Grouped;
    mkAvpDef 1401 TGPP "Terminal-Information" Grouped;
    mkAvpDef 1402 TGPP "IMEI" UTF8String;
    mkAvpDef 1403 TGPP "Software-Version" UTF8String;
    mkAvpDef 1405 TGPP "ULR-Flags" Unsigned32;
    mkAvpDef 1406 TGPP "ULA-Flags" Unsigned32;
    mkAvpDef 1407 TGPP "Visited-PLMN-Id" OctetString;
    mkAvpDef 1408 TGPP "Requested-EUTRAN-Authentication-Info" Grouped;
    mkAvpDef 1410 TGPP "Number-Of-Requested-Vectors" Unsigned32;
    mkAvpDef 1411 TGPP "Re-Synchronization-Info" OctetString;
    mkAvpDef 1412 TGPP "Immediate-Response-Preferred" Unsigned32;
    mkAvpDef 1413 TGPP "Authentication-Info" Grouped;
    mkAvpDef 1414 TGPP "E-UTRAN-Vector" Grouped;
    mkAvpDef 1420 TGPP "Cancellation-Type" Enumerated;
    mkAvpDef 1445 TGPP "Equipment-Status" Enumerated;
    mkAvpDef 1447 TGPP "RAND" OctetString;
    mkAvpDef 1448 TGPP "XRES" OctetString ].

Definition AVP_TABLE_10 : list AvpDef :=
  [ mkAvpDef 1449 TGPP "AUTN" OctetString;
    mkAvpDef 1450 TGPP "KASME" OctetString;
    mkAvpDef 1471 TGPP "3GPP2-MEID" OctetString;
    mkAvpDef 1489 TGPP "SGSN-Number" TbcdString;
    mkAvpDef 1635 TGPP "PUR-Flags" Unsigned32;
    mkAvpDef 1645 TGPP "MME-Number-for-MT-SMS" TbcdString;
    mkAvpDef 2000 TGPP "SMS-Information" Grouped;
    mkAvpDef 2001 TGPP "Data-Coding-Scheme" Integer32;
    mkAvpDef 2007 TGPP "SM-Message-Type" Enumerated;
    mkAvpDef 2008 TGPP "Originator-SCCP-Address" Address;
    mkAvpDef 2009 TGPP "Originator-Interface" Grouped;
    mkAvpDef 2010 TGPP "Recipient-SCCP-Address" Address;
    mkAvpDef 2011 TGPP "Reply-Path-Requested" Enumerated;
    mkAvpDef 2012 TGPP "SM-Discharge-Time" Time;
    mkAvpDef 2013 TGPP "SM-Protocol-ID" OctetString;
    mkAvpDef 2014 TGPP "SM-Status" OctetString;
    mkAvpDef 2015 TGPP "SM-User-Data-Header" OctetString;
    mkAvpDef 2016 TGPP "SMS-Node" Enumerated;
    mkAvpDef 2017 TGPP "SMSC-Address" Address;
    mkAvpDef 2018 TGPP "Client-Address" Address;
    mkAvpDef 2019 TGPP "Number-of-Messages-Sent" Unsigned32;
    mkAvpDef 2026 TGPP "Recipient-Info" Grouped;
    mkAvpDef 2027 TGPP "Originator-Received-Address" Grouped ].

Definition AVP_TABLE_11 : list AvpDef :=
  [ mkAvpDef 2028 TGPP "Recipient-Received-Address" Grouped;
    mkAvpDef 2029 TGPP "SM-Service-Type" Enumerated;
    mkAvpDef 2041 TGPP "Start-Time" Time;
    mkAvpDef 2042 TGPP "Stop-Time" Time;
    mkAvpDef 2401 TGPP "Serving-Node" Grouped;
    mkAvpDef 2402 TGPP "MME-Name" DiameterIdentity;
    mkAvpDef 2403 TGPP "MSC-Number" TbcdString;
    mkAvpDef 2408 TGPP "MME-Realm" DiameterIdentity;
    mkAvpDef 2409 TGPP "SGSN-Name" DiameterIdentity;
    mkAvpDef 2410 TGPP "SGSN-Realm" DiameterIdentity;
    mkAvpDef 2713 TGPP "IMS-Visited-Network-Identifier" UTF8String;
    mkAvpDef 3010 TGPP "Application-Port-Identifier" Unsigned32;
    mkAvpDef 3102 TGPP "User-Identifier" Grouped;
    mkAvpDef 3111 TGPP "External-Identifier" UTF8String;
    mkAvpDef 3300 TGPP "SC-Address" TbcdString;
    mkAvpDef 3301 TGPP "SM-RP-UI" OctetString;
    mkAvpDef 3308 TGPP "SM-RP-MTI" Enumerated;
    mkAvpDef 3316 TGPP "SM-Delivery-Outcome" Grouped;
    mkAvpDef 3317 TGPP "MME-SM-Delivery-Outcome" Grouped;
    mkAvpDef 3318 TGPP "MSC-SM-Delivery-Outcome" Grouped;
    mkAvpDef 3319 TGPP "SGSN-SM-Delivery-Outcome" Grouped;
    mkAvpDef 3320 TGPP "IP-SM-GW-SM-Delivery-Outcome" Grouped ].

Definition AVP_TABLE_12 : list AvpDef :=
  [ mkAvpDef 3321 TGPP "SM-Delivery-Cause" Enumerated;
    mkAvpDef 3322 TGPP "Absent-User-Diagnostic-SM" Unsigned32;
    mkAvpDef 3324 TGPP "SMSMI-Correlation-ID" Grouped;
    mkAvpDef 3332 TGPP "SMS-GMSC-Address" Address;
    mkAvpDef 3405 TGPP "SM-Device-Trigger-Information" Grouped;
    mkAvpDef 3406 TGPP "MTC-IWF-Address" Address;
    mkAvpDef 3407 TGPP "SM-Device-Trigger-Indicator" Enumerated;
    mkAvpDef 3409 TGPP "SMS-Result" Unsigned32;
    mkAvpDef 3410 TGPP "VCS-Information" Grouped;
    mkAvpDef 3411 TGPP "Basic-Service-Code" Grouped;
    mkAvpDef 3412 TGPP "Bearer-Capability" OctetString;
    mkAvpDef 3413 TGPP "Teleservice" OctetString;
    mkAvpDef 3414 TGPP "ISUP-Location-Number" OctetString;
    mkAvpDef 3415 TGPP "Forwarding-Pending" Enumerated;
    mkAvpDef 3416 TGPP "ISUP-Cause" Grouped;
    mkAvpDef 3417 TGPP "MSC-Address" OctetString;
    mkAvpDef 3418 TGPP "Network-Call-Reference-Number" OctetString;
    mkAvpDef 3419 TGPP "Start-of-Charging" Time;
    mkAvpDef 3420 TGPP "VLR-Number" OctetString;
    mkAvpDef 3422 TGPP "ISUP-Cause-Diagnostics" OctetString;
    mkAvpDef 3423 TGPP "ISUP-Cause-Location" Unsigned32;
    mkAvpDef 3424 TGPP "ISUP-Cause-Value" Unsigned32 ].

Definition AVP_TABLE : list AvpDef :=
  AVP_TABLE_1 ++ AVP_TABLE_2 ++ AVP_TABLE_3 ++ AVP_TABLE_4 ++ AVP_TABLE_5 ++ AVP_TABLE_6
  ++ AVP_TABLE_7 ++ AVP_TABLE_8 ++ AVP_TABLE_9 ++ AVP_TABLE_10 ++ AVP_TABLE_11 ++ AVP_TABLE_12.

(** ** The policy and charging control AVPs of Gx and Rx *)

Definition POLICY_AVPS_1 : list PolicyAvp :=
  [ policy_avp 6 "3GPP-SGSN-Address" OctetString NOT_MANDATORY;
    policy_avp 7 "3GPP-GGSN-Address" OctetString NOT_MANDATORY;
    policy_avp 12 "3GPP-Selection-Mode" UTF8String NOT_MANDATORY;
    policy_avp 13 "3GPP-Charging-Characteristics" UTF8String NOT_MANDATORY;
    policy_avp 15 "3GPP-SGSN-IPv6-Address" OctetString NOT_MANDATORY;
    policy_avp 16 "3GPP-GGSN-IPv6-Address" OctetString NOT_MANDATORY;
    policy_avp 18 "3GPP-SGSN-MCC-MNC" UTF8String NOT_MANDATORY;
    policy_avp 21 "3GPP-RAT-Type" OctetString NOT_MANDATORY;
    policy_avp 22 "3GPP-User-Location-Info" OctetString NOT_MANDATORY;
    policy_avp 23 "3GPP-MS-TimeZone" OctetString NOT_MANDATORY;
    policy_avp 500 "Abort-Cause" Enumerated MANDATORY;
    policy_avp 501 "Access-Network-Charging-Address" Address MANDATORY;
    policy_avp 502 "Access-Network-Charging-Identifier" Grouped MANDATORY;
    policy_avp 503 "Access-Network-Charging-Identifier-Value" OctetString MANDATORY;
    policy_avp 504 "AF-Application-Identifier" OctetString MANDATORY;
    policy_avp 505 "AF-Charging-Identifier" OctetString MANDATORY;
    policy_avp 507 "Flow-Description" OctetString MANDATORY;
    policy_avp 508 "Flow-Grouping" Grouped MANDATORY;
    policy_avp 509 "Flow-Number" Unsigned32 MANDATORY;
    policy_avp 510 "Flows" Grouped MANDATORY;
    policy_avp 511 "Flow-Status" Enumerated MANDATORY;
    policy_avp 512 "Flow-Usage" Enumerated MANDATORY;
    policy_avp 513 "Specific-Action" Enumerated MANDATORY;
    policy_avp 515 "Max-Requested-Bandwidth-DL" Unsigned32 MANDATORY;
    policy_avp 516 "Max-Requested-Bandwidth-UL" Unsigned32 MANDATORY;
    policy_avp 517 "Media-Component-Description" Grouped MANDATORY;
    policy_avp 518 "Media-Component-Number" Unsigned32 MANDATORY;
    policy_avp 519 "Media-Sub-Component" Grouped MANDATORY;
    policy_avp 520 "Media-Type" Enumerated MANDATORY;
    policy_avp 521 "RR-Bandwidth" Unsigned32 MANDATORY;
    policy_avp 522 "RS-Bandwidth" Unsigned32 MANDATORY;
    policy_avp 523 "SIP-Forking-Indication" Enumerated MANDATORY;
    policy_avp 524 "Codec-Data" OctetString MANDATORY;
    policy_avp 525 "Service-URN" OctetString MANDATORY;
    policy_avp 526 "Acceptable-Service-Info" Grouped MANDATORY;
    policy_avp 527 "Service-Info-Status" Enumerated MANDATORY;
    policy_avp 528 "MPS-Identifier" OctetString NOT_MANDATORY;
    policy_avp 529 "AF-Signalling-Protocol" Enumerated NOT_MANDATORY;
    policy_avp 530 "Sponsored-Connectivity-Data" Grouped NOT_MANDATORY;
    policy_avp 531 "Sponsor-Identity" UTF8String NOT_MANDATORY;
    policy_avp 532 "Application-Service-Provider-Identity" UTF8String NOT_MANDATORY;
    policy_avp 533 "Rx-Request-Type" Enumerated NOT_MANDATORY;
    policy_avp 534 "Min-Requested-Bandwidth-DL" Unsigned32 NOT_MANDATORY;
    policy_avp 535 "Min-Requested-Bandwidth-UL" Unsigned32 NOT_MANDATORY;
    policy_avp 536 "Required-Access-Info" Enumerated NOT_MANDATORY;
    policy_avp 537 "IP-Domain-Id" OctetString NOT_MANDATORY;
    policy_avp 538 "GCS-Identifier" OctetString NOT_MANDATORY;
    policy_avp 539 "Sharing-Key-DL" Unsigned32 NOT_MANDATORY;
    policy_avp 540 "Sharing-Key-UL" Unsigned32 NOT_MANDATORY;
    policy_avp 541 "Retry-Interval" Unsigned32 NOT_MANDATORY;
    policy_avp 542 "Sponsoring-Action" Enumerated NOT_MANDATORY;
    policy_avp 543 "Max-Supported-Bandwidth-DL" Unsigned32 NOT_MANDATORY;
    policy_avp 544 "Max-Supported-Bandwidth-UL" Unsigned32 NOT_MANDATORY;
    policy_avp 545 "Min-Desired-Bandwidth-DL" Unsigned32 NOT_MANDATORY;
    policy_avp 546 "Min-Desired-Bandwidth-UL" Unsigned32 NOT_MANDATORY;
    policy_avp 547 "MCPTT-Identifier" OctetString NOT_MANDATORY;
    policy_avp 548 "Service-Authorization-Info" Unsigned32 NOT_MANDATORY;
    policy_avp 549 "Media-Component-Status" Unsigned32 NOT_MANDATORY;
    policy_avp 550 "Priority-Sharing-Indicator" Enumerated NOT_MANDATORY;
    policy_avp 551 "AF-Requested-Data" Unsigned32 NOT_MANDATORY;
    policy_avp 552 "Content-Version" Unsigned64 NOT_MANDATORY;
    policy_avp 553 "Pre-emption-Control-Info" Unsigned32 NOT_MANDATORY;
    policy_avp 554 "Extended-Max-Requested-BW-DL" Unsigned32 NOT_MANDATORY;
    policy_avp 555 "Extended-Max-Requested-BW-UL" Unsigned32 NOT_MANDATORY;
    policy_avp 556 "Extended-Max-Supported-BW-DL" Unsigned32 NOT_MANDATORY;
    policy_avp 557 "Extended-Max-Supported-BW-UL" Unsigned32 NOT_MANDATORY;
    policy_avp 558 "Extended-Min-Desired-BW-DL" Unsigned32 NOT_MANDATORY;
    policy_avp 559 "Extended-Min-Desired-BW-UL" Unsigned32 NOT_MANDATORY;
    policy_avp 560 "Extended-Min-Requested-BW-DL" Unsigned32 NOT_MANDATORY;
    policy_avp 561 "Extended-Min-Requested-BW-UL" Unsigned32 NOT_MANDATORY;
    policy_avp 562 "MCVideo-Identifier" OctetString NOT_MANDATORY;
    policy_avp 563 "IMS-Content-Identifier" OctetString NOT_MANDATORY;
    policy_avp 564 "IMS-Content-Type" Enumerated NOT_MANDATORY;
    policy_avp 565 "Callee-Information" Grouped NOT_MANDATORY;
    policy_avp 566 "FLUS-Identifier" OctetString NOT_MANDATORY;
    policy_avp 569 "NID" OctetString NOT_MANDATORY;
    policy_avp 570 "MA-Information" Grouped NOT_MANDATORY;
    policy_avp 571 "MA-Information-Action" Unsigned32 NOT_MANDATORY;
    policy_avp 572 "5GS-RAN-NAS-Release-Cause" Grouped NOT_MANDATORY;
    policy_avp 573 "5GMM-Cause" Unsigned32 NOT_MANDATORY;
    policy_avp 574 "5GSM-Cause" Unsigned32 NOT_MANDATORY;
    policy_avp 575 "NGAP-Cause" Grouped NOT_MANDATORY;
    policy_avp 576 "NGAP-Group" Unsigned32 NOT_MANDATORY;
    policy_avp 577 "NGAP-Value" Unsigned32 NOT_MANDATORY;
    policy_avp 578 "Wireline-User-Location-Info" Grouped NOT_MANDATORY;
    policy_avp 579 "HFC-Node-Identifier" OctetString NOT_MANDATORY;
    policy_avp 580 "GLI-Identifier" OctetString NOT_MANDATORY;
    policy_avp 581 "Line-Type" Unsigned32 NOT_MANDATORY;
    policy_avp 582 "MPS-Action" Enumerated NOT_MANDATORY;
    policy_avp 1000 "Bearer-Usage" Enumerated MANDATORY;
    policy_avp 1001 "Charging-Rule-Install" Grouped MANDATORY;
    policy_avp 1002 "Charging-Rule-Remove" Grouped MANDATORY;
    policy_avp 1003 "Charging-Rule-Definition" Grouped MANDATORY;
    policy_avp 1004 "Charging-Rule-Base-Name" UTF8String MANDATORY;
    policy_avp 1005 "Charging-Rule-Name" OctetString MANDATORY ].

Definition POLICY_AVPS_2 : list PolicyAvp :=
  [ policy_avp 1006 "Event-Trigger" Enumerated MANDATORY;
    policy_avp 1007 "Metering-Method" Enumerated MANDATORY;
    policy_avp 1008 "Offline" Enumerated MANDATORY;
    policy_avp 1009 "Online" Enumerated MANDATORY;
    policy_avp 1010 "Precedence" Unsigned32 MANDATORY;
    policy_avp 1011 "Reporting-Level" Enumerated MANDATORY;
    policy_avp 1012 "TFT-Filter" OctetString MANDATORY;
    policy_avp 1013 "TFT-Packet-Filter-Information" Grouped MANDATORY;
    policy_avp 1014 "ToS-Traffic-Class" OctetString MANDATORY;
    policy_avp 1016 "QoS-Information" Grouped MANDATORY;
    policy_avp 1018 "Charging-Rule-Report" Grouped MANDATORY;
    policy_avp 1019 "PCC-Rule-Status" Enumerated MANDATORY;
    policy_avp 1020 "Bearer-Identifier" OctetString MANDATORY;
    policy_avp 1021 "Bearer-Operation" Enumerated MANDATORY;
    policy_avp 1022 "Access-Network-Charging-Identifier-Gx" Grouped MANDATORY;
    policy_avp 1023 "Bearer-Control-Mode" Enumerated MANDATORY;
    policy_avp 1024 "Network-Request-Support" Enumerated MANDATORY;
    policy_avp 1025 "Guaranteed-Bitrate-DL" Unsigned32 MANDATORY;
    policy_avp 1026 "Guaranteed-Bitrate-UL" Unsigned32 MANDATORY;
    policy_avp 1027 "IP-CAN-Type" Enumerated MANDATORY;
    policy_avp 1028 "QoS-Class-Identifier" Enumerated MANDATORY;
    policy_avp 1029 "QoS-Negotiation" Enumerated MANDATORY;
    policy_avp 1030 "QoS-Upgrade" Enumerated MANDATORY;
    policy_avp 1031 "Rule-Failure-Code" Enumerated MANDATORY;
    policy_avp 1032 "RAT-Type" Enumerated NOT_MANDATORY;
    policy_avp 1033 "Event-Report-Indication" Grouped NOT_MANDATORY;
    policy_avp 1034 "Allocation-Retention-Priority" Grouped NOT_MANDATORY;
    policy_avp 1035 "CoA-IP-Address" Address NOT_MANDATORY;
    policy_avp 1036 "Tunnel-Header-Filter" OctetString NOT_MANDATORY;
    policy_avp 1037 "Tunnel-Header-Length" Unsigned32 NOT_MANDATORY;
    policy_avp 1038 "Tunnel-Information" Grouped NOT_MANDATORY;
    policy_avp 1039 "CoA-Information" Grouped NOT_MANDATORY;
    policy_avp 1040 "APN-Aggregate-Max-Bitrate-DL" Unsigned32 NOT_MANDATORY;
    policy_avp 1041 "APN-Aggregate-Max-Bitrate-UL" Unsigned32 NOT_MANDATORY;
    policy_avp 1042 "Revalidation-Time" Time MANDATORY;
    policy_avp 1043 "Rule-Activation-Time" Time MANDATORY;
    policy_avp 1044 "Rule-Deactivation-Time" Time MANDATORY;
    policy_avp 1045 "Session-Release-Cause" Enumerated MANDATORY;
    policy_avp 1046 "Priority-Level" Unsigned32 NOT_MANDATORY;
    policy_avp 1047 "Pre-emption-Capability" Enumerated NOT_MANDATORY;
    policy_avp 1048 "Pre-emption-Vulnerability" Enumerated NOT_MANDATORY;
    policy_avp 1049 "Default-EPS-Bearer-QoS" Grouped NOT_MANDATORY;
    policy_avp 1050 "AN-GW-Address" Address NOT_MANDATORY;
    policy_avp 1056 "Security-Parameter-Index" OctetString NOT_MANDATORY;
    policy_avp 1057 "Flow-Label" OctetString NOT_MANDATORY;
    policy_avp 1058 "Flow-Information" Grouped NOT_MANDATORY;
    policy_avp 1059 "Packet-Filter-Content" OctetString NOT_MANDATORY;
    policy_avp 1060 "Packet-Filter-Identifier" OctetString NOT_MANDATORY;
    policy_avp 1061 "Packet-Filter-Information" Grouped NOT_MANDATORY;
    policy_avp 1062 "Packet-Filter-Operation" Enumerated NOT_MANDATORY;
    policy_avp 1063 "Resource-Allocation-Notification" Enumerated NOT_MANDATORY;
    policy_avp 1065 "PDN-Connection-ID" OctetString NOT_MANDATORY;
    policy_avp 1066 "Monitoring-Key" OctetString NOT_MANDATORY;
    policy_avp 1067 "Usage-Monitoring-Information" Grouped NOT_MANDATORY;
    policy_avp 1068 "Usage-Monitoring-Level" Enumerated NOT_MANDATORY;
    policy_avp 1069 "Usage-Monitoring-Report" Enumerated NOT_MANDATORY;
    policy_avp 1070 "Usage-Monitoring-Support" Enumerated NOT_MANDATORY;
    policy_avp 1071 "CSG-Information-Reporting" Enumerated NOT_MANDATORY;
    policy_avp 1072 "Packet-Filter-Usage" Enumerated NOT_MANDATORY;
    policy_avp 1073 "Charging-Correlation-Indicator" Enumerated NOT_MANDATORY;
    policy_avp 1075 "Routing-Rule-Remove" Grouped NOT_MANDATORY;
    policy_avp 1076 "Routing-Rule-Definition" Grouped NOT_MANDATORY;
    policy_avp 1077 "Routing-Rule-Identifier" OctetString NOT_MANDATORY;
    policy_avp 1078 "Routing-Filter" Grouped NOT_MANDATORY;
    policy_avp 1079 "Routing-IP-Address" Address NOT_MANDATORY;
    policy_avp 1080 "Flow-Direction" Enumerated NOT_MANDATORY;
    policy_avp 1081 "Routing-Rule-Install" Grouped NOT_MANDATORY;
    policy_avp 1082 "Credit-Management-Status" Unsigned32 NOT_MANDATORY;
    policy_avp 1085 "Redirect-Information" Grouped NOT_MANDATORY;
    policy_avp 1086 "Redirect-Support" Enumerated NOT_MANDATORY;
    policy_avp 1087 "TDF-Information" Grouped NOT_MANDATORY;
    policy_avp 1088 "TDF-Application-Identifier" OctetString NOT_MANDATORY;
    policy_avp 1089 "TDF-Destination-Host" DiameterIdentity NOT_MANDATORY;
    policy_avp 1090 "TDF-Destination-Realm" DiameterIdentity NOT_MANDATORY;
    policy_avp 1091 "TDF-IP-Address" Address NOT_MANDATORY;
    policy_avp 1098 "Application-Detection-Information" Grouped NOT_MANDATORY;
    policy_avp 1099 "PS-to-CS-Session-Continuity" Enumerated NOT_MANDATORY;
    policy_avp 2802 "TDF-Application-Instance-Identifier" OctetString NOT_MANDATORY;
    policy_avp 2804 "HeNB-Local-IP-Address" Address NOT_MANDATORY;
    policy_avp 2805 "UE-Local-IP-Address" Address NOT_MANDATORY;
    policy_avp 2806 "UDP-Source-Port" Unsigned32 NOT_MANDATORY;
    policy_avp 2809 "Mute-Notification" Enumerated NOT_MANDATORY;
    policy_avp 2810 "Monitoring-Time" Time NOT_MANDATORY;
    policy_avp 2811 "AN-GW-Status" Enumerated NOT_MANDATORY;
    policy_avp 2812 "User-Location-Info-Time" Time NOT_MANDATORY;
    policy_avp 2816 "Default-QoS-Information" Grouped NOT_MANDATORY;
    policy_avp 2817 "Default-QoS-Name" UTF8String NOT_MANDATORY ].

Definition POLICY_AVPS_3 : list PolicyAvp :=
  [ policy_avp 2818 "Conditional-APN-Aggregate-Max-Bitrate" Grouped NOT_MANDATORY;
    policy_avp 2819 "RAN-NAS-Release-Cause" OctetString NOT_MANDATORY;
    policy_avp 2820 "Presence-Reporting-Area-Elements-List" OctetString NOT_MANDATORY;
    policy_avp 2821 "Presence-Reporting-Area-Identifier" OctetString NOT_MANDATORY;
    policy_avp 2822 "Presence-Reporting-Area-Information" Grouped NOT_MANDATORY;
    policy_avp 2823 "Presence-Reporting-Area-Status" Unsigned32 NOT_MANDATORY;
    policy_avp 2824 "NetLoc-Access-Support" Unsigned32 NOT_MANDATORY;
    policy_avp 2825 "Fixed-User-Location-Info" Grouped NOT_MANDATORY;
    policy_avp 2826 "PCSCF-Restoration-Indication" Unsigned32 NOT_MANDATORY;
    policy_avp 2827 "IP-CAN-Session-Charging-Scope" Enumerated NOT_MANDATORY;
    policy_avp 2828 "Monitoring-Flags" Unsigned32 NOT_MANDATORY;
    policy_avp 2829 "Default-Access" Enumerated NOT_MANDATORY;
    policy_avp 2830 "NBIFOM-Mode" Enumerated NOT_MANDATORY;
    policy_avp 2831 "NBIFOM-Support" Enumerated NOT_MANDATORY;
    policy_avp 2832 "RAN-Rule-Support" Unsigned32 NOT_MANDATORY;
    policy_avp 2833 "Access-Availability-Change-Reason" Unsigned32 NOT_MANDATORY;
    policy_avp 2834 "Routing-Rule-Failure-Code" Unsigned32 NOT_MANDATORY;
    policy_avp 2835 "Routing-Rule-Report" Grouped NOT_MANDATORY;
    policy_avp 2836 "Traffic-Steering-Policy-Identifier-DL" OctetString NOT_MANDATORY;
    policy_avp 2837 "Traffic-Steering-Policy-Identifier-UL" OctetString NOT_MANDATORY;
    policy_avp 2839 "Execution-Time" Time NOT_MANDATORY;
    policy_avp 2840 "Conditional-Policy-Information" Grouped NOT_MANDATORY;
    policy_avp 2841 "Resource-Release-Notification" Enumerated NOT_MANDATORY;
    policy_avp 2842 "Removal-Of-Access" Enumerated NOT_MANDATORY;
    policy_avp 2843 "TCP-Source-Port" Unsigned32 NOT_MANDATORY;
    policy_avp 2844 "Default-Bearer-Indication" Enumerated NOT_MANDATORY;
    policy_avp 2845 "PRA-Install" Grouped NOT_MANDATORY;
    policy_avp 2846 "PRA-Remove" Grouped NOT_MANDATORY;
    policy_avp 2847 "3GPP-PS-Data-Off-Status" Enumerated NOT_MANDATORY;
    policy_avp 2848 "Extended-APN-AMBR-DL" Unsigned32 NOT_MANDATORY;
    policy_avp 2849 "Extended-APN-AMBR-UL" Unsigned32 NOT_MANDATORY;
    policy_avp 2850 "Extended-GBR-DL" Unsigned32 NOT_MANDATORY;
    policy_avp 2851 "Extended-GBR-UL" Unsigned32 NOT_MANDATORY;
    policy_avp 2854 "UE-Status" Unsigned32 NOT_MANDATORY;
    policy_avp 2855 "Presence-Reporting-Area-Node" Unsigned32 NOT_MANDATORY ].

Definition POLICY_AVPS : list PolicyAvp :=
  POLICY_AVPS_1 ++ POLICY_AVPS_2 ++ POLICY_AVPS_3.

(** Proofs go through the lemmas of [Dictionary]; evaluation still sees the tables. *)
#[global] Opaque AVP_TABLE POLICY_AVPS.
