(* ===== verification/Dictionary.v ===== *)
(** * Reading the AVP dictionary

    The functions of [diameter/dictionary.rs] over the tables of [AvpTable]: the
    binary searches by code and vendor, the linear searches by name, the M bit
    of an AVP, and the names of applications and commands.  The searches are
    correct because the tables are in order and have no doubles, which is
    checked here by evaluation. *)

From stdpp Require Import sorting.
From S2P Require Import Prelude Str AvpTable.

#[local] Open Scope N_scope.

(** ** Binary search *)

Section search.
Context {A : Type} (f : A → comparison).

Definition greater_at (l : list A) (i : nat) : bool :=
  match f <$> l !! i with Some Gt => true | _ => false end.

(** [<[T]>::binary_search_by]: the search halves [size] until one candidate is
    left. *)
Fixpoint binary_search_loop (fuel : nat) (l : list A) (size base : nat) : nat :=
  match fuel with
  | O => base
  | S fuel =>
      if (size <=? 1)%nat then base else
      let half := (size / 2)%nat in
      let mid := (base + half)%nat in
      binary_search_loop fuel l (size - half) (if greater_at l mid then base else mid)
  end.

(** The [Ok] index of the search. *)
Definition binary_search_by (l : list A) : option nat :=
  let base := binary_search_loop (length l) l (length l) 0 in
  match f <$> l !! base with Some Eq => Some base | _ => None end.

(** The order a search for a unique element needs: what comes before an element
    that is not too great is too small. *)
Definition search_order (x y : A) : Prop := f y ≠ Gt → f x = Lt.

Lemma search_order_lookup l i j x y :
  StronglySorted search_order l → l !! i = Some x → l !! j = Some y → (i < j)%nat →
  search_order x y.
Proof.
  intros Hs. revert i j. induction Hs as [|z l Hs IH Hz]; intros i j Hi Hj Hij; [done|].
  destruct j as [|j]; [lia|]. cbn in Hj. destruct i as [|i]; cbn in Hi.
  - simplify_eq. apply list_elem_of_lookup_2 in Hj. by eapply Forall_forall in Hz.
  - eapply IH; [done..|lia].
Qed.

Lemma binary_search_loop_finds n l size base i x :
  StronglySorted search_order l → (size ≤ n)%nat → (base + size ≤ length l)%nat →
  l !! i = Some x → f x = Eq → (base ≤ i < base + size)%nat →
  binary_search_loop n l size base = i.
Proof.
  intros Hs. revert size base. induction n as [|n IH]; intros size base Hn Hl Hi Hx Hb; [lia|].
  cbn [binary_search_loop]. destruct (Nat.leb_spec size 1) as [H1|H1]; [lia|].
  assert (Hhalf : (0 < size / 2 ∧ 2 * (size / 2) ≤ size)%nat).
  { split; [apply Nat.div_str_pos; lia|by apply Nat.Div0.mul_div_le]. }
  set (half := (size / 2)%nat) in *. clearbody half.
  destruct (lookup_lt_is_Some_2 l (base + half)) as [y Hy]; [lia|].
  unfold greater_at. rewrite Hy. cbn [fmap option_fmap option_map].
  assert (Hlt : (i < base + half)%nat ↔ f y = Gt).
  { split; intros H.
    - destruct (f y) eqn:Hfy; [..|done].
      all: by rewrite (search_order_lookup _ _ _ _ _ Hs Hi Hy H) in Hx by by rewrite Hfy.
    - destruct (Nat.lt_trichotomy i (base + half)) as [?|[->|Hgt]]; [done| |]; exfalso.
      + congruence.
      + rewrite (search_order_lookup _ _ _ _ _ Hs Hy Hi Hgt) in H by by rewrite Hx. done. }
  destruct (f y) eqn:Hfy; (apply IH; [lia..|done|done|]).
  1,2: assert (¬ (i < base + half)%nat) by (by rewrite Hlt); lia.
  assert (i < base + half)%nat by (by apply Hlt). lia.
Qed.

Lemma binary_search_by_spec l i :
  StronglySorted search_order l →
  binary_search_by l = Some i ↔ ∃ x, l !! i = Some x ∧ f x = Eq.
Proof.
  intros Hs. unfold binary_search_by. split.
  - intros H. destruct (l !! _) as [x|] eqn:Hl; [|done]. cbn in H.
    destruct (f x) eqn:Hx; simplify_eq. by exists x.
  - intros (x & Hi & Hx). pose proof (lookup_lt_Some _ _ _ Hi).
    rewrite (binary_search_loop_finds (length l) l (length l) 0 i x) by (done || lia).
    rewrite Hi. cbn. by rewrite Hx.
Qed.
End search.

(** ** Definitions by code and by name *)

Definition then_cmp (c d : comparison) : comparison := match c with Eq => d | _ => c end.

(** [policy::lookup]. *)
Definition policy_lookup (code : N) : option PolicyAvp :=
  index ← binary_search_by (λ entry, def_code (definition entry) ?= code) POLICY_AVPS;
  POLICY_AVPS !! index.

Definition by_vendor_and_code (code vendor_id : N) (entry : AvpDef) : comparison :=
  then_cmp (def_vendor_id entry ?= vendor_id) (def_code entry ?= code).

Definition lookup_avp (code vendor_id : N) : option AvpDef :=
  match (if vendor_id =? VENDOR_3GPP then policy_lookup code else None) with
  | Some entry => Some (definition entry)
  | None =>
      idx ← binary_search_by (by_vendor_and_code code vendor_id) AVP_TABLE;
      AVP_TABLE !! idx
  end.

Definition all_definitions : list AvpDef := AVP_TABLE ++ (definition <$> POLICY_AVPS).

(** [Iterator::find]. *)
Definition find_first {A} (p : A → bool) (l : list A) : option A := snd <$> list_find p l.

Definition lookup_by_name (name : string) : option AvpDef :=
  find_first (λ entry, bool_decide (def_name entry = name)) all_definitions.

(** An underscore of the keyword stands for a hyphen, and case does not count. *)
Definition fold_byte (a : byte) : byte := if is_byte "_" a then "-"%char else a.
Definition same_byte (l r : byte) : bool :=
  is_byte (byte_lower (fold_byte l)) (byte_lower (fold_byte r)).

(** Equal lengths and [same_byte] at every position. *)
Fixpoint same_name (l r : string) : bool :=
  match l, r with
  | "", "" => true
  | String a l, String b r => same_byte a b && same_name l r
  | _, _ => false
  end.

Definition lookup_avp_by_python_name (name : string) : option AvpDef :=
  find_first (λ entry, same_name (def_name entry) name) all_definitions.

Definition avp_name (code : N) : option string :=
  def_name <$> match lookup_avp code 0 with Some d => Some d | None => lookup_avp code VENDOR_3GPP end.

(** ** The M bit *)

Definition within (lo hi n : N) : bool := (lo <=? n) && (n <=? hi).

(** The 3GPP AVPs that go without it: GUSS-Timestamp, Feature-List-Id and
    Feature-List, those of IMS restoration. *)
Definition not_mandatory_3gpp (code : N) : bool :=
  bool_decide (code ∈ [409; 629; 630; 654; 655; 660; 661]) || within 639 649 code || within 664 666 code.

(** Firmware-Revision, Product-Name, Error-Message, Error-Reporting-Host. *)
Definition not_mandatory_base (code : N) : bool := bool_decide (code ∈ [267; 269; 281; 294]).

Definition avp_is_mandatory (code vendor_id : N) : bool :=
  match (if vendor_id =? VENDOR_3GPP then policy_lookup code else None) with
  | Some entry => mandatory entry
  | None =>
      if vendor_id =? VENDOR_3GPP then negb (not_mandatory_3gpp code)
      else if vendor_id =? 0 then negb (not_mandatory_base code)
      else true
  end.

(** ** Applications and commands *)

Abbreviation CX_APP_ID := 16777216%N (only parsing).
Abbreviation RF_APP_ID := 3%N (only parsing).

Definition applications : list (string * (N * N)) :=
  [("Cx", (VENDOR_3GPP, CX_APP_ID)); ("Sh", (VENDOR_3GPP, 16777217));
   ("Gx", (VENDOR_3GPP, 16777238)); ("Rx", (VENDOR_3GPP, 16777236));
   ("Ro", (0, 4)); ("Rf", (0, RF_APP_ID));
   ("S6c", (VENDOR_3GPP, 16777312)); ("SGd", (VENDOR_3GPP, 16777313));
   ("S6a", (VENDOR_3GPP, 16777251)); ("S13", (VENDOR_3GPP, 16777252));
   ("Zh", (VENDOR_3GPP, 16777221)); ("Zn", (VENDOR_3GPP, 16777220))].

Definition app_id_by_name (name : string) : option (N * N) :=
  snd <$> find_first (λ a, bool_decide (to_ascii_lowercase a.1 = to_ascii_lowercase name)) applications.

Definition app_name_by_id (app_id : N) : option string :=
  fst <$> find_first (λ a, a.2.2 =? app_id) applications.

Abbreviation CMD_CREDIT_CONTROL := 272%N (only parsing).

(** The arms of [command_code_by_name], with the names an arm accepts. *)
Definition command_codes : list (list string * N) :=
  [(["user-authorization"; "uar"; "uaa"], 300); (["server-assignment"; "sar"; "saa"], 301);
   (["location-info"; "lir"; "lia"], 302); (["multimedia-auth"; "mar"; "maa"], 303);
   (["registration-termination"; "rtr"; "rta"], 304); (["push-profile"; "ppr"; "ppa"], 305);
   (["user-data"; "udr"; "uda"], 306); (["profile-update"; "pur"; "pua"], 307);
   (["subscribe-notifications"; "snr"; "sna"], 308); (["push-notification"; "pnr"; "pna"], 309);
   (["credit-control"; "ccr"; "cca"], CMD_CREDIT_CONTROL); (["re-auth"; "rar"; "raa"], 258);
   (["abort-session"; "asr"; "asa"], 274); (["aa"; "aar"; "aaa"], 265);
   (["session-termination"; "str"; "sta"], 275); (["accounting"; "acr"; "aca"], 271);
   (["send-routing-info-for-sm"; "srr"; "sra"], 8388647);
   (["alert-service-centre"; "alert-sc"; "alr"; "ala"], 8388648);
   (["report-sm-delivery-status"; "rsr"; "rsa"], 8388649);
   (["mo-forward-short-message"; "ofr"; "ofa"], 8388645);
   (["mt-forward-short-message"; "tfr"; "tfa"], 8388646);
   (["update-location"; "ulr"; "ula"], 316); (["cancel-location"; "clr"; "cla"], 317);
   (["authentication-information"; "air"; "aia"], 318);
   (["insert-subscriber-data"; "idr"; "ida"], 319); (["delete-subscriber-data"; "dsr"; "dsa"], 320);
   (["purge-ue"; "pua-s6a"], 321); (["notify"; "nor"; "noa"], 323);
   (["me-identity-check"; "ecr"; "eca"], 324); (["bootstrapping-info"; "bir"; "bia"], 310);
   (["capabilities-exchange"; "cer"; "cea"], 257); (["device-watchdog"; "dwr"; "dwa"], 280);
   (["disconnect-peer"; "dpr"; "dpa"], 282)].

Definition command_code_by_name (name : string) : option N :=
  let lower := to_ascii_lowercase name in
  let stripped :=
    match strip_suffix "-request" lower with
    | Some s => s
    | None => default lower (strip_suffix "-answer" lower)
    end in
  snd <$> find_first (λ c, bool_decide (stripped ∈ c.1)) command_codes.

Definition command_names : list (N * string) :=
  [(300, "User-Authorization"); (301, "Server-Assignment"); (302, "Location-Info");
   (303, "Multimedia-Auth"); (304, "Registration-Termination"); (305, "Push-Profile");
   (306, "User-Data"); (307, "Profile-Update"); (308, "Subscribe-Notifications");
   (309, "Push-Notification"); (CMD_CREDIT_CONTROL, "Credit-Control"); (258, "Re-Auth");
   (274, "Abort-Session"); (265, "AA"); (275, "Session-Termination"); (271, "Accounting");
   (8388647, "Send-Routing-Info-for-SM"); (8388648, "Alert-Service-Centre");
   (8388649, "Report-SM-Delivery-Status"); (8388645, "MO-Forward-Short-Message");
   (8388646, "MT-Forward-Short-Message"); (310, "Bootstrapping-Info");
   (324, "ME-Identity-Check"); (257, "Capabilities-Exchange"); (280, "Device-Watchdog");
   (282, "Disconnect-Peer")].

Definition command_name_by_code (code : N) : option string :=
  snd <$> find_first (λ c, c.1 =? code) command_names.

(** ** Result codes as metric labels *)

Definition KNOWN_RESULT_CODES : list (N * string) :=
  [(1001, "1001"); (2001, "2001"); (2002, "2002"); (3001, "3001"); (3002, "3002"); (3003, "3003");
   (3004, "3004"); (3005, "3005"); (3007, "3007"); (3010, "3010"); (4001, "4001"); (4002, "4002");
   (4010, "4010"); (4011, "4011"); (4012, "4012"); (4181, "4181"); (4201, "4201"); (5001, "5001");
   (5002, "5002"); (5003, "5003"); (5004, "5004"); (5005, "5005"); (5009, "5009"); (5011, "5011");
   (5012, "5012"); (5014, "5014"); (5030, "5030"); (5031, "5031")].

Definition KNOWN_EXPERIMENTAL_RESULT_CODES : list (N * string) :=
  [(2001, "exp:2001"); (2002, "exp:2002"); (2003, "exp:2003"); (2004, "exp:2004");
   (5001, "exp:5001"); (5002, "exp:5002"); (5003, "exp:5003"); (5004, "exp:5004");
   (5005, "exp:5005"); (5006, "exp:5006"); (5007, "exp:5007"); (5008, "exp:5008");
   (5061, "exp:5061"); (5063, "exp:5063"); (5401, "exp:5401"); (5402, "exp:5402");
   (5403, "exp:5403"); (5422, "exp:5422")].

(** The label of the class, behind a prefix for the experimental codes. *)
Definition class_label (prefix : string) (code : N) : string :=
  prefix +:+ (match code / 1000 with
              | 1 => "1xxx_other" | 2 => "2xxx_other" | 3 => "3xxx_other"
              | 4 => "4xxx_other" | 5 => "5xxx_other" | _ => "other"
              end)%N.

Definition result_code_class (code : N) : string := class_label "" code.

Definition result_code_label (code : N) (experimental : bool) : string :=
  let table := if experimental then KNOWN_EXPERIMENTAL_RESULT_CODES else KNOWN_RESULT_CODES in
  match find_first (λ e, e.1 =? code) table with
  | Some (_, label) => label
  | None => if experimental then class_label "exp:" code else result_code_class code
  end.

Definition answer_result_label (base experimental : option N) : string :=
  match base, experimental with
  | Some code, _ => result_code_label code false
  | None, Some code => result_code_label code true
  | None, None => "none"
  end.

(** ** The searches are exact *)

Lemma find_first_unique {A K} (key : A → K) (p : A → bool) (k : K) (l : list A) (d : A) :
  NoDup (key <$> l) → (∀ x, p x = true ↔ key x = k) →
  find_first p l = Some d ↔ d ∈ l ∧ key d = k.
Proof.
  intros Hnd Hp. unfold find_first. rewrite fmap_Some. split.
  - intros ([i x] & Hf & ->). apply list_find_Some in Hf as (Hi & Hx & _).
    apply list_elem_of_lookup_2 in Hi. split; [done|]. by apply Hp, Is_true_true.
  - intros [Hd Hk]. apply list_elem_of_lookup in Hd as [i Hi].
    exists (i, d). split; [|done]. apply list_find_Some. split_and!; [done|by apply Is_true_true, Hp|].
    intros j y Hj Hlt Hy. apply Is_true_true, Hp in Hy.
    assert (i = j); [|lia]. apply (NoDup_lookup (key <$> l) i j k); [done|..].
    all: rewrite list_lookup_fmap, ?Hi, ?Hj; cbn; by f_equal.
Qed.

(** The tables are in order: each entry is below the next. *)
Definition def_below (d e : AvpDef) : bool :=
  (def_vendor_id d <? def_vendor_id e) ||
  ((def_vendor_id d =? def_vendor_id e) && (def_code d <? def_code e)).

Fixpoint ascending {A} (below : A → A → bool) (l : list A) : bool :=
  match l with
  | x :: ((y :: _) as t) => below x y && ascending below t
  | _ => true
  end.

Lemma ascending_sorted {A} (below : A → A → bool) (R : A → A → Prop) l :
  (∀ x y z, below x y = true → below y z = true → below x z = true) →
  (∀ x y, below x y = true → R x y) → ascending below l = true → StronglySorted R l.
Proof.
  intros Htr HR Hl.
  assert (StronglySorted (λ x y, below x y = true) l) as Hs.
  { apply Sorted_StronglySorted; [intros x y z; apply Htr|].
    induction l as [|x [|y l] IH]; [by constructor|by repeat constructor|].
    apply andb_prop in Hl as [? ?]. constructor; [by apply IH|by constructor]. }
  clear Hl. induction Hs; constructor; [done|]. eapply Forall_impl; eauto.
Qed.

Lemma def_below_spec d e :
  def_below d e = true ↔
  def_vendor_id d < def_vendor_id e ∨ def_vendor_id d = def_vendor_id e ∧ def_code d < def_code e.
Proof. unfold def_below. rewrite orb_true_iff, andb_true_iff, !N.ltb_lt, N.eqb_eq. done. Qed.

Lemma main_table_sorted c v : StronglySorted (search_order (by_vendor_and_code c v)) AVP_TABLE.
Proof.
  apply (ascending_sorted def_below).
  - intros x y z. rewrite !def_below_spec. lia.
  - intros x y. rewrite def_below_spec. unfold search_order, by_vendor_and_code, then_cmp.
    repeat case_match; rewrite ?N.compare_eq_iff, ?N.compare_lt_iff, ?N.compare_gt_iff in *;
      done || lia.
  - vm_compute. reflexivity.
Qed.

Lemma policy_table_sorted c :
  StronglySorted (search_order (λ e, def_code (definition e) ?= c)) POLICY_AVPS.
Proof.
  apply (ascending_sorted (λ x y, def_below (definition x) (definition y)
    && (def_vendor_id (definition x) =? VENDOR_3GPP) && (def_vendor_id (definition y) =? VENDOR_3GPP))).
  - intros x y z. rewrite !andb_true_iff, !def_below_spec, !N.eqb_eq. lia.
  - intros x y. rewrite !andb_true_iff, def_below_spec, !N.eqb_eq. unfold search_order.
    destruct (N.compare_spec (def_code (definition x)) c), (N.compare_spec (def_code (definition y)) c);
      done || lia.
  - vm_compute. reflexivity.
Qed.

(** A search of a sorted table gives the entries that compare equal. *)
Lemma search_table {A} (f : A → comparison) (l : list A) (d : A) :
  StronglySorted (search_order f) l →
  (i ← binary_search_by f l; l !! i) = Some d ↔ d ∈ l ∧ f d = Eq.
Proof.
  intros Hs. rewrite bind_Some. split.
  - intros (i & Hb & Hi). apply binary_search_by_spec in Hb as (x & Hx & Hf); [|done].
    rewrite Hx in Hi. injection Hi as <-. split; [|done]. by apply list_elem_of_lookup_2 in Hx.
  - intros [Hd Hf]. apply list_elem_of_lookup in Hd as [i Hi]. exists i. split; [|done].
    apply binary_search_by_spec; [done|]. by exists d.
Qed.

Lemma policy_lookup_spec c e :
  policy_lookup c = Some e ↔ e ∈ POLICY_AVPS ∧ def_code (definition e) = c.
Proof.
  unfold policy_lookup. rewrite search_table by apply policy_table_sorted.
  by rewrite N.compare_eq_iff.
Qed.

Lemma policy_vendor e : e ∈ POLICY_AVPS → def_vendor_id (definition e) = VENDOR_3GPP.
Proof.
  assert (H : forallb (λ e, def_vendor_id (definition e) =? VENDOR_3GPP) POLICY_AVPS = true).
  { vm_compute. reflexivity. }
  intros He. apply N.eqb_eq. exact (forallb_elem _ _ _ H He).
Qed.

(** No AVP is in both tables. *)
Lemma tables_disjoint d :
  d ∈ AVP_TABLE → def_vendor_id d = VENDOR_3GPP → policy_lookup (def_code d) = None.
Proof.
  assert (H : forallb (λ d, negb (def_vendor_id d =? VENDOR_3GPP) ||
    match policy_lookup (def_code d) with None => true | _ => false end) AVP_TABLE = true).
  { vm_compute. reflexivity. }
  intros Hd Hv. pose proof (forallb_elem _ _ _ H Hd) as Hb. cbn in Hb.
  rewrite Hv in Hb. by destruct (policy_lookup _).
Qed.

Lemma lookup_avp_spec c v d :
  lookup_avp c v = Some d ↔ d ∈ all_definitions ∧ def_code d = c ∧ def_vendor_id d = v.
Proof.
  unfold lookup_avp, all_definitions. rewrite elem_of_app, list_elem_of_fmap.
  assert (Hmain : (i ← binary_search_by (by_vendor_and_code c v) AVP_TABLE; AVP_TABLE !! i) = Some d
    ↔ d ∈ AVP_TABLE ∧ def_code d = c ∧ def_vendor_id d = v).
  { rewrite search_table by apply main_table_sorted. unfold by_vendor_and_code, then_cmp.
    destruct (N.compare_spec (def_vendor_id d) v) as [->|?|?]; rewrite ?N.compare_eq_iff;
      [naive_solver|split; [by intros [_ ?]|lia]..]. }
  assert (Hpol : ∀ e, e ∈ POLICY_AVPS → def_code (definition e) = c → policy_lookup c = Some e).
  { intros e He Hc. exact (proj2 (policy_lookup_spec c e) (conj He Hc)). }
  destruct (N.eqb_spec v VENDOR_3GPP) as [->|Hv].
  - destruct (policy_lookup c) as [e|] eqn:He.
    + pose proof (proj1 (policy_lookup_spec c e) He) as [Hin Hc]. split.
      * intros [= <-]. exact (conj (or_intror (ex_intro _ e (conj eq_refl Hin))) (conj Hc (policy_vendor e Hin))).
      * intros ([Hd|(e' & -> & He')] & Hc' & Hv').
        { pose proof (tables_disjoint d Hd Hv') as Hn. rewrite Hc' in Hn. congruence. }
        pose proof (Hpol e' He' Hc'). congruence.
    + rewrite Hmain. split; [intros [? ?]; split; [by left|done]|].
      intros ([Hd|(e' & -> & He')] & Hc'); [exact (conj Hd Hc')|].
      pose proof (Hpol e' He' (proj1 Hc')). congruence.
  - rewrite Hmain. split; [intros [? ?]; split; [by left|done]|].
    intros ([Hd|(e' & -> & He')] & Hc' & Hv'); [exact (conj Hd (conj Hc' Hv'))|].
    pose proof (policy_vendor e' He'). congruence.
Qed.

(** The keyword form of a name: hyphens, lower case. *)
Definition keyword (s : string) : string := str_map (λ a, byte_lower (fold_byte a)) s.

Lemma same_name_keyword l r : same_name l r = true ↔ keyword l = keyword r.
Proof.
  revert r. induction l as [|a l IH]; intros [|b r]; [done..|].
  cbn [same_name]. unfold keyword in *. cbn [str_map].
  rewrite andb_true_iff, IH. unfold same_byte, is_byte. rewrite bool_decide_eq_true.
  split; [by intros [-> ->]|by intros [= -> ->]].
Qed.

Lemma keywords_distinct : NoDup (keyword ∘ def_name <$> all_definitions).
Proof. apply (bool_decide_unpack _). vm_compute. reflexivity. Qed.

Lemma names_distinct : NoDup (def_name <$> all_definitions).
Proof. apply (NoDup_fmap_1 keyword). rewrite <- list_fmap_compose. apply keywords_distinct. Qed.

Lemma lookup_by_name_spec n d : lookup_by_name n = Some d ↔ d ∈ all_definitions ∧ def_name d = n.
Proof.
  apply find_first_unique; [exact names_distinct|]. intros x. apply bool_decide_eq_true.
Qed.

(** The dictionary finds exactly its definitions.  The binary search by code and
    vendor over the two tables, the search by name and the search by the keyword
    of a script, in which case does not count and an underscore stands for a
    hyphen, each return a definition if and only if it is in the tables and has
    that code and vendor, that name, or that keyword. *)
Theorem dictionary_exact :
  (∀ c v d, lookup_avp c v = Some d ↔ d ∈ all_definitions ∧ def_code d = c ∧ def_vendor_id d = v) ∧
  (∀ n d, lookup_by_name n = Some d ↔ d ∈ all_definitions ∧ def_name d = n) ∧
  (∀ n d, lookup_avp_by_python_name n = Some d ↔ d ∈ all_definitions ∧ keyword (def_name d) = keyword n).
Proof.
  split_and!; [exact lookup_avp_spec|exact lookup_by_name_spec|]. intros n d.
  apply (find_first_unique (keyword ∘ def_name)); [exact keywords_distinct|].
  intros x. apply same_name_keyword.
Qed.

(** The names of applications and commands lead back to their numbers. *)
Lemma find_first_elem {A} (p : A → bool) l x : find_first p l = Some x → x ∈ l ∧ p x = true.
Proof.
  unfold find_first. intros ([i y] & Hf & ->)%fmap_Some. apply list_find_Some in Hf as (Hi & Hp & _).
  split; [by apply list_elem_of_lookup_2 in Hi|by apply Is_true_true].
Qed.

Lemma app_name_id i n : app_name_by_id i = Some n → ∃ v, app_id_by_name n = Some (v, i).
Proof.
  assert (H : forallb (λ a, bool_decide (app_id_by_name a.1 = Some a.2)) applications = true)
    by (vm_compute; reflexivity).
  unfold app_name_by_id. intros ([m [v j]] & [Hin Hj]%find_first_elem & ->)%fmap_Some.
  apply N.eqb_eq in Hj. exists v. rewrite <- Hj.
  exact (proj1 (bool_decide_eq_true _) (forallb_elem _ _ _ H Hin)).
Qed.

Lemma command_name_code c n : command_name_by_code c = Some n → command_code_by_name n = Some c.
Proof.
  assert (H : forallb (λ e, bool_decide (command_code_by_name e.2 = Some e.1)) command_names = true)
    by (vm_compute; reflexivity).
  unfold command_name_by_code. intros ([c' m] & [Hin Hj]%find_first_elem & ->)%fmap_Some.
  apply N.eqb_eq in Hj. rewrite <- Hj.
  exact (proj1 (bool_decide_eq_true _) (forallb_elem _ _ _ H Hin)).
Qed.

(** The name of a definition leads to it, and no name is one that is made up for
    an unknown AVP. *)
Lemma lookup_avp_name c v d : lookup_avp c v = Some d → lookup_by_name (def_name d) = Some d.
Proof. intros [Hd _]%lookup_avp_spec. by apply lookup_by_name_spec. Qed.

Lemma made_up_name s : starts_with "AVP-" s = true → lookup_by_name s = None.
Proof.
  assert (H : forallb (λ d, negb (starts_with "AVP-" (def_name d))) all_definitions = true)
    by (vm_compute; reflexivity).
  intros Hs. destruct (lookup_by_name s) as [d|] eqn:Hd; [|done].
  apply lookup_by_name_spec in Hd as [Hd <-]. pose proof (forallb_elem _ _ _ H Hd) as Hn.
  cbv beta in Hn. by rewrite Hs in Hn.
Qed.
