(* ===== verification/Diameter.v ===== *)
(** * The Diameter codec ([diameter/codec.rs])

    A Diameter message is a header of twenty bytes and a sequence of AVPs, each
    with a header of its own and padded to four bytes.  The source has two
    decoders: a lossy one, which gives scripts a JSON object keyed by the names
    of the dictionary, and a lossless one, which keeps every AVP as it was so
    that a relay can write the message out again.  This file has both, the
    encoders, and the hexadecimal and TBCD texts.

    A loop over positions of a byte slice is a recursion over what is left of
    it.  Its fuel is one turn per byte and one more; a turn consumes at least
    the eight bytes of an AVP header. *)

From S2P Require Import Prelude Str Bytes Transport AvpTable Dictionary.

#[local] Open Scope N_scope.

(** ** Numbers *)

(** The bits of an [i32]. *)
Definition i32_of_bits (n : N) : Z := if n <? 2 ^ 31 then Z.of_N n else (Z.of_N n - 2 ^ 32)%Z.

(** [(n + 3) & !3]. *)
Definition padded (n : N) : N := N.ldiff (n + 3) 3.

Fixpoint zeros (n : nat) : bytes := match n with O => "" | S n => String "000" (zeros n) end.

(** Zero bytes until [n] are there. *)
Definition pad_to (n : N) (s : bytes) : bytes := s +:+ zeros (N.to_nat (n - blen s)).

(** ** Flags *)

Abbreviation FLAG_REQUEST := 128%N (only parsing).
Abbreviation FLAG_PROXIABLE := 64%N (only parsing).
Abbreviation FLAG_ERROR := 32%N (only parsing).
Abbreviation AVP_FLAG_VENDOR := 128%N (only parsing).
Abbreviation AVP_FLAG_MANDATORY := 64%N (only parsing).

(** [flags & bit != 0]. *)
Definition has_flag (bit flags : N) : bool := negb (N.land flags bit =? 0).

(** ** TBCD numbers *)

Abbreviation TON_NPI_INTERNATIONAL_E164 := 145%N (only parsing).

(** The digits of a text, anything else left out. *)
Fixpoint digit_values (s : string) : list N :=
  match s with
  | "" => []
  | String b s => if is_ascii_digit b then (code b - 48) :: digit_values s else digit_values s
  end.

(** Two digits per byte, the first in the low half; a filler after an odd one. *)
Fixpoint tbcd_pack (digits : list N) : bytes :=
  match digits with
  | [] => ""
  | [lo] => String (ascii_of_N (N.lor (N.shiftl 15 4) lo)) ""
  | lo :: hi :: digits => String (ascii_of_N (N.lor (N.shiftl hi 4) lo)) (tbcd_pack digits)
  end.

Definition encode_tbcd_digits (digits : string) : bytes := tbcd_pack (digit_values digits).

Definition tbcd_digit (n : N) : string :=
  if n <=? 9 then String (ascii_of_N (48 + n)) "" else "".

Fixpoint decode_tbcd_digits (data : bytes) : string :=
  match data with
  | "" => ""
  | String b s =>
      tbcd_digit (N.land (code b) 15) +:+ tbcd_digit (N.land (N.shiftr (code b) 4) 15) +:+
      decode_tbcd_digits s
  end.

Definition encode_isdn_address_string (digits : string) (ton_npi : N) : bytes :=
  String (ascii_of_N ton_npi) (encode_tbcd_digits digits).

Definition decode_isdn_address_string (data : bytes) : string :=
  match data with
  | String first s =>
      if has_flag 128 (code first) then decode_tbcd_digits s else decode_tbcd_digits data
  | "" => decode_tbcd_digits data
  end.

(** ** JSON values ([serde_json::Value]) *)

#[local] Unset Elimination Schemes.

Inductive Value :=
  | VNull
  | VBool (b : bool)
  | VNumber (n : Z)
  | VString (s : string)
  | VArray (l : list Value)
  | VObject (m : list (string * Value)).

#[local] Set Elimination Schemes.

(** [serde_json::Map] is an ordered map: an association list in the order of the
    keys. *)
Fixpoint map_get (k : string) (m : list (string * Value)) : option Value :=
  match m with
  | [] => None
  | (k', v) :: m => if bool_decide (k = k') then Some v else map_get k m
  end.

Fixpoint map_insert (k : string) (v : Value) (m : list (string * Value)) : list (string * Value) :=
  match m with
  | [] => [(k, v)]
  | (k', v') :: t =>
      match String.compare k k' with
      | Lt => (k, v) :: m
      | Eq => (k, v) :: t
      | Gt => (k', v') :: map_insert k v t
      end
  end.

Definition value_get (k : string) (v : Value) : option Value :=
  match v with VObject m => map_get k m | _ => None end.
Definition value_as_str (v : Value) : option string :=
  match v with VString s => Some s | _ => None end.
Definition value_as_u64 (v : Value) : option N :=
  match v with VNumber n => if (0 <=? n)%Z then Some (Z.to_N n) else None | _ => None end.

(** ** Decoding to JSON *)

(** [Ipv6Addr]'s text: the first longest run of zero groups, if longer than one,
    is left out; an IPv4-mapped address ends in the IPv4 form. *)
Definition hex_group (n : N) : string :=
  let digit i := hex_char (N.land (N.shiftr n (4 * i)) 15) in
  if n <? 16 then String (digit 0) ""
  else if n <? 256 then String (digit 1) (String (digit 0) "")
  else if n <? 4096 then String (digit 2) (String (digit 1) (String (digit 0) ""))
  else String (digit 3) (String (digit 2) (String (digit 1) (String (digit 0) ""))).

(** The start and length of the first longest run of zeros; [cur] is the run
    that ends before index [i]. *)
Fixpoint zero_run (i : nat) (cur best : nat * nat) (segments : list N) : nat * nat :=
  match segments with
  | [] => best
  | s :: segments =>
      if s =? 0 then
        let cur := (if (cur.2 =? 0)%nat then i else cur.1, S cur.2) in
        zero_run (S i) cur (if (best.2 <? cur.2)%nat then cur else best) segments
      else zero_run (S i) (0, 0)%nat best segments
  end.

Definition show_ipv4 (octets : bytes) : string :=
  join "." ((λ a, dec (code a)) <$> String.list_ascii_of_string octets).

Definition show_ipv6 (octets : bytes) : string :=
  let segments := (λ i, from_be (sub (2 * i) 2 octets)) <$> seq 0 8 in
  if bool_decide (take 6 segments = [0; 0; 0; 0; 0; 65535]) then "::ffff:" +:+ show_ipv4 (sub 12 4 octets)
  else
    let '(start, len) := zero_run 0 (0, 0)%nat (0, 0)%nat segments in
    let show l := join ":" (hex_group <$> l) in
    if (1 <? len)%nat then show (take start segments) +:+ "::" +:+ show (drop (start + len) segments)
    else show segments.

Definition decode_address (data : bytes) : Value :=
  if blen data <? 2 then VString (hex_encode data) else
  let family := from_be (sub 0 2 data) in
  if (family =? 1) && (6 <=? blen data) then VString (show_ipv4 (sub 2 4 data))
  else if (family =? 2) && (18 <=? blen data) then VString (show_ipv6 (sub 2 16 data))
  else VString (hex_encode data).

Abbreviation NTP_UNIX_EPOCH_OFFSET := 2208988800%N (only parsing).

(** [group] decodes the value of a grouped AVP. *)
Definition decode_avp_value (group : bytes → Value) (avp_type : AvpType) (data : bytes) : Value :=
  let number n v := if n <=? blen data then VNumber v else VString (hex_encode data) in
  let u32 := from_be (sub 0 4 data) in
  match avp_type with
  | UTF8String | DiameterIdentity => VString (from_utf8_lossy data)
  | Unsigned32 | Enumerated => number 4 (Z.of_N u32)
  | Integer32 => number 4 (i32_of_bits u32)
  | Unsigned64 => number 8 (Z.of_N (from_be (sub 0 8 data)))
  | OctetString => VString (hex_encode data)
  | TbcdString => VString (decode_tbcd_digits data)
  | Address => decode_address data
  | Time => number 4 (Z.of_N ((u32 + 2 ^ 32 - NTP_UNIX_EPOCH_OFFSET) mod 2 ^ 32))
  | Grouped => group data
  end.

(** The name of an AVP the dictionary does not have. *)
Definition fallback_name (code vendor : N) : string :=
  if vendor =? 0 then "AVP-" +:+ dec code else "AVP-" +:+ dec code +:+ "-v" +:+ dec vendor.

(** A second AVP of a name makes the value an array. *)
Definition map_add (name : string) (decoded : Value) (m : list (string * Value)) : list (string * Value) :=
  match map_get name m with
  | Some (VArray a) => map_insert name (VArray (a ++ [decoded])) m
  | Some other => map_insert name (VArray [other; decoded]) m
  | None => map_insert name decoded m
  end.

(** The name an AVP has in the object, and its value there. *)
Definition name_and_value (group : bytes → Value) (avp_code vendor_id : N) (data : bytes) : string * Value :=
  match lookup_avp avp_code vendor_id with
  | Some def => (def_name def, decode_avp_value group (def_data_type def) data)
  | None => (fallback_name avp_code vendor_id, VString (hex_encode data))
  end.

Fixpoint decode_avps_loop (fuel : nat) (map : list (string * Value)) (data : bytes) : Value :=
  match fuel with
  | O => VObject map
  | S fuel =>
      if blen data <? 8 then VObject map else
      let avp_code := from_be (sub 0 4 data) in
      let avp_flags := from_be (sub 4 1 data) in
      let avp_len := from_be (sub 5 3 data) in
      if (avp_len <? 8) || (blen data <? avp_len) then VObject map else
      let has_vendor := has_flag AVP_FLAG_VENDOR avp_flags in
      let hdr_size := if has_vendor then 12 else 8 in
      if avp_len <? hdr_size then VObject map else
      let vendor_id := if has_vendor && (12 <=? blen data) then from_be (sub 8 4 data) else 0 in
      let value_data :=
        if (hdr_size <=? avp_len) && (avp_len <=? blen data)
        then sub (N.to_nat hdr_size) (N.to_nat (avp_len - hdr_size)) data else "" in
      let '(name, decoded) := name_and_value (decode_avps_loop fuel []) avp_code vendor_id value_data in
      decode_avps_loop fuel (map_add name decoded map) (str_drop (N.to_nat (padded avp_len)) data)
  end.

Definition decode_avps (data : bytes) : Value := decode_avps_loop (S (String.length data)) [] data.

Record DiameterMessage := mkDiameterMessage {
  dm_version : N;
  dm_length : N;
  dm_flags : N;
  dm_command_code : N;
  dm_application_id : N;
  dm_hop_by_hop : N;
  dm_end_to_end : N;
  dm_is_request : bool;
  dm_avps : Value;
  dm_raw : bytes;
}.

Definition decode_diameter (msg : bytes) : option DiameterMessage :=
  if blen msg <? 20 then None else
  let flags := from_be (sub 4 1 msg) in
  Some (mkDiameterMessage (from_be (sub 0 1 msg)) (from_be (sub 1 3 msg)) flags
    (from_be (sub 5 3 msg)) (from_be (sub 8 4 msg)) (from_be (sub 12 4 msg))
    (from_be (sub 16 4 msg)) (has_flag FLAG_REQUEST flags) (decode_avps (str_drop 20 msg)) msg).

(** ** Framing *)

Inductive ReadError := UnexpectedEof | InvalidVersion (v : N) | InvalidLength (n : N).

(** [read_diameter_message] on what the connection will deliver: the message and
    what follows it. *)
Definition read_diameter_message (stream : bytes) : result ReadError (bytes * bytes) :=
  if blen stream <? 4 then Err UnexpectedEof else
  let version := from_be (sub 0 1 stream) in
  if negb (version =? 1) then Err (InvalidVersion version) else
  let msg_len := from_be (sub 1 3 stream) in
  if negb (within 20 1048576 msg_len) then Err (InvalidLength msg_len) else
  if blen stream <? msg_len then Err UnexpectedEof else
  Ok (sub 0 (N.to_nat msg_len) stream, str_drop (N.to_nat msg_len) stream).

(** ** Encoding single AVPs

    The typed helpers of the source that are left out differ from these only in
    the vendor and in the width of the number. *)

(** Lengths are written in 24 bits. *)
Definition encode_avp (code flags : N) (data : bytes) : bytes :=
  let avp_len := 8 + blen data in
  pad_to (padded avp_len) (to_be 4 code +:+ to_be 1 flags +:+ to_be 3 avp_len +:+ data).

Definition encode_avp_vendor (code flags vendor_id : N) (data : bytes) : bytes :=
  let avp_len := 12 + blen data in
  pad_to (padded avp_len)
    (to_be 4 code +:+ to_be 1 (N.lor flags AVP_FLAG_VENDOR) +:+ to_be 3 avp_len +:+
     to_be 4 vendor_id +:+ data).

Definition encode_avp_utf8 (code : N) (value : string) : bytes := encode_avp code AVP_FLAG_MANDATORY value.
Definition encode_avp_u32 (code value : N) : bytes := encode_avp code AVP_FLAG_MANDATORY (to_be 4 value).
Definition encode_avp_grouped (code : N) (children : bytes) : bytes :=
  encode_avp code AVP_FLAG_MANDATORY children.

(** ** AVP codes of [dictionary/avp.rs] used here *)

Abbreviation AUTH_APPLICATION_ID := 258%N (only parsing).
Abbreviation VENDOR_SPECIFIC_APPLICATION_ID := 260%N (only parsing).
Abbreviation SESSION_ID := 263%N (only parsing).
Abbreviation ORIGIN_HOST := 264%N (only parsing).
Abbreviation VENDOR_ID := 266%N (only parsing).
Abbreviation RESULT_CODE := 268%N (only parsing).
Abbreviation AUTH_SESSION_STATE := 277%N (only parsing).
Abbreviation ERROR_MESSAGE := 281%N (only parsing).
Abbreviation ROUTE_RECORD := 282%N (only parsing).
Abbreviation ORIGIN_REALM := 296%N (only parsing).
Abbreviation EXPERIMENTAL_RESULT := 297%N (only parsing).
Abbreviation EXPERIMENTAL_RESULT_CODE := 298%N (only parsing).

Definition encode_vendor_specific_app_id (vendor_id auth_app_id : N) : bytes :=
  encode_avp VENDOR_SPECIFIC_APPLICATION_ID AVP_FLAG_MANDATORY
    (encode_avp_u32 VENDOR_ID vendor_id +:+ encode_avp_u32 AUTH_APPLICATION_ID auth_app_id).

(** ** Messages *)

Definition encode_diameter_message
    (flags command_code application_id hop_by_hop end_to_end : N) (avps : bytes) : bytes :=
  let msg_len := 20 + blen avps in
  to_be 1 1 +:+ to_be 3 msg_len +:+ to_be 1 flags +:+ to_be 3 command_code +:+
  to_be 4 application_id +:+ to_be 4 hop_by_hop +:+ to_be 4 end_to_end +:+ avps.

Definition encode_generic_answer (origin_host origin_realm session_id : string)
    (command_code application_id result_code hop_by_hop end_to_end : N) : bytes :=
  let vendor_specific :=
    match name ← app_name_by_id application_id; app_id_by_name name with
    | Some (vendor, _) =>
        if negb (vendor =? 0) then encode_vendor_specific_app_id vendor application_id else ""
    | None => ""
    end in
  encode_diameter_message FLAG_PROXIABLE command_code application_id hop_by_hop end_to_end
    (encode_avp_utf8 SESSION_ID session_id +:+ encode_avp_utf8 ORIGIN_HOST origin_host +:+
     encode_avp_utf8 ORIGIN_REALM origin_realm +:+ encode_avp_u32 AUTH_SESSION_STATE 1 +:+
     vendor_specific +:+ encode_avp_u32 RESULT_CODE result_code).

(** ** The lossless tree *)

Inductive DecodeError :=
  | HeaderTooShort (len : N)
  | UnsupportedVersion (v : N)
  | LengthMismatch (declared actual : N)
  | Truncated (offset need have : N)
  | InvalidAvpLength (offset len header : N)
  | OutOfFuel.

(** Elimination is by hand: the children of a group need a motive of their own. *)
#[local] Unset Elimination Schemes.

Inductive AvpData :=
  | RawData (b : bytes)
  | GroupedData (l : list Avp)
with Avp :=
  | mkAvp (code vendor flags : N) (value : AvpData).

#[local] Set Elimination Schemes.

Definition avp_code (a : Avp) : N := let 'mkAvp c _ _ _ := a in c.
Definition avp_vendor (a : Avp) : N := let 'mkAvp _ v _ _ := a in v.
Definition avp_flags (a : Avp) : N := let 'mkAvp _ _ f _ := a in f.
Definition avp_value (a : Avp) : AvpData := let 'mkAvp _ _ _ d := a in d.

Section ind.
Context (Q : Avp → Prop).
Context (Hraw : ∀ c v f b, Q (mkAvp c v f (RawData b))).
Context (Hgroup : ∀ c v f l, Forall Q l → Q (mkAvp c v f (GroupedData l))).

Fixpoint avp_induction (a : Avp) : Q a :=
  match a with
  | mkAvp c v f (RawData b) => Hraw c v f b
  | mkAvp c v f (GroupedData l) =>
      Hgroup c v f l
        ((fix all (l : list Avp) : Forall Q l :=
            match l with
            | [] => Forall_nil_2 _
            | a :: l => Forall_cons_2 _ _ _ (avp_induction a) (all l)
            end) l)
  end.
End ind.

(** [Avp::raw], [Avp::utf8] and [Avp::u32]. *)
Definition avp_raw (code vendor : N) (value : bytes) : Avp :=
  let flags := if avp_is_mandatory code vendor then AVP_FLAG_MANDATORY else 0 in
  let flags := if negb (vendor =? 0) then N.lor flags AVP_FLAG_VENDOR else flags in
  mkAvp code vendor flags (RawData value).
Definition avp_utf8 (code vendor : N) (value : string) : Avp := avp_raw code vendor value.
Definition avp_u32 (code vendor value : N) : Avp := avp_raw code vendor (to_be 4 value).

Definition raw_bytes (a : Avp) : option bytes :=
  match avp_value a with RawData b => Some b | GroupedData _ => None end.
Definition avp_as_str (a : Avp) : option string := from_utf8_lossy <$> raw_bytes a.
Definition avp_as_u32 (a : Avp) : option N :=
  b ← raw_bytes a; if 4 <=? blen b then Some (from_be (sub 0 4 b)) else None.

Definition is_grouped (code vendor : N) : bool :=
  match lookup_avp code vendor with
  | Some def => bool_decide (def_data_type def = Grouped)
  | None => false
  end.

(** [data] is what is left at [offset] of the slice. *)
Fixpoint parse_avps_loop (fuel : nat) (offset : N) (data : bytes) : result DecodeError (list Avp) :=
  match fuel with
  | O => Err OutOfFuel
  | S fuel =>
      if blen data <? 8 then Ok [] else
      let code := from_be (sub 0 4 data) in
      let flags := from_be (sub 4 1 data) in
      let len := from_be (sub 5 3 data) in
      let has_vendor := has_flag AVP_FLAG_VENDOR flags in
      let header_size := if has_vendor then 12 else 8 in
      if len <? header_size then Err (InvalidAvpLength offset len header_size) else
      if blen data <? len then Err (Truncated offset len (blen data)) else
      let vendor := if has_vendor then from_be (sub 8 4 data) else 0 in
      let value_bytes := sub (N.to_nat header_size) (N.to_nat (len - header_size)) data in
      value ← (if is_grouped code vendor
               then GroupedData <$> parse_avps_loop fuel 0 value_bytes else Ok (RawData value_bytes));
      avps ← parse_avps_loop fuel (offset + padded len) (str_drop (N.to_nat (padded len)) data);
      Ok (mkAvp code vendor flags value :: avps)
  end.

Definition parse_avps (data : bytes) : result DecodeError (list Avp) :=
  parse_avps_loop (S (String.length data)) 0 data.

Fixpoint encode_one_avp (a : Avp) : bytes :=
  let 'mkAvp code vendor flags data := a in
  let value := match data with
               | RawData b => b
               | GroupedData l => str_concat (encode_one_avp <$> l)
               end in
  let has_vendor := has_flag AVP_FLAG_VENDOR flags in
  let header_size := if has_vendor then 12 else 8 in
  let len := header_size + blen value in
  pad_to (padded len)
    (to_be 4 code +:+ to_be 1 flags +:+ to_be 3 len +:+
     (if has_vendor then to_be 4 vendor else "") +:+ value).

Definition encode_avps (avps : list Avp) : bytes := str_concat (encode_one_avp <$> avps).

Record DiameterMsg := mkDiameterMsg {
  flags : N;
  command_code : N;
  application_id : N;
  hop_by_hop : N;
  end_to_end : N;
  avps : list Avp;
}.

Definition from_wire (msg : bytes) : result DecodeError DiameterMsg :=
  if blen msg <? 20 then Err (HeaderTooShort (blen msg)) else
  let version := from_be (sub 0 1 msg) in
  if negb (version =? 1) then Err (UnsupportedVersion version) else
  let declared := from_be (sub 1 3 msg) in
  if (declared <? 20) || (blen msg <? declared) then Err (LengthMismatch declared (blen msg)) else
  avps ← parse_avps (sub 20 (N.to_nat (declared - 20)) msg);
  Ok (mkDiameterMsg (from_be (sub 4 1 msg)) (from_be (sub 5 3 msg)) (from_be (sub 8 4 msg))
        (from_be (sub 12 4 msg)) (from_be (sub 16 4 msg)) avps).

Definition to_wire (m : DiameterMsg) : bytes :=
  encode_diameter_message (flags m) (command_code m) (application_id m) (hop_by_hop m)
    (end_to_end m) (encode_avps (avps m)).

Definition msg_is_request (m : DiameterMsg) : bool := has_flag FLAG_REQUEST (flags m).

Definition is_avp (code vendor : N) (a : Avp) : bool := (avp_code a =? code) && (avp_vendor a =? vendor).

Definition find_avp (m : DiameterMsg) (code vendor : N) : option Avp :=
  find_first (is_avp code vendor) (avps m).
Definition find_all (m : DiameterMsg) (code vendor : N) : list Avp :=
  filter (is_avp code vendor) (avps m).

Definition with_avps (m : DiameterMsg) (l : list Avp) : DiameterMsg :=
  mkDiameterMsg (flags m) (command_code m) (application_id m) (hop_by_hop m) (end_to_end m) l.

(** The message without the AVPs, and how many they were. *)
Definition remove_avp (code vendor : N) (m : DiameterMsg) : DiameterMsg * nat :=
  let kept := filter (λ a, ¬ is_avp code vendor a) (avps m) in
  (with_avps m kept, (length (avps m) - length kept)%nat).

(** Matched by code alone; a group the dictionary does not know is parsed here. *)
Definition answer_result_codes (m : DiameterMsg) : option N * option N :=
  let by_code code l := find_first (λ a, avp_code a =? code) l in
  let child l := c ← by_code EXPERIMENTAL_RESULT_CODE l; avp_as_u32 c in
  (a ← by_code RESULT_CODE (avps m); avp_as_u32 a,
   group ← by_code EXPERIMENTAL_RESULT (avps m);
   match avp_value group with
   | GroupedData children => child children
   | RawData b => match parse_avps b with Ok children => child children | Err _ => None end
   end).
