(* ===== verification/DiameterProofs.v ===== *)
(** * The Diameter codec: what a relay writes is what it read

    Big-endian fields and padding, the round trip of the lossless tree, and the
    agreement of the two decoders of [Diameter]. *)

From S2P Require Import Prelude Str Bytes Transport AvpTable Dictionary Diameter.

#[local] Open Scope N_scope.

(** ** Padding *)

Lemma zeros_length n : String.length (zeros n) = n.
Proof. induction n as [|n IH]; cbn; [done|by rewrite IH]. Qed.

Lemma padded_bounds n : n <= padded n < n + 4.
Proof.
  assert (H : padded n = (n + 3) / 4 * 4).
  { unfold padded. change 3 with (N.ones 2) at 2. by rewrite N.ldiff_ones_r, N.shiftl_mul_pow2, N.shiftr_div_pow2. }
  pose proof (N.div_mod (n + 3) 4 ltac:(done)). pose proof (N.mod_lt (n + 3) 4 ltac:(done)). revert H H0 H1. generalize ((n + 3) / 4) ((n + 3) mod 4) (padded n). lia.
Qed.

Lemma blen_pad_to n s : blen s <= n → blen (pad_to n s) = n.
Proof. unfold pad_to, blen. rewrite str_length_app, zeros_length. lia. Qed.

(** ** The round trip of the tree *)

Definition header_size (a : Avp) : N := if has_flag AVP_FLAG_VENDOR (avp_flags a) then 12 else 8.

Definition value_bytes (a : Avp) : bytes :=
  match avp_value a with RawData b => b | GroupedData l => encode_avps l end.

(** What the wire can carry: fields of their widths, a vendor only with the
    vendor bit, and groups exactly where the dictionary has them. *)
Fixpoint avp_ok (a : Avp) : bool :=
  let 'mkAvp code vendor flags data := a in
  (code <? 2 ^ 32) && (flags <? 2 ^ 8) &&
  (if has_flag AVP_FLAG_VENDOR flags then vendor <? 2 ^ 32 else vendor =? 0) &&
  (header_size a + blen (value_bytes a) <? 2 ^ 24) &&
  match data with
  | RawData _ => negb (is_grouped code vendor)
  | GroupedData l => is_grouped code vendor && forallb avp_ok l
  end.

(** The bytes of an AVP before its padding. *)
Definition avp_text (a : Avp) : bytes :=
  to_be 4 (avp_code a) +:+ to_be 1 (avp_flags a) +:+ to_be 3 (header_size a + blen (value_bytes a)) +:+
  (if has_flag AVP_FLAG_VENDOR (avp_flags a) then to_be 4 (avp_vendor a) else "") +:+ value_bytes a.

Lemma encode_one_avp_eq a :
  encode_one_avp a = pad_to (padded (header_size a + blen (value_bytes a))) (avp_text a).
Proof. by destruct a as [c v f [b|l]]. Qed.

Lemma avp_text_length a : blen (avp_text a) = header_size a + blen (value_bytes a).
Proof.
  unfold avp_text, header_size. rewrite !blen_app, !blen_to_be.
  destruct (has_flag _ _); rewrite ?blen_to_be; change (blen "") with 0; lia.
Qed.

Lemma encode_one_avp_length a :
  blen (encode_one_avp a) = padded (header_size a + blen (value_bytes a)).
Proof.
  rewrite encode_one_avp_eq. apply blen_pad_to. rewrite avp_text_length. apply padded_bounds.
Qed.

Lemma encode_avps_cons a l : encode_avps (a :: l) = encode_one_avp a +:+ encode_avps l.
Proof. done. Qed.

Lemma header_size_bounds a : 8 <= header_size a <= 12.
Proof. unfold header_size. destruct (has_flag _ _); lia. Qed.

(** The fields at the head of what [encode_one_avp] wrote. *)
Lemma read_header a rest :
  avp_ok a = true →
  let data := avp_text a +:+ rest in
  from_be (sub 0 4 data) = avp_code a ∧ from_be (sub 4 1 data) = avp_flags a ∧
  from_be (sub 5 3 data) = header_size a + blen (value_bytes a) ∧
  (if has_flag AVP_FLAG_VENDOR (avp_flags a) then from_be (sub 8 4 data) else 0) = avp_vendor a ∧
  sub (N.to_nat (header_size a)) (String.length (value_bytes a)) data = value_bytes a.
Proof.
  destruct a as [c v f d]. cbn [avp_ok].
  intros [[[[Hc Hf]%andb_prop Hv]%andb_prop Hl]%andb_prop _]%andb_prop.
  apply N.ltb_lt in Hc, Hf, Hl. cbn zeta. unfold avp_text. cbn [avp_code avp_vendor avp_flags].
  revert Hl. generalize (value_bytes (mkAvp c v f d)). unfold header_size. cbn [avp_flags]. intros vb Hl.
  set (len := _ + blen vb) in *. clearbody len. rewrite !append_assoc.
  set (t := (if has_flag AVP_FLAG_VENDOR f then to_be 4 v else "") +:+ vb +:+ rest). split_and!.
  - exact (field_read 4 c _ Hc).
  - exact (field_read 1 f (to_be 3 len +:+ t) Hf).
  - exact (field_read 3 len t Hl).
  - unfold t. destruct (has_flag AVP_FLAG_VENDOR f); [apply N.ltb_lt in Hv|by apply N.eqb_eq in Hv].
    exact (field_read 4 v (vb +:+ rest) Hv).
  - unfold t. destruct (has_flag AVP_FLAG_VENDOR f); [apply (substring_app vb rest)|].
    rewrite append_nil_l. apply (substring_app vb rest).
Qed.

Lemma encode_one_avp_text a : ∃ z, encode_one_avp a = avp_text a +:+ z.
Proof. rewrite encode_one_avp_eq. by eexists. Qed.

Lemma drop_encoded a rest :
  str_drop (N.to_nat (padded (header_size a + blen (value_bytes a)))) (encode_one_avp a +:+ rest) = rest.
Proof.
  rewrite <- encode_one_avp_length. unfold blen. rewrite Nat2N.id. apply str_drop_app.
Qed.

Lemma parse_encoded n off l :
  forallb avp_ok l = true → (String.length (encode_avps l) < n)%nat →
  parse_avps_loop n off (encode_avps l) = Ok l.
Proof.
  revert off l. induction n as [|n IH]; intros off l Hok Hn; [lia|].
  destruct l as [|a l]; [done|]. cbn [forallb] in Hok. apply andb_prop in Hok as [Ha Hl].
  rewrite encode_avps_cons in *. cbn [parse_avps_loop].
  pose proof (encode_one_avp_length a) as Hlen. pose proof (header_size_bounds a) as Hh.
  pose proof (padded_bounds (header_size a + blen (value_bytes a))) as Hp.
  assert (Hdata : blen (encode_one_avp a +:+ encode_avps l) = blen (encode_one_avp a) + blen (encode_avps l))
    by apply blen_app.
  destruct (encode_one_avp_text a) as [z Hz].
  pose proof (read_header a (z +:+ encode_avps l) Ha) as Hr. rewrite <- append_assoc, <- Hz in Hr.
  cbn zeta in Hr. destruct Hr as (Hc & Hf & Hs & Hv & Hb).
  rewrite Hc, Hf, Hs, Hv. change (if has_flag AVP_FLAG_VENDOR (avp_flags a) then 12 else 8) with (header_size a).
  rewrite (proj2 (N.ltb_ge _ _)) by lia. rewrite (proj2 (N.ltb_ge _ _)) by lia.
  rewrite (proj2 (N.ltb_ge _ _)) by lia.
  replace (N.to_nat (header_size a + blen (value_bytes a) - header_size a))
    with (String.length (value_bytes a)) by (unfold blen; lia).
  rewrite Hb, drop_encoded, IH by (done || (rewrite str_length_app in Hn; unfold blen in *; lia)).
  assert (Hn' : (String.length (value_bytes a) < n)%nat) by (rewrite str_length_app in Hn; unfold blen in *; lia).
  clear -IH Ha Hn'. destruct a as [c v f [b|l']]; cbn [avp_ok] in Ha;
    apply andb_prop in Ha as [_ Ha]; cbn [avp_code avp_vendor avp_flags].
  - apply negb_true_iff in Ha. by rewrite Ha.
  - apply andb_prop in Ha as [Hg Hl]. rewrite Hg. cbn [value_bytes avp_value] in *. by rewrite IH.
Qed.

(** ** What parsing gives can be written again *)

Lemma bind_Ok_inv {E A B} (r : result E A) (f : A → result E B) b :
  (r ≫= f) = Ok b → ∃ a, r = Ok a ∧ f a = Ok b.
Proof. by rewrite bind_Ok. Qed.

Lemma sub_length i n s : (i + n ≤ String.length s)%nat → String.length (sub i n s) = n.
Proof.
  revert i n. induction s as [|a s IH]; intros [|i] [|n]; cbn; try lia; intros.
  - by rewrite IH by lia.
  - apply IH. lia.
  - apply IH. lia.
Qed.

(** Children and padding: an AVP grows by three bytes at most, and takes eight. *)
Lemma parsed_ok n off data l :
  parse_avps_loop n off data = Ok l → 11 * blen data < 2 ^ 27 →
  forallb avp_ok l = true ∧ 8 * blen (encode_avps l) <= 11 * blen data.
Proof.
  revert off data l. induction n as [|n IH]; intros off data l Hp Hb; [done|].
  cbn [parse_avps_loop] in Hp. destruct (N.ltb_spec (blen data) 8) as [_|H8].
  { injection Hp as <-. split; [done|]. change (blen (encode_avps [])) with 0. lia. }
  set (code := from_be (sub 0 4 data)) in *. set (flags := from_be (sub 4 1 data)) in *.
  set (len := from_be (sub 5 3 data)) in *.
  set (vendor := if has_flag AVP_FLAG_VENDOR flags then from_be (sub 8 4 data) else 0) in *.
  set (hdr := if has_flag AVP_FLAG_VENDOR flags then 12 else 8) in *.
  destruct (N.ltb_spec len hdr) as [|Hh]; [done|]. destruct (N.ltb_spec (blen data) len) as [|Hl]; [done|].
  set (vb := sub (N.to_nat hdr) (N.to_nat (len - hdr)) data) in *.
  assert (Hvb : blen vb = len - hdr).
  { unfold vb, blen. rewrite sub_length; unfold blen in *; lia. }
  apply bind_Ok in Hp as (value & Hv & Hp). apply bind_Ok in Hp as (rest & Hr & Hp). injection Hp as <-.
  assert (Hhdr : 8 <= hdr) by (unfold hdr; destruct (has_flag _ _); lia).
  set (data' := str_drop (N.to_nat (padded len)) data) in *.
  assert (Hd' : blen data' <= blen data - len).
  { unfold data', blen. rewrite str_drop_length. pose proof (padded_bounds len). unfold blen in *. lia. }
  clearbody data'. apply IH in Hr as [Hok Hlen]; [|lia].
  set (a := mkAvp code vendor flags value).
  assert (Hgrow : 8 * blen (value_bytes a) <= 11 * (len - hdr) ∧
    match value with RawData _ => negb (is_grouped code vendor)
    | GroupedData l => is_grouped code vendor && forallb avp_ok l end = true).
  { unfold a, value_bytes. cbn [avp_value]. destruct (is_grouped code vendor).
    - destruct (parse_avps_loop n 0 vb) as [l'|] eqn:Hg; [|done]. injection Hv as <-.
      apply IH in Hg as [? ?]; [|lia]. split; [lia|done].
    - injection Hv as <-. split; [lia|done]. }
  destruct Hgrow as [Hgrow Hkind].
  pose proof (padded_bounds (header_size a + blen (value_bytes a))) as Hpad.
  change (header_size a) with hdr in Hpad. cbn [forallb]. split.
  - apply andb_true_intro. split; [|done]. unfold a at 1. cbn [avp_ok]. fold a. rewrite Hkind, !andb_true_r.
    change (header_size a) with hdr.
    rewrite !andb_true_iff. split_and!; try apply N.ltb_lt.
    + apply (from_be_bound 0 4).
    + apply (from_be_bound 4 1).
    + unfold vendor. destruct (has_flag _ _); [apply N.ltb_lt, (from_be_bound 8 4)|done].
    + lia.
  - rewrite encode_avps_cons, blen_app, encode_one_avp_length. change (header_size a) with hdr. lia.
Qed.

(** The parser always ends by itself. *)
Lemma parse_enough n off data :
  (String.length data < n)%nat → parse_avps_loop n off data ≠ Err OutOfFuel.
Proof.
  revert off data. induction n as [|n IH]; intros off data Hn; [lia|]. cbn [parse_avps_loop].
  destruct (N.ltb_spec (blen data) 8) as [_|H8]; [done|]. unfold blen in H8.
  set (hdr := if has_flag AVP_FLAG_VENDOR (from_be (sub 4 1 data)) then 12 else 8).
  assert (Hhdr : 8 <= hdr) by (unfold hdr; destruct (has_flag _ _); lia). clearbody hdr.
  set (len := from_be (sub 5 3 data)). clearbody len.
  destruct (N.ltb_spec len hdr); [done|]. destruct (N.ltb_spec (blen data) len) as [|Hl]; [done|].
  assert (Hrest : ∀ off, parse_avps_loop n off (str_drop (N.to_nat (padded len)) data) ≠ Err OutOfFuel).
  { intros off'. apply IH. rewrite str_drop_length. pose proof (padded_bounds len). lia. }
  assert (Hsub : parse_avps_loop n 0 (sub (N.to_nat hdr) (N.to_nat (len - hdr)) data) ≠ Err OutOfFuel).
  { apply IH. unfold blen in Hl. rewrite sub_length; lia. }
  specialize (Hrest (off + padded len)).
  destruct (is_grouped _ _), (parse_avps_loop n 0 _), (parse_avps_loop n (off + padded len) _);
    cbn; congruence.
Qed.

(** ** Whole messages *)

Definition msg_ok (m : DiameterMsg) : bool :=
  (flags m <? 2 ^ 8) && (command_code m <? 2 ^ 24) && (application_id m <? 2 ^ 32) &&
  (hop_by_hop m <? 2 ^ 32) && (end_to_end m <? 2 ^ 32) && forallb avp_ok (avps m) &&
  (20 + blen (encode_avps (avps m)) <? 2 ^ 24).

Lemma to_wire_length m : blen (to_wire m) = 20 + blen (encode_avps (avps m)).
Proof. unfold to_wire, encode_diameter_message. rewrite !blen_app, !blen_to_be. lia. Qed.

Lemma from_to_wire m : msg_ok m = true → from_wire (to_wire m) = Ok m.
Proof.
  destruct m as [f c ap h e l]. unfold msg_ok. cbn [flags command_code application_id hop_by_hop end_to_end avps].
  intros [[[[[[Hf Hc]%andb_prop Ha]%andb_prop Hh]%andb_prop He]%andb_prop Hok]%andb_prop Hl]%andb_prop.
  apply N.ltb_lt in Hf, Hc, Ha, Hh, He, Hl.
  set (w := to_wire _). pose proof (to_wire_length (mkDiameterMsg f c ap h e l)) as Hw.
  cbn [avps] in Hw. fold w in Hw. unfold from_wire. rewrite (proj2 (N.ltb_ge _ _)) by lia.
  assert (Hread : from_be (sub 0 1 w) = 1 ∧ from_be (sub 1 3 w) = 20 + blen (encode_avps l) ∧
    from_be (sub 4 1 w) = f ∧ from_be (sub 5 3 w) = c ∧ from_be (sub 8 4 w) = ap ∧
    from_be (sub 12 4 w) = h ∧ from_be (sub 16 4 w) = e ∧
    sub 20 (String.length (encode_avps l)) w = encode_avps l).
  { unfold w, to_wire, encode_diameter_message. cbn [flags command_code application_id hop_by_hop end_to_end avps].
    set (t := encode_avps l) in *. set (len := 20 + blen t) in *.
    set (t4 := to_be 4 e +:+ t). set (t3 := to_be 4 h +:+ t4). set (t2 := to_be 4 ap +:+ t3).
    set (t1 := to_be 3 c +:+ t2). set (t0 := to_be 1 f +:+ t1). split_and!.
    - exact (field_read 1 1 (to_be 3 len +:+ t0) eq_refl).
    - exact (field_read 3 len t0 Hl).
    - exact (field_read 1 f t1 Hf).
    - exact (field_read 3 c t2 Hc).
    - exact (field_read 4 ap t3 Ha).
    - exact (field_read 4 h t4 Hh).
    - exact (field_read 4 e t He).
    - exact (substring_whole t). }
  destruct Hread as (-> & -> & -> & -> & -> & -> & -> & Hs). cbn [N.eqb negb Pos.eqb].
  rewrite (proj2 (N.ltb_ge (20 + _) 20)), (proj2 (N.ltb_ge (blen w) _)) by lia. cbn [orb].
  replace (N.to_nat (20 + blen (encode_avps l) - 20)) with (String.length (encode_avps l))
    by (unfold blen; lia).
  unfold parse_avps. by rewrite Hs, parse_encoded by (done || lia).
Qed.

(** What was parsed fits the wire, and grows little. *)
Lemma from_wire_ok msg m :
  from_wire msg = Ok m → blen msg <= 1048576 →
  msg_ok m = true ∧ 8 * blen (to_wire m) <= 11 * blen msg.
Proof.
  unfold from_wire. destruct (N.ltb_spec (blen msg) 20) as [|H20]; [done|].
  destruct (negb _); [done|]. set (declared := from_be (sub 1 3 msg)). clearbody declared.
  destruct (N.ltb_spec declared 20) as [|Hd]; [done|].
  destruct (N.ltb_spec (blen msg) declared) as [|Hm]; [done|]. cbn [orb].
  intros (l & Hp & [= <-])%bind_Ok Hb. unfold parse_avps in Hp. rewrite to_wire_length. cbn [avps].
  set (data := sub 20 (N.to_nat (declared - 20)) msg) in *.
  assert (Hdata : blen data = declared - 20).
  { unfold data, blen in *. rewrite sub_length; lia. }
  apply parsed_ok in Hp as [Hok Hlen]; [|lia]. split; [|lia]. unfold msg_ok.
  cbn [flags command_code application_id hop_by_hop end_to_end avps].
  rewrite Hok, !andb_true_iff. split_and!; try done; apply N.ltb_lt; [apply from_be_bound..|lia].
Qed.

Lemma sub_sub i k n s : (i + k ≤ n)%nat → sub i k (sub 0 n s) = sub i k s.
Proof.
  revert i k n. induction s as [|a s IH]; intros i k [|n] H.
  - by destruct i, k.
  - by destruct i, k.
  - destruct i, k; try lia. by destruct s.
  - destruct i as [|i]; [destruct k as [|k]|]; cbn; [done|f_equal; apply IH; lia|apply IH; lia].
Qed.

(** What the framer hands on. *)
Lemma read_message_ok stream msg rest :
  read_diameter_message stream = Ok (msg, rest) →
  stream = msg +:+ rest ∧ 20 <= blen msg <= 1048576 ∧ from_be (sub 1 3 msg) = blen msg.
Proof.
  unfold read_diameter_message. destruct (N.ltb_spec (blen stream) 4) as [|H4]; [done|].
  destruct (negb (from_be _ =? 1)); [done|]. set (n := from_be (sub 1 3 stream)).
  unfold within. destruct (N.leb_spec 20 n) as [H20|]; [|done].
  destruct (N.leb_spec n 1048576) as [Hmax|]; [|done]. cbn [andb negb].
  destruct (N.ltb_spec (blen stream) n) as [|Hn]; [done|]. intros [= <- <-].
  assert (Hlen : blen (sub 0 (N.to_nat n) stream) = n).
  { unfold blen in *. rewrite sub_length; lia. }
  split_and!; rewrite ?Hlen; try done.
  - rewrite <- (substring_split (N.to_nat n) stream) at 1 by (unfold blen in Hn; lia). f_equal.
    apply sub_drop.
  - rewrite sub_sub by lia. done.
Qed.

Lemma to_wire_header m more :
  msg_ok m = true →
  from_be (sub 0 1 (to_wire m +:+ more)) = 1 ∧
  from_be (sub 1 3 (to_wire m +:+ more)) = blen (to_wire m).
Proof.
  intros [_ Hl]%andb_prop. apply N.ltb_lt in Hl. rewrite to_wire_length.
  unfold to_wire, encode_diameter_message. rewrite !append_assoc.
  set (len := 20 + _) in *. set (t := to_be 1 (flags m) +:+ _). split.
  - exact (field_read 1 1 (to_be 3 len +:+ t) eq_refl).
  - exact (field_read 3 len t Hl).
Qed.

Lemma read_written m more :
  msg_ok m = true → blen (to_wire m) <= 1048576 →
  read_diameter_message (to_wire m +:+ more) = Ok (to_wire m, more).
Proof.
  intros Hok Hmax. pose proof (to_wire_length m) as Hlen.
  unfold read_diameter_message. rewrite blen_app, (proj2 (N.ltb_ge _ _)) by lia.
  destruct (to_wire_header m more Hok) as [-> ->]. cbn [N.eqb Pos.eqb negb]. unfold within.
  rewrite (proj2 (N.leb_le _ _)), (proj2 (N.leb_le _ _)) by lia. cbn [andb negb].
  rewrite (proj2 (N.ltb_ge _ _)) by lia.
  unfold blen. by rewrite Nat2N.id, substring_app, str_drop_app.
Qed.

(** A framer that takes something off what was written takes it all. *)
Lemma read_written_all m msg rest :
  msg_ok m = true → read_diameter_message (to_wire m) = Ok (msg, rest) → msg = to_wire m.
Proof.
  intros Hok (Hw & [H20 _] & Hlen)%read_message_ok.
  destruct (to_wire_header m "" Hok) as [_ Hd]. rewrite append_nil_r in Hd.
  assert (Hm : sub 1 3 (to_wire m) = sub 1 3 msg).
  { rewrite Hw, <- (sub_sub 1 3 (String.length msg) (msg +:+ rest)) by (unfold blen in H20; lia).
    by rewrite substring_app. }
  rewrite Hm, Hlen, Hw, blen_app in Hd. destruct rest; [by rewrite Hw, append_nil_r|].
  unfold blen in Hd. cbn [String.length] in Hd. lia.
Qed.

(** ** What the octets say

    The format of RFC 6733 sections 3 and 4, without the decoder or the encoder:
    which messages a string of octets is. *)

(** A big-endian field of [k] octets. *)
Definition field (k : nat) (n : N) (b : bytes) : Prop := String.length b = k ∧ from_be b = n.

(** What a length lacks to a multiple of four. *)
Definition to_four (n : N) : N := (4 - n mod 4) mod 4.

(** An AVP at the head of [b]: its header, its value, padding to four octets,
    which the last may lack, and what follows. *)
Definition laid_out (b : bytes) (code flags vendor : N) (value rest : bytes) : Prop :=
  ∃ c f n v pad, b = c +:+ f +:+ n +:+ v +:+ value +:+ pad +:+ rest ∧
    field 4 code c ∧ field 1 flags f ∧ field 3 (8 + blen v + blen value) n ∧
    (if has_flag AVP_FLAG_VENDOR flags then field 4 vendor v else v = "" ∧ vendor = 0) ∧
    blen pad <= to_four (8 + blen v + blen value) ∧
    (rest = "" ∨ blen pad = to_four (8 + blen v + blen value)).

(** One AVP after another, and at the end less than the header of one. *)
Inductive carries : bytes → list Avp → Prop :=
  | carries_end b : blen b < 8 → carries b []
  | carries_raw b code flags vendor value rest l :
      laid_out b code flags vendor value rest → is_grouped code vendor = false → carries rest l →
      carries b (mkAvp code vendor flags (RawData value) :: l)
  | carries_group b code flags vendor value children rest l :
      laid_out b code flags vendor value rest → is_grouped code vendor = true →
      carries value children → carries rest l →
      carries b (mkAvp code vendor flags (GroupedData children) :: l).

Definition on_wire (msg : bytes) (m : DiameterMsg) : Prop :=
  ∃ v n f c a h e body, msg = v +:+ n +:+ f +:+ c +:+ a +:+ h +:+ e +:+ body ∧
    field 1 1 v ∧ field 3 (blen msg) n ∧ field 1 (flags m) f ∧ field 3 (command_code m) c ∧
    field 4 (application_id m) a ∧ field 4 (hop_by_hop m) h ∧ field 4 (end_to_end m) e ∧
    carries body (avps m).

Lemma sub_split i n s : sub i n s +:+ str_drop (i + n) s = str_drop i s.
Proof.
  revert i n. induction s as [|a s IH]; intros [|i] [|n]; try done.
  - cbn [Nat.add str_drop String.substring]. rewrite append_cons. f_equal.
    pose proof (IH O n) as E. by destruct s.
  - apply (IH i O).
  - apply (IH i (S n)).
Qed.

Lemma empty_length s : blen s = 0 → s = "".
Proof. by destruct s. Qed.

Lemma field_sub i k s : (i + k ≤ String.length s)%nat → field k (from_be (sub i k s)) (sub i k s).
Proof. intros. split; [by apply sub_length|done]. Qed.

Lemma padded_to_four n : padded n = n + to_four n.
Proof.
  pose proof (padded_bounds n) as Hb. assert (Hm : padded n mod 4 = 0).
  { unfold padded. change 3 with (N.ones 2) at 2. rewrite N.ldiff_ones_r, N.shiftl_mul_pow2.
    apply N.Div0.mod_mul. }
  pose proof (N.div_mod (padded n) 4 ltac:(done)) as E1. pose proof (N.div_mod n 4 ltac:(done)) as E2.
  pose proof (N.mod_lt n 4 ltac:(done)) as Hr. unfold to_four. rewrite Hm in E1. clear Hm. revert Hb E1 E2 Hr.
  generalize (padded n / 4) (n / 4) (padded n) (n mod 4). intros x y p r Hb E1 E2 Hr.
  assert (r = 0 ∨ r = 1 ∨ r = 2 ∨ r = 3) as [-> | [-> | [-> | ->]]] by lia.
  - change ((4 - 0) mod 4) with 0. lia.
  - change ((4 - 1) mod 4) with 3. lia.
  - change ((4 - 2) mod 4) with 2. lia.
  - change ((4 - 3) mod 4) with 1. lia.
Qed.

(** An AVP of which the decoder read the header. *)
Lemma parsed_laid_out data :
  8 <= blen data →
  let flags := from_be (sub 4 1 data) in
  let len := from_be (sub 5 3 data) in
  let has_vendor := has_flag AVP_FLAG_VENDOR flags in
  let hdr := if has_vendor then 12 else 8 in
  hdr <= len → len <= blen data →
  laid_out data (from_be (sub 0 4 data)) flags (if has_vendor then from_be (sub 8 4 data) else 0)
    (sub (N.to_nat hdr) (N.to_nat (len - hdr)) data) (str_drop (N.to_nat (padded len)) data).
Proof.
  intros H8 flags len has_vendor hdr Hh Hl. unfold blen in *.
  assert (Hhdr : 8 <= hdr <= 12) by (unfold hdr; destruct has_vendor; lia).
  pose proof (padded_to_four len) as Hp.
  set (v := sub 8 (N.to_nat (hdr - 8)) data). set (value := sub (N.to_nat hdr) _ data).
  set (pad := sub (N.to_nat len) (N.to_nat (padded len - len)) data).
  assert (Hv : blen v = hdr - 8) by (unfold v, blen; rewrite sub_length; lia).
  assert (Hval : blen value = len - hdr) by (unfold value, blen; rewrite sub_length; lia).
  exists (sub 0 4 data), (sub 4 1 data), (sub 5 3 data), v, pad. rewrite Hv, Hval. split_and!.
  - unfold pad, value, v.
    replace (N.to_nat (padded len)) with (N.to_nat len + N.to_nat (padded len - len))%nat by lia.
    rewrite sub_split. replace (N.to_nat len) with (N.to_nat hdr + N.to_nat (len - hdr))%nat by lia.
    rewrite sub_split. replace (N.to_nat hdr) with (8 + N.to_nat (hdr - 8))%nat by lia.
    rewrite (sub_split 8), (sub_split 5 3), (sub_split 4 1), (sub_split 0 4). by destruct data.
  - apply field_sub. lia.
  - apply field_sub. lia.
  - replace (8 + (hdr - 8) + (len - hdr)) with len by lia. apply field_sub. lia.
  - change (has_flag AVP_FLAG_VENDOR flags) with has_vendor. unfold v, hdr in *. destruct has_vendor; [apply field_sub; lia|].
    split; [|done]. apply empty_length. exact Hv.
  - replace (8 + (hdr - 8) + (len - hdr)) with len by lia.
    unfold pad, blen. pose proof (substring_le (N.to_nat len) (N.to_nat (padded len - len)) data). lia.
  - replace (8 + (hdr - 8) + (len - hdr)) with len by lia.
    destruct (decide (padded len <= N.of_nat (String.length data))) as [Hfull|Hcut]; [right|left].
    + unfold pad, blen. rewrite sub_length; lia.
    + apply empty_length. unfold blen. rewrite str_drop_length. lia.
Qed.

Lemma parsed_carries n off data l : parse_avps_loop n off data = Ok l → carries data l.
Proof.
  revert off data l. induction n as [|n IH]; intros off data l; [done|]. cbn [parse_avps_loop].
  destruct (N.ltb_spec (blen data) 8) as [H8|H8]; [intros [= <-]; by constructor|].
  pose proof (parsed_laid_out data H8) as Hlaid. cbn zeta in Hlaid. revert Hlaid.
  set (hdr := if has_flag _ _ then 12 else 8). set (vendor := if has_flag _ _ then _ else 0).
  set (len := from_be (sub 5 3 data)). intros Hlaid.
  destruct (N.ltb_spec len hdr) as [|Hh]; [done|]. destruct (N.ltb_spec (blen data) len) as [|Hl]; [done|].
  specialize (Hlaid Hh Hl). intros (value & Hv & Hr)%bind_Ok. apply bind_Ok in Hr as (rest & Hr & [= <-]).
  apply IH in Hr. destruct (is_grouped _ _) eqn:Hg.
  - destruct (parse_avps_loop n 0 _) as [children|] eqn:Hc; [|done]. injection Hv as <-.
    eapply carries_group; [done..| |done]. by eapply IH.
  - injection Hv as <-. by eapply carries_raw.
Qed.

Lemma sub_at i k x y z :
  String.length x = i → String.length y = k → sub i k (x +:+ y +:+ z) = y.
Proof. intros <- <-. rewrite <- (Nat.add_0_r (String.length x)), sub_skip. apply substring_app. Qed.

(** The decoder reads the fields of an AVP that is there. *)
Lemma laid_out_read b code flags vendor value rest :
  laid_out b code flags vendor value rest →
  let hdr := if has_flag AVP_FLAG_VENDOR flags then 12 else 8 in
  hdr + blen value <= blen b ∧ from_be (sub 0 4 b) = code ∧ from_be (sub 4 1 b) = flags ∧
  from_be (sub 5 3 b) = hdr + blen value ∧
  (if has_flag AVP_FLAG_VENDOR flags then from_be (sub 8 4 b) else 0) = vendor ∧
  sub (N.to_nat hdr) (String.length value) b = value ∧
  str_drop (N.to_nat (padded (hdr + blen value))) b = rest ∧ (String.length rest < String.length b)%nat.
Proof.
  intros (c & f & n & v & pad & -> & [Lc Hc] & [Lf Hf] & [Ln Hn] & Hv & Lp & Hpad) hdr.
  assert (Lv : blen v = hdr - 8 ∧ (if has_flag AVP_FLAG_VENDOR flags then from_be v = vendor else vendor = 0)).
  { unfold hdr, blen. destruct (has_flag _ _); [destruct Hv as [-> ?]; done|by destruct Hv as [-> ?]]. }
  destruct Lv as [Lv Hvv]. assert (Hhdr : 8 <= hdr) by (unfold hdr; destruct (has_flag _ _); lia).
  replace (8 + blen v + blen value) with (hdr + blen value) in * by lia.
  set (t := v +:+ value +:+ pad +:+ rest). set (d := c +:+ f +:+ n +:+ t).
  assert (Ld : String.length d = (8 + String.length v + String.length value + String.length pad +
    String.length rest)%nat) by (unfold d, t; rewrite !str_length_app; lia).
  assert (Hd : d = (c +:+ f +:+ n) +:+ t) by (unfold d; by rewrite !append_assoc).
  assert (L8 : String.length (c +:+ f +:+ n) = 8%nat) by (rewrite !str_length_app; lia).
  unfold blen in *. split_and!; [lia|..].
  - etrans; [|exact Hc]. f_equal. by apply (sub_at 0 4 "").
  - etrans; [|exact Hf]. f_equal. by apply sub_at.
  - unfold d. rewrite <- (append_assoc c), (sub_at 5 3 (c +:+ f) n) by (rewrite ?str_length_app; lia). exact Hn.
  - unfold hdr in *. rewrite Hd. unfold t. destruct (has_flag _ _); [|done].
    rewrite (sub_at 8 4 _ v) by lia. exact Hvv.
  - rewrite Hd. unfold t. rewrite <- append_assoc. apply sub_at; [rewrite str_length_app; lia|done].
  - set (len := hdr + _) in *. pose proof (padded_to_four len).
    destruct Hpad as [-> |Hfull].
    + apply empty_length. unfold blen. rewrite str_drop_length. change (String.length "") with 0%nat in Ld. lia.
    + set (p := c +:+ f +:+ n +:+ v +:+ value +:+ pad).
      assert (Lp' : N.to_nat (padded len) = String.length p).
      { unfold p. rewrite !str_length_app. lia. }
      replace d with (p +:+ rest) by (unfold p, d, t; by rewrite !append_assoc).
      rewrite Lp'. apply str_drop_app.
  - lia.
Qed.

Lemma carries_parsed b l n off :
  carries b l → (String.length b < n)%nat → parse_avps_loop n off b = Ok l.
Proof.
  intros Hc. revert n off. induction Hc as
    [b Hb|b code flags vendor value rest l Hlaid Hg Hc IH|b code flags vendor value children rest l Hlaid Hg Hv IHv Hc IH];
    intros [|n] off Hn; try lia; cbn [parse_avps_loop].
  { by rewrite (proj2 (N.ltb_lt _ _) Hb). }
  all: destruct (laid_out_read _ _ _ _ _ _ Hlaid) as (Hlen & -> & -> & -> & -> & Hsub & -> & Hrest).
  all: rewrite Hg; set (hdr := if has_flag _ _ then 12 else 8) in *.
  all: assert (8 <= hdr) by (unfold hdr; destruct (has_flag _ _); lia).
  all: rewrite (proj2 (N.ltb_ge _ _)), (proj2 (N.ltb_ge _ _)), (proj2 (N.ltb_ge _ _)) by lia.
  all: replace (N.to_nat (hdr + blen value - hdr)) with (String.length value) by (unfold blen; lia).
  all: rewrite Hsub.
  - by rewrite IH by lia.
  - rewrite IHv by (unfold blen in *; lia). cbn. by rewrite IH by lia.
Qed.

Lemma from_wire_version msg m : from_wire msg = Ok m → from_be (sub 0 1 msg) = 1.
Proof.
  unfold from_wire. destruct (_ <? 20); [done|]. destruct (N.eqb_spec (from_be (sub 0 1 msg)) 1); done.
Qed.

(** The decoder reads exactly what the octets say. *)
Lemma from_wire_on_wire msg m :
  20 <= blen msg → from_be (sub 1 3 msg) = blen msg → from_be (sub 0 1 msg) = 1 →
  from_wire msg = Ok m ↔ on_wire msg m.
Proof.
  intros H20 Hlen Hver. unfold from_wire. rewrite Hver, Hlen, !(proj2 (N.ltb_ge _ _)) by lia.
  cbn [N.eqb Pos.eqb negb orb].
  replace (N.to_nat (blen msg - 20)) with (String.length msg - 20)%nat by (unfold blen; lia).
  rewrite sub_drop. split.
  - intros (l & Hp & [= <-])%bind_Ok. apply parsed_carries in Hp. unfold blen in *.
    exists (sub 0 1 msg), (sub 1 3 msg), (sub 4 1 msg), (sub 5 3 msg), (sub 8 4 msg), (sub 12 4 msg),
      (sub 16 4 msg), (str_drop 20 msg). cbn [flags command_code application_id hop_by_hop end_to_end avps].
    split_and!; try done; try (apply field_sub; lia); [|split; [apply sub_length; lia|done]..].
    rewrite (sub_split 16 4), (sub_split 12 4), (sub_split 8 4), (sub_split 5 3), (sub_split 4 1),
      (sub_split 1 3), (sub_split 0 1). by destruct msg.
  - intros (v & n & f & c & a & h & e & body & Hmsg & [Lv _] & [Ln _] & [Lf Hf] & [Lc Hc] & [La Ha]
      & [Lh Hh] & [Le He] & Hb).
    assert (Hbody : str_drop 20 msg = body).
    { rewrite Hmsg, <- !append_assoc. set (p := _ +:+ e).
      replace 20%nat with (String.length p) by (unfold p; rewrite !str_length_app; lia). apply str_drop_app. }
    rewrite Hbody. unfold parse_avps. rewrite (carries_parsed _ _ _ _ Hb) by lia.
    assert (Hsub : ∀ i k x y z, msg = x +:+ y +:+ z → String.length x = i → String.length y = k →
      sub i k msg = y) by (intros i k x y z ->; apply sub_at).
    rewrite (Hsub 4%nat 1%nat (v +:+ n) f (c +:+ a +:+ h +:+ e +:+ body)),
      (Hsub 5%nat 3%nat (v +:+ n +:+ f) c (a +:+ h +:+ e +:+ body)),
      (Hsub 8%nat 4%nat (v +:+ n +:+ f +:+ c) a (h +:+ e +:+ body)),
      (Hsub 12%nat 4%nat (v +:+ n +:+ f +:+ c +:+ a) h (e +:+ body)),
      (Hsub 16%nat 4%nat (v +:+ n +:+ f +:+ c +:+ a +:+ h) e body)
      by first [done | by rewrite ?append_assoc | rewrite !str_length_app; lia].
    rewrite Hf, Hc, Ha, Hh, He. by destruct m.
Qed.


(** C33: a relay loses nothing.  A message that the framer took off a connection
    and that was decoded is, by the format of the RFC, that tree and no other:
    every AVP that is in the octets, known or not, with its code, vendor, flags
    and value, in order, groups included.  What is written for the tree is by the
    same format that tree, so only padding, octets too few for an AVP, and the
    lengths over them can differ; it decodes to the same tree again, is at most
    three eighths longer, and the next framer takes exactly it off the stream
    unless it has become longer than a message may be. *)
Theorem diameter_relay_lossless (stream msg rest : bytes) (m : DiameterMsg) :
  read_diameter_message stream = Ok (msg, rest) → from_wire msg = Ok m →
  on_wire msg m ∧ (∀ m', on_wire msg m' → m' = m) ∧
  on_wire (to_wire m) m ∧ from_wire (to_wire m) = Ok m ∧ 8 * blen (to_wire m) <= 11 * blen msg ∧
  (∀ more, blen (to_wire m) <= 1048576 →
     read_diameter_message (to_wire m +:+ more) = Ok (to_wire m, more)).
Proof.
  intros Hr Hm. destruct (read_message_ok _ _ _ Hr) as (_ & [Hmin Hmax] & Hlen).
  pose proof (from_wire_version _ _ Hm) as Hv.
  destruct (from_wire_ok msg m Hm Hmax) as [Hok Hgrow]. pose proof (from_to_wire m Hok) as Hback.
  destruct (to_wire_header m "" Hok) as [Hv' Hlen']. rewrite append_nil_r in Hv', Hlen'.
  pose proof (to_wire_length m) as Hw. split_and!; try done.
  - by apply from_wire_on_wire.
  - intros m' Hm'. apply from_wire_on_wire in Hm'; [congruence|done..].
  - apply from_wire_on_wire; [lia|done..].
  - intros more. by apply read_written.
Qed.

(** A request with a group whose last AVP is not padded. *)
Definition sample_wire : bytes :=
  encode_diameter_message FLAG_REQUEST 257 0 1 2
    (encode_avp_utf8 SESSION_ID "a;1;1" +:+
     encode_avp_grouped 279 (to_be 4 SESSION_ID +:+ to_be 1 64 +:+ to_be 3 9 +:+ "x")).

Definition sample_tree : DiameterMsg :=
  mkDiameterMsg FLAG_REQUEST 257 0 1 2
    [mkAvp 263 0 64 (RawData "a;1;1"); mkAvp 279 0 64 (GroupedData [mkAvp 263 0 64 (RawData "x")])].

Lemma diameter_relay_lossless_witness :
  from_wire sample_wire = Ok sample_tree ∧ on_wire sample_wire sample_tree ∧
  on_wire (to_wire sample_tree) sample_tree ∧ to_wire sample_tree ≠ sample_wire.
Proof.
  split; [vm_compute; reflexivity|].
  destruct (diameter_relay_lossless (sample_wire +:+ "rest") sample_wire "rest" sample_tree
    ltac:(vm_compute; reflexivity) ltac:(vm_compute; reflexivity)) as (Hin & _ & Hout & _).
  split_and!; [exact Hin|exact Hout|]. vm_compute. done.
Defined.
