(* ===== verification/DiameterJson.v ===== *)
(** * The JSON view of a Diameter message

    The two decoders of [Diameter] agree: the object a script sees is the tree of
    the relay with the AVPs gathered by name.  And the object is typed by the
    dictionary, whatever bytes came in. *)

From S2P Require Import Prelude Str Bytes Transport AvpTable Dictionary Diameter DiameterProofs.

#[local] Open Scope N_scope.

(** ** The object as a view of the tree *)

Definition gather (m : list (string * Value)) (l : list (string * Value)) : list (string * Value) :=
  foldl (λ m p, map_add p.1 p.2 m) m l.

(** Name and value of an AVP of the tree. *)
Fixpoint avp_json (a : Avp) : string * Value :=
  let 'mkAvp c v _ d := a in
  match lookup_avp c v with
  | Some def =>
      (def_name def, match d with
                     | RawData b => decode_avp_value (λ _, VNull) (def_data_type def) b
                     | GroupedData l => VObject (gather [] (avp_json <$> l))
                     end)
  | None =>
      (fallback_name c v, match d with
                          | RawData b => VString (hex_encode b)
                          | GroupedData _ => VNull
                          end)
  end.

(** The value under a name that these AVPs have: one, or an array of several. *)
Definition collapse (l : list Value) : option Value :=
  match l with [] => None | [v] => Some v | _ => Some (VArray l) end.

Definition named (k : string) (l : list (string * Value)) : list Value :=
  snd <$> filter (λ p, p.1 = k) l.

Definition is_array (v : Value) : bool := match v with VArray _ => true | _ => false end.

Lemma map_get_insert k n v m :
  map_get k (map_insert n v m) = if bool_decide (k = n) then Some v else map_get k m.
Proof.
  induction m as [|[k' v'] m IH]; cbn [map_insert map_get]; [by case_bool_decide|].
  destruct (String.compare n k') eqn:Hc; cbn [map_get].
  - apply String.compare_eq_iff in Hc as ->. by repeat case_bool_decide.
  - by repeat case_bool_decide.
  - rewrite IH. repeat case_bool_decide; subst; try done.
    pose proof (String.compare_antisym k' k') as Ha. by rewrite Hc in Ha.
Qed.

Definition extend (o : option Value) (v : Value) : Value :=
  match o with
  | Some (VArray a) => VArray (a ++ [v])
  | Some other => VArray [other; v]
  | None => v
  end.

Lemma map_get_add k n v m :
  map_get k (map_add n v m) = if bool_decide (k = n) then Some (extend (map_get n m) v) else map_get k m.
Proof. unfold map_add. by destruct (map_get n m) as [[]|]; rewrite map_get_insert. Qed.

Lemma collapse_snoc l v :
  forallb (negb ∘ is_array) l = true → collapse (l ++ [v]) = Some (extend (collapse l) v).
Proof.
  destruct l as [|x [|y l]]; cbn; [done| |done]. by destruct x.
Qed.

Lemma gather_snoc m l p : gather m (l ++ [p]) = map_add p.1 p.2 (gather m l).
Proof. unfold gather. by rewrite foldl_app. Qed.

Lemma gather_get k l :
  forallb (λ p, negb (is_array p.2)) l = true → map_get k (gather [] l) = collapse (named k l).
Proof.
  induction l as [|p l IH] using rev_ind; [done|]. rewrite forallb_app. intros [Hl Hp]%andb_prop.
  specialize (IH Hl). rewrite gather_snoc, map_get_add. unfold named in *. rewrite filter_app, fmap_app.
  rewrite filter_cons, filter_nil. destruct p as [n v]. cbn [fst snd].
  case_bool_decide as Hk; [subst k; rewrite decide_True by done|rewrite decide_False by congruence]; rewrite IH.
  - cbn [fmap list_fmap snd]. rewrite collapse_snoc; [done|].
    apply forallb_forall. intros x Hx. apply list_elem_of_In, list_elem_of_fmap in Hx as (q & -> & Hq).
    apply list_elem_of_filter in Hq as [_ Hq]. exact (forallb_elem _ _ _ Hl Hq).
  - by rewrite app_nil_r.
Qed.

Lemma decode_address_string data : ∃ s, decode_address data = VString s.
Proof.
  unfold decode_address. destruct (_ <? 2); [by eexists|]. cbn zeta.
  destruct (andb _ _); [by eexists|]. destruct (andb _ _); by eexists.
Qed.

Lemma decode_value_not_array g ty b :
  is_array (g b) = false → is_array (decode_avp_value g ty b) = false.
Proof.
  intros Hg. destruct ty; cbn [decode_avp_value]; try done; try by case_match.
  by destruct (decode_address_string b) as [s ->].
Qed.

Lemma avp_json_not_array l : forallb (λ p, negb (is_array p.2)) (avp_json <$> l) = true.
Proof.
  induction l as [|[c v f d] l IH]; [done|]. cbn [fmap list_fmap forallb]. apply andb_true_intro.
  split; [|exact IH]. cbn [avp_json]. destruct (lookup_avp c v) as [def|], d; cbn [snd]; try done.
  by rewrite decode_value_not_array.
Qed.

(** Where the strict decoder succeeds the lossy one walks the same AVPs. *)
Lemma decode_parsed n k off data l m :
  parse_avps_loop n off data = Ok l → (String.length data < k)%nat →
  decode_avps_loop k m data = VObject (gather m (avp_json <$> l)).
Proof.
  revert k off data l m. induction n as [|n IH]; intros k off data l m Hp Hk; [done|].
  destruct k as [|k]; [lia|]. cbn [parse_avps_loop] in Hp. cbn [decode_avps_loop].
  destruct (N.ltb_spec (blen data) 8) as [_|H8]; [by injection Hp as <-|].
  set (code := from_be (sub 0 4 data)) in *. set (flags := from_be (sub 4 1 data)) in *.
  set (len := from_be (sub 5 3 data)) in *. set (hv := has_flag AVP_FLAG_VENDOR flags) in *.
  set (hdr := if hv then 12 else 8) in *.
  assert (Hhdr : 8 <= hdr ∧ (hv = true → hdr = 12)) by (unfold hdr; destruct hv; lia).
  destruct (N.ltb_spec len hdr) as [|Hh]; [done|]. destruct (N.ltb_spec (blen data) len) as [|Hl]; [done|].
  rewrite (proj2 (N.ltb_ge len 8)) by lia. cbn [orb].
  rewrite (proj2 (N.leb_le hdr len)), (proj2 (N.leb_le len _)) by done. cbn [andb].
  assert (Hv : (if hv && (12 <=? blen data) then from_be (sub 8 4 data) else 0)
    = if hv then from_be (sub 8 4 data) else 0).
  { destruct hv; [|done]. by rewrite (proj2 (N.leb_le _ _)) by lia. }
  rewrite Hv. clear Hv. set (vendor := if hv then _ else 0) in *. clearbody code flags hv vendor.
  apply bind_Ok in Hp as (value & Hv & Hp). apply bind_Ok in Hp as (rest & Hr & Hp). injection Hp as <-.
  set (vb := sub (N.to_nat hdr) (N.to_nat (len - hdr)) data) in *.
  assert (Hvb : (String.length vb < k)%nat).
  { unfold vb, blen in *. rewrite sub_length; lia. }
  assert (Hname : name_and_value (decode_avps_loop k []) code vendor vb
    = avp_json (mkAvp code vendor flags value)).
  { unfold is_grouped in Hv. unfold name_and_value. cbn [avp_json].
    destruct (lookup_avp code vendor) as [def|]; [|by injection Hv as <-].
    case_bool_decide as Hg.
    - rewrite Hg. destruct (parse_avps_loop n 0 vb) as [l'|] eqn:Hl'; [|done]. injection Hv as <-.
      cbn [decode_avp_value]. by rewrite (IH _ _ _ _ _ Hl' Hvb).
    - injection Hv as <-. by destruct (def_data_type def). }
  rewrite Hname. destruct (avp_json _) as [name decoded] eqn:Hj.
  rewrite (IH _ _ _ _ _ Hr) by (rewrite str_drop_length; pose proof (padded_bounds len); unfold blen in *; lia).
  cbn [fmap list_fmap]. by rewrite Hj.
Qed.

(** The lossy decoder on what the framer and the strict decoder accept. *)
Lemma decode_from_wire stream msg rest m :
  read_diameter_message stream = Ok (msg, rest) → from_wire msg = Ok m →
  ∃ version len, decode_diameter msg = Some (mkDiameterMessage version len (flags m) (command_code m)
    (application_id m) (hop_by_hop m) (end_to_end m) (msg_is_request m)
    (VObject (gather [] (avp_json <$> avps m))) msg).
Proof.
  intros (_ & [H20 _] & Hlen)%read_message_ok. unfold from_wire, decode_diameter.
  rewrite (proj2 (N.ltb_ge _ _)) by done. destruct (negb _); [done|]. rewrite Hlen.
  destruct (orb _ _); [done|]. intros (l & Hp & [= <-])%bind_Ok. unfold parse_avps in Hp.
  replace (N.to_nat (blen msg - 20)) with (String.length msg - 20)%nat in Hp by (unfold blen; lia).
  rewrite sub_drop in Hp. eexists _, _. f_equal. cbn [avps].
  rewrite <- (decode_parsed _ (S (String.length (str_drop 20 msg))) _ _ _ [] Hp) by lia. done.
Qed.

(** C34: the object scripts see and the tree a relay keeps are one message.  Where
    the framer and the strict decoder accept a message, the lossy decoder has
    the same header fields, and its object has under each name the values of the
    AVPs of that name in order: none, the one there is, or an array of them;
    groups are objects of the same kind. *)
Theorem diameter_views_agree (stream msg rest : bytes) (m : DiameterMsg) :
  read_diameter_message stream = Ok (msg, rest) → from_wire msg = Ok m →
  ∃ d, decode_diameter msg = Some d ∧
    (dm_flags d, dm_command_code d, dm_application_id d, dm_hop_by_hop d, dm_end_to_end d, dm_is_request d)
    = (flags m, command_code m, application_id m, hop_by_hop m, end_to_end m, msg_is_request m) ∧
    dm_avps d = VObject (gather [] (avp_json <$> avps m)) ∧
    (∀ name, value_get name (dm_avps d) = collapse (named name (avp_json <$> avps m))).
Proof.
  intros Hr Hm. destruct (decode_from_wire _ _ _ _ Hr Hm) as (version & len & Hd).
  eexists. split; [exact Hd|]. split_and!; [done..|]. intros name. apply gather_get, avp_json_not_array.
Qed.

Lemma diameter_views_agree_witness :
  ∃ d, decode_diameter sample_wire = Some d ∧ value_get "Session-Id" (dm_avps d) = Some (VString "a;1;1").
Proof.
  destruct (diameter_views_agree sample_wire sample_wire "" sample_tree
    ltac:(vm_compute; reflexivity) ltac:(vm_compute; reflexivity)) as (d & Hd & _ & _ & Hget).
  exists d. split; [exact Hd|]. rewrite Hget. vm_compute. reflexivity.
Defined.

(** ** The object is typed by the dictionary *)

Definition number_in (lo hi : Z) (v : Value) : bool :=
  match v with
  | VNumber n => (lo <=? n)%Z && (n <? hi)%Z
  | VString s => str_forall is_ascii_hexdigit s   (* too short for its type *)
  | _ => false
  end.

Definition string_of (p : string → bool) (v : Value) : bool :=
  match v with VString s => p s | _ => false end.

(** An AVP that is not in the dictionary is shown like an octet string. *)
Definition type_of_name (k : string) : AvpType :=
  match lookup_by_name k with Some def => def_data_type def | None => OctetString end.

Definition flat_typed (ty : AvpType) (v : Value) : bool :=
  match ty with
  | UTF8String | DiameterIdentity => string_of utf8_valid v
  | OctetString => string_of (str_forall is_ascii_hexdigit) v
  | TbcdString => string_of (str_forall is_ascii_digit) v
  | Address => string_of (λ _, true) v
  | Unsigned32 | Enumerated | Time => number_in 0 (2 ^ 32) v
  | Integer32 => number_in (- 2 ^ 31) (2 ^ 31) v
  | Unsigned64 => number_in 0 (2 ^ 64) v
  | Grouped => false
  end.

(** An array stands for two AVPs of a name or more. *)
Fixpoint json_typed (ty : AvpType) (v : Value) : bool :=
  match ty, v with
  | Grouped, VObject m =>
      forallb (λ p : string * Value,
        match p.2 with
        | VArray l => (2 <=? length l)%nat && forallb (json_typed (type_of_name p.1)) l
        | _ => json_typed (type_of_name p.1) p.2
        end) m
  | _, _ => flat_typed ty v
  end.

Lemma json_typed_flat ty v : flat_typed ty v = true → json_typed ty v = true.
Proof. by destruct ty, v. Qed.

Definition entry_typed (p : string * Value) : bool :=
  match p.2 with
  | VArray l => (2 <=? length l)%nat && forallb (json_typed (type_of_name p.1)) l
  | _ => json_typed (type_of_name p.1) p.2
  end.

Lemma grouped_typed m : json_typed Grouped (VObject m) = forallb entry_typed m.
Proof. done. Qed.

Lemma array_not_typed ty l : json_typed ty (VArray l) = false.
Proof. by destruct ty. Qed.

Lemma entry_typed_one k v : json_typed (type_of_name k) v = true → entry_typed (k, v) = true.
Proof. unfold entry_typed. cbn [fst snd]. destruct v; try done. by rewrite array_not_typed. Qed.

Lemma map_insert_typed k v m :
  entry_typed (k, v) = true → forallb entry_typed m = true → forallb entry_typed (map_insert k v m) = true.
Proof.
  intros Hv. induction m as [|[k' v'] m IH]; cbn [map_insert forallb].
  { by rewrite Hv. }
  intros [Hv' Hm]%andb_prop. destruct (String.compare k k'); cbn [forallb].
  - by rewrite Hv, Hm.
  - by rewrite Hv, Hv', Hm.
  - by rewrite Hv', IH.
Qed.

Lemma map_get_typed k v m : forallb entry_typed m = true → map_get k m = Some v → entry_typed (k, v) = true.
Proof.
  induction m as [|[k' v'] m IH]; cbn [map_get forallb]; [done|]. intros [Hv Hm]%andb_prop.
  case_bool_decide; [|by apply IH]. intros [= <-]. by subst.
Qed.

Lemma map_add_typed k v m :
  json_typed (type_of_name k) v = true → forallb entry_typed m = true →
  forallb entry_typed (map_add k v m) = true.
Proof.
  intros Hv Hm. unfold map_add. destruct (map_get k m) as [old|] eqn:Hold.
  - apply map_get_typed in Hold; [|done].
    assert (Hpair : ∀ o, json_typed (type_of_name k) o = true → entry_typed (k, VArray [o; v]) = true).
    { intros o Ho. unfold entry_typed. cbn [fst snd forallb length Nat.leb]. by rewrite Ho, Hv. }
    destruct old; try by apply map_insert_typed; [apply Hpair|].
    apply map_insert_typed; [|done]. unfold entry_typed in *. cbn [fst snd] in *.
    apply andb_prop in Hold as [Hl Hall]. apply Nat.leb_le in Hl.
    rewrite length_app, forallb_app, Hall. cbn [forallb length]. rewrite Hv.
    by rewrite (proj2 (Nat.leb_le _ _)) by lia.
  - apply map_insert_typed; [by apply entry_typed_one|done].
Qed.

Lemma tbcd_decode_digits s : str_forall is_ascii_digit (decode_tbcd_digits s) = true.
Proof.
  induction s as [|b s IH]; [done|]. cbn [decode_tbcd_digits]. rewrite !str_forall_app, IH, andb_true_r.
  destruct b as [[] [] [] [] [] [] [] []]; vm_compute; reflexivity.
Qed.

Lemma number_typed lo hi k data (n : Z) :
  (lo <= n < hi)%Z →
  number_in lo hi (if k <=? blen data then VNumber n else VString (hex_encode data)) = true.
Proof.
  intros Hn. destruct (k <=? blen data); cbn [number_in]; [|apply hex_encode_digits].
  apply andb_true_intro. split; [apply Z.leb_le|apply Z.ltb_lt]; lia.
Qed.

Lemma i32_range n : n < 2 ^ 32 → (- 2 ^ 31 <= i32_of_bits n < 2 ^ 31)%Z.
Proof. intros Hn. unfold i32_of_bits. destruct (N.ltb_spec n (2 ^ 31)); lia. Qed.

Lemma decode_value_typed g ty data :
  json_typed Grouped (g data) = true → json_typed ty (decode_avp_value g ty data) = true.
Proof.
  intros Hg. pose proof (from_be_bound 0 4 data) as H4. pose proof (from_be_bound 0 8 data) as H8.
  change (256 ^ N.of_nat 4) with (2 ^ 32) in H4. change (256 ^ N.of_nat 8) with (2 ^ 64) in H8.
  destruct ty; cbn [decode_avp_value]; [..|exact Hg| | | |]; apply json_typed_flat; cbn [flat_typed].
  - apply hex_encode_digits.
  - apply lossy_is_valid.
  - apply number_typed. lia.
  - apply number_typed. lia.
  - apply number_typed. by apply i32_range.
  - apply number_typed. lia.
  - by destruct (decode_address_string data) as [s ->].
  - apply number_typed. set (x := _ mod _). assert (x < 2 ^ 32) by by apply N.mod_lt. lia.
  - apply lossy_is_valid.
  - apply tbcd_decode_digits.
Qed.

Lemma fallback_typed c v : type_of_name (fallback_name c v) = OctetString.
Proof.
  unfold type_of_name. rewrite made_up_name; [done|]. unfold fallback_name.
  destruct (v =? 0); [exact (starts_with_app "AVP-" (dec c))|exact (starts_with_app "AVP-" _)].
Qed.

Lemma decode_loop_typed n m data :
  forallb entry_typed m = true → json_typed Grouped (decode_avps_loop n m data) = true.
Proof.
  revert m data. induction n as [|n IH]; intros m data Hm; [exact Hm|].
  cbn [decode_avps_loop]. destruct (_ <? 8); [by rewrite grouped_typed|].
  destruct (orb _ _); [by rewrite grouped_typed|]. destruct (_ <? _); [by rewrite grouped_typed|].
  set (hv := has_flag _ _). set (len := from_be (sub 5 3 data)).
  set (vendor := if hv && _ then _ else 0). set (vb := if _ && _ then _ else _). clearbody vendor vb.
  destruct (name_and_value _ _ vendor vb) as [name decoded] eqn:Hnv.
  apply IH, map_add_typed; [|done]. unfold name_and_value in Hnv.
  destruct (lookup_avp _ vendor) as [def|] eqn:Hdef; injection Hnv as <- <-.
  - unfold type_of_name. rewrite (lookup_avp_name _ _ _ Hdef). apply decode_value_typed, IH. done.
  - rewrite fallback_typed. apply hex_encode_digits.
Qed.

(** C35: the object is typed.  Whatever the bytes of a message are, the object the
    lossy decoder makes of it has under each name of the dictionary a value of
    the type the dictionary gives the name: a number within the range of the
    type, or the hexadecimal digits of a value that is too short for it; UTF-8
    text; digits; an object, typed in the same way, for a group; or an array of
    such values where the AVP came more than once.  Only a message shorter than
    a header is refused. *)
Theorem diameter_json_typed (msg : bytes) :
  match decode_diameter msg with
  | Some d => json_typed Grouped (dm_avps d)
  | None => blen msg <? 20
  end = true.
Proof.
  unfold decode_diameter. destruct (blen msg <? 20); [done|]. cbn [dm_avps].
  by apply decode_loop_typed.
Qed.
