(* ===== verification/DiameterRelay.v ===== *)
(** * Relaying Diameter requests ([diameter/forward.rs])

    The message work of a relay: route records and the loop check, the rewrite of
    the origin, the answers it makes itself, and [forward_to] of
    [script/api/diameter_server.rs], which puts them together.  A request that
    passes a chain of relays, on the wire between each two of them, never passes
    one twice. *)

From S2P Require Import Prelude Str Bytes Transport AvpTable Dictionary Diameter DiameterProofs DiameterJson.

#[local] Open Scope N_scope.

(** ** Forwarding *)

Inductive ForwardError := PeerUnreachable | Timeout | PeerClosed | Overload | LoopDetected.

(** UNABLE_TO_DELIVER, TOO_BUSY, LOOP_DETECTED. *)
Definition result_code (e : ForwardError) : N :=
  match e with
  | PeerUnreachable | PeerClosed => 3002
  | Timeout | Overload => 3004
  | LoopDetected => 3005
  end.

Definition has_route_record (m : DiameterMsg) (identity : string) : bool :=
  existsb (λ record, bool_decide (avp_as_str record = Some identity)) (find_all m ROUTE_RECORD 0).

Definition route_record (identity : string) : Avp := avp_utf8 ROUTE_RECORD 0 identity.

Definition append_route_record (m : DiameterMsg) (identity : string) : DiameterMsg :=
  with_avps m (avps m ++ [route_record identity]).

Definition rewrite_origin (m : DiameterMsg) (origin_host origin_realm : string) : DiameterMsg :=
  let m := (remove_avp ORIGIN_HOST 0 m).1 in
  let m := (remove_avp ORIGIN_REALM 0 m).1 in
  with_avps m (avps m ++ [avp_utf8 ORIGIN_HOST 0 origin_host; avp_utf8 ORIGIN_REALM 0 origin_realm]).

Definition prepare_forward (m : DiameterMsg) (local_identity : string) : result ForwardError DiameterMsg :=
  if has_route_record m local_identity then Err LoopDetected
  else Ok (append_route_record m local_identity).

(** ** Answers *)

(** The answer of the command, or the [answer-message] of RFC 6733 section 7.2. *)
Inductive Grammar := Command | AnswerMessage.

Definition sets_error_bit (g : Grammar) (result_code : N) : bool :=
  let protocol := (3000 <=? result_code) && (result_code <? 4000) in
  match g with
  | Command => protocol
  | AnswerMessage => protocol || ((5000 <=? result_code) && (result_code <? 6000))
  end.

Definition answer_in (g : Grammar) (request : DiameterMsg) (origin_host origin_realm : string)
    (result_code : N) (error_message : option string) : DiameterMsg :=
  let f := N.land (flags request) FLAG_PROXIABLE in
  let f := if sets_error_bit g result_code then N.lor f FLAG_ERROR else f in
  mkDiameterMsg f (command_code request) (application_id request) (hop_by_hop request)
    (end_to_end request)
    (option_list (find_avp request SESSION_ID 0) ++
     [avp_u32 RESULT_CODE 0 result_code; avp_utf8 ORIGIN_HOST 0 origin_host;
      avp_utf8 ORIGIN_REALM 0 origin_realm] ++
     option_list (avp_utf8 ERROR_MESSAGE 0 <$> error_message)).

Definition build_answer (request : DiameterMsg) (origin_host origin_realm : string)
    (result_code : N) (error_message : option string) : DiameterMsg :=
  answer_in Command request origin_host origin_realm result_code error_message.

Definition build_error_answer (request : DiameterMsg) (origin_host origin_realm : string)
    (result_code : N) (error_message : string) : DiameterMsg :=
  answer_in AnswerMessage request origin_host origin_realm result_code (Some error_message).

(** ** [forward_to] *)

(** The texts of the [thiserror] attributes. *)
Definition forward_error_text (e : ForwardError) : string :=
  match e with
  | PeerUnreachable => "no reachable backend peer"
  | Timeout => "backend did not answer within the timeout"
  | PeerClosed => "backend connection closed"
  | Overload => "overloaded"
  | LoopDetected => "forwarding loop detected"
  end.

(** [tree.hop_by_hop = n] and [tree.end_to_end = n]. *)
Definition with_ids (hbh e2e : N) (m : DiameterMsg) : DiameterMsg :=
  mkDiameterMsg (flags m) (command_code m) (application_id m) hbh e2e (avps m).

(** What goes to the peer, or the answer that refuses it.  [next_hbh] is the
    peer's next Hop-by-Hop identifier. *)
Definition forward_request (origin_host origin_realm : string) (identity : option (string * string))
    (next_hbh : N) (tree : DiameterMsg) : result DiameterMsg DiameterMsg :=
  let tree := match identity with
              | Some (origin_host, origin_realm) => rewrite_origin tree origin_host origin_realm
              | None => tree
              end in
  match prepare_forward tree origin_host with
  | Err error => Err (build_error_answer tree origin_host origin_realm (result_code error)
                        (forward_error_text error))
  | Ok tree => Ok (with_ids next_hbh (end_to_end tree) tree)
  end.

(** The answer that goes upstream, from what became of the request [tree] that
    was sent: the octets of the peer's answer, or why there is none. *)
Definition forward_reply (origin_host origin_realm : string) (inbound_hbh inbound_e2e : N)
    (tree : DiameterMsg) (sent : result string bytes) : DiameterMsg :=
  match sent with
  | Ok raw =>
      match from_wire raw with
      | Ok answer_tree => with_ids inbound_hbh inbound_e2e answer_tree
      | Err _ => build_error_answer tree origin_host origin_realm 3002 "malformed answer from backend"
      end
  | Err reason =>
      build_error_answer tree origin_host origin_realm
        (match find_str "timed out" reason with Some _ => 3004 | None => 3002 end) reason
  end.

(** [send] is the peer: the octets sent to it, and its answer. *)
Definition forward_to (origin_host origin_realm : string) (identity : option (string * string))
    (next_hbh : N) (send : bytes → result string bytes) (request : DiameterMsg) : DiameterMsg :=
  match forward_request origin_host origin_realm identity next_hbh request with
  | Err answer => answer
  | Ok tree => forward_reply origin_host origin_realm (hop_by_hop request) (end_to_end request) tree
                 (send (to_wire tree))
  end.

(** ** The label of a received answer ([diameter/peer.rs]) *)

Definition decoded_answer_result_label (answer : DiameterMessage) : string :=
  let base := v ← value_get "Result-Code" (dm_avps answer); value_as_u64 v in
  let in_group := g ← value_get "Experimental-Result" (dm_avps answer); value_get "Experimental-Result-Code" g in
  let shown := match in_group with
               | Some v => Some v
               | None => value_get "Experimental-Result-Code" (dm_avps answer)
               end in
  let experimental := v ← shown; value_as_u64 v in
  let u32 := fmap (M:=option) (λ n, n mod 2 ^ 32) in
  let label := answer_result_label (u32 base) (u32 experimental) in
  match base, experimental with
  | None, None =>
      if negb (is_empty (dm_raw answer)) then
        match from_wire (dm_raw answer) with
        | Ok tree => let '(base, experimental) := answer_result_codes tree in
                     answer_result_label base experimental
        | Err _ => label
        end
      else label
  | _, _ => label
  end.

(** ** Route records *)

(** The AVPs a relay writes: the M bit, no vendor, no group. *)
Lemma identity_avp code id :
  code ∈ [ROUTE_RECORD; ORIGIN_HOST; ORIGIN_REALM] →
  avp_utf8 code 0 id = mkAvp code 0 AVP_FLAG_MANDATORY (RawData id).
Proof.
  intros Hc. unfold avp_utf8, avp_raw. replace (avp_is_mandatory code 0) with true; [done|].
  repeat (apply elem_of_cons in Hc as [-> |Hc]; [vm_compute; reflexivity|]). by apply elem_of_nil in Hc.
Qed.

Lemma identity_avp_ok code id :
  code ∈ [ROUTE_RECORD; ORIGIN_HOST; ORIGIN_REALM] → blen id < 2 ^ 16 →
  avp_ok (avp_utf8 code 0 id) = true ∧ blen (encode_one_avp (avp_utf8 code 0 id)) < 2 ^ 17.
Proof.
  intros Hc Hid. rewrite identity_avp by done. rewrite encode_one_avp_length.
  change (header_size _ + blen (value_bytes _)) with (8 + blen id).
  pose proof (padded_bounds (8 + blen id)). split; [|lia]. cbn [avp_ok].
  change (header_size _ + blen (value_bytes _)) with (8 + blen id).
  assert (Hg : is_grouped code 0 = false ∧ (code <? 2 ^ 32) = true).
  { repeat (apply elem_of_cons in Hc as [-> |Hc]; [split; vm_compute; reflexivity|]). by apply elem_of_nil in Hc. }
  destruct Hg as [-> ->]. cbn [negb andb]. rewrite !andb_true_r. apply N.ltb_lt. lia.
Qed.

Lemma has_route_record_append m id id' :
  utf8_valid id = true →
  has_route_record (append_route_record m id) id' = has_route_record m id' || bool_decide (id = id').
Proof.
  intros Hid. unfold has_route_record, append_route_record, find_all. cbn [with_avps avps].
  rewrite filter_app, existsb_app. unfold route_record. rewrite identity_avp by set_solver. f_equal.
  rewrite filter_cons, decide_True, filter_nil by done. cbn [existsb]. rewrite orb_false_r.
  unfold avp_as_str. cbn [raw_bytes avp_value fmap option_fmap option_map].
  rewrite lossy_valid by done. apply bool_decide_ext. naive_solver.
Qed.

Lemma prepare_forward_Ok m id m' :
  prepare_forward m id = Ok m' ↔ has_route_record m id = false ∧ m' = append_route_record m id.
Proof. unfold prepare_forward. destruct (has_route_record m id); naive_solver. Qed.

(** ** A chain of relays *)

Inductive HopError := Unreadable (e : ReadError) | Undecodable (e : DecodeError) | Refused (answer : DiameterMsg).

(** A relay: its identity, the one it shows instead, the identifier it is about
    to use. *)
Record Relay := mkRelay {
  origin_host : string;
  origin_realm : string;
  shown : option (string * string);
  next_hbh : N;
}.

(** One relay: from the bytes on the connection to the bytes on the next one. *)
Definition hop (n : Relay) (stream : bytes) : result HopError bytes :=
  '(msg, _) ← map_err Unreadable (read_diameter_message stream);
  m ← map_err Undecodable (from_wire msg);
  m' ← map_err Refused (forward_request (origin_host n) (origin_realm n) (shown n) (next_hbh n) m);
  Ok (to_wire m').

Fixpoint relay (path : list Relay) (stream : bytes) : result HopError bytes :=
  match path with
  | [] => Ok stream
  | n :: path => out ← hop n stream; relay path out
  end.

(** An Origin-Host or Origin-Realm. *)
Definition is_origin (a : Avp) : bool := is_avp ORIGIN_HOST 0 a || is_avp ORIGIN_REALM 0 a.

Definition origins (shown : string * string) : list Avp :=
  [avp_utf8 ORIGIN_HOST 0 shown.1; avp_utf8 ORIGIN_REALM 0 shown.2].

(** [m'] is [m] after the relays of [path]. *)
Record Passed (path : list Relay) (m m' : DiameterMsg) : Prop := mkPassed {
  passed_header : (flags m', command_code m', application_id m', end_to_end m') =
                  (flags m, command_code m, application_id m, end_to_end m);
  passed_hbh : last (next_hbh <$> path) = Some (hop_by_hop m');
  passed_avps : filter (λ a, ¬ is_origin a) (avps m') =
                filter (λ a, ¬ is_origin a) (avps m) ++ (route_record ∘ origin_host <$> path);
  passed_origin : filter is_origin (avps m') =
                  match last (omap shown path) with
                  | Some s => origins s
                  | None => filter is_origin (avps m)
                  end;
}.

Definition identity_ok (id : string) : bool := utf8_valid id && (blen id <? 2 ^ 16).

Definition node_ok (n : Relay) : bool :=
  identity_ok (origin_host n) && (next_hbh n <? 2 ^ 32) &&
  match shown n with Some (h, r) => identity_ok h && identity_ok r | None => true end.

(** What is put on the wire in place of [m]. *)
Definition shown_as (identity : option (string * string)) (m : DiameterMsg) : DiameterMsg :=
  match identity with Some (h, r) => rewrite_origin m h r | None => m end.

Lemma origins_origin s : filter is_origin (origins s) = origins s ∧ filter (λ a, ¬ is_origin a) (origins s) = [].
Proof. unfold origins. rewrite !identity_avp by set_solver. done. Qed.

Lemma rewrite_origin_avps m h r :
  avps (rewrite_origin m h r) = filter (λ a, ¬ is_origin a) (avps m) ++ origins (h, r).
Proof.
  unfold rewrite_origin, remove_avp. cbn [fst with_avps avps]. f_equal. rewrite list_filter_filter.
  apply list_filter_iff. intros a. unfold is_origin. destruct (is_avp ORIGIN_HOST 0 a), (is_avp ORIGIN_REALM 0 a); naive_solver.
Qed.

Lemma filter_disjoint (l : list Avp) : filter is_origin (filter (λ a, ¬ is_origin a) l) = [].
Proof.
  induction l as [|a l IH]; [done|]. rewrite filter_cons. case_decide as Ha; [|done].
  by rewrite filter_cons, decide_False.
Qed.

(** An Origin AVP is no Route-Record. *)
Lemma record_not_origin a : is_avp ROUTE_RECORD 0 a → ¬ is_origin a.
Proof.
  unfold is_origin, is_avp. destruct (N.eqb_spec (avp_code a) ROUTE_RECORD) as [->|]; [|done].
  cbn. by intros _ [].
Qed.

Lemma shown_as_records identity m i : has_route_record (shown_as identity m) i = has_route_record m i.
Proof.
  destruct identity as [[h r]|]; [|done]. unfold has_route_record, find_all, shown_as.
  rewrite rewrite_origin_avps, filter_app, list_filter_filter_l by apply record_not_origin.
  unfold origins. rewrite !identity_avp by set_solver. cbn. by rewrite app_nil_r.
Qed.

Lemma forward_request_Ok n m m1 :
  forward_request (origin_host n) (origin_realm n) (shown n) (next_hbh n) m = Ok m1 →
  has_route_record m (origin_host n) = false ∧
  m1 = with_ids (next_hbh n) (end_to_end m) (append_route_record (shown_as (shown n) m) (origin_host n)).
Proof.
  unfold forward_request. change (match shown n with Some _ => _ | None => m end) with (shown_as (shown n) m).
  destruct (prepare_forward _ _) as [m2|] eqn:Hp; [|done]. intros [= <-].
  apply prepare_forward_Ok in Hp as [Hn ->]. rewrite shown_as_records in Hn. split; [done|].
  by destruct (shown n) as [[]|].
Qed.

Lemma passed_one n m :
  Passed [n] m
    (with_ids (next_hbh n) (end_to_end m) (append_route_record (shown_as (shown n) m) (origin_host n))).
Proof.
  assert (Hr : filter is_origin [route_record (origin_host n)] = [] ∧
    filter (λ a, ¬ is_origin a) [route_record (origin_host n)] = [route_record (origin_host n)]).
  { unfold route_record. rewrite identity_avp by set_solver. done. }
  destruct Hr as [Hr1 Hr2]. destruct (shown n) as [[h r]|] eqn:Hs; split; [done|done| | |done|done| |];
    cbn [shown_as with_ids append_route_record with_avps avps fmap list_fmap compose].
  - rewrite rewrite_origin_avps, !filter_app, Hr2, (proj2 (origins_origin (h, r))), app_nil_r. f_equal. by apply list_filter_filter_l.
  - rewrite rewrite_origin_avps, !filter_app, Hr1, filter_disjoint, app_nil_r, app_nil_l.
    cbn [omap list_omap]. rewrite Hs. apply (origins_origin (h, r)).
  - by rewrite filter_app, Hr2.
  - rewrite filter_app, Hr1, app_nil_r. cbn [omap list_omap]. by rewrite Hs.
Qed.

Lemma passed_cons n path m m1 m2 :
  path ≠ [] → Passed [n] m m1 → Passed path m1 m2 → Passed (n :: path) m m2.
Proof.
  intros Hne [A1 _ A3 A4] [B1 B2 B3 B4]. split.
  - congruence.
  - rewrite fmap_cons, last_cons. by rewrite B2.
  - rewrite B3, A3, <- app_assoc. done.
  - rewrite B4. replace (omap shown (n :: path)) with (omap shown [n] ++ omap shown path)
      by (cbn; by destruct (shown n)).
    rewrite last_app. destruct (last (omap shown path)); done.
Qed.

Lemma encode_avps_app l1 l2 : encode_avps (l1 ++ l2) = encode_avps l1 +:+ encode_avps l2.
Proof. unfold encode_avps. by rewrite fmap_app, str_concat_app. Qed.

Lemma encode_filter (P : Avp → Prop) `{∀ a, Decision (P a)} l :
  blen (encode_avps (filter P l)) <= blen (encode_avps l) ∧
  (forallb avp_ok l = true → forallb avp_ok (filter P l) = true).
Proof.
  induction l as [|a l [IH1 IH2]]; [done|]. rewrite filter_cons, encode_avps_cons, blen_app. cbn [forallb].
  case_decide; [rewrite encode_avps_cons, blen_app; cbn [forallb]|]; (split; [lia|]);
    intros [Ha Hl]%andb_prop; [by rewrite Ha, IH2|by apply IH2].
Qed.

(** What a relay sends fits the wire. *)
Lemma forwarded_ok msg m n :
  from_wire msg = Ok m → blen msg <= 1048576 → node_ok n = true →
  msg_ok (with_ids (next_hbh n) (end_to_end m)
            (append_route_record (shown_as (shown n) m) (origin_host n))) = true.
Proof.
  intros Hm Hmsg Hn. destruct (from_wire_ok _ _ Hm Hmsg) as [Hok Hlen]. rewrite to_wire_length in Hlen.
  unfold node_ok, identity_ok in Hn. rewrite !andb_true_iff, !N.ltb_lt in Hn. destruct Hn as [[[_ Hid] Hh] Hs].
  destruct (identity_avp_ok ROUTE_RECORD (origin_host n) ltac:(left) Hid) as [Hr1 Hr2].
  assert (Ha : forallb avp_ok (avps (shown_as (shown n) m)) = true ∧
    blen (encode_avps (avps (shown_as (shown n) m))) <= blen (encode_avps (avps m)) + 2 ^ 18).
  { unfold msg_ok in Hok. rewrite !andb_true_iff in Hok. destruct Hok as [[_ Hl] _].
    destruct (shown n) as [[h r]|]; [|split; [exact Hl|cbn [shown_as]; lia]]. cbn [shown_as]. rewrite rewrite_origin_avps.
    rewrite !andb_true_iff, !N.ltb_lt in Hs. destruct Hs as [[_ H1] [_ H2]].
    destruct (identity_avp_ok ORIGIN_HOST h ltac:(right; left) H1) as [Ho1 Ho2].
    destruct (identity_avp_ok ORIGIN_REALM r ltac:(right; right; left) H2) as [Hq1 Hq2].
    destruct (encode_filter (λ a, ¬ is_origin a) (avps m)) as [Hf1 Hf2]. split.
    - rewrite forallb_app, Hf2 by done. cbn [origins fst snd forallb]. by rewrite Ho1, Hq1.
    - rewrite encode_avps_app, blen_app. unfold origins. cbn [fst snd]. rewrite !encode_avps_cons, !blen_app.
      change (blen (encode_avps [])) with 0. lia. }
  destruct Ha as [Ha1 Ha2]. assert (Hhead : flags (shown_as (shown n) m) = flags m ∧
    command_code (shown_as (shown n) m) = command_code m ∧
    application_id (shown_as (shown n) m) = application_id m) by by destruct (shown n) as [[]|].
  destruct Hhead as (E1 & E2 & E3). unfold msg_ok in *.
  cbn [with_ids append_route_record with_avps flags command_code application_id hop_by_hop end_to_end avps].
  rewrite E1, E2, E3. rewrite !andb_true_iff in *. destruct Hok as [[[[Hhead _] He] _] _].
  split; [split; [split; [split; [exact Hhead|]|exact He]|]|].
  - by apply N.ltb_lt.
  - rewrite forallb_app, Ha1. cbn [forallb]. unfold route_record. by rewrite Hr1.
  - apply N.ltb_lt. rewrite encode_avps_app, blen_app, encode_avps_cons, blen_app.
    change (blen (encode_avps [])) with 0. unfold route_record. lia.
Qed.

Lemma map_err_Ok {E F A} (f : E → F) (r : result E A) a : map_err f r = Ok a ↔ r = Ok a.
Proof. destruct r; naive_solver. Qed.

(** One relay of the chain. *)
Lemma hop_Ok n stream out :
  node_ok n = true → hop n stream = Ok out →
  ∃ msg rest m m', read_diameter_message stream = Ok (msg, rest) ∧ from_wire msg = Ok m ∧
    has_route_record m (origin_host n) = false ∧ Passed [n] m m' ∧
    (∀ i, has_route_record m' i = has_route_record m i || bool_decide (origin_host n = i)) ∧
    out = to_wire m' ∧ msg_ok m' = true.
Proof.
  intros Hn. unfold hop. intros ([msg rest] & Hr%map_err_Ok & H)%bind_Ok.
  apply bind_Ok in H as (m & Hm%map_err_Ok & H). apply bind_Ok in H as (m' & Hf%map_err_Ok & [= <-]).
  apply forward_request_Ok in Hf as [Hno ->]. pose proof (read_message_ok _ _ _ Hr) as (_ & [_ Hmax] & _).
  exists msg, rest, m. eexists. split; [exact Hr|]. split; [exact Hm|]. split; [exact Hno|].
  split; [apply passed_one|]. split; [|split; [reflexivity|exact (forwarded_ok _ _ _ Hm Hmax Hn)]].
  intros i. rewrite <- (shown_as_records (shown n) m i).
  unfold node_ok, identity_ok in Hn. rewrite !andb_true_iff in Hn. destruct Hn as [[[Hutf _] _] _].
  exact (has_route_record_append _ _ i Hutf).
Qed.

(** C36: a request never passes a relay twice.  A request that has gone through a
    chain of relays, each of which takes it off its connection, decodes it,
    perhaps shows another origin, checks and adds the route record, gives it an
    identifier of its own and writes it out, has met no identity twice, and none
    that its route records named before.  What arrives at the end is the request:
    its flags, command, application and End-to-End identifier; the Hop-by-Hop
    identifier of the last relay; all AVPs but the origin, and behind them the
    route records of the chain, in order; and the origin that the last relay to
    show one showed, or its own.  Identities are UTF-8 and shorter than 64 KiB,
    identifiers of 32 bits. *)
Theorem diameter_no_loop (n : Relay) (path : list Relay) (stream out : bytes) :
  forallb node_ok (n :: path) = true → relay (n :: path) stream = Ok out →
  ∃ msg rest m m', read_diameter_message stream = Ok (msg, rest) ∧ from_wire msg = Ok m ∧
    NoDup (origin_host <$> n :: path) ∧
    Forall (λ i, has_route_record m (origin_host i) = false) (n :: path) ∧
    from_wire out = Ok m' ∧ Passed (n :: path) m m'.
Proof.
  revert n stream. induction path as [|n' path IH]; intros n stream Hok Hrelay.
  all: apply andb_prop in Hok as [Hn Hok].
  all: change (relay (n :: ?p) stream) with (out ← hop n stream; relay p out) in Hrelay.
  all: apply bind_Ok in Hrelay
    as (o & (msg & rest & m & m1 & Hr & Hm & Hno & Hp & Hrec & -> & Hok1)%hop_Ok & Hrelay); [|done].
  all: exists msg, rest, m.
  - injection Hrelay as <-. exists m1.
    split_and!; [done..|apply NoDup_singleton|by repeat constructor|by apply from_to_wire|done].
  - apply IH in Hrelay as (msg' & rest' & m1' & m' & Hr' & Hm' & Hnd & Hnone & Hout & Hp'); [|exact Hok].
    apply read_written_all in Hr' as ->; [|done]. rewrite from_to_wire in Hm' by done. injection Hm' as <-.
    rewrite Forall_forall in Hnone. exists m'. split_and!; [done..| | |done|by eapply passed_cons].
    + rewrite fmap_cons. constructor; [|exact Hnd]. intros (i & Hi & Hin)%list_elem_of_fmap.
      specialize (Hnone i Hin). rewrite Hrec, Hi, bool_decide_eq_true_2, orb_true_r in Hnone by done. done.
    + constructor; [done|]. apply Forall_forall. intros i Hin. specialize (Hnone i Hin).
      rewrite Hrec in Hnone. by apply orb_false_iff in Hnone as [? _].
Qed.

Definition relay_a : Relay := mkRelay "a.example" "example" None 7.
Definition relay_b : Relay := mkRelay "b.example" "example" (Some ("edge.example", "example")) 9.

Lemma diameter_no_loop_witness :
  (relay [relay_a; relay_b; relay_a] sample_wire =
     Err (Refused (build_error_answer
       (mkDiameterMsg FLAG_REQUEST 257 0 9 2 (avps sample_tree ++ [route_record "a.example"] ++
          origins ("edge.example", "example") ++ [route_record "b.example"]))
       "a.example" "example" 3005 "forwarding loop detected"))) ∧
  ∃ out m, relay [relay_a; relay_b] sample_wire = Ok out ∧ from_wire out = Ok m ∧
    Passed [relay_a; relay_b] sample_tree m.
Proof.
  split; [vm_compute; reflexivity|].
  destruct (relay [relay_a; relay_b] sample_wire) as [out|] eqn:Hout; [|by vm_compute in Hout].
  destruct (diameter_no_loop relay_a [relay_b] sample_wire out
    ltac:(vm_compute; reflexivity) Hout) as (msg & rest & m & m' & Hr & Hm & _ & _ & Hw & Hp).
  assert (Hr' : read_diameter_message sample_wire = Ok (sample_wire, "")) by (vm_compute; reflexivity).
  assert (Hm' : from_wire sample_wire = Ok sample_tree) by (vm_compute; reflexivity).
  rewrite Hr' in Hr. injection Hr as <- <-. rewrite Hm' in Hm. injection Hm as <-.
  exists out, m'. split; [reflexivity|]. split; [exact Hw|exact Hp].
Defined.

(** ** The identifiers of the answer *)

(** An answer of the peer goes upstream under the identifiers of the request. *)
Theorem relayed_answer_ids origin_host origin_realm identity next_hbh send request tree raw answer :
  forward_request origin_host origin_realm identity next_hbh request = Ok tree →
  send (to_wire tree) = Ok raw → from_wire raw = Ok answer →
  let a := forward_to origin_host origin_realm identity next_hbh send request in
  hop_by_hop a = hop_by_hop request ∧ end_to_end a = end_to_end request ∧
  avps a = avps answer ∧ flags a = flags answer.
Proof. intros Hf Hs Ha. unfold forward_to, forward_reply. by rewrite Hf, Hs, Ha. Qed.

(** The answer made for a peer that does not answer carries the identifier the
    relay used towards that peer, not the one of the request. *)
Example timeout_answer_ids :
  let a := forward_to "a.example" "example" None 7 (λ _, Err "request timed out") sample_tree in
  hop_by_hop sample_tree = 1 ∧ hop_by_hop a = 7 ∧ end_to_end a = end_to_end sample_tree ∧
  avp_as_u32 <$> find_avp a RESULT_CODE 0 = Some (Some 3004).
Proof. vm_compute. split_and!; reflexivity. Qed.

(** ** The two ways to read the result of an answer *)

(** An AVP has the name of a definition if it has its code and vendor. *)
Lemma json_name a d :
  d ∈ all_definitions →
  (avp_json a).1 = def_name d ↔ avp_code a = def_code d ∧ avp_vendor a = def_vendor_id d.
Proof.
  intros Hd. destruct a as [c v f x]. cbn [avp_code avp_vendor avp_json].
  destruct (lookup_avp c v) as [e|] eqn:He; cbn [fst].
  - pose proof (proj1 (lookup_avp_spec _ _ _) He) as (Hin & Hc & Hv). split.
    + intros Hn. assert (lookup_by_name (def_name d) = Some d) by by apply lookup_by_name_spec.
      rewrite <- Hn, (lookup_avp_name _ _ _ He) in *. by simplify_eq.
    + intros [-> ->]. assert (H : lookup_avp (def_code d) (def_vendor_id d) = Some d)
        by by apply lookup_avp_spec. rewrite H in He. by injection He as ->.
  - split.
    + intros Hn. assert (H : lookup_by_name (def_name d) = Some d) by by apply lookup_by_name_spec.
      rewrite <- Hn in H. rewrite made_up_name in H; [done|]. unfold fallback_name.
      destruct (v =? 0); apply (starts_with_app "AVP-").
    + intros [-> ->]. assert (H : lookup_avp (def_code d) (def_vendor_id d) = Some d)
        by by apply lookup_avp_spec. congruence.
Qed.

Lemma named_filter d l :
  d ∈ all_definitions →
  named (def_name d) (avp_json <$> l)
  = (λ a, (avp_json a).2) <$> filter (is_avp (def_code d) (def_vendor_id d)) l.
Proof.
  intros Hd. unfold named. induction l as [|a l IH]; [done|]. rewrite fmap_cons, !filter_cons.
  destruct (is_avp (def_code d) (def_vendor_id d) a) eqn:Ha; unfold is_avp in Ha.
  - apply andb_prop in Ha as [Hc%N.eqb_eq Hv%N.eqb_eq]. rewrite decide_True by by apply json_name.
    rewrite decide_True by done. by rewrite !fmap_cons, IH.
  - rewrite decide_False; [rewrite decide_False by (by intros []); exact IH|].
    rewrite json_name, <- !N.eqb_eq, <- andb_true_iff, Ha by done. done.
Qed.

(** At most one AVP of the code, and that without a vendor. *)
Definition lone (code : N) (l : list Avp) : bool :=
  forallb (λ a, negb (avp_code a =? code) || (avp_vendor a =? 0)) l &&
  (length (filter (is_avp code 0) l) <=? 1)%nat.

Lemma find_first_head {A} (p : A → bool) l : find_first p l = head (filter p l).
Proof.
  unfold find_first. induction l as [|x l IH]; [done|]. cbn [list_find]. rewrite filter_cons.
  destruct (decide (p x)); [done|]. rewrite <- IH. by destruct (list_find _ l) as [[]|].
Qed.

Lemma lone_cases code l :
  lone code l = true →
  (filter (is_avp code 0) l = [] ∧ find_first (λ a, avp_code a =? code) l = None) ∨
  (∃ f x, filter (is_avp code 0) l = [mkAvp code 0 f x] ∧
     mkAvp code 0 f x ∈ l ∧ find_first (λ a, avp_code a =? code) l = Some (mkAvp code 0 f x)).
Proof.
  intros [Hv Hn]%andb_prop. rewrite find_first_head.
  replace (filter (λ a, avp_code a =? code) l) with (filter (is_avp code 0) l).
  2: { clear Hn. induction l as [|a l IH]; [done|]. cbn [forallb] in Hv. apply andb_prop in Hv as [Ha Hv].
       rewrite !filter_cons, IH by done.
       assert (Heq : is_avp code 0 a = (avp_code a =? code)).
       { unfold is_avp. destruct (avp_code a =? code); [exact Ha|done]. }
       destruct (decide (is_avp code 0 a)) as [H|H]; rewrite Heq in H.
       - by rewrite decide_True.
       - by rewrite decide_False. }
  destruct (filter (is_avp code 0) l) as [|a [|b t]] eqn:Hf; [by left|right|done].
  assert (Hin : a ∈ filter (is_avp code 0) l) by (rewrite Hf; left).
  apply list_elem_of_filter in Hin as [Ha Hin]. apply Is_true_true in Ha. unfold is_avp in Ha.
  apply andb_prop in Ha as [Hc%N.eqb_eq Hz%N.eqb_eq]. destruct a as [c v f x]. cbn in Hc, Hz. subst.
  by exists f, x.
Qed.

(** A 32-bit field that comes once at most reads the same in both views. *)
Lemma lone_field d l :
  d ∈ all_definitions → def_vendor_id d = 0 → def_data_type d = Unsigned32 →
  lone (def_code d) l = true →
  (λ n, n mod 2 ^ 32) <$> (v ← map_get (def_name d) (gather [] (avp_json <$> l)); value_as_u64 v)
  = (a ← find_first (λ a, avp_code a =? def_code d) l; avp_as_u32 a).
Proof.
  intros Hd Hv Ht Hl. rewrite gather_get by apply avp_json_not_array. rewrite named_filter, Hv by done.
  destruct (lone_cases _ _ Hl) as [[-> ->]|(f & x & -> & _ & ->)]; [done|].
  assert (H : lookup_avp (def_code d) 0 = Some d) by (apply lookup_avp_spec; by rewrite Hv).
  cbn [fmap list_fmap collapse mbind option_bind avp_json]. rewrite H, Ht. cbn [snd].
  unfold avp_as_u32. destruct x as [b|l']; [|done]. cbn [decode_avp_value raw_bytes avp_value mbind option_bind].
  destruct (4 <=? blen b); [|done]. cbn [value_as_u64]. rewrite (proj2 (Z.leb_le _ _)) by lia.
  cbn [fmap option_fmap option_map]. rewrite N2Z.id, N.mod_small; [done|]. apply (from_be_bound 0 4).
Qed.

(** Result-Code and Experimental-Result come once at most and without a vendor,
    and so does the code inside the latter, which is nowhere else. *)
Definition conformant (m : DiameterMsg) : bool :=
  lone RESULT_CODE (avps m) && lone EXPERIMENTAL_RESULT (avps m) &&
  forallb (λ a, negb (avp_code a =? EXPERIMENTAL_RESULT_CODE)) (avps m) &&
  forallb (λ a, negb (avp_code a =? EXPERIMENTAL_RESULT) ||
    match avp_value a with GroupedData l => lone EXPERIMENTAL_RESULT_CODE l | RawData _ => true end) (avps m).

Definition result_code_def := mkAvpDef RESULT_CODE 0 "Result-Code" Unsigned32.
Definition experimental_def := mkAvpDef EXPERIMENTAL_RESULT 0 "Experimental-Result" Grouped.
Definition experimental_code_def := mkAvpDef EXPERIMENTAL_RESULT_CODE 0 "Experimental-Result-Code" Unsigned32.

Lemma in_dictionary c v d : lookup_avp c v = Some d → d ∈ all_definitions.
Proof. by intros [? _]%lookup_avp_spec. Qed.

Lemma result_defs :
  result_code_def ∈ all_definitions ∧ experimental_def ∈ all_definitions ∧
  experimental_code_def ∈ all_definitions.
Proof.
  split_and!; [apply (in_dictionary RESULT_CODE 0)|apply (in_dictionary EXPERIMENTAL_RESULT 0)
              |apply (in_dictionary EXPERIMENTAL_RESULT_CODE 0)]; vm_compute; reflexivity.
Qed.

Lemma filter_absent c v l :
  forallb (λ a, negb (avp_code a =? c)) l = true → filter (is_avp c v) l = [].
Proof.
  induction l as [|a l IH]; [done|]. cbn [forallb]. intros [Ha Hl]%andb_prop.
  rewrite filter_cons, decide_False; [by apply IH|]. unfold is_avp.
  apply negb_true_iff in Ha. rewrite Ha. by intros [].
Qed.

(** The experimental code inside its group. *)
Lemma experimental_agrees l :
  forallb avp_ok l = true → lone EXPERIMENTAL_RESULT l = true →
  forallb (λ a, negb (avp_code a =? EXPERIMENTAL_RESULT_CODE)) l = true →
  forallb (λ a, negb (avp_code a =? EXPERIMENTAL_RESULT) ||
    match avp_value a with GroupedData l => lone EXPERIMENTAL_RESULT_CODE l | RawData _ => true end) l = true →
  let m := gather [] (avp_json <$> l) in
  (λ n, n mod 2 ^ 32) <$>
    (v ← match g ← map_get "Experimental-Result" m; value_get "Experimental-Result-Code" g with
         | Some v => Some v | None => map_get "Experimental-Result-Code" m end; value_as_u64 v)
  = (group ← find_first (λ a, avp_code a =? EXPERIMENTAL_RESULT) l;
     match avp_value group with
     | GroupedData children =>
         c ← find_first (λ a, avp_code a =? EXPERIMENTAL_RESULT_CODE) children; avp_as_u32 c
     | RawData b => match parse_avps b with
                    | Ok children => c ← find_first (λ a, avp_code a =? EXPERIMENTAL_RESULT_CODE) children; avp_as_u32 c
                    | Err _ => None
                    end
     end).
Proof.
  intros Hok Hone Hno Hinner m. destruct result_defs as (_ & He & Hc).
  assert (Htop : map_get "Experimental-Result-Code" m = None).
  { unfold m. rewrite gather_get by apply avp_json_not_array.
    rewrite (named_filter experimental_code_def) by done.
    by rewrite filter_absent. }
  rewrite Htop. unfold m. rewrite (gather_get "Experimental-Result") by apply avp_json_not_array.
  rewrite (named_filter experimental_def) by done. cbn [experimental_def def_code def_vendor_id].
  destruct (lone_cases _ _ Hone) as [[-> ->]|(f & x & -> & Hin & ->)]; [done|].
  pose proof (forallb_elem _ _ _ Hok Hin) as Hg. pose proof (forallb_elem _ _ _ Hinner Hin) as Hl.
  cbn [avp_ok] in Hg. apply andb_prop in Hg as [_ Hg].
  replace (is_grouped EXPERIMENTAL_RESULT 0) with true in Hg by (vm_compute; reflexivity).
  destruct x as [b|children]; [done|]. cbn [avp_code avp_value] in Hl. rewrite N.eqb_refl in Hl.
  cbn [negb orb] in Hl. cbn [fmap list_fmap collapse mbind option_bind avp_json avp_value].
  replace (lookup_avp EXPERIMENTAL_RESULT 0) with (Some experimental_def) by (vm_compute; reflexivity).
  cbn [snd value_get]. rewrite <- (lone_field experimental_code_def) by done.
  cbn [experimental_code_def def_name].
  assert (Hid : ∀ o : option Value, match o with Some v => Some v | None => None end = o) by by intros [].
  by rewrite Hid.
Qed.

(** Both readings of an answer agree.  The result of an answer is read from the
    JSON object where the answer comes in and from the tree where one goes out;
    on an answer that has Result-Code and Experimental-Result once at most, as
    the specifications have them, both give the same label. *)
Theorem answer_labels_agree (stream msg rest : bytes) (m : DiameterMsg) :
  read_diameter_message stream = Ok (msg, rest) → from_wire msg = Ok m → conformant m = true →
  ∃ d, decode_diameter msg = Some d ∧
    decoded_answer_result_label d
    = answer_result_label (answer_result_codes m).1 (answer_result_codes m).2.
Proof.
  intros Hr Hm [[[Hbase Hone]%andb_prop Hno]%andb_prop Hinner]%andb_prop.
  pose proof (read_message_ok _ _ _ Hr) as (_ & [H20 Hmax] & _).
  destruct (from_wire_ok _ _ Hm Hmax) as [Hok _]. unfold msg_ok in Hok.
  apply andb_prop in Hok as [[_ Hok]%andb_prop _].
  destruct (decode_from_wire _ _ _ _ Hr Hm) as (version & len & Hd). eexists. split; [exact Hd|].
  unfold decoded_answer_result_label. cbn [dm_avps dm_raw value_get]. rewrite Hm.
  pose proof (lone_field result_code_def (avps m) (proj1 result_defs) eq_refl eq_refl Hbase) as H1.
  pose proof (experimental_agrees (avps m) Hok Hone Hno Hinner) as H2.
  cbn [result_code_def def_name def_code] in H1. cbn zeta in H2.
  unfold answer_result_codes. cbn [fst snd]. rewrite <- H1, <- H2.
  clear Hd. revert H1 H2. generalize (map_get "Result-Code" (gather [] (avp_json <$> avps m)) ≫= λ v, value_as_u64 v).
  intros base _. match goal with |- _ <$> ?e = _ → _ => generalize e end. intros exper _.
  assert (Hraw : is_empty msg = false) by (destruct msg; [done|done]).
  destruct base, exper; cbn; [done..|]. by rewrite Hraw.
Qed.

Definition experimental_5001 : bytes :=
  encode_avp_grouped EXPERIMENTAL_RESULT
    (encode_avp_u32 VENDOR_ID VENDOR_3GPP +:+ encode_avp_u32 EXPERIMENTAL_RESULT_CODE 5001).

Definition sample_answer : bytes :=
  encode_diameter_message FLAG_PROXIABLE 300 CX_APP_ID 1 2
    (encode_avp_utf8 SESSION_ID "a;1;1" +:+ experimental_5001).

Definition sample_answer_tree : DiameterMsg :=
  mkDiameterMsg FLAG_PROXIABLE 300 CX_APP_ID 1 2
    [mkAvp 263 0 64 (RawData "a;1;1");
     mkAvp 297 0 64 (GroupedData [mkAvp 266 0 64 (RawData (to_be 4 10415)); mkAvp 298 0 64 (RawData (to_be 4 5001))])].

Lemma answer_labels_agree_witness :
  ∃ d, decode_diameter sample_answer = Some d ∧ decoded_answer_result_label d = "exp:5001".
Proof.
  destruct (answer_labels_agree sample_answer sample_answer "" sample_answer_tree
    ltac:(vm_compute; reflexivity) ltac:(vm_compute; reflexivity) ltac:(vm_compute; reflexivity))
    as (d & Hd & Hl).
  exists d. split; [exact Hd|]. rewrite Hl. vm_compute. reflexivity.
Defined.

(** An answer with two Result-Codes and an Experimental-Result is read in two
    ways: the array is no number, so the object gives the experimental code. *)
Example labels_differ :
  let answer := encode_diameter_message FLAG_PROXIABLE 300 CX_APP_ID 1 2
    (encode_avp_u32 RESULT_CODE 2001 +:+ encode_avp_u32 RESULT_CODE 2001 +:+ experimental_5001) in
  (decoded_answer_result_label <$> decode_diameter answer) = Some "exp:5001" ∧
  (λ m, answer_result_label (answer_result_codes m).1 (answer_result_codes m).2) <$> ok (from_wire answer)
  = Some "2001".
Proof. split; vm_compute; reflexivity. Qed.
