(* ===== verification/DiameterValues.v ===== *)
(** * Diameter values, written and read

    The encoders of single AVPs write what the tree of [Diameter] has for them,
    so that what they write is read back by either decoder; the hexadecimal and
    TBCD texts lead back to their digits. *)

From S2P Require Import Prelude Str Bytes Transport AvpTable Dictionary Diameter DiameterProofs DiameterJson.

#[local] Open Scope N_scope.

(** ** Digits *)

Lemma hex_pair b :
  (hi ← hex_digit (hex_char (N.shiftr (code b) 4)); lo ← hex_digit (hex_char (N.land (code b) 15));
   Some (ascii_of_N (N.lor (N.shiftl hi 4) lo))) = Some b.
Proof. destruct b as [[] [] [] [] [] [] [] []]; vm_compute; reflexivity. Qed.

Lemma hex_round_trip s : hex_decode (hex_encode s) = Some s.
Proof.
  induction s as [|b s IH]; [done|]. cbn [hex_encode hex_decode]. pose proof (hex_pair b) as Hb.
  apply bind_Some in Hb as (hi & Hhi & Hb). apply bind_Some in Hb as (lo & Hlo & Hb).
  rewrite Hhi, Hlo, IH. cbn [mbind option_bind]. by injection Hb as ->.
Qed.

(** The digits of a text. *)
Definition only_digits (s : string) : string :=
  String.string_of_list_ascii (filter is_ascii_digit (String.list_ascii_of_string s)).

Lemma digit_values_digits s :
  Forall (λ n, n < 10) (digit_values s) ∧
  only_digits s = str_concat (tbcd_digit <$> digit_values s).
Proof.
  unfold only_digits. induction s as [|b s [IH1 IH2]]; [by split|].
  cbn [digit_values String.list_ascii_of_string]. rewrite filter_cons.
  destruct (is_ascii_digit b) eqn:Hb.
  - rewrite decide_True by done. pose proof Hb as Hr. apply in_range_true in Hr. split.
    + constructor; [lia|done].
    + assert (Ht : tbcd_digit (code b - 48) = String b "").
      { unfold tbcd_digit. rewrite (proj2 (N.leb_le _ _)) by lia. f_equal.
        replace (48 + (code b - 48)) with (code b) by lia. apply ascii_N_embedding. }
      cbn [String.string_of_list_ascii fmap list_fmap str_concat]. rewrite IH2, Ht.
      by rewrite append_cons, append_nil_l.
  - rewrite decide_False by (by intros []). done.
Qed.

Lemma tbcd_byte lo hi :
  lo < 16 → hi < 16 →
  let b := ascii_of_N (N.lor (N.shiftl hi 4) lo) in
  N.land (code b) 15 = lo ∧ N.land (N.shiftr (code b) 4) 15 = hi.
Proof.
  intros Hlo Hhi.
  assert (H : forallb (λ lo, forallb (λ hi,
    let b := ascii_of_N (N.lor (N.shiftl hi 4) lo) in
    (N.land (code b) 15 =? lo) && (N.land (N.shiftr (code b) 4) 15 =? hi))
    (N.of_nat <$> seq 0 16)) (N.of_nat <$> seq 0 16) = true) by (vm_compute; reflexivity).
  assert (Hin : ∀ n, n < 16 → n ∈ N.of_nat <$> seq 0 16).
  { intros n Hn. apply list_elem_of_fmap. exists (N.to_nat n). rewrite N2Nat.id. split; [done|].
    apply elem_of_seq. lia. }
  pose proof (forallb_elem _ _ _ H (Hin lo Hlo)) as H1. cbv beta in H1.
  pose proof (forallb_elem _ _ _ H1 (Hin hi Hhi)) as H2. cbn zeta in H2 |- *.
  apply andb_prop in H2 as [?%N.eqb_eq ?%N.eqb_eq]. done.
Qed.

Lemma tbcd_unpack n l :
  (length l ≤ n)%nat → Forall (λ d, d < 10) l →
  decode_tbcd_digits (tbcd_pack l) = str_concat (tbcd_digit <$> l).
Proof.
  revert l. induction n as [|n IH]; intros [|lo [|hi l]] Hn Hl; cbn [length] in Hn; try lia; try done.
  - apply Forall_cons_1 in Hl as [Hl _]. cbn [tbcd_pack decode_tbcd_digits].
    pose proof (tbcd_byte lo 15 ltac:(lia) ltac:(lia)) as [H1 H2]. by rewrite H1, H2.
  - apply Forall_cons_1 in Hl as [Hlo Hl]. apply Forall_cons_1 in Hl as [Hhi Hl].
    cbn [tbcd_pack decode_tbcd_digits]. pose proof (tbcd_byte lo hi ltac:(lia) ltac:(lia)) as [H1 H2]. rewrite H1, H2.
    by rewrite IH by (done || lia).
Qed.

Lemma tbcd_round_trip s : decode_tbcd_digits (encode_tbcd_digits s) = only_digits s.
Proof.
  destruct (digit_values_digits s) as [Hd ->]. by eapply tbcd_unpack.
Qed.

Lemma isdn_round_trip s : decode_isdn_address_string (encode_isdn_address_string s TON_NPI_INTERNATIONAL_E164) = only_digits s.
Proof. exact (tbcd_round_trip s). Qed.

(** The digits after a filler are not dropped: decoding does not stop there. *)
Example tbcd_filler_skipped : decode_tbcd_digits (String "241" (String "050" "")) = "123".
Proof. reflexivity. Qed.

(** ** The encoders and the tree *)

Lemma encode_avp_tree c f data :
  has_flag AVP_FLAG_VENDOR f = false → encode_avp c f data = encode_one_avp (mkAvp c 0 f (RawData data)).
Proof.
  intros Hf. unfold encode_avp. cbn [encode_one_avp]. rewrite Hf. by rewrite append_nil_l.
Qed.

Lemma encode_avp_vendor_tree c f v data :
  has_flag AVP_FLAG_VENDOR (N.lor f AVP_FLAG_VENDOR) = true →
  encode_avp_vendor c f v data = encode_one_avp (mkAvp c v (N.lor f AVP_FLAG_VENDOR) (RawData data)).
Proof. intros Hf. unfold encode_avp_vendor. cbn [encode_one_avp]. by rewrite Hf. Qed.

(** An AVP of the dictionary that is not a group, written and decoded. *)
Lemma decode_written d data :
  d ∈ all_definitions → def_data_type d ≠ Grouped → def_code d < 2 ^ 32 → def_vendor_id d = 0 →
  8 + blen data < 2 ^ 24 →
  decode_avps (encode_avp (def_code d) AVP_FLAG_MANDATORY data)
  = VObject [(def_name d, decode_avp_value (λ _, VNull) (def_data_type d) data)].
Proof.
  intros Hd Hg Hc Hv Hl. set (a := mkAvp (def_code d) 0 AVP_FLAG_MANDATORY (RawData data)).
  assert (Hlook : lookup_avp (def_code d) 0 = Some d) by (apply lookup_avp_spec; by rewrite Hv).
  assert (Hok : forallb avp_ok [a] = true).
  { cbn [forallb]. rewrite andb_true_r. unfold a. cbn [avp_ok].
    change (header_size _ + blen (value_bytes _)) with (8 + blen data).
    unfold is_grouped. rewrite Hlook, bool_decide_eq_false_2 by done.
    rewrite (proj2 (N.ltb_lt (def_code d) _)), (proj2 (N.ltb_lt (8 + _) _)) by done. done. }
  rewrite encode_avp_tree by done. fold a. replace (encode_one_avp a) with (encode_avps [a]) by apply append_nil_r.
  unfold decode_avps. set (n := S (String.length (encode_avps [a]))).
  rewrite (decode_parsed n _ 0 _ [a]) by ((apply parse_encoded; [done|]) || idtac; unfold n; lia).
  cbn [fmap list_fmap]. unfold a. cbn [avp_json]. rewrite Hlook. done.
Qed.
