(* ===== verification/Binding.v ===== *)
(** * Registrar bindings ([src/src/registrar/mod.rs])

    What the registrar stores: a contact binding with its lifetime, the canonical
    form of an address of record, when two Contact URIs name one device, and the
    order in which the bindings of a user are tried.  [Box] and [Arc] are
    transparent; an [Instant] is a number of nanoseconds. *)

From stdpp Require Import sorting.
From S2P Require Import Prelude Str Nom Headers Uri Message Parser Transport Via NameAddr.

(** ** [f32] comparison and [slice::sort_by]

    The order of [f32]: a NaN is not comparable, any other value is ordered as
    an integer. *)
Class Float32Order `{F : Float32} := { f32_order : f32 → option Z }.

Definition float_whole_order : @Float32Order float_whole :=
  @Build_Float32Order float_whole (λ x : N, Some (Z.of_N x)).

Definition partial_cmp `{O : Float32Order} (a b : f32) : option comparison :=
  a ← f32_order a; b ← f32_order b; Some (a ?= b)%Z.

Definition then_with (c d : comparison) : comparison := match c with Eq => d | _ => c end.

Section sort_by.
Context {A : Type} (cmp : A → A → comparison).

(** The insertion sort the standard library runs on a short slice; the sorted
    part is held last element first. *)
Fixpoint shift_left (x : A) (sorted_rev : list A) : list A :=
  match sorted_rev with
  | [] => [x]
  | y :: rest =>
      match cmp x y with
      | Lt => y :: shift_left x rest
      | _ => x :: sorted_rev
      end
  end.

Definition sort_by (l : list A) : list A :=
  reverse (foldl (λ sorted_rev x, shift_left x sorted_rev) [] l).

End sort_by.

(** [position] of an iterator. *)
Fixpoint position {A} (p : A → bool) (l : list A) : option nat :=
  match l with
  | [] => None
  | x :: l => if p x then Some 0 else S <$> position p l
  end.

(** [trim_end_matches] with an ASCII character and with a string. *)
Definition trim_end_byte (p : byte → bool) (s : string) : string :=
  String.string_of_list_ascii (drop_while_end p (String.list_ascii_of_string s)).

Fixpoint trim_end_loop (fuel : nat) (pat s : string) : string :=
  match fuel with
  | O => s
  | S fuel =>
      match strip_suffix pat s with Some t => trim_end_loop fuel pat t | None => s end
  end.

Definition trim_end_str (pat s : string) : string := trim_end_loop (String.length s) pat s.

(** [split(c).next()]. *)
Definition until (a : byte) (s : string) : string := default s (head (split a s)).

(** ** Addresses of record *)

Definition strip_angles (s : string) : string :=
  trim_end_byte (is_byte ">") (trim_start_matches (is_byte "<") s).

Definition normalize_aor (uri : string) : string :=
  let uri := strip_angles uri in
  let sips := starts_with "sips:" uri in
  let has_scheme := sips || starts_with "sip:" uri in
  let uri := until ";" uri in
  let uri := until "?" uri in
  let uri := if sips then trim_end_str ":5061" uri else trim_end_str ":5060" uri in
  if has_scheme then uri else "sip:" +:+ uri.

Definition is_ascii_control (a : byte) : bool := (code a <? 32)%N || (code a =? 127)%N.

Definition is_aor_key_safe (aor : string) : bool :=
  negb (starts_with "state:" aor) && negb (str_exists is_ascii_control aor).

(** ** Bindings *)

Inductive ContactKind := Ue | As.

#[export] Instance ContactKind_eq_dec : EqDecision ContactKind.
Proof. solve_decision. Defined.

Record InstanceIdentity := mkIdentity { id : string; epoch : string }.

Abbreviation instant := Z (only parsing).

Section binding.
Context {U : Unicode} {P : Nom} {F : Float32} {O : Float32Order}.

Record Contact := mkContact {
  c_uri : SipUri;
  c_q : f32;
  registered_at : instant;
  c_expires_secs : N;   (* u32 *)
  c_call_id : string;
  c_cseq : N;   (* u32 *)
  c_source_addr : option SocketAddr;
  c_source_transport : option Net.Transport;
  c_client_transport : option Net.Transport;
  c_sip_instance : option string;
  c_reg_id : option N;
  c_path : list string;
  pending : bool;
  instance : option InstanceIdentity;
  c_flow_token : option string;
  c_inbound_local_addr : option SocketAddr;
  c_inbound_connection_id : option ConnectionId;
  c_params : list param;
  kind : ContactKind;
  c_auth_user : option string;
}.

Definition is_stream_transport (t : option Net.Transport) : bool :=
  match t with
  | Some (Net.Tcp | Net.Tls | Net.WebSocket | Net.WebSocketSecure) => true
  | _ => false
  end.

(** [registered_at.elapsed().as_secs()]: whole seconds, none for an instant
    still to come. *)
Definition age_seconds (now : instant) (c : Contact) : N :=
  Z.to_N ((now - registered_at c) / 1000000000).

Definition remaining_seconds (now : instant) (c : Contact) : N :=
  (c_expires_secs c - age_seconds now c)%N.

Definition is_expired (now : instant) (c : Contact) : bool :=
  (c_expires_secs c <=? age_seconds now c)%N.

(** The test the source writes inline: a UE binding that has not expired. *)
Definition live_ue (now : instant) (c : Contact) : bool :=
  bool_decide (kind c = Ue) && negb (is_expired now c).

Definition parse_contact_target (contact_uri : string) : option SipUri :=
  ok (parse_uri_standalone (strip_angles (trim contact_uri))).

Definition contact_target (contact_uri : string) : option SipUri :=
  match parse_contact_target contact_uri with
  | Some target => Some target
  | None => parse_contact_target (normalize_aor contact_uri)
  end.

Definition default_port (u : SipUri) : N := if is_sips (scheme u) then 5061%N else 5060%N.

Definition same_contact (stored target : SipUri) : bool :=
  bool_decide (scheme stored = scheme target) &&
  bool_decide (user stored = user target) &&
  bool_decide (to_ascii_lowercase (host stored) = to_ascii_lowercase (host target)) &&
  (default (default_port stored) (port stored) =? default (default_port target) (port target))%N.

(** Highest q first, then the most recently registered. *)
Definition preference (now : instant) (a b : Contact) : comparison :=
  then_with (default Eq (partial_cmp (c_q b) (c_q a)))
    (age_seconds now a ?= age_seconds now b)%N.

Definition sort_by_preference (now : instant) : list Contact → list Contact :=
  sort_by (preference now).

(** ** Requests to the registrar *)

Record RegistrarConfig := mkConfig {
  default_expires : N;
  max_expires : N;
  min_expires : N;
  max_contacts : nat;
  enforce_auth_aor_match : bool;
}.

Record FlowCapture := mkFlow {
  f_flow_token : option string;
  f_inbound_local_addr : option SocketAddr;
  f_inbound_connection_id : option ConnectionId;
  f_client_transport : option Net.Transport;
}.

Record ContactUpdate := mkUpdate {
  u_uri : SipUri;
  u_expires_secs : N;   (* u32 *)
  u_q : f32;
  u_call_id : string;
  u_cseq : N;
  u_source_addr : option SocketAddr;
  u_source_transport : option Net.Transport;
  u_sip_instance : option string;
  u_reg_id : option N;
  u_path : list string;
  u_flow : FlowCapture;
  u_params : list param;
  u_auth_user : option string;
}.

Inductive RegistrarError :=
  | IntervalTooBrief (min : N)
  | TooManyContacts (max : nat)
  | InvalidAor.

(** ** Lemmas *)

Lemma live_ue_true now c : live_ue now c = true ↔ kind c = Ue ∧ is_expired now c = false.
Proof.
  unfold live_ue. rewrite andb_true_iff, bool_decide_eq_true, negb_true_iff. done.
Qed.

End binding.

Abbreviation default_config := (mkConfig 3600 7200 60 10 false) (only parsing).

Section sort_lemmas.
Context {A : Type} (cmp : A → A → comparison).

Lemma shift_left_perm x l : shift_left cmp x l ≡ₚ x :: l.
Proof.
  induction l as [|y l IH]; [done|]. cbn. destruct (cmp x y); [done| |done].
  rewrite IH. apply Permutation_swap.
Qed.

Lemma sort_by_perm l : sort_by cmp l ≡ₚ l.
Proof.
  unfold sort_by. rewrite reverse_Permutation.
  assert (H : ∀ acc, foldl (λ s x, shift_left cmp x s) acc l ≡ₚ l ++ acc).
  { induction l as [|x l IH]; intros acc; [done|]. cbn. rewrite IH, shift_left_perm.
    symmetry. apply Permutation_middle. }
  rewrite H. by rewrite app_nil_r.
Qed.

(** On elements [D] where the comparison is a total preorder, the result is
    sorted. *)
Context (D : A → Prop) (le : A → A → Prop).
Hypothesis cmp_lt : ∀ x y, D x → D y → cmp x y = Lt → le x y.
Hypothesis cmp_ge : ∀ x y, D x → D y → cmp x y ≠ Lt → le y x.
Hypothesis le_trans : ∀ x y z, D x → D y → D z → le x y → le y z → le x z.

Lemma shift_left_sorted x l :
  D x → Forall D l → StronglySorted (flip le) l → StronglySorted (flip le) (shift_left cmp x l).
Proof.
  intros Hx Hd Hs. induction Hs as [|y l Hs IH Hy]; cbn; [by repeat constructor|].
  apply Forall_cons in Hd as [Hdy Hd].
  assert (Hge : cmp x y ≠ Lt → StronglySorted (flip le) (x :: y :: l)).
  { intros Hc. assert (le y x) as Hyx by (by apply cmp_ge).
    constructor; [by constructor|]. constructor; [done|].
    rewrite Forall_forall in Hy, Hd |- *. intros z Hz.
    apply (le_trans z y x); [by apply Hd|done|done|by apply Hy|done]. }
  destruct (cmp x y) eqn:Hc; [by apply Hge| |by apply Hge].
  constructor; [by apply IH|]. rewrite shift_left_perm. constructor; [|done].
  by apply cmp_lt.
Qed.

Lemma sort_by_sorted l : Forall D l → StronglySorted le (sort_by cmp l).
Proof.
  intros Hd. unfold sort_by.
  assert (H : ∀ acc, Forall D acc → StronglySorted (flip le) acc →
    StronglySorted (flip le) (foldl (λ s x, shift_left cmp x s) acc l)).
  { clear -Hd cmp_lt cmp_ge le_trans. induction Hd as [|x l Hx Hd IH]; intros acc Ha Hs; [done|].
    cbn. apply IH; [|by apply shift_left_sorted]. rewrite shift_left_perm. by constructor. }
  specialize (H [] (Forall_nil_2 _) (SSorted_nil _)). revert H.
  generalize (foldl (λ s x, shift_left cmp x s) [] l). clear.
  induction 1 as [|x l Hs IH Hx]; [constructor|]. rewrite reverse_cons.
  clear Hs. revert IH. assert (Forall (λ y, le y x) (reverse l)) as Hr by (by rewrite reverse_Permutation).
  clear Hx. induction Hr as [|y k Hy Hr IHr]; cbn; [repeat constructor|].
  inversion 1; subst. constructor; [by apply IHr|]. apply Forall_app. by repeat constructor.
Qed.

End sort_lemmas.

(** A found position splits the list there. *)
Lemma position_Some {A} (p : A → bool) l i :
  position p l = Some i →
  ∃ l1 x l2, l = l1 ++ x :: l2 ∧ length l1 = i ∧ p x = true ∧ Forall (λ y, p y = false) l1.
Proof.
  revert i. induction l as [|x l IH]; intros i; cbn; [done|].
  destruct (p x) eqn:Hx; [intros [= <-]; by exists [], x, l|].
  intros (j & Hj & ->)%fmap_Some. destruct (IH j Hj) as (l1 & y & l2 & -> & <- & Hy & Hl1).
  exists (x :: l1), y, l2. repeat split; try done. by constructor.
Qed.

Lemma position_None {A} (p : A → bool) l :
  position p l = None → Forall (λ x, p x = false) l.
Proof.
  induction l as [|x l IH]; cbn; [done|]. destruct (p x) eqn:Hx; [done|].
  rewrite fmap_None. intros Hl. constructor; auto.
Qed.
