(* ===== verification/ContactIndex.v ===== *)
(** * The contact index ([src/src/registrar/contact_index.rs])

    A counted reverse index from the identity of a Contact, and from the address
    a REGISTER came from, to the addresses of record holding such a binding.  The
    keys are hashes under a random key, so the hash is any function of the bytes
    written to it ([RandomState]): two identities may share a key.

    [idx_count] reads the index as a multiset; the lemmas say what each operation
    does to it. *)

From stdpp Require Import sorting.
From S2P Require Import Prelude Str Nom Headers Uri Message Parser Transport Via NameAddr Binding.

(** [build_hasher] and [finish] of the index's own hasher, on the bytes written. *)
Class RandomState := { finish : string → N }.

Definition finish_length : RandomState := {| finish s := blen s |}.

(** The [n] low bytes of a number, lowest first and highest first. *)
Fixpoint le_bytes (n : nat) (v : N) : string :=
  match n with
  | O => ""
  | S n => String (ascii_of_N (v mod 256)) (le_bytes n (v / 256))
  end.

Fixpoint octets (n : nat) (v : N) : string :=
  match n with
  | O => ""
  | S n => octets n (v / 256) +:+ String (ascii_of_N (v mod 256)) ""
  end.

(** ** Holders *)
Module Holders.

Inductive Holders :=
  | One (aor : string)
  | Many (counts : gmap string N (* u32 *)).

Definition aors (h : Holders) : list string :=
  match h with
  | One aor => [aor]
  | Many counts => (map_to_list counts).*1
  end.

Definition add (aor : string) (h : Holders) : Holders :=
  let counts := match h with One held => {[held := 1%N]} | Many counts => counts end in
  Many (<[aor := (default 0 (counts !! aor) + 1)%N]> counts).

(** The holders left, and whether any are. *)
Definition remove (aor : string) (h : Holders) : Holders * bool :=
  match h with
  | One held => (One held, bool_decide (held ≠ aor))
  | Many counts =>
      let counts :=
        match counts !! aor with
        | Some count =>
            if (count - 1 =? 0)%N then delete aor counts else <[aor := (count - 1)%N]> counts
        | None => counts
        end in
      let compact := bool_decide (size counts = 1) &&
                     forallb (λ kv, (kv.2 =? 1)%N) (map_to_list counts) in
      let h := match (map_to_list counts).*1 with
               | last :: _ => if compact then One last else Many counts
               | [] => Many counts
               end in
      (h, match h with Many counts => bool_decide (counts ≠ ∅) | One _ => true end)
  end.

(** How many bindings of [aor] there are; no stored count is zero. *)
Definition count (aor : string) (h : Holders) : nat :=
  match h with
  | One held => if decide (held = aor) then 1 else 0
  | Many counts => N.to_nat (default 0%N (counts !! aor))
  end.

Definition wf (h : Holders) : Prop :=
  match h with One _ => True | Many counts => counts ≠ ∅ ∧ map_Forall (λ _ n, (0 < n)%N) counts end.

Lemma held_add_wf aor h : wf h → wf (add aor h).
Proof.
  intros Hwf. split; [apply insert_non_empty|]. apply map_Forall_insert_2; [lia|].
  destruct h as [held|counts]; [by apply map_Forall_singleton|apply Hwf].
Qed.

Lemma held_count_add aor aor' h :
  count aor' (add aor h) = count aor' h + if decide (aor = aor') then 1 else 0.
Proof.
  assert (H : ∀ counts : gmap string N, count aor' (Many (<[aor := (default 0 (counts !! aor) + 1)%N]> counts)) =
    count aor' (Many counts) + if decide (aor = aor') then 1 else 0).
  { intros counts. cbn. destruct (decide (aor = aor')) as [->|].
    - rewrite lookup_insert_eq. cbn. lia.
    - rewrite lookup_insert_ne by done. lia. }
  destruct h as [held|counts]; unfold add; rewrite H; [|done]. f_equal. cbn.
  destruct (decide (held = aor')) as [->|]; [by rewrite lookup_singleton_eq|].
  by rewrite lookup_singleton_ne.
Qed.

(** The counts of [remove], before it compacts. *)
Lemma remove_counts aor counts :
  wf (Many counts) →
  ∃ counts' : gmap string N,
    map_Forall (λ _ n, (0 < n)%N) counts' ∧
    (∀ aor', count aor' (Many counts') =
       count aor' (Many counts) - if decide (aor = aor') then 1 else 0) ∧
    let h := (remove aor (Many counts)).1 in
    (h = Many counts' ∨ ∃ last, h = One last ∧ counts' = {[last := 1%N]}) ∧
    (remove aor (Many counts)).2 = bool_decide (counts' ≠ ∅).
Proof.
  intros [_ Hwf].
  set (counts' := match counts !! aor with
        | Some count =>
            if (count - 1 =? 0)%N then delete aor counts else <[aor := (count - 1)%N]> counts
        | None => counts
        end). exists counts'. split_and!.
  - subst counts'. destruct (counts !! aor) as [n|] eqn:Ha; [|done].
    destruct (N.eqb_spec (n - 1) 0); [by apply map_Forall_delete|].
    apply map_Forall_insert_2; [lia|done].
  - intros aor'. subst counts'. cbn. destruct (decide (aor = aor')) as [->|Hne].
    + destruct (counts !! aor') as [n|] eqn:Ha; [|rewrite Ha; done].
      destruct (N.eqb_spec (n - 1) 0); [rewrite lookup_delete_eq|rewrite lookup_insert_eq]; cbn; lia.
    + rewrite Nat.sub_0_r. destruct (counts !! aor) as [n|]; [|done].
      case_match; [by rewrite lookup_delete_ne|by rewrite lookup_insert_ne].
  - cbv zeta. unfold remove. fold counts'. clearbody counts'.
    destruct (map_to_list counts') as [|[last n] l] eqn:Hl; cbn [fmap list_fmap].
    + by split; [left|].
    + assert (counts' ≠ ∅) as Hne by (intros ->; by rewrite map_to_list_empty in Hl).
      destruct (_ && _) eqn:Hc; [|by split; [left|]]. rewrite (bool_decide_true (counts' ≠ ∅)) by done.
      split; [right|done]. exists last. split; [done|].
      apply andb_prop in Hc as [Hs%bool_decide_eq_true Hall].
      rewrite <- (list_to_map_to_list counts'), Hl.
      assert (l = []) as -> by (rewrite <- length_map_to_list, Hl in Hs; by destruct l). cbn in Hall |- *. rewrite andb_true_r in Hall.
      apply N.eqb_eq in Hall as ->. by rewrite insert_empty.
Qed.

Lemma held_count_remove aor aor' h :
  wf h →
  count aor' h - (if decide (aor = aor') then 1 else 0) =
    if (remove aor h).2 then count aor' (remove aor h).1 else 0.
Proof.
  intros Hwf. destruct h as [held|counts].
  - cbn. destruct (decide (held = aor')) as [->|], (decide (aor = aor')) as [->|]; cbn;
      repeat case_bool_decide; naive_solver.
  - destruct (remove_counts aor counts Hwf) as (counts' & _ & Hcount & Hh & ->).
    rewrite <- Hcount. case_bool_decide as He.
    + cbv zeta in Hh. destruct Hh as [->|(last & -> & ->)]; [done|]. cbn.
      destruct (decide (last = aor')) as [->|]; [by rewrite lookup_singleton_eq|].
      by rewrite lookup_singleton_ne.
    + destruct (decide (counts' = ∅)) as [->|]; [done|]. by destruct He.
Qed.

Lemma held_remove_wf aor h : wf h → (remove aor h).2 = true → wf (remove aor h).1.
Proof.
  intros Hwf. destruct h as [held|counts]; [done|].
  destruct (remove_counts aor counts Hwf) as (counts' & Hpos & _ & Hh & ->).
  rewrite bool_decide_eq_true. intros He. cbv zeta in Hh.
  destruct Hh as [->|(last & -> & _)]; done.
Qed.

Lemma held_elem_of_aors aor h : wf h → aor ∈ aors h ↔ 0 < count aor h.
Proof.
  intros Hwf. destruct h as [held|counts]; cbn.
  - rewrite list_elem_of_singleton. case_decide; naive_solver lia.
  - rewrite list_elem_of_fmap. split.
    + intros ([a n] & -> & Hn%elem_of_map_to_list). cbn. rewrite Hn. cbn.
      pose proof (proj2 Hwf a n Hn) as H0. cbn in H0. lia.
    + destruct (counts !! aor) as [n|] eqn:Ha; cbn; [|lia]. intros _. exists (aor, n).
      by rewrite elem_of_map_to_list.
Qed.

Lemma held_aors_NoDup h : NoDup (aors h).
Proof. destruct h; cbn; [apply NoDup_singleton|apply NoDup_fst_map_to_list]. Qed.

End Holders.

(** ** The index *)
Module Index.
Import Holders.

Abbreviation ContactIndex := (gmap N Holders) (only parsing).

Section index.
Context {U : Unicode} {P : Nom} {F : Float32} {O : Float32Order} {R : RandomState}.

Definition key_of (uri : SipUri) : N :=
  finish (
    match scheme uri with
    | Sip => String "000" ""
    | Sips => String "001" ""
    | Tel => String "002" ""
    | Other token => String "003" token
    end +:+
    match user uri with
    | Some u => String "001" (le_bytes 8 (blen u) +:+ u)
    | None => String "000" ""
    end +:+
    le_bytes 8 (blen (host uri)) +:+ to_ascii_lowercase (host uri) +:+
    le_bytes 2 (default (default_port uri) (port uri))).

Definition source_key_of (source : SocketAddr) : N :=
  finish (String "255" (
    match ip source with V4 bits => octets 4 bits | V6 bits => octets 16 bits end +:+
    le_bytes 2 (ip_port source))).

Definition keys_of_binding (c : Contact) : list N :=
  match kind c with
  | Ue => key_of (c_uri c) :: match c_source_addr c with
                              | Some source => [source_key_of source]
                              | None => []
                              end
  | As => []
  end.

Definition keys_of (contacts : list Contact) : list N := contacts ≫= keys_of_binding.

Definition add (key : N) (aor : string) (ci : ContactIndex) : ContactIndex :=
  match ci !! key with
  | Some held => <[key := Holders.add aor held]> ci
  | None => <[key := One aor]> ci
  end.

Definition remove (key : N) (aor : string) (ci : ContactIndex) : ContactIndex :=
  match ci !! key with
  | Some held =>
      let '(rest, any) := Holders.remove aor held in
      if any then <[key := rest]> ci else delete key ci
  | None => ci
  end.

Definition remove_all (aor : string) (contacts : list Contact) (ci : ContactIndex) : ContactIndex :=
  foldl (λ ci key, remove key aor ci) ci (keys_of contacts).

(** The two cursors of [replace] over the sorted keys. *)
Fixpoint replace_loop (aor : string) (before : list N) : list N → ContactIndex → ContactIndex :=
  fix go (after : list N) (ci : ContactIndex) : ContactIndex :=
    match before, after with
    | gone :: before', kept :: after' =>
        if (gone =? kept)%N then replace_loop aor before' after' ci else
        if (kept <? gone)%N then go after' (add kept aor ci)
        else replace_loop aor before' after (remove gone aor ci)
    | gone :: before', [] => replace_loop aor before' after (remove gone aor ci)
    | [], added :: after' => go after' (add added aor ci)
    | [], [] => ci
    end.

Definition replace (aor : string) (before after : list N) (ci : ContactIndex) : ContactIndex :=
  if decide (before = after) then ci
  else replace_loop aor (merge_sort N.le before) (merge_sort N.le after) ci.

Definition aors (key : N) (ci : ContactIndex) : list string :=
  match ci !! key with Some held => Holders.aors held | None => [] end.

(** *** The index as a multiset *)

Definition idx_count (key : N) (aor : string) (ci : ContactIndex) : nat :=
  match ci !! key with Some h => Holders.count aor h | None => 0 end.

Definition idx_wf (ci : ContactIndex) : Prop := map_Forall (λ _ h, Holders.wf h) ci.

(** How often a key occurs. *)
Definition occ (key : N) (keys : list N) : nat := length (filter (eq key) keys).

#[local] Arguments occ : simpl never.
#[local] Arguments idx_count : simpl never.

Lemma occ_nil key : occ key [] = 0.
Proof. done. Qed.

Lemma occ_cons key k keys : occ key (k :: keys) = (if decide (k = key) then 1 else 0) + occ key keys.
Proof.
  unfold occ. rewrite filter_cons. destruct (decide (key = k)) as [->|];
    [by rewrite decide_True|by rewrite decide_False].
Qed.

Lemma occ_app key l1 l2 : occ key (l1 ++ l2) = occ key l1 + occ key l2.
Proof. unfold occ. by rewrite filter_app, length_app. Qed.

Lemma occ_elem key keys : key ∈ keys ↔ 0 < occ key keys.
Proof.
  induction keys as [|k keys IH]; [rewrite elem_of_nil, occ_nil; lia|].
  rewrite elem_of_cons, occ_cons, IH. case_decide; naive_solver lia.
Qed.

#[export] Instance occ_Permutation key : Proper ((≡ₚ) ==> (=)) (occ key).
Proof. intros l1 l2 Hl. unfold occ. by rewrite Hl. Qed.

Lemma add_wf key aor ci : idx_wf ci → idx_wf (add key aor ci).
Proof.
  intros Hwf. unfold add. destruct (ci !! key) as [h|] eqn:Hh; apply map_Forall_insert_2; try done.
  apply Holders.held_add_wf, (Hwf _ _ Hh).
Qed.

Lemma remove_wf key aor ci : idx_wf ci → idx_wf (remove key aor ci).
Proof.
  intros Hwf. unfold remove. destruct (ci !! key) as [h|] eqn:Hh; [|done].
  pose proof (Holders.held_remove_wf aor h (Hwf _ _ Hh)) as Hr.
  destruct (Holders.remove aor h) as [h' []]; cbn in Hr.
  - by apply map_Forall_insert_2; [apply Hr|].
  - by apply map_Forall_delete.
Qed.

(** One binding of one address of record under one key. *)
Abbreviation hit k k' a a' := (if decide (k = k' ∧ a = a') then 1 else 0).

Lemma count_add key aor k a ci :
  idx_count k a (add key aor ci) = idx_count k a ci + hit key k aor a.
Proof.
  unfold idx_count, add. destruct (decide (key = k)) as [->|Hne].
  - destruct (ci !! k) as [h|] eqn:Hh; rewrite lookup_insert_eq.
    + rewrite Holders.held_count_add. f_equal. repeat case_decide; naive_solver.
    + cbn. repeat case_decide; naive_solver.
  - rewrite (decide_False (P := key = k ∧ _)) by naive_solver.
    destruct (ci !! key); rewrite lookup_insert_ne by done; lia.
Qed.

Lemma count_remove key aor k a ci :
  idx_wf ci → idx_count k a (remove key aor ci) = idx_count k a ci - hit key k aor a.
Proof.
  intros Hwf. unfold idx_count, remove. destruct (decide (key = k)) as [->|Hne].
  - assert (hit k k aor a = if decide (aor = a) then 1 else 0) as -> by (repeat case_decide; naive_solver).
    destruct (ci !! k) as [h|] eqn:Hh; [|by rewrite Hh].
    rewrite (Holders.held_count_remove aor a h (Hwf _ _ Hh)).
    destruct (Holders.remove aor h) as [h' []]; cbn;
      [by rewrite lookup_insert_eq|by rewrite lookup_delete_eq].
  - rewrite (decide_False (P := key = k ∧ _)) by naive_solver. rewrite Nat.sub_0_r.
    destruct (ci !! key) as [h|]; [|done]. destruct (Holders.remove aor h) as [h' []];
      [by rewrite lookup_insert_ne|by rewrite lookup_delete_ne].
Qed.

(** A list of entries to forget, as the sweeps collect it. *)
Definition remove_entries (l : list (N * string)) (ci : ContactIndex) : ContactIndex :=
  foldl (λ ci e, remove e.1 e.2 ci) ci l.

Lemma remove_entries_spec l ci :
  idx_wf ci →
  idx_wf (remove_entries l ci) ∧
  ∀ k a, idx_count k a (remove_entries l ci) = idx_count k a ci - length (filter (eq (k, a)) l).
Proof.
  revert ci. induction l as [|[k' a'] l IH]; intros ci Hwf; [split; [done|intros; cbn; lia]|].
  change (remove_entries ((k', a') :: l) ci) with (remove_entries l (remove k' a' ci)).
  destruct (IH (remove k' a' ci)) as [Hw Hc]; [by apply remove_wf|]. split; [done|].
  intros k a. rewrite Hc, count_remove by done.
  rewrite filter_cons. repeat case_decide; simplify_eq/=; try lia; naive_solver.
Qed.

Lemma remove_all_spec aor contacts ci :
  idx_wf ci →
  idx_wf (remove_all aor contacts ci) ∧
  ∀ k a, idx_count k a (remove_all aor contacts ci) =
    idx_count k a ci - if decide (aor = a) then occ k (keys_of contacts) else 0.
Proof.
  intros Hwf. unfold remove_all.
  assert (Hl : foldl (λ ci key, remove key aor ci) ci (keys_of contacts) =
               remove_entries ((λ k, (k, aor)) <$> keys_of contacts) ci).
  { unfold remove_entries. clear Hwf. revert ci. induction (keys_of contacts); intros; [done|]. cbn. auto. }
  rewrite Hl. destruct (remove_entries_spec ((λ k, (k, aor)) <$> keys_of contacts) ci Hwf) as [Hw Hc].
  split; [done|]. intros k a. rewrite Hc. f_equal. clear. induction (keys_of contacts) as [|k' l IH].
  - by case_decide.
  - rewrite fmap_cons, filter_cons, occ_cons. repeat case_decide; simplify_eq/=; try lia; naive_solver.
Qed.

(** [replace] records the new keys and forgets the old, when the old ones are
    in the index. *)
Lemma replace_loop_spec aor before after ci :
  idx_wf ci →
  (∀ k, occ k before ≤ idx_count k aor ci) →
  idx_wf (replace_loop aor before after ci) ∧
  ∀ k a, idx_count k a (replace_loop aor before after ci) =
    if decide (aor = a) then idx_count k a ci + occ k after - occ k before else idx_count k a ci.
Proof.
  revert after ci. induction before as [|gone before IHb]; intros after;
    induction after as [|new after IHa]; intros ci Hwf Hle.
  - split; [done|]. intros k a. cbn. rewrite !occ_nil. case_decide; lia.
  - cbn. destruct (IHa (add new aor ci)) as [Hw Hc]; [by apply add_wf| |].
    { intros k. rewrite count_add. specialize (Hle k). lia. }
    split; [done|]. intros k a. rewrite Hc, count_add, occ_cons.
    repeat case_decide; simplify_eq; try lia; naive_solver.
  - cbn. destruct (IHb [] (remove gone aor ci)) as [Hw Hc]; [by apply remove_wf| |].
    { intros k. rewrite count_remove by done. specialize (Hle k). rewrite occ_cons in Hle.
      repeat case_decide; simplify_eq; try lia; naive_solver. }
    split; [done|]. intros k a. rewrite Hc, count_remove, occ_cons by done.
    specialize (Hle k). rewrite occ_cons in Hle.
    repeat case_decide; simplify_eq; try lia; naive_solver.
  - cbn. destruct (N.eqb_spec gone new) as [->|Hne]; [|destruct (new <? gone)%N].
    + destruct (IHb after ci Hwf) as [Hw Hc].
      { intros k. specialize (Hle k). rewrite occ_cons in Hle. lia. }
      split; [done|]. intros k a. rewrite Hc, !occ_cons. case_decide; [|done]. lia.
    + destruct (IHa (add new aor ci)) as [Hw Hc]; [by apply add_wf| |].
      { intros k. rewrite count_add. specialize (Hle k). lia. }
      split; [done|]. intros k a. etransitivity; [apply Hc|]. rewrite count_add, !occ_cons.
      repeat case_decide; simplify_eq; try lia; naive_solver.
    + destruct (IHb (new :: after) (remove gone aor ci)) as [Hw Hc]; [by apply remove_wf| |].
      { intros k. rewrite count_remove by done. specialize (Hle k). rewrite occ_cons in Hle.
        repeat case_decide; simplify_eq; try lia; naive_solver. }
      split; [done|]. intros k a. rewrite Hc, count_remove, !occ_cons by done.
      specialize (Hle k). rewrite occ_cons in Hle.
      repeat case_decide; simplify_eq; try lia; naive_solver.
Qed.

Lemma replace_spec aor before after ci :
  idx_wf ci →
  (∀ k, occ k before ≤ idx_count k aor ci) →
  idx_wf (replace aor before after ci) ∧
  ∀ k a, idx_count k a (replace aor before after ci) =
    if decide (aor = a) then idx_count k a ci + occ k after - occ k before else idx_count k a ci.
Proof.
  assert (Hsort : ∀ k l, occ k (merge_sort N.le l) = occ k l)
    by (intros; apply occ_Permutation, merge_sort_Permutation).
  intros Hwf Hle. unfold replace. case_decide as Heq.
  - subst. split; [done|]. intros k a. case_decide; lia.
  - destruct (replace_loop_spec aor (merge_sort N.le before) (merge_sort N.le after) ci) as [Hw Hc];
      [done|intros k; by rewrite Hsort|].
    split; [done|]. intros k a. by rewrite Hc, !Hsort.
Qed.

Lemma elem_of_aors key aor ci : idx_wf ci → aor ∈ aors key ci ↔ 0 < idx_count key aor ci.
Proof.
  intros Hwf. unfold aors, idx_count. destruct (ci !! key) as [h|] eqn:Hh.
  - apply Holders.held_elem_of_aors, (Hwf _ _ Hh).
  - rewrite elem_of_nil. lia.
Qed.

Lemma aors_NoDup key ci : NoDup (aors key ci).
Proof. unfold aors. destruct (ci !! key); [apply Holders.held_aors_NoDup|apply NoDup_nil_2]. Qed.

(** One device has one key. *)
Lemma lowercase_length s : String.length (to_ascii_lowercase s) = String.length s.
Proof. induction s; cbn; [done|]. by f_equal. Qed.

Lemma same_contact_key a b : same_contact a b = true → key_of a = key_of b.
Proof.
  unfold same_contact. intros [[[Hs%bool_decide_eq_true Hu%bool_decide_eq_true]%andb_prop
    Hh%bool_decide_eq_true]%andb_prop Hp%N.eqb_eq]%andb_prop.
  assert (blen (host a) = blen (host b)) as Hl
    by (unfold blen; by rewrite <- (lowercase_length (host a)), Hh, lowercase_length).
  unfold key_of. by rewrite Hs, Hu, Hh, Hp, Hl.
Qed.

End index.
End Index.
