(* ===== verification/Registrar.v ===== *)
(** * The registrar ([src/src/registrar/mod.rs], [update.rs], [event_hold.rs],
    [restore_eviction.rs])

    The binding store with its reverse indexes, and every operation on it.  A
    [DashMap] is a [gmap]; an operation is one step, its clock readings are one
    [now].  The registration events are the list sent so far, the gauge of active
    registrations a number, and the backend writer the list of write-throughs
    handed to it, each with its sequence number; a row written for a binding is
    the binding it is made from.  The response half of a REGISTER's exchange is
    not read here, so an exchange is the bytes of its request. *)

From S2P Require Import Prelude Str Nom Headers Uri Message Parser Transport Via NameAddr.
From S2P Require Import Binding ContactIndex.

Module Reg.
Import Holders Index.

Inductive RegistrationEvent :=
  | Registered (aor : string) (exchange : option bytes)
  | Refreshed (aor : string) (exchange : option bytes)
  | Deregistered (aor : string) (exchange : option bytes)
  | Expired (aor : string).

(** The auxiliary state of one address of record, as the backend keeps it. *)
Record StoredAorState := mkAorState {
  s_service_routes : list string;
  s_asserted_identity : option string;
  s_associated_uris : list string;
}.

Section registrar.
Context {U : Unicode} {P : Nom} {F : Float32} {O : Float32Order} {R : RandomState}.

Inductive BackendWrite :=
  | Save (contacts : list Contact)
  | Remove
  | SaveState (state : StoredAorState)
  | RemoveState.

Record BackendWriter := mkWriter {
  w_sequence : N;   (* u64: the last one handed out *)
  w_queue : list (string * BackendWrite * N);
}.

Record Registrar := mkRegistrar {
  bindings : gmap string (list Contact);
  service_routes : gmap string (list string);
  asserted_identities : gmap string string;
  associated_uris : gmap string (list string);
  aliases : gmap string string;
  tokens : gmap string string;
  connection_index : gmap ConnectionId (list string);
  contact_index : gmap N Holders;
  config : RegistrarConfig;
  events : list RegistrationEvent;
  backend_writer : option BackendWriter;
  instance_identity : option InstanceIdentity;
  registrations_active : Z;   (* i64 *)
}.

Definition new (config : RegistrarConfig) : Registrar :=
  mkRegistrar ∅ ∅ ∅ ∅ ∅ ∅ ∅ ∅ config [] None None 0.

(** *** Fields updated in place *)

Definition set_bindings (b : gmap string (list Contact)) (ci : gmap N Holders) (r : Registrar) :=
  mkRegistrar b (service_routes r) (asserted_identities r) (associated_uris r) (aliases r) (tokens r)
    (connection_index r) ci (config r) (events r) (backend_writer r) (instance_identity r)
    (registrations_active r).
Definition set_aux (sr : gmap string (list string)) (ai : gmap string string)
    (au : gmap string (list string)) (al : gmap string string) (r : Registrar) :=
  mkRegistrar (bindings r) sr ai au al (tokens r) (connection_index r) (contact_index r) (config r)
    (events r) (backend_writer r) (instance_identity r) (registrations_active r).
Definition set_indexes (t : gmap string string) (c : gmap ConnectionId (list string))
    (r : Registrar) :=
  mkRegistrar (bindings r) (service_routes r) (asserted_identities r) (associated_uris r) (aliases r)
    t c (contact_index r) (config r) (events r) (backend_writer r) (instance_identity r)
    (registrations_active r).
Definition set_out (es : list RegistrationEvent) (w : option BackendWriter) (g : Z) (r : Registrar) :=
  mkRegistrar (bindings r) (service_routes r) (asserted_identities r) (associated_uris r) (aliases r)
    (tokens r) (connection_index r) (contact_index r) (config r) es w (instance_identity r) g.

Definition gauge_add (n : Z) (r : Registrar) : Registrar :=
  set_out (events r) (backend_writer r) (registrations_active r + n) r.

Definition remove_token (token : string) (r : Registrar) : Registrar :=
  set_indexes (delete token (tokens r)) (connection_index r) r.

Definition set_aliases (al : gmap string string) (r : Registrar) : Registrar :=
  set_aux (service_routes r) (asserted_identities r) (associated_uris r) al r.

(** ** Aliases and auxiliary state *)

Definition resolve_alias (aor : string) (r : Registrar) : string :=
  default (normalize_aor aor) (aliases r !! normalize_aor aor).

Definition prune_aliases_to (primary : string) (r : Registrar) : Registrar :=
  match associated_uris r !! primary with
  | Some uris =>
      let installed := filter (λ alias, alias ≠ primary) (normalize_aor <$> uris) in
      set_aliases (foldl (λ al alias, if decide (al !! alias = Some primary) then delete alias al else al)
                     (aliases r) installed) r
  | None => r
  end.

Definition install_aliases (primary : string) (uris : list string) (r : Registrar) : Registrar :=
  let r := prune_aliases_to primary r in
  set_aliases (foldl (λ al uri, let alias := normalize_aor uri in
                        if decide (alias ≠ primary) then <[alias := primary]> al else al)
                 (aliases r) uris) r.

Definition emit_event (event : RegistrationEvent) (r : Registrar) : Registrar :=
  set_out (events r ++ [event]) (backend_writer r) (registrations_active r) r.

Definition enqueue (aor : string) (write : BackendWrite) (sequence : N) (r : Registrar) : Registrar :=
  match backend_writer r with
  | Some w => set_out (events r) (Some (mkWriter (w_sequence w) (w_queue w ++ [(aor, write, sequence)])))
                (registrations_active r) r
  | None => r
  end.

Definition persist_aor (aor : string) (contacts : list Contact) (sequence : N) : Registrar → Registrar :=
  enqueue aor (match contacts with [] => Remove | _ => Save contacts end) sequence.

Definition write_sequence (r : Registrar) : N * Registrar :=
  match backend_writer r with
  | Some w =>
      let n := (w_sequence w + 1)%N in
      (n, set_out (events r) (Some (mkWriter n (w_queue w))) (registrations_active r) r)
  | None => (0%N, r)
  end.

Definition take_bindings (aor : string) (r : Registrar) : option (list Contact) * N * Registrar :=
  let removed := bindings r !! aor in
  let '(sequence, r) := write_sequence r in
  (removed, sequence, set_bindings (delete aor (bindings r)) (contact_index r) r).

Definition persist_aor_state (aor : string) (r : Registrar) : Registrar :=
  match backend_writer r with
  | Some _ =>
      let '(sequence, r) := write_sequence r in
      let state := mkAorState (default [] (service_routes r !! aor)) (asserted_identities r !! aor)
                     (default [] (associated_uris r !! aor)) in
      match s_service_routes state, s_asserted_identity state, s_associated_uris state with
      | [], None, [] => enqueue aor RemoveState sequence r
      | _, _, _ => enqueue aor (SaveState state) sequence r
      end
  | None => r
  end.

(** The state without the entries, and whether there were any. *)
Definition remove_aor_state_entries (aor : string) (r : Registrar) : bool * Registrar :=
  (bool_decide (is_Some (service_routes r !! aor)) ||
   bool_decide (is_Some (asserted_identities r !! aor)) ||
   bool_decide (is_Some (associated_uris r !! aor)),
   set_aux (delete aor (service_routes r)) (delete aor (asserted_identities r))
     (delete aor (associated_uris r)) (aliases r) r).

Definition drop_aor_state (aor : string) (r : Registrar) : Registrar :=
  let '(removed, r) := remove_aor_state_entries aor (prune_aliases_to aor r) in
  if removed then persist_aor_state aor r else r.

Definition apply_aor_state (aor : string) (state : StoredAorState) (r : Registrar) : Registrar :=
  let r := match s_service_routes state with
           | [] => r
           | routes => set_aux (<[aor := routes]> (service_routes r)) (asserted_identities r)
                         (associated_uris r) (aliases r) r
           end in
  let r := match s_asserted_identity state with
           | Some identity => set_aux (service_routes r) (<[aor := identity]> (asserted_identities r))
                                (associated_uris r) (aliases r) r
           | None => r
           end in
  match s_associated_uris state with
  | [] => r
  | uris =>
      let r := install_aliases aor uris r in
      set_aux (service_routes r) (asserted_identities r) (<[aor := uris]> (associated_uris r))
        (aliases r) r
  end.

(** ** The events of a REGISTER *)

Record RegisterEventHold := mkHold {
  exchange : option bytes;
  deferring : bool;
  held : list RegistrationEvent;
}.

(** Publish what is held, in order; the drop of a hold does this too. *)
Definition flush (hold : RegisterEventHold) (r : Registrar) : RegisterEventHold * Registrar :=
  (mkHold (exchange hold) (deferring hold) [], foldl (λ r event, emit_event event r) r (held hold)).

(** A registrar in the middle of a REGISTER, with the hold of its events. *)
Definition announce (make : option bytes → RegistrationEvent)
    (s : option RegisterEventHold * Registrar) : option RegisterEventHold * Registrar :=
  let '(hold, r) := s in
  match hold with
  | Some h =>
      let event := make (exchange h) in
      if deferring h then (Some (mkHold (exchange h) (deferring h) (held h ++ [event])), r)
      else (hold, emit_event event r)
  | None => (None, emit_event (make None) r)
  end.

(** ** The connection index *)

Definition index_connection (connection_id : option ConnectionId) (is_stream : bool) (aor : string)
    (r : Registrar) : Registrar :=
  match is_stream, connection_id with
  | true, Some id =>
      let entry := default [] (connection_index r !! id) in
      let entry := if decide (aor ∈ entry) then entry else entry ++ [aor] in
      set_indexes (tokens r) (<[id := entry]> (connection_index r)) r
  | _, _ => r
  end.

Definition deindex_connection (connection_id : ConnectionId) (aor : string) (r : Registrar)
    : Registrar :=
  match connection_index r !! connection_id with
  | Some entry =>
      match filter (λ a, a ≠ aor) entry with
      | [] => set_indexes (tokens r) (delete connection_id (connection_index r)) r
      | entry => set_indexes (tokens r) (<[connection_id := entry]> (connection_index r)) r
      end
  | None => r
  end.

(** The connection a binding is indexed under. *)
Definition stream_connection (c : Contact) : option ConnectionId :=
  if is_stream_transport (c_source_transport c) then c_inbound_connection_id c else None.

(** What a dropped binding adds to the tokens and connections to forget. *)
Definition retire (stale : list string * list ConnectionId) (c : Contact)
    : list string * list ConnectionId :=
  (stale.1 ++ match c_flow_token c with Some token => [token] | None => [] end,
   stale.2 ++ match stream_connection c with Some id => [id] | None => [] end).

Definition forget (aor : string) (stale : list string * list ConnectionId) (r : Registrar) : Registrar :=
  let r := foldl (λ r token, remove_token token r) r stale.1 in
  foldl (λ r id, deindex_connection id aor r) r stale.2.

(** ** Applying a REGISTER ([update.rs]) *)

Inductive Effect :=
  | Removed (stale : list string * list ConnectionId) (remaining : list Contact) (emptied : bool)
  | Stored (stale : list string * list ConnectionId) (stored : list Contact)
      (flow_token : option string) (connection_id : option ConnectionId)
      (is_stream refreshed : bool).

Definition is_nil {A} (l : list A) : bool := match l with [] => true | _ => false end.

(** The contacts left once no live UE binding is among them: AS records go too. *)
Definition cascade (now : instant) (contacts : list Contact) : list Contact :=
  if existsb (live_ue now) contacts then contacts else [].

Definition by_q (a b : Contact) : comparison := default Eq (partial_cmp (c_q b) (c_q a)).

(** The binding a Contact of a REGISTER becomes. *)
Definition binding_of (r : Registrar) (now : instant) (u : ContactUpdate) : Contact :=
  mkContact (u_uri u) (u_q u) now (u_expires_secs u) (u_call_id u) (u_cseq u) (u_source_addr u)
    (u_source_transport u) (f_client_transport (u_flow u)) (u_sip_instance u) (u_reg_id u) (u_path u)
    false (instance_identity r) (f_flow_token (u_flow u)) (f_inbound_local_addr (u_flow u))
    (f_inbound_connection_id (u_flow u)) (u_params u) Ue (u_auth_user u).

Definition same_uri (uri_string : string) (c : Contact) : bool :=
  bool_decide (show_uri (c_uri c) = uri_string).

Definition replace_index (contact : Contact) (contacts : list Contact) : option nat :=
  match contact_instance ← c_sip_instance contact;
        position (λ held, bool_decide (c_sip_instance held = Some contact_instance)) contacts with
  | Some index => Some index
  | None => position (same_uri (show_uri (c_uri contact))) contacts
  end.

Definition stage (r : Registrar) (now : instant) (contacts : list Contact) (u : ContactUpdate)
    : result RegistrarError (list Contact * Effect) :=
  if (0 <? u_expires_secs u)%N && (u_expires_secs u <? min_expires (config r))%N
  then Err (IntervalTooBrief (min_expires (config r))) else
  let stale := foldl retire ([], []) (filter (λ c, is_expired now c = true) contacts) in
  let contacts := filter (λ c, is_expired now c = false) contacts in
  if (u_expires_secs u =? 0)%N then
    let removed c := bool_decide (kind c = Ue) && same_uri (show_uri (u_uri u)) c in
    let stale := foldl retire stale (filter (λ c, removed c = true) contacts) in
    let contacts := cascade now (filter (λ c, removed c = false) contacts) in
    Ok (contacts, Removed stale contacts (is_nil contacts))
  else
    let contact := binding_of r now u in
    let stored stale contacts refreshed :=
      let contacts := sort_by by_q contacts in
      Ok (contacts, Stored stale contacts (c_flow_token contact) (c_inbound_connection_id contact)
                      (is_stream_transport (u_source_transport u)) refreshed) in
    match replace_index contact contacts with
    | Some index =>
        let stale := match contacts !! index with Some old => retire stale old | None => stale end in
        stored stale (<[index := contact]> contacts) true
    | None =>
        if bool_decide (max_contacts (config r) ≤ length contacts)
        then Err (TooManyContacts (max_contacts (config r)))
        else stored stale (contacts ++ [contact]) false
    end.

(** The loop over the Contacts of one REGISTER. *)
Fixpoint stage_all (r : Registrar) (now : instant) (contacts : list Contact)
    (updates : list ContactUpdate) : result RegistrarError (list Contact * list Effect) :=
  match updates with
  | [] => Ok (contacts, [])
  | u :: updates =>
      '(contacts, effect) ← stage r now contacts u;
      '(contacts, effects) ← stage_all r now contacts updates;
      Ok (contacts, effect :: effects)
  end.

Definition carry_out (aor : string) (sequence : N) (s : option RegisterEventHold * Registrar)
    (effect : Effect) : option RegisterEventHold * Registrar :=
  let '(hold, r) := s in
  match effect with
  | Removed stale remaining emptied =>
      let r := forget aor stale r in
      let r := persist_aor aor remaining sequence r in
      let r := if emptied then gauge_add (-1) (drop_aor_state aor r) else r in
      announce (Deregistered aor) (hold, r)
  | Stored stale stored flow_token connection_id is_stream refreshed =>
      let r := foldl (λ r token, if decide (Some token = flow_token) then r else remove_token token r)
                 r stale.1 in
      let r := match flow_token with
               | Some token => set_indexes (<[token := aor]> (tokens r)) (connection_index r) r
               | None => r
               end in
      let r := foldl (λ r id, deindex_connection id aor r) r stale.2 in
      let r := index_connection connection_id is_stream aor r in
      let r := persist_aor aor stored sequence r in
      if refreshed then announce (Refreshed aor) (hold, r)
      else announce (Registered aor) (hold, gauge_add 1 r)
  end.

(** What both ways of taking an address of record down do to the indexes. *)
Definition unindex (aor : string) (contacts : list Contact) (r : Registrar) : Registrar :=
  let r := set_bindings (bindings r) (Index.remove_all aor contacts (contact_index r)) r in
  foldl (λ r c, let r := match c_flow_token c with Some token => remove_token token r | None => r end in
           match stream_connection c with Some id => deindex_connection id aor r | None => r end)
    r contacts.

Definition release_cleared (aor : string) (contacts : option (list Contact)) (sequence : N)
    (r : Registrar) : Registrar :=
  let r := match contacts with Some cleared => unindex aor cleared r | None => r end in
  drop_aor_state aor (enqueue aor Remove sequence r).

Definition clear_bindings (aor : string) (r : Registrar) : Registrar :=
  let primary := resolve_alias aor r in
  let '(removed, sequence, r) := take_bindings primary r in
  release_cleared primary removed sequence r.

Definition alias_retired_by_clearing (aor primary : string) (r : Registrar) : bool :=
  bool_decide (normalize_aor aor ≠ primary) &&
  match associated_uris r !! primary with
  | Some uris => existsb (λ uri, bool_decide (normalize_aor uri = normalize_aor aor)) uris
  | None => false
  end.

(** The list of [key] becomes [contacts]; an empty one leaves no entry. *)
Definition commit (key : string) (held contacts : list Contact) (r : Registrar) : Registrar :=
  set_bindings (match contacts with
                | [] => delete key (bindings r)
                | _ => <[key := contacts]> (bindings r)
                end) (Index.replace key (keys_of held) (keys_of contacts) (contact_index r)) r.

Definition apply_register_in (now : instant) (aor : string) (updates : list ContactUpdate)
    (force : bool) (hold : option RegisterEventHold) (r : Registrar)
    : result RegistrarError (option RegisterEventHold * Registrar) :=
  match updates with
  | [] => Ok (hold, if force then clear_bindings aor r else r)
  | _ =>
      let primary := resolve_alias aor r in
      let key := if force && alias_retired_by_clearing aor primary r
                 then normalize_aor aor else primary in
      if negb (is_aor_key_safe key) then Err InvalidAor else
      let clears_this_list := force && bool_decide (key = primary) in
      let held := if clears_this_list then [] else default [] (bindings r !! key) in
      '(contacts, effects) ← stage_all r now held updates;
      let replaced := bindings r !! key in
      let '(sequence, r) := write_sequence r in
      let r := commit key held contacts r in
      let r := if force then
                 let '(cleared, cleared_at, r) :=
                   if clears_this_list then (replaced, sequence, r) else take_bindings primary r in
                 release_cleared primary cleared cleared_at r
               else r in
      Ok (foldl (carry_out key sequence) (hold, r) effects)
  end.

(** Without a hold the events are sent at once. *)
Definition apply_register (now : instant) (aor : string) (updates : list ContactUpdate)
    (force : bool) (r : Registrar) : result RegistrarError Registrar :=
  snd <$> apply_register_in now aor updates force None r.

Definition save_full_uncapped (now : instant) (aor : string) (u : ContactUpdate) (r : Registrar)
    : result RegistrarError Registrar :=
  apply_register now aor
    [mkUpdate (u_uri u) (u_expires_secs u) (u_q u) (u_call_id u) (u_cseq u) (u_source_addr u)
       (u_source_transport u) (u_sip_instance u) (u_reg_id u) (u_path u) (u_flow u) (u_params u) None]
    false r.

Definition save_full (now : instant) (aor : string) (u : ContactUpdate) (r : Registrar)
    : result RegistrarError Registrar :=
  let capped := N.min (u_expires_secs u) (max_expires (config r)) in
  save_full_uncapped now aor
    (mkUpdate (u_uri u) capped (u_q u) (u_call_id u) (u_cseq u) (u_source_addr u)
       (u_source_transport u) (u_sip_instance u) (u_reg_id u) (u_path u) (u_flow u) (u_params u)
       (u_auth_user u)) r.

(** ** Removing bindings *)

Definition remove_all_in (aor : string) (hold : option RegisterEventHold) (r : Registrar)
    : option RegisterEventHold * Registrar :=
  let aor := resolve_alias aor r in
  let '(removed, sequence, r) := take_bindings aor r in
  let r := match removed with Some contacts => unindex aor contacts r | None => r end in
  let r := drop_aor_state aor (enqueue aor Remove sequence r) in
  let r := match removed with Some _ => gauge_add (-1) r | None => r end in
  announce (Deregistered aor) (hold, r).

Definition remove_contact (now : instant) (aor contact_uri : string) (r : Registrar)
    : bool * Registrar :=
  let raw := strip_angles (trim contact_uri) in
  let parsed := show_uri <$> parse_contact_target contact_uri in
  let removed c := bool_decide (kind c = Ue) &&
    (same_uri raw c || bool_decide (parsed = Some (show_uri (c_uri c)))) in
  let aor := resolve_alias aor r in
  match bindings r !! aor with
  | Some contacts =>
      if existsb removed contacts then
        let stale := foldl retire ([], []) (filter (λ c, removed c = true) contacts) in
        let kept := filter (λ c, removed c = false) contacts in
        let stale := if existsb (live_ue now) kept then stale else foldl retire stale kept in
        let kept := cascade now kept in
        let '(sequence, r) := write_sequence r in
        let r := commit aor contacts kept r in
        (true, (carry_out aor sequence (None, r) (Removed stale kept (is_nil kept))).2)
      else (false, r)
  | None => (false, r)
  end.

Definition clamp_retry_after (soonest : option N) (max_expires : N) : N :=
  let ceiling := N.max max_expires 1 in
  match soonest with
  | Some seconds => N.min (N.max (N.min seconds U32_MAX) 1) ceiling
  | None => ceiling
  end.

Definition retry_after_secs (now : instant) (aor : string) (r : Registrar) : N :=
  let contacts := default [] (bindings r !! resolve_alias aor r) in
  let remaining := remaining_seconds now <$> filter (λ c, is_expired now c = false) contacts in
  let soonest := match remaining with [] => None | n :: ns => Some (foldl N.min n ns) end in
  clamp_retry_after soonest (max_expires (config r)).

(** ** Lookups *)

Definition lookup (now : instant) (aor : string) (r : Registrar) : list Contact :=
  sort_by_preference now
    (filter (λ c, live_ue now c = true) (default [] (bindings r !! resolve_alias aor r))).

(** UE bindings first, then AS records, each by q. *)
Definition lookup_all (now : instant) (aor : string) (r : Registrar) : list Contact :=
  sort_by (λ a b, match kind a, kind b with
                  | Ue, As => Lt
                  | As, Ue => Gt
                  | _, _ => by_q a b
                  end)
    (filter (λ c, is_expired now c = false) (default [] (bindings r !! resolve_alias aor r))).

Definition is_registered (now : instant) (aor : string) (r : Registrar) : bool :=
  existsb (live_ue now) (default [] (bindings r !! resolve_alias aor r)).

(** The bindings [for_each_contact_match] visits, with their address of record. *)
Definition contact_matches (now : instant) (contact_uri : string) (r : Registrar)
    : list (string * Contact) :=
  match contact_target contact_uri with
  | Some target =>
      aor ← Index.aors (key_of target) (contact_index r);
      pair aor <$> filter (λ c, live_ue now c && same_contact (c_uri c) target = true)
                     (default [] (bindings r !! aor))
  | None => []
  end.

Definition lookup_contact (now : instant) (contact_uri : string) (r : Registrar) : list Contact :=
  sort_by_preference now (contact_matches now contact_uri r).*2.

Definition is_registered_contact (now : instant) (contact_uri : string) (r : Registrar) : bool :=
  negb (is_nil (contact_matches now contact_uri r)).

(** The first match, unless a match of another address of record follows. *)
Definition binding_for_contact (now : instant) (contact_uri : string) (r : Registrar)
    : option (string * string) :=
  match contact_matches now contact_uri r with
  | (first, contact) :: rest =>
      if existsb (λ m, bool_decide (m.1 ≠ first)) rest then None
      else Some (first, show_uri (c_uri contact))
  | [] => None
  end.

(** [None] once a second address of record matches. *)
Definition binding_for_source (now : instant) (source : SocketAddr) (r : Registrar)
    : option (string * string) :=
  (fix loop (aors : list string) (found : option (string * string)) : option (string * string) :=
     match aors with
     | [] => found
     | aor :: aors =>
         match List.find (λ c, live_ue now c && bool_decide (c_source_addr c = Some source))
                 (default [] (bindings r !! aor)) with
         | Some contact =>
             match found with
             | Some _ => None
             | None => loop aors (Some (aor, show_uri (c_uri contact)))
             end
         | None => loop aors found
         end
     end) (Index.aors (source_key_of source) (contact_index r)) None.

Definition lookup_by_token (now : instant) (token : string) (r : Registrar)
    : option (string * Contact) :=
  aor ← tokens r !! token;
  contacts ← bindings r !! aor;
  contact ← List.find (λ c, live_ue now c && bool_decide (c_flow_token c = Some token)) contacts;
  Some (aor, contact).

(** ** Application servers and pending bindings *)

(** A binding with nothing but a URI, a lifetime and a few more fields. *)
Definition plain_contact (uri : SipUri) (q : f32) (now : instant) (expires_secs : N)
    (call_id : string) (cseq : N) (pending : bool) (instance : option InstanceIdentity)
    (params : list param) (kind : ContactKind) : Contact :=
  mkContact uri q now expires_secs call_id cseq None None None None None [] pending instance None None
    None params kind None.

Definition save_as_contact (now : instant) (aor : string) (uri : SipUri) (expires_secs : N) (q : f32)
    (params : list param) (r : Registrar) : bool * Registrar :=
  let aor := resolve_alias aor r in
  let all := default [] (bindings r !! aor) in
  let contacts := filter (λ c, is_expired now c = false) all in
  let r := set_bindings (<[aor := contacts]> (bindings r))
             (Index.replace aor (keys_of all) (keys_of contacts) (contact_index r)) r in
  let r := foldl (λ r id, deindex_connection id aor r) r
             (omap stream_connection (filter (λ c, is_expired now c = true) all)) in
  let same_as c := bool_decide (kind c = As) && same_uri (show_uri uri) c in
  if (expires_secs =? 0)%N then
    let left := filter (λ c, same_as c = false) contacts in
    if bool_decide (length left = length contacts) then (false, r) else
    let '(sequence, r) := write_sequence r in
    let r := set_bindings (match left with
                           | [] => delete aor (bindings r)
                           | _ => <[aor := left]> (bindings r)
                           end) (contact_index r) r in
    (true, persist_aor aor left sequence r)
  else if negb (existsb (live_ue now) contacts) then (false, r) else
    let contact := plain_contact uri q now expires_secs "" 0 false None params As in
    let contacts := match position same_as contacts with
                    | Some index => <[index := contact]> contacts
                    | None => contacts ++ [contact]
                    end in
    let '(sequence, r) := write_sequence r in
    (true, persist_aor aor contacts sequence
             (set_bindings (<[aor := contacts]> (bindings r)) (contact_index r) r)).

Definition save_pending (now : instant) (aor : string) (uri : SipUri) (expires_secs : N) (q : f32)
    (call_id : string) (cseq : N) (r : Registrar) : Registrar :=
  let aor := resolve_alias aor r in
  let contact := plain_contact uri q now expires_secs call_id cseq true (instance_identity r) [] Ue in
  let held := default [] (bindings r !! aor) in
  let contacts := match position (same_uri (show_uri uri)) held with
                  | Some index => <[index := contact]> held
                  | None => held ++ [contact]
                  end in
  set_bindings (<[aor := contacts]> (bindings r))
    (Index.replace aor (keys_of held) (keys_of contacts) (contact_index r)) r.

Definition confirm (c : Contact) : Contact :=
  mkContact (c_uri c) (c_q c) (registered_at c) (c_expires_secs c) (c_call_id c) (c_cseq c)
    (c_source_addr c) (c_source_transport c) (c_client_transport c) (c_sip_instance c) (c_reg_id c)
    (c_path c) false (instance c) (c_flow_token c) (c_inbound_local_addr c)
    (c_inbound_connection_id c) (c_params c) (kind c) (c_auth_user c).

Definition confirm_pending (aor : string) (r : Registrar) : Registrar :=
  let aor := resolve_alias aor r in
  match bindings r !! aor with
  | Some contacts => set_bindings (<[aor := confirm <$> contacts]> (bindings r)) (contact_index r) r
  | None => r
  end.

(** ** Auxiliary state from replies *)

Definition set_service_routes (aor : string) (routes : list string) (r : Registrar) : Registrar :=
  let aor := resolve_alias aor r in
  persist_aor_state aor
    (set_aux (match routes with
              | [] => delete aor (service_routes r)
              | _ => <[aor := routes]> (service_routes r)
              end) (asserted_identities r) (associated_uris r) (aliases r) r).

Definition set_associated_uris (aor : string) (uris : list string) (r : Registrar) : Registrar :=
  let primary := resolve_alias aor r in
  let r := install_aliases primary uris r in
  persist_aor_state primary
    (set_aux (service_routes r) (asserted_identities r)
       (match uris with
        | [] => delete primary (associated_uris r)
        | _ => <[primary := uris]> (associated_uris r)
        end) (aliases r) r).

Definition set_asserted_identity (aor identity : string) (r : Registrar) : Registrar :=
  let aor := resolve_alias aor r in
  persist_aor_state aor
    (set_aux (service_routes r) (<[aor := identity]> (asserted_identities r)) (associated_uris r)
       (aliases r) r).

(** ** Flow failure, restarts and the expiry sweep *)

Definition detach (c : Contact) : Contact :=
  mkContact (c_uri c) (c_q c) (registered_at c) (c_expires_secs c) (c_call_id c) (c_cseq c)
    (c_source_addr c) (c_source_transport c) (c_client_transport c) (c_sip_instance c) (c_reg_id c)
    (c_path c) (pending c) (instance c) (c_flow_token c) (c_inbound_local_addr c) None (c_params c)
    (kind c) (c_auth_user c).

Definition on_flow (connection_id : ConnectionId) (c : Contact) : bool :=
  bool_decide (stream_connection c = Some connection_id).

(** The variables of [close_flow]'s loop. *)
Record Closing := mkClosing {
  cl_registrar : Registrar;
  cl_removed : list (string * Contact);
  cl_deregistered : list string;
  cl_emptied : Z;
  cl_seen : gset string;
}.

Definition close_flow_of (now : instant) (connection_id : ConnectionId) (keep : gset string)
    (s : Closing) (aor : string) : Closing :=
  if decide (aor ∈ cl_seen s) then s else
  let seen := {[aor]} ∪ cl_seen s in
  let r := cl_registrar s in
  match bindings r !! aor with
  | None => mkClosing r (cl_removed s) (cl_deregistered s) (cl_emptied s) seen
  | Some contacts =>
      let gone c := on_flow connection_id c && bool_decide (show_uri (c_uri c) ∉ keep) in
      let kept := (λ c, if on_flow connection_id c then detach c else c)
                    <$> filter (λ c, gone c = false) contacts in
      let changed := bool_decide (length kept < length contacts) in
      let kept := cascade now kept in
      let '(sequence, r) := write_sequence r in
      let r := commit aor contacts kept r in
      let announced := changed || is_nil kept in
      mkClosing (if announced then persist_aor aor kept sequence r else r)
        (cl_removed s ++ (pair aor <$> filter (λ c, gone c = true) contacts))
        (cl_deregistered s ++ if announced then [aor] else [])
        (cl_emptied s + if is_nil kept then 1 else 0) seen
  end.

Definition close_flow (now : instant) (connection_id : ConnectionId) (keep : gset string)
    (r : Registrar) : list (string * Contact) * Registrar :=
  match connection_index r !! connection_id with
  | None => ([], r)
  | Some aors =>
      let r := set_indexes (tokens r) (delete connection_id (connection_index r)) r in
      let s := foldl (close_flow_of now connection_id keep) (mkClosing r [] [] 0 ∅) aors in
      let r := foldl (λ r token, remove_token token r) (cl_registrar s)
                 (omap (λ m, c_flow_token m.2) (cl_removed s)) in
      let r := if (0 <? cl_emptied s)%Z then gauge_add (- cl_emptied s) r else r in
      (cl_removed s, foldl (λ r aor, emit_event (Deregistered aor None) r) r (cl_deregistered s))
  end.

(** Each element at its first occurrence: the [seen] set of the source. *)
Fixpoint first_seen (seen : gset string) (l : list string) : list string :=
  match l with
  | [] => []
  | a :: l => if decide (a ∈ seen) then first_seen seen l else a :: first_seen ({[a]} ∪ seen) l
  end.

Definition bindings_for_connection (connection_id : ConnectionId) (r : Registrar)
    : list (string * Contact) :=
  aor ← first_seen ∅ (default [] (connection_index r !! connection_id));
  pair aor <$> filter (λ c, on_flow connection_id c = true) (default [] (bindings r !! aor)).

(** What the sweep leaves of one list: no expired binding, and no AS record
    without a UE binding. *)
Definition unexpired (now : instant) (contacts : list Contact) : list Contact :=
  let contacts := filter (λ c, is_expired now c = false) contacts in
  if existsb (λ c, bool_decide (kind c = Ue)) contacts then contacts else [].

Definition expire_stale (now : instant) (r : Registrar) : nat * Registrar :=
  let dropped := e ← map_to_list (bindings r);
                 pair e.1 <$> filter (λ c, is_expired now c = true) e.2 in
  let empty_aors := (filter (λ e, unexpired now e.2 = [] ∧ e.2 ≠ []) (map_to_list (bindings r))).*1 in
  let entries := m ← dropped; (λ key, (key, m.1)) <$> keys_of_binding m.2 in
  let r := set_bindings (unexpired now <$> bindings r)
             (Index.remove_entries entries (contact_index r)) r in
  let r := foldl (λ r token, remove_token token r) r (omap (λ m, c_flow_token m.2) dropped) in
  let r := foldl (λ r m, match stream_connection m.2 with
                         | Some id => deindex_connection id m.1 r
                         | None => r
                         end) r dropped in
  let r := gauge_add (- Z.of_nat (length empty_aors)) r in
  (length empty_aors,
   foldl (λ r aor, let r := set_bindings (delete aor (bindings r)) (contact_index r) r in
            let r := (remove_aor_state_entries aor (prune_aliases_to aor r)).2 in
            emit_event (Expired aor) r) r empty_aors).

(** The transports whose connection does not survive a restart, as the
    [transport] parameter of the Contact names them. *)
Definition connection_oriented (c : Contact) : bool :=
  bool_decide (to_ascii_lowercase (default "" (get_param (c_uri c) "transport")) ∈
    ["tcp"; "tls"; "ws"; "wss"]).

Definition evict_of (s : nat * list (string * Contact) * Registrar) (aor : string)
    : nat * list (string * Contact) * Registrar :=
  let '(evicted, dropped, r) := s in
  match bindings r !! aor with
  | None => s
  | Some contacts =>
      let kept := filter (λ c, connection_oriented c = false) contacts in
      if bool_decide (length kept = length contacts) then s else
      let '(sequence, r) := write_sequence r in
      let r := commit aor contacts kept r in
      let r := if is_nil kept then gauge_add (-1) r else r in
      let r := emit_event (Deregistered aor None) (persist_aor aor kept sequence r) in
      (evicted + (length contacts - length kept),
       dropped ++ (pair aor <$> filter (λ c, connection_oriented c = true) contacts), r)
  end.

Definition evict_connection_oriented (r : Registrar) : nat * Registrar :=
  let '(evicted, dropped, r) := foldl evict_of (0, [], r) (map_to_list (bindings r)).*1 in
  let r := foldl (λ r token, remove_token token r) r (omap (λ m, c_flow_token m.2) dropped) in
  (evicted, foldl (λ r m, match stream_connection m.2 with
                          | Some id => deindex_connection id m.1 r
                          | None => r
                          end) r dropped).

(** A restore from a backend installs each list, then rebuilds the tokens. *)
Definition install_bindings (aor : string) (contacts : list Contact) (r : Registrar) : Registrar :=
  set_bindings (<[aor := contacts]> (bindings r))
    (Index.replace aor (keys_of (default [] (bindings r !! aor))) (keys_of contacts) (contact_index r)) r.

Definition rebuild_token_index (now : instant) (r : Registrar) : Registrar :=
  set_indexes
    (foldl (λ ts e, foldl (λ ts c, match c_flow_token c with
                                   | Some token => <[token := e.1]> ts
                                   | None => ts
                                   end) ts (filter (λ c, is_expired now c = false) e.2))
       ∅ (map_to_list (bindings r))) (connection_index r) r.

(** ** Selective removal *)

Definition remove_contacts_from (now : instant) (aor : string) (source : SocketAddr)
    (contact_uris : option (list string)) (r : Registrar) : nat * Registrar :=
  let doomed := (λ c, show_uri (c_uri c)) <$>
                  filter (λ c, c_source_addr c = Some source) (lookup now aor r) in
  let doomed := match contact_uris with
                | Some named => filter (λ uri, uri ∈ named) doomed
                | None => doomed
                end in
  foldl (λ s uri, let '(removed, r) := remove_contact now aor uri s.2 in
           (if removed : bool then S s.1 else s.1, r)) (0, r) doomed.

(** One address of record of [evict_restored] ([restore_eviction.rs]): the rows of
    bindings another instance accepted stay in the backend. *)
Definition evict_restored_of (now : instant) (select : Contact → bool)
    (s : list (string * Contact * bool) * Registrar) (aor : string)
    : list (string * Contact * bool) * Registrar :=
  let '(evicted, r) := s in
  match bindings r !! aor with
  | None => s
  | Some contacts =>
      let taken := filter (λ c, select c = true) contacts in
      let kept := filter (λ c, select c = false) contacts in
      let stale := foldl retire ([], []) taken in
      let stale := if existsb (live_ue now) kept then stale else foldl retire stale kept in
      let kept := cascade now kept in
      match taken with
      | [] => (evicted, set_bindings (<[aor := kept]> (bindings r))
                 (Index.replace aor (keys_of contacts) (keys_of kept) (contact_index r)) r)
      | _ =>
          let elsewhere c := match instance_identity r, instance c with
                             | Some own, Some writer => bool_decide (id own ≠ id writer)
                             | _, _ => false
                             end in
          let own_rows_removed := existsb (λ c, negb (elsewhere c)) taken in
          let backend_rows := kept ++ filter (λ c, elsewhere c = true) taken in
          let '(sequence, r) := write_sequence r in
          let r := forget aor stale (commit aor contacts kept r) in
          let r := if own_rows_removed then persist_aor aor backend_rows sequence r else r in
          let r := if is_nil kept then
                     gauge_add (-1)
                       (if own_rows_removed && is_nil backend_rows then drop_aor_state aor r
                        else (remove_aor_state_entries aor (prune_aliases_to aor r)).2)
                   else r in
          (evicted ++ ((λ c, (aor, c, elsewhere c)) <$> taken), emit_event (Deregistered aor None) r)
      end
  end.

Definition evict_restored (now : instant) (select : Contact → bool) (r : Registrar)
    : list (string * Contact * bool) * Registrar :=
  foldl (evict_restored_of now select) ([], r)
    (filter (λ e, existsb select e.2 = true) (map_to_list (bindings r))).*1.

End registrar.
End Reg.
