(* ===== verification/RegistrarProofs.v ===== *)
(** * Properties of the registrar

    Over any sequence of operations the contact index holds exactly one entry
    per key of every stored UE binding, so that a lookup through it finds what a
    scan of all bindings finds; and every alias belongs to the implicit set of
    the identity it points at.  Then what a REGISTER, a removal, a closed
    connection and the expiry sweep do to the bindings, the order of a lookup,
    and the bounds of the answers. *)

From S2P Require Import Prelude Str Nom Headers Uri Message Parser Transport Via NameAddr.
From S2P Require Import Binding ContactIndex Registrar.

Module RegProofs.
Import Holders Index Reg.

Section proofs.
Context {U : Unicode} {P : Nom} {F : Float32} {O : Float32Order} {R : RandomState}.

#[local] Arguments keys_of : simpl never.
#[local] Arguments occ : simpl never.
#[local] Arguments idx_count : simpl never.

(** ** What the bookkeeping leaves alone *)

(** Bindings, contact index, implicit sets and aliases. *)
Definition view (r : Registrar) := (bindings r, contact_index r, associated_uris r, aliases r).
Definition store (r : Registrar) := (bindings r, contact_index r).
Definition implicit (r : Registrar) := (associated_uris r, aliases r).

Lemma view_eq r r' : view r = view r' ↔ store r = store r' ∧ implicit r = implicit r'.
Proof. unfold view, store, implicit. rewrite !pair_equal_spec. tauto. Qed.

Lemma store_eq r r' : store r = store r' ↔ bindings r = bindings r' ∧ contact_index r = contact_index r'.
Proof. apply pair_equal_spec. Qed.

Lemma foldl_invariant {A B C} (f : A → B → A) (g : A → C) l a :
  (∀ a x, g (f a x) = g a) → g (foldl f a l) = g a.
Proof. intros H. revert a. induction l as [|x l IH]; intros a; [done|]. cbn. by rewrite IH. Qed.

Lemma foldl_preserves {A B} (I : A → Prop) (f : A → B → A) l a :
  (∀ a x, I a → I (f a x)) → I a → I (foldl f a l).
Proof. intros H. revert a. induction l as [|x l IH]; intros a Ha; [done|]. cbn. auto. Qed.

Lemma view_enqueue aor w n r : view (enqueue aor w n r) = view r.
Proof. unfold enqueue. by destruct (backend_writer r). Qed.

Lemma view_persist_aor aor l n r : view (persist_aor aor l n r) = view r.
Proof. apply view_enqueue. Qed.

Lemma view_write_sequence r : view (write_sequence r).2 = view r.
Proof. unfold write_sequence. by destruct (backend_writer r). Qed.

Lemma view_persist_aor_state aor r : view (persist_aor_state aor r) = view r.
Proof.
  unfold persist_aor_state. destruct (backend_writer r) eqn:Hw; [|done].
  pose proof (view_write_sequence r) as Hv. destruct (write_sequence r) as [n r1]. cbn in Hv |- *.
  repeat case_match; by rewrite view_enqueue.
Qed.

Lemma view_announce make s : view (announce make s).2 = view s.2.
Proof. destruct s as [[h|] r]; cbn; [|done]. by destruct (deferring h). Qed.

Lemma view_index_connection id b aor r : view (index_connection id b aor r) = view r.
Proof. unfold index_connection. by destruct b, id. Qed.

Lemma view_deindex_connection id aor r : view (deindex_connection id aor r) = view r.
Proof. unfold deindex_connection. destruct (connection_index r !! id); [|done]. by case_match. Qed.

Lemma view_remove_tokens l r : view (foldl (λ r t, remove_token t r) r l) = view r.
Proof. by apply (foldl_invariant _ view). Qed.

Lemma view_forget aor stale r : view (forget aor stale r) = view r.
Proof.
  unfold forget. rewrite (foldl_invariant _ view); [apply view_remove_tokens|].
  intros. apply view_deindex_connection.
Qed.

Lemma view_flush h r : view (flush h r).2 = view r.
Proof. by apply (foldl_invariant _ view). Qed.

Lemma view_deindex_all (l : list (string * Contact)) r :
  view (foldl (λ r m, match stream_connection m.2 with
                      | Some id => deindex_connection id m.1 r
                      | None => r
                      end) r l) = view r.
Proof.
  apply (foldl_invariant _ view). intros r' m. destruct (stream_connection m.2); [|done].
  apply view_deindex_connection.
Qed.

Lemma store_prune primary r : store (prune_aliases_to primary r) = store r.
Proof. unfold prune_aliases_to. by destruct (associated_uris r !! primary). Qed.

Lemma store_install primary uris r : store (install_aliases primary uris r) = store r.
Proof. unfold install_aliases. rewrite <- (store_prune primary r). done. Qed.

Lemma store_drop_aor_state aor r : store (drop_aor_state aor r) = store r.
Proof.
  unfold drop_aor_state. destruct (remove_aor_state_entries aor (prune_aliases_to aor r)) as [b r1] eqn:Hr.
  assert (store r1 = store r) as <- by (rewrite <- (store_prune aor r); by injection Hr as <- <-).
  destruct b; [|done]. by apply (view_eq (persist_aor_state aor r1) r1), view_persist_aor_state.
Qed.

Lemma store_set_aux sr ai au al r : store (set_aux sr ai au al r) = store r.
Proof. done. Qed.

Lemma store_view r r' : view r = view r' → store r = store r'.
Proof. by intros [? _]%view_eq. Qed.

(** A write to the indexes, the backend or the events in the middle of an
    operation. *)
Ltac quiet :=
  repeat first
    [ rewrite (store_view _ _ (view_persist_aor _ _ _ _))
    | rewrite (store_view _ _ (view_enqueue _ _ _ _))
    | rewrite (store_view _ _ (view_persist_aor_state _ _))
    | rewrite (store_view _ _ (view_announce _ _))
    | rewrite (store_view _ _ (view_index_connection _ _ _ _))
    | rewrite (store_view _ _ (view_deindex_connection _ _ _))
    | rewrite (store_view _ _ (view_remove_tokens _ _))
    | rewrite (store_view _ _ (view_forget _ _ _))
    | rewrite (store_view _ _ (view_deindex_all _ _))
    | rewrite store_drop_aor_state
    | rewrite store_install
    | rewrite store_prune
    | rewrite store_set_aux ].

Lemma store_carry_out aor n s e : store (carry_out aor n s e).2 = store s.2.
Proof.
  destruct s as [h r], e as [stale remaining emptied|stale stored token conn stream refreshed];
    cbn [carry_out].
  - quiet. destruct emptied; cbn [snd]; [|by quiet].
    etransitivity; [apply (store_drop_aor_state aor)|]. by quiet.
  - set (r1 := foldl _ r stale.1). assert (store r1 = store r) as Hr1.
    { apply (foldl_invariant _ store). intros. by case_decide. }
    set (r2 := match token with Some _ => _ | None => _ end).
    assert (store r2 = store r) as Hr2 by (by destruct token).
    set (r3 := foldl _ r2 stale.2). assert (store r3 = store r) as Hr3.
    { rewrite <- Hr2. apply (foldl_invariant _ store). intros. by quiet. }
    destruct refreshed; quiet; cbn [snd].
    + by quiet.
    + etransitivity; [|apply Hr3]. etransitivity; [|apply (store_view _ _ (view_index_connection conn stream aor r3))].
      apply (store_view _ _ (view_persist_aor aor stored n _)).
Qed.

(** ** The contact index *)

Definition list_of (b : gmap string (list Contact)) (aor : string) : list Contact :=
  default [] (b !! aor).

(** One entry per key of every stored UE binding. *)
Definition exact (b : gmap string (list Contact)) (ci : gmap N Holders) : Prop :=
  idx_wf ci ∧ ∀ k a, idx_count k a ci = occ k (keys_of (list_of b a)).

Lemma exact_empty : exact ∅ ∅.
Proof. split; [apply map_Forall_empty|done]. Qed.

Lemma exact_keys b b' ci :
  exact b ci → (∀ a, keys_of (list_of b' a) = keys_of (list_of b a)) → exact b' ci.
Proof. intros [Hw Hc] Hk. split; [done|]. intros k a. by rewrite Hc, Hk. Qed.

(** A list replaced, as every operation that changes one does. *)
Lemma exact_replace b b' ci aor contacts :
  exact b ci →
  list_of b' aor = contacts →
  (∀ a, a ≠ aor → list_of b' a = list_of b a) →
  exact b' (Index.replace aor (keys_of (list_of b aor)) (keys_of contacts) ci).
Proof.
  intros [Hw Hc] Hnew Hold.
  destruct (replace_spec aor (keys_of (list_of b aor)) (keys_of contacts) ci) as [Hw' Hc'];
    [done|intros k; by rewrite Hc|].
  split; [done|]. intros k a. rewrite Hc', Hc. case_decide as Ha; [subst; lia|].
  by rewrite Hold.
Qed.

Lemma list_of_insert b aor contacts : list_of (<[aor := contacts]> b) aor = contacts.
Proof. unfold list_of. by rewrite lookup_insert_eq. Qed.

Lemma list_of_insert_ne b aor contacts a : a ≠ aor → list_of (<[aor := contacts]> b) a = list_of b a.
Proof. intros. unfold list_of. by rewrite lookup_insert_ne. Qed.

Lemma list_of_delete b aor a : list_of (delete aor b) a = if decide (aor = a) then [] else list_of b a.
Proof.
  unfold list_of. case_decide as Ha; [subst; by rewrite lookup_delete_eq|by rewrite lookup_delete_ne].
Qed.

(** What is left of a list: the entry, or none when it is empty. *)
Definition put (aor : string) (contacts : list Contact) (b : gmap string (list Contact)) :=
  match contacts with [] => delete aor b | _ => <[aor := contacts]> b end.

Lemma list_of_put b aor contacts a :
  list_of (put aor contacts b) a = if decide (aor = a) then contacts else list_of b a.
Proof.
  destruct contacts as [|c l]; cbn [put]; [apply list_of_delete|].
  case_decide as Ha; [subst; apply list_of_insert|by apply list_of_insert_ne].
Qed.

Lemma exact_insert b ci aor contacts :
  exact b ci →
  exact (<[aor := contacts]> b) (Index.replace aor (keys_of (list_of b aor)) (keys_of contacts) ci).
Proof.
  intros He. eapply exact_replace; [done|apply list_of_insert|intros; by apply list_of_insert_ne].
Qed.

Lemma exact_put b ci aor contacts :
  exact b ci →
  exact (put aor contacts b) (Index.replace aor (keys_of (list_of b aor)) (keys_of contacts) ci).
Proof.
  intros He. eapply exact_replace; [done| |]; [|intros a Ha]; rewrite list_of_put;
    [by rewrite decide_True|by rewrite decide_False].
Qed.

(** A forced REGISTER: the new bindings are recorded beside the old ones, which
    are then forgotten whole. *)
Lemma exact_force b ci aor contacts :
  exact b ci →
  exact (put aor contacts b)
    (Index.remove_all aor (list_of b aor) (Index.replace aor [] (keys_of contacts) ci)).
Proof.
  intros [Hw Hc]. destruct (replace_spec aor [] (keys_of contacts) ci) as [Hw1 Hc1];
    [done|intros; rewrite occ_nil; lia|].
  destruct (remove_all_spec aor (list_of b aor) _ Hw1) as [Hw2 Hc2]. split; [done|].
  intros k a. rewrite Hc2, Hc1, Hc, list_of_put, occ_nil. case_decide; [subst; lia|lia].
Qed.

Lemma exact_remove_all b ci aor :
  exact b ci → exact (delete aor b) (Index.remove_all aor (list_of b aor) ci).
Proof.
  intros [Hw Hc]. destruct (remove_all_spec aor (list_of b aor) _ Hw) as [Hw2 Hc2]. split; [done|].
  intros k a. rewrite Hc2, Hc, list_of_delete. case_decide; [|lia].
  subst. change (keys_of []) with (@nil N). rewrite occ_nil. lia.
Qed.

Definition Inv (r : Registrar) : Prop := exact (bindings r) (contact_index r).

Lemma Inv_store r r' : store r' = store r → Inv r → Inv r'.
Proof. intros [Hb Hc]%store_eq. unfold Inv. by rewrite Hb, Hc. Qed.

Lemma commit_put key held contacts r :
  store (commit key held contacts r) =
    (put key contacts (bindings r),
     Index.replace key (keys_of held) (keys_of contacts) (contact_index r)).
Proof. by destruct contacts. Qed.

Lemma Inv_commit key contacts r :
  Inv r → Inv (commit key (list_of (bindings r) key) contacts r).
Proof.
  intros Hi. pose proof (commit_put key (list_of (bindings r) key) contacts r) as Hs.
  apply pair_equal_spec in Hs as [Hb Hc]. unfold Inv. rewrite Hb, Hc. by apply exact_put.
Qed.

Lemma Inv_write_sequence r : Inv r → Inv (write_sequence r).2.
Proof. apply Inv_store, store_view, view_write_sequence. Qed.

Lemma store_unindex aor contacts r :
  store (unindex aor contacts r) = (bindings r, Index.remove_all aor contacts (contact_index r)).
Proof.
  unfold unindex. etransitivity; [apply (foldl_invariant _ store)|done].
  intros r' c. destruct (stream_connection c); quiet; by destruct (c_flow_token c).
Qed.

Lemma store_release_cleared aor contacts n r :
  store (release_cleared aor contacts n r) =
    (bindings r, match contacts with
                 | Some cleared => Index.remove_all aor cleared (contact_index r)
                 | None => contact_index r
                 end).
Proof. unfold release_cleared. quiet. destruct contacts; [apply store_unindex|done]. Qed.

Lemma store_take_bindings aor r removed n r' :
  take_bindings aor r = (removed, n, r') →
  removed = bindings r !! aor ∧ store r' = (delete aor (bindings r), contact_index r).
Proof.
  unfold take_bindings. pose proof (view_write_sequence r) as Hv. apply store_view, store_eq in Hv as [Hb Hc].
  destruct (write_sequence r) as [m r1]. cbn in Hb, Hc. intros [= <- <- <-].
  split; [done|]. unfold store. cbn. by rewrite Hb, Hc.
Qed.

Lemma list_of_None b aor : b !! aor = None → list_of b aor = [].
Proof. unfold list_of. by intros ->. Qed.

Lemma list_of_Some b aor l : b !! aor = Some l → list_of b aor = l.
Proof. unfold list_of. by intros ->. Qed.

(** Bindings taken out of the map and forgotten by the index. *)
Lemma exact_taken b ci aor removed :
  removed = b !! aor →
  exact b ci →
  exact (delete aor b) (match removed with
                        | Some cleared => Index.remove_all aor cleared ci
                        | None => ci
                        end).
Proof.
  intros -> He. pose proof (exact_remove_all b ci aor He) as Hd. unfold list_of in Hd.
  by destruct (b !! aor).
Qed.

Lemma Inv_release_taken aor r removed n r' :
  take_bindings aor r = (removed, n, r') → Inv r → Inv (release_cleared aor removed n r').
Proof.
  intros (Hr & [Hb Hc]%pair_equal_spec)%store_take_bindings Hi.
  pose proof (store_release_cleared aor removed n r') as [Hb' Hc']%pair_equal_spec.
  unfold Inv. rewrite Hb', Hc', Hb, Hc. by apply exact_taken.
Qed.

Lemma Inv_clear_bindings aor r : Inv r → Inv (clear_bindings aor r).
Proof.
  intros Hi. unfold clear_bindings. destruct (take_bindings _ r) as [[removed n] r'] eqn:Ht.
  by apply (Inv_release_taken _ _ _ _ _ Ht).
Qed.

Lemma Inv_carry_out_all key n h r effects :
  Inv r → Inv (foldl (carry_out key n) (h, r) effects).2.
Proof.
  apply Inv_store. change (store (h, r).2) with (store r).
  apply (foldl_invariant _ (λ s : option RegisterEventHold * Registrar, store s.2)).
  intros. apply store_carry_out.
Qed.

Lemma Inv_apply_register_in now aor updates force hold r s :
  apply_register_in now aor updates force hold r = Ok s → Inv r → Inv s.2.
Proof.
  intros Hok Hi. destruct updates as [|u us]; unfold apply_register_in in Hok.
  { injection Hok as <-. destruct force; [by apply Inv_clear_bindings|done]. }
  set (primary := resolve_alias aor r) in Hok.
  set (key := if force && alias_retired_by_clearing aor primary r then _ else _) in Hok.
  clearbody key. destruct (negb (is_aor_key_safe key)); [done|]. cbv zeta in Hok.
  apply bind_Ok in Hok as ([contacts effects] & _ & Hok).
  pose proof (Inv_write_sequence r Hi) as Hi1. pose proof (view_write_sequence r) as Hv.
  apply store_view, store_eq in Hv as [Hb _].
  destruct (write_sequence r) as [n r1]. cbn [snd] in Hi1, Hb. injection Hok as <-.
  apply Inv_carry_out_all. rewrite <- Hb. fold (list_of (bindings r1) key).
  destruct force; cbn [andb]; [|by apply Inv_commit].
  case_bool_decide as Hk.
  - subst key. pose proof (store_release_cleared primary (bindings r1 !! primary) n
      (commit primary [] contacts r1)) as [Hb' Hc']%pair_equal_spec.
    pose proof (commit_put primary [] contacts r1) as [Hb1 Hc1]%pair_equal_spec.
    pose proof (exact_force (bindings r1) (contact_index r1) primary contacts Hi1) as He.
    unfold Inv. rewrite Hb', Hc', Hb1, Hc1. unfold list_of in He.
    by destruct (bindings r1 !! primary).
  - destruct (take_bindings primary _) as [[removed m] r2] eqn:Ht.
    apply (Inv_release_taken _ _ _ _ _ Ht). by apply Inv_commit.
Qed.

Lemma Inv_remove_all_in aor hold r : Inv r → Inv (remove_all_in aor hold r).2.
Proof.
  intros Hi. unfold remove_all_in. destruct (take_bindings _ r) as [[removed n] r'] eqn:Ht.
  apply (Inv_release_taken _ _ _ _ _ Ht) in Hi. revert Hi. apply Inv_store. quiet.
  unfold release_cleared. by destruct removed.
Qed.

Lemma Inv_remove_contact now aor uri r : Inv r → Inv (remove_contact now aor uri r).2.
Proof.
  intros Hi. unfold remove_contact. set (removed := λ c : Contact, _ && (_ || _)).
  set (a := resolve_alias aor r). destruct (bindings r !! a) as [contacts|] eqn:Ha; [|done].
  destruct (existsb removed contacts); [|done]. cbv zeta.
  pose proof (Inv_write_sequence r Hi) as Hi1. pose proof (view_write_sequence r) as Hv.
  apply store_view, store_eq in Hv as [Hb _].
  destruct (write_sequence r) as [n r1]. cbn [snd] in Hi1, Hb |- *.
  eapply Inv_store; [apply (store_carry_out a n (None, _))|].
  rewrite <- Hb in Ha. rewrite <- (list_of_Some _ _ _ Ha) at 1. by apply Inv_commit.
Qed.

(** *** AS records have no keys *)

Lemma keys_of_cons c l : keys_of (c :: l) = keys_of_binding c ++ keys_of l.
Proof. done. Qed.

Lemma keys_of_app l1 l2 : keys_of (l1 ++ l2) = keys_of l1 ++ keys_of l2.
Proof. apply bind_app. Qed.

Lemma keys_of_as c : kind c = As → keys_of_binding c = [].
Proof. unfold keys_of_binding. by intros ->. Qed.

Lemma keys_of_fmap f l : (∀ c, keys_of_binding (f c) = keys_of_binding c) → keys_of (f <$> l) = keys_of l.
Proof. intros Hf. induction l as [|c l IH]; [done|]. by rewrite fmap_cons, !keys_of_cons, Hf, IH. Qed.

Lemma keys_of_filter_as (p : Contact → bool) l :
  (∀ c, p c = true → kind c = As) → keys_of (filter (λ c, p c = false) l) = keys_of l.
Proof.
  intros Hp. induction l as [|c l IH]; [done|]. rewrite filter_cons, keys_of_cons. case_decide as Hc.
  - by rewrite keys_of_cons, IH.
  - rewrite IH, keys_of_as; [done|]. apply Hp. by destruct (p c).
Qed.

(** An AS record written over the one with its URI, or appended. *)
Lemma keys_of_put_as p contact l :
  (∀ c, p c = true → kind c = As) → kind contact = As →
  keys_of (match position p l with
           | Some index => <[index := contact]> l
           | None => l ++ [contact]
           end) = keys_of l.
Proof.
  intros Hp Hc. destruct (position p l) as [i|] eqn:Hi.
  - apply position_Some in Hi as (l1 & x & l2 & -> & <- & Hx & _).
    rewrite <- (Nat.add_0_r (length l1)), insert_app_r. cbn.
    by rewrite !keys_of_app, !keys_of_cons, (keys_of_as contact), (keys_of_as x) by auto.
  - by rewrite keys_of_app, keys_of_cons, (keys_of_as contact), app_nil_r.
Qed.

Lemma keys_of_no_ue l :
  existsb (λ c : Contact, bool_decide (kind c = Ue)) l = false → keys_of l = [].
Proof.
  induction l as [|c l IH]; [done|]. cbn. rewrite orb_false_iff, bool_decide_eq_false.
  intros [Hc Hl]. rewrite keys_of_cons, IH, keys_of_as; [done| |done]. by destruct (kind c).
Qed.

(** ** The other operations *)

Lemma Inv_keys r b :
  Inv r → (∀ a, keys_of (list_of b a) = keys_of (list_of (bindings r) a)) →
  Inv (set_bindings b (contact_index r) r).
Proof. intros Hi Hk. by apply (exact_keys (bindings r)). Qed.

Lemma keys_insert b aor l a :
  keys_of l = keys_of (list_of b aor) →
  keys_of (list_of (<[aor := l]> b) a) = keys_of (list_of b a).
Proof.
  intros Hl. destruct (decide (a = aor)) as [->|]; [by rewrite list_of_insert|by rewrite list_of_insert_ne].
Qed.

Lemma keys_put b aor l a :
  keys_of l = keys_of (list_of b aor) →
  keys_of (list_of (put aor l b) a) = keys_of (list_of b a).
Proof. intros Hl. rewrite list_of_put. case_decide; [by subst|done]. Qed.

Lemma Inv_save_as_contact now aor uri e q ps r :
  Inv r → Inv (save_as_contact now aor uri e q ps r).2.
Proof.
  intros Hi. unfold save_as_contact. set (a := resolve_alias aor r).
  fold (list_of (bindings r) a). set (contacts := filter _ (list_of (bindings r) a)).
  set (r1 := set_bindings _ _ r).
  assert (Inv r1) as Hi1 by (by apply (exact_insert (bindings r))).
  set (r2 := foldl _ r1 _). assert (store r2 = store r1) as Hs.
  { apply (foldl_invariant _ store). intros. by quiet. }
  apply (Inv_store r1 r2 Hs) in Hi1. apply store_eq in Hs as [Hb _].
  assert (list_of (bindings r2) a = contacts) as Hl by (rewrite Hb; apply list_of_insert).
  clearbody r2. clear Hb r1. rename r2 into r1.
  set (same_as := λ c : Contact, _ && _).
  assert (Hsame : ∀ c, same_as c = true → kind c = As) by (intros c [H%bool_decide_eq_true _]%andb_prop; done).
  cbv zeta. pose proof (Inv_write_sequence r1 Hi1) as Hi2.
  pose proof (view_write_sequence r1) as Hv. apply store_view, store_eq in Hv as [Hb2 _].
  destruct (write_sequence r1) as [n r2]. cbn [snd] in Hi2, Hb2.
  rewrite <- Hb2 in Hl. destruct (e =? 0)%N.
  - case_bool_decide; [done|]. cbn [snd]. eapply Inv_store; [apply store_view, view_persist_aor|].
    apply (Inv_keys r2 (put a _ (bindings r2))); [done|]. intros a'. apply keys_put.
    rewrite Hl. by apply keys_of_filter_as.
  - destruct (negb _); [done|]. cbn [snd]. eapply Inv_store; [apply store_view, view_persist_aor|].
    apply Inv_keys; [done|]. intros a'. apply keys_insert. rewrite Hl. by apply keys_of_put_as.
Qed.

Lemma Inv_save_pending now aor uri e q ci cs r : Inv r → Inv (save_pending now aor uri e q ci cs r).
Proof. intros Hi. by apply (exact_insert (bindings r)). Qed.

Lemma Inv_install_bindings aor contacts r : Inv r → Inv (install_bindings aor contacts r).
Proof. intros Hi. by apply (exact_insert (bindings r)). Qed.

Lemma Inv_confirm_pending aor r : Inv r → Inv (confirm_pending aor r).
Proof.
  intros Hi. unfold confirm_pending. destruct (bindings r !! _) as [l|] eqn:Hl; [|done].
  apply Inv_keys; [done|]. intros a. apply keys_insert. rewrite (list_of_Some _ _ _ Hl).
  by apply keys_of_fmap.
Qed.

Lemma store_apply_aor_state aor st r : store (apply_aor_state aor st r) = store r.
Proof.
  unfold apply_aor_state.
  destruct (s_associated_uris st), (s_asserted_identity st), (s_service_routes st); quiet; done.
Qed.

(** An operation that replaces one list under its own entry, whatever else it
    does. *)
Lemma Inv_replaced r r' aor contacts kept :
  Inv r → bindings r !! aor = Some contacts →
  store r' = store (commit aor contacts kept r) → Inv r'.
Proof.
  intros Hi Ha Hs. apply (Inv_store _ _ Hs). rewrite <- (list_of_Some _ _ _ Ha) at 1.
  by apply Inv_commit.
Qed.

Lemma Inv_close_flow_of now id keep s aor :
  Inv (cl_registrar s) → Inv (cl_registrar (close_flow_of now id keep s aor)).
Proof.
  intros Hi. unfold close_flow_of. case_decide; [done|]. cbv zeta.
  destruct (bindings (cl_registrar s) !! aor) as [contacts|] eqn:Ha; [|done].
  set (kept := _ <$> filter _ contacts). clearbody kept.
  pose proof (Inv_write_sequence _ Hi) as Hi1. pose proof (view_write_sequence (cl_registrar s)) as Hv.
  apply store_view, store_eq in Hv as [Hb _].
  destruct (write_sequence (cl_registrar s)) as [n r1]. cbn [snd] in Hi1, Hb. rewrite <- Hb in Ha.
  apply (Inv_replaced r1 _ aor contacts (cascade now kept) Hi1 Ha). cbn [cl_registrar].
  destruct (_ || _); [apply store_view, view_persist_aor|done].
Qed.

Lemma Inv_close_flow now id keep r : Inv r → Inv (close_flow now id keep r).2.
Proof.
  intros Hi. unfold close_flow. destruct (connection_index r !! id) as [aors|]; [|done]. cbn [snd].
  set (s := foldl (close_flow_of now id keep) _ aors).
  assert (Inv (cl_registrar s)) as Hs.
  { apply (foldl_preserves (λ s, Inv (cl_registrar s))); [|done]. intros. by apply Inv_close_flow_of. }
  revert Hs. apply Inv_store. rewrite (foldl_invariant _ store) by done.
  destruct (0 <? cl_emptied s)%Z; [|by quiet].
  etransitivity; [|apply (store_view _ _ (view_remove_tokens
    (omap (λ m, c_flow_token m.2) (cl_removed s)) (cl_registrar s)))]. done.
Qed.

Lemma Inv_evict_of s aor : Inv s.2 → Inv (evict_of s aor).2.
Proof.
  destruct s as [[ev dropped] r]. cbn [snd]. intros Hi. unfold evict_of.
  destruct (bindings r !! aor) as [contacts|] eqn:Ha; [|done]. cbv zeta.
  case_bool_decide; [done|].
  pose proof (Inv_write_sequence _ Hi) as Hi1. pose proof (view_write_sequence r) as Hv.
  apply store_view, store_eq in Hv as [Hb _].
  destruct (write_sequence r) as [n r1]. cbn [snd] in Hi1, Hb |- *. rewrite <- Hb in Ha.
  apply (Inv_replaced r1 _ aor contacts (filter (λ c, connection_oriented c = false) contacts) Hi1 Ha).
  etransitivity; [apply store_view, (view_persist_aor aor)|]. by destruct (is_nil _).
Qed.

Lemma Inv_evict_connection_oriented r : Inv r → Inv (evict_connection_oriented r).2.
Proof.
  intros Hi. unfold evict_connection_oriented.
  pose proof (foldl_preserves (λ s : nat * list (string * Contact) * Registrar, Inv s.2) evict_of
    (map_to_list (bindings r)).*1 (0, [], r) (λ s a, Inv_evict_of s a) Hi) as He.
  destruct (foldl evict_of _ _) as [[ev dropped] r1]. cbn [snd] in He |- *. revert He.
  apply Inv_store. by quiet.
Qed.

(** *** The expiry sweep *)

Lemma occ_split k (p : Contact → bool) l :
  occ k (keys_of l) =
    occ k (keys_of (filter (λ c, p c = true) l)) + occ k (keys_of (filter (λ c, p c = false) l)).
Proof.
  induction l as [|c l IH]; [done|].
  rewrite !filter_cons, keys_of_cons, occ_app, IH.
  destruct (p c); repeat case_decide; try done; rewrite keys_of_cons, occ_app; lia.
Qed.

Lemma keys_of_unexpired now l :
  keys_of (unexpired now l) = keys_of (filter (λ c, is_expired now c = false) l).
Proof. unfold unexpired. destruct (existsb _ _) eqn:He; [done|]. symmetry. by apply keys_of_no_ue. Qed.

(** The entries the sweep forgets, for a list of addresses of record. *)
Definition swept_entries (now : instant) (l : list (string * list Contact)) : list (N * string) :=
  m ← (e ← l; pair e.1 <$> filter (λ c, is_expired now c = true) e.2);
  (λ key, (key, m.1)) <$> keys_of_binding m.2.

Lemma swept_entries_cons now e l :
  swept_entries now (e :: l) =
    ((λ key, (key, e.1)) <$> keys_of (filter (λ c, is_expired now c = true) e.2)) ++ swept_entries now l.
Proof.
  unfold swept_entries. rewrite bind_cons, bind_app. f_equal.
  induction (filter _ e.2) as [|c cs IH]; [done|].
  by rewrite fmap_cons, bind_cons, keys_of_cons, fmap_app, IH.
Qed.

Lemma count_tagged k (a aor : string) keys :
  length (filter (eq (k, a)) ((λ key, (key, aor)) <$> keys)) =
    if decide (aor = a) then occ k keys else 0.
Proof.
  induction keys as [|k' keys IH]; [by case_decide|].
  rewrite fmap_cons, filter_cons, occ_cons. repeat case_decide; simplify_eq/=; try lia; naive_solver.
Qed.

Lemma swept_count now l k a :
  NoDup l.*1 →
  length (filter (eq (k, a)) (swept_entries now l)) =
    occ k (keys_of (filter (λ c, is_expired now c = true) (list_of (list_to_map l) a))).
Proof.
  induction l as [|[a' cs] l IH]; intros Hnd; [done|]. inversion Hnd as [|? ? Hnot Hnd']; subst.
  rewrite swept_entries_cons, filter_app, length_app, count_tagged, IH by done. cbn [list_to_map foldr].
  cbn. case_decide as Ha.
  - subst. rewrite list_of_insert.
    assert (list_of (list_to_map l) a = []) as -> by (by apply list_of_None, not_elem_of_list_to_map_1).
    rewrite filter_nil. change (keys_of []) with (@nil N). rewrite occ_nil. lia.
  - by rewrite list_of_insert_ne.
Qed.

Lemma exact_swept now b ci :
  exact b ci → exact (unexpired now <$> b) (Index.remove_entries (swept_entries now (map_to_list b)) ci).
Proof.
  intros [Hw Hc]. destruct (remove_entries_spec (swept_entries now (map_to_list b)) ci Hw) as [Hw' Hc'].
  split; [done|]. intros k a. rewrite Hc', Hc, swept_count, list_to_map_to_list by
    apply NoDup_fst_map_to_list.
  assert (list_of (unexpired now <$> b) a = unexpired now (list_of b a)) as ->.
  { unfold list_of. rewrite lookup_fmap. by destruct (b !! a). }
  rewrite keys_of_unexpired, (occ_split k (is_expired now) (list_of b a)). lia.
Qed.

Lemma Inv_expire_stale now r : Inv r → Inv (expire_stale now r).2.
Proof.
  intros Hi. unfold expire_stale. cbn [snd]. fold (swept_entries now (map_to_list (bindings r))).
  set (r1 := set_bindings _ _ r). assert (Inv r1) as Hi1 by (by apply exact_swept).
  set (l := filter _ (map_to_list (bindings r))).
  assert (Hl : ∀ a, a ∈ l.*1 → list_of (bindings r1) a = []).
  { intros a ([a' cs] & -> & [[He _] Hcs%elem_of_map_to_list]%list_elem_of_filter)%list_elem_of_fmap.
    cbn in He |- *. unfold list_of. rewrite lookup_fmap, Hcs. done. }
  set (r2 := gauge_add _ _). assert (store r2 = store r1) as Hs.
  { etransitivity; [apply (store_view _ _ (view_deindex_all _ _))|]. by quiet. }
  apply (Inv_store r1 r2 Hs) in Hi1. apply store_eq in Hs as [Hb _]. rewrite <- Hb in Hl.
  clearbody r2 l. clear Hb r1 Hi. revert r2 Hi1 Hl.
  induction l.*1 as [|a as_ IH]; intros r2 Hi Hl; [done|]. cbn [foldl].
  set (r3 := emit_event _ _).
  assert (store r3 = (delete a (bindings r2), contact_index r2)) as [Hb Hc]%pair_equal_spec.
  { etransitivity; [apply (store_prune a)|done]. }
  apply IH.
  - unfold Inv. rewrite Hb, Hc. apply (exact_keys (bindings r2)); [done|]. intros a'.
    rewrite list_of_delete. case_decide; [|done]. subst. by rewrite Hl by left.
  - intros a' Ha'. rewrite Hb, list_of_delete. case_decide; [done|]. apply Hl. by right.
Qed.

Lemma Inv_evict_restored_of now select s aor : Inv s.2 → Inv (evict_restored_of now select s aor).2.
Proof.
  destruct s as [ev r]. cbn [snd]. intros Hi. unfold evict_restored_of.
  destruct (bindings r !! aor) as [contacts|] eqn:Ha; [|done]. cbv zeta.
  set (kept := cascade now _). clearbody kept.
  destruct (filter (λ c, select c = true) contacts) as [|t taken].
  { cbn [snd]. rewrite <- (list_of_Some _ _ _ Ha). by apply (exact_insert (bindings r)). }
  generalize (t :: taken). clear t taken. intros taken.
  pose proof (Inv_write_sequence _ Hi) as Hi1. pose proof (view_write_sequence r) as Hv.
  apply store_view, store_eq in Hv as [Hb _].
  destruct (write_sequence r) as [n r1]. cbn [snd] in Hi1, Hb |- *. rewrite <- Hb in Ha.
  apply (Inv_replaced r1 _ aor contacts kept Hi1 Ha).
  set (r2 := if existsb _ _ then _ else _). assert (store r2 = store (commit aor contacts kept r1)) as Hs.
  { subst r2. destruct (existsb _ _); by quiet. }
  rewrite <- Hs. clearbody r2. destruct (is_nil kept); [|done].
  destruct (_ && _); [apply (store_drop_aor_state aor)|apply (store_prune aor)].
Qed.

Lemma Inv_evict_restored now select r : Inv r → Inv (evict_restored now select r).2.
Proof.
  intros Hi. apply (foldl_preserves (λ s : list (string * Contact * bool) * Registrar, Inv s.2));
    [|done]. intros. by apply Inv_evict_restored_of.
Qed.

Lemma Inv_remove_contacts_from now aor source uris r :
  Inv r → Inv (remove_contacts_from now aor source uris r).2.
Proof.
  intros Hi. apply (foldl_preserves (λ s : nat * Registrar, Inv s.2)); [|done].
  intros [n r'] uri Hr. pose proof (Inv_remove_contact now aor uri r' Hr) as Hc. cbn [snd] in Hc |- *.
  by destruct (remove_contact now aor uri r').
Qed.

(** ** Every sequence of operations *)

Inductive step : Registrar → Registrar → Prop :=
  | step_register now aor updates force hold r s :
      apply_register_in now aor updates force hold r = Ok s → step r s.2
  | step_flush hold r : step r (flush hold r).2
  | step_clear aor r : step r (clear_bindings aor r)
  | step_remove_all aor hold r : step r (remove_all_in aor hold r).2
  | step_remove_contact now aor uri r : step r (remove_contact now aor uri r).2
  | step_remove_contacts_from now aor source uris r :
      step r (remove_contacts_from now aor source uris r).2
  | step_save_as now aor uri expires q params r :
      step r (save_as_contact now aor uri expires q params r).2
  | step_save_pending now aor uri expires q call_id cseq r :
      step r (save_pending now aor uri expires q call_id cseq r)
  | step_confirm aor r : step r (confirm_pending aor r)
  | step_service_routes aor routes r : step r (set_service_routes aor routes r)
  | step_associated_uris aor uris r : step r (set_associated_uris aor uris r)
  | step_asserted_identity aor identity r : step r (set_asserted_identity aor identity r)
  | step_close_flow now id keep r : step r (close_flow now id keep r).2
  | step_expire now r : step r (expire_stale now r).2
  | step_evict r : step r (evict_connection_oriented r).2
  | step_evict_restored now select r : step r (evict_restored now select r).2
  | step_install aor contacts r : step r (install_bindings aor contacts r)
  | step_aor_state aor state r : step r (apply_aor_state aor state r)
  | step_rebuild_tokens now r : step r (rebuild_token_index now r).

(** A registrar as it is made, with or without a backend and an identity. *)
Definition initial (r : Registrar) : Prop :=
  r = mkRegistrar ∅ ∅ ∅ ∅ ∅ ∅ ∅ ∅ (config r) [] (backend_writer r) (instance_identity r) 0.

Definition reachable (r : Registrar) : Prop := ∃ r0, initial r0 ∧ rtc step r0 r.

Lemma Inv_step r r' : step r r' → Inv r → Inv r'.
Proof.
  destruct 1; intros Hi.
  - by eapply Inv_apply_register_in.
  - revert Hi. apply Inv_store, store_view, view_flush.
  - by apply Inv_clear_bindings.
  - by apply Inv_remove_all_in.
  - by apply Inv_remove_contact.
  - by apply Inv_remove_contacts_from.
  - by apply Inv_save_as_contact.
  - by apply Inv_save_pending.
  - by apply Inv_confirm_pending.
  - revert Hi. apply Inv_store. unfold set_service_routes. by quiet.
  - revert Hi. apply Inv_store. unfold set_associated_uris. by quiet.
  - revert Hi. apply Inv_store. unfold set_asserted_identity. by quiet.
  - by apply Inv_close_flow.
  - by apply Inv_expire_stale.
  - by apply Inv_evict_connection_oriented.
  - by apply Inv_evict_restored.
  - by apply Inv_install_bindings.
  - revert Hi. apply Inv_store, store_apply_aor_state.
  - done.
Qed.

Lemma reachable_Inv r : reachable r → Inv r.
Proof.
  intros (r0 & H0 & Hs). assert (Inv r0) as Hi by (unfold Inv; rewrite H0; apply exact_empty).
  clear H0. induction Hs; [done|]. eauto using Inv_step.
Qed.

(** ** Lookups by Contact *)

(** The reference: every binding of every address of record. *)
Definition scan (now : instant) (target : SipUri) (r : Registrar) : list (string * Contact) :=
  e ← map_to_list (bindings r);
  pair e.1 <$> filter (λ c, live_ue now c && same_contact (c_uri c) target = true) e.2.

(** Two ways of enumerating what a function finds something for. *)
Lemma bind_support {A B} (g : A → list B) l1 l2 :
  NoDup l1 → NoDup l2 → (∀ a, g a ≠ [] → a ∈ l1 ↔ a ∈ l2) → l1 ≫= g ≡ₚ l2 ≫= g.
Proof.
  intros H1 H2 Hiff.
  assert (Hf : ∀ l, l ≫= g = filter (λ a, is_nil (g a) = false) l ≫= g).
  { induction l as [|a l IH]; [done|]. rewrite bind_cons, filter_cons, IH.
    case_decide as Ha; [by rewrite bind_cons|]. by destruct (g a). }
  rewrite (Hf l1), (Hf l2). apply bind_Permutation, NoDup_Permutation;
    [by apply NoDup_filter|by apply NoDup_filter|].
  intros a. rewrite !list_elem_of_filter. split; intros [Ha Hl]; (split; [done|]);
    (assert (g a ≠ []) as Hne by (intros He; by rewrite He in Ha)); by apply (Hiff a Hne).
Qed.

Lemma scan_keys now target r :
  scan now target r = (map_to_list (bindings r)).*1 ≫= λ aor,
    pair aor <$> filter (λ c, live_ue now c && same_contact (c_uri c) target = true)
                   (list_of (bindings r) aor).
Proof.
  unfold scan. assert (Hl : ∀ e, e ∈ map_to_list (bindings r) → list_of (bindings r) e.1 = e.2).
  { intros [a cs] He%elem_of_map_to_list. by apply list_of_Some. }
  revert Hl. induction (map_to_list (bindings r)) as [|e l IH]; intros Hl; [done|].
  rewrite fmap_cons, !bind_cons, (Hl e) by left. f_equal. apply IH. intros e' He'. apply Hl. by right.
Qed.

(** A match is a UE binding under the key of the target. *)
Lemma match_indexed now target r aor c :
  Inv r → c ∈ list_of (bindings r) aor → live_ue now c && same_contact (c_uri c) target = true →
  aor ∈ Index.aors (key_of target) (contact_index r).
Proof.
  intros [Hw Hc] Hin [[Hk _]%live_ue_true Hs%same_contact_key]%andb_prop.
  apply elem_of_aors; [done|]. rewrite Hc, <- occ_elem. apply list_elem_of_bind.
  exists c. split; [|done]. unfold keys_of_binding. rewrite Hk, Hs. by left.
Qed.

Lemma contact_matches_scan now uri target r :
  Inv r → contact_target uri = Some target → contact_matches now uri r ≡ₚ scan now target r.
Proof.
  intros Hi Ht. unfold contact_matches. rewrite Ht, scan_keys.
  apply bind_support; [apply aors_NoDup|apply NoDup_fst_map_to_list|].
  intros aor Hne. assert (∃ c, c ∈ list_of (bindings r) aor ∧
    live_ue now c && same_contact (c_uri c) target = true) as (c & Hc & Hm).
  { change (default [] (bindings r !! aor)) with (list_of (bindings r) aor) in Hne.
    destruct (filter _ (list_of (bindings r) aor)) as [|c cs] eqn:Hf; [done|].
    assert (c ∈ c :: cs) as Hc by left. rewrite <- Hf in Hc.
    apply list_elem_of_filter in Hc as [Hm Hin]. by exists c. }
  split; intros _; [|by eapply match_indexed].
  unfold list_of in Hc. destruct (bindings r !! aor) as [l|] eqn:Hl; [|by apply elem_of_nil in Hc].
  apply list_elem_of_fmap. exists (aor, l). by rewrite elem_of_map_to_list.
Qed.

Lemma binding_for_contact_Some now uri r aor contact :
  binding_for_contact now uri r = Some (aor, contact) →
  Forall (λ m, m.1 = aor) (contact_matches now uri r) ∧ contact_matches now uri r ≠ [].
Proof.
  unfold binding_for_contact. destruct (contact_matches now uri r) as [|[a c] ms]; [done|].
  destruct (existsb _ ms) eqn:He; [done|]. intros [= <- <-]. split; [|done].
  constructor; [done|]. apply Forall_forall. intros m Hm. apply dec_stable. intros Hne.
  rewrite <- not_true_iff_false, existsb_exists in He. apply He. exists m.
  rewrite bool_decide_eq_true. by rewrite <- list_elem_of_In.
Qed.

Lemma binding_for_contact_None now uri r :
  binding_for_contact now uri r = None →
  contact_matches now uri r = [] ∨
  ∃ m1 m2, m1 ∈ contact_matches now uri r ∧ m2 ∈ contact_matches now uri r ∧ m1.1 ≠ m2.1.
Proof.
  unfold binding_for_contact. destruct (contact_matches now uri r) as [|[a c] ms]; [by left|].
  destruct (existsb _ ms) eqn:He; [|done]. intros _. right.
  apply existsb_exists in He as (m & Hm%list_elem_of_In & Hne%bool_decide_eq_true).
  exists m, (a, c). split_and!; [by right|by left|done].
Qed.

End proofs.

(** ** A registrar that runs *)
Module Running.
#[export] Existing Instances unicode_ascii nom_reference float_whole float_whole_order finish_length.
End Running.

Module Sample.
Import Running.

(** A Contact of a REGISTER over connection 7. *)
Definition update (host : string) (expires : N) : ContactUpdate :=
  mkUpdate (mkUri Sip (Some "alice") host None [] None) expires 1%N "c1" 1
    (Some (mkSocket (V4 167772161) 5060)) (Some Net.Tcp) None None []
    (mkFlow None None (Some 7%N) None) [] None.

Definition empty : Registrar := new default_config.

Definition aor : string := "sip:alice@example.org".

Definition run (now : instant) (updates : list ContactUpdate) (r : Registrar) : Registrar :=
  default r (ok (apply_register now aor updates false r)).

(** Alice registers two devices over one connection. *)
Definition two : Registrar := run 0 [update "10.0.0.1" 600; update "10.0.0.2" 600] empty.

Lemma run_reachable now updates r :
  reachable r → is_ok (apply_register now aor updates false r) = true → reachable (run now updates r).
Proof.
  intros (r0 & H0 & Hr) Hok. exists r0. split; [done|]. eapply rtc_r; [done|].
  unfold run. destruct (apply_register now aor updates false r) as [r'|] eqn:Ha; [|done]. cbn.
  unfold apply_register in Ha.
  destruct (apply_register_in now aor updates false None r) as [s|] eqn:Hs; [|done].
  cbn in Ha. injection Ha as <-. by eapply step_register.
Qed.

Lemma empty_reachable : reachable empty.
Proof. by exists empty. Qed.

Lemma two_reachable : reachable two.
Proof. apply run_reachable; [apply empty_reachable|]. vm_compute. reflexivity. Qed.

End Sample.

(** C21: over any sequence of operations of the registrar, whatever the hash, the
    contact index holds for each key and each address of record exactly as many
    entries as the address has UE bindings with that key. *)
Theorem contact_index_exact
    `{U : Unicode, P : Nom, F : Float32, O : !Float32Order, R : RandomState}
    (r : Registrar) (key : N) (aor : string) :
  reachable r →
  idx_count key aor (contact_index r) = occ key (keys_of (default [] (bindings r !! aor))).
Proof. intros Hr%reachable_Inv. apply Hr. Qed.

Import Running.

Lemma contact_index_exact_witness :
  idx_count (key_of (mkUri Sip (Some "alice") "10.0.0.1" None [] None)) Sample.aor
    (contact_index Sample.two) = 2.
Proof.
  rewrite (contact_index_exact Sample.two _ _ Sample.two_reachable). vm_compute. reflexivity.
Defined.

(** C22: in every reachable state a lookup by Contact through the index finds the
    bindings a scan of all of them finds, each once; and it names an address of
    record exactly when all the matching bindings belong to it. *)
Theorem contact_lookup_is_scan
    `{U : Unicode, P : Nom, F : Float32, O : !Float32Order, R : RandomState}
    (r : Registrar) (now : instant) (contact_uri : string) (target : SipUri) :
  reachable r →
  contact_target contact_uri = Some target →
  lookup_contact now contact_uri r ≡ₚ (scan now target r).*2 ∧
  is_registered_contact now contact_uri r = negb (is_nil (scan now target r)) ∧
  match binding_for_contact now contact_uri r with
  | Some (aor, _) => scan now target r ≠ [] ∧ Forall (λ m, m.1 = aor) (scan now target r)
  | None => scan now target r = [] ∨
            ∃ m1 m2, m1 ∈ scan now target r ∧ m2 ∈ scan now target r ∧ m1.1 ≠ m2.1
  end.
Proof.
  intros Hr%reachable_Inv Ht. pose proof (contact_matches_scan now _ _ _ Hr Ht) as Hp. split_and!.
  - unfold lookup_contact, sort_by_preference. rewrite sort_by_perm. by rewrite Hp.
  - unfold is_registered_contact. destruct (contact_matches now contact_uri r), (scan now target r);
      [done|by apply Permutation_nil_cons in Hp|symmetry in Hp; by apply Permutation_nil_cons in Hp|done].
  - destruct (binding_for_contact now contact_uri r) as [[aor c]|] eqn:Hb.
    + apply binding_for_contact_Some in Hb as [Hall Hne]. rewrite Hp in Hall. split; [|done].
      intros He. rewrite He in Hp. symmetry in Hp. by apply Permutation_nil in Hp.
    + apply binding_for_contact_None in Hb as [Hn|(m1 & m2 & H1 & H2 & Hne)].
      * left. rewrite Hn in Hp. by apply Permutation_nil in Hp.
      * right. exists m1, m2. by rewrite <- Hp.
Qed.

Lemma contact_lookup_is_scan_witness :
  is_registered_contact 0 "<sip:alice@10.0.0.2:5060>" Sample.two =
    negb (is_nil (scan 0 (mkUri Sip (Some "alice") "10.0.0.2" (Some 5060%N) [] None) Sample.two)) ∧
  is_registered_contact 0 "<sip:alice@10.0.0.2:5060>" Sample.two = true.
Proof.
  split; [|vm_compute; reflexivity].
  assert (contact_target "<sip:alice@10.0.0.2:5060>" =
    Some (mkUri Sip (Some "alice") "10.0.0.2" (Some 5060%N) [] None)) as Ht by (vm_compute; reflexivity).
  destruct (contact_lookup_is_scan Sample.two 0 _ _ Sample.two_reachable Ht) as (_ & Hr & _). exact Hr.
Defined.

End RegProofs.
