(* ===== verification/RegistrarAliases.v ===== *)
(** * Aliases and de-registration

    The alias index of the registrar is derived from the implicit registration
    sets.  In every reachable state each alias is a member of the set of the
    identity it points at; a de-registration leaves nothing of the identity
    behind. *)

From S2P Require Import Prelude Str Nom Headers Uri Message Parser Transport Via NameAddr.
From S2P Require Import Binding ContactIndex Registrar RegistrarProofs.

Module RegAliases.
Import Holders Index Reg RegProofs.

Section aliases.
Context {U : Unicode} {P : Nom} {F : Float32} {O : Float32Order} {R : RandomState}.

(** ** The two loops over an implicit set *)

Lemma prune_lookup p l (al : gmap string string) a q :
  foldl (λ al alias, if decide (al !! alias = Some p) then delete alias al else al) al l !! a = Some q ↔
  al !! a = Some q ∧ ¬ (q = p ∧ a ∈ l).
Proof.
  revert al. induction l as [|x l IH]; intros al; cbn [foldl].
  { split; [intros Ha; split; [done|]|by intros [? _]]. intros [_ Hn]. by apply elem_of_nil in Hn. }
  rewrite IH, elem_of_cons. case_decide as Hx; [|naive_solver].
  destruct (decide (a = x)) as [->|Hne]; [rewrite lookup_delete_eq|rewrite lookup_delete_ne by done];
    naive_solver.
Qed.

Lemma install_lookup p uris (al : gmap string string) a q :
  foldl (λ al uri, let alias := normalize_aor uri in
           if decide (alias ≠ p) then <[alias := p]> al else al) al uris !! a = Some q →
  (q = p ∧ a ≠ p ∧ a ∈ normalize_aor <$> uris) ∨ al !! a = Some q.
Proof.
  revert al. induction uris as [|x uris IH]; intros al; cbn [foldl]; [by right|].
  rewrite fmap_cons, elem_of_cons. intros [?|Hal]%IH; [naive_solver|]. cbv zeta in Hal.
  case_decide as Hx; [|by right].
  destruct (decide (a = normalize_aor x)) as [->|Hne].
  - rewrite lookup_insert_eq in Hal. naive_solver.
  - rewrite lookup_insert_ne in Hal by done. by right.
Qed.

Lemma installed p uris (al : gmap string string) a :
  a ≠ p → a ∈ normalize_aor <$> uris ∨ al !! a = Some p →
  foldl (λ al uri, let alias := normalize_aor uri in
           if decide (alias ≠ p) then <[alias := p]> al else al) al uris !! a = Some p.
Proof.
  intros Ha. revert al. induction uris as [|x uris IH]; intros al; cbn [foldl].
  { intros [Hn|Hal]; [by apply elem_of_nil in Hn|done]. }
  rewrite fmap_cons, elem_of_cons. intros Hcase. apply IH. cbv zeta.
  destruct (decide (a = normalize_aor x)) as [->|Hne].
  - right. by rewrite decide_True, lookup_insert_eq.
  - destruct Hcase as [[?|?]|Hal]; [done|by left|]. right.
    case_decide; [by rewrite lookup_insert_ne|done].
Qed.

(** ** The invariant *)

Definition AInv (r : Registrar) : Prop :=
  ∀ a p, aliases r !! a = Some p →
    a ≠ p ∧ ∃ uris, associated_uris r !! p = Some uris ∧ a ∈ normalize_aor <$> uris.

Lemma AInv_implicit r r' : implicit r' = implicit r → AInv r → AInv r'.
Proof. intros [Hu Ha]%pair_equal_spec Hi a p. rewrite Hu, Ha. apply Hi. Qed.

Lemma implicit_view r r' : view r = view r' → implicit r = implicit r'.
Proof. by intros [_ ?]%view_eq. Qed.

Lemma AInv_view r r' : view r' = view r → AInv r → AInv r'.
Proof. intros. eapply AInv_implicit; [by apply implicit_view|done]. Qed.

(** A pruned identity has no alias; the other aliases stay. *)
Lemma prune_aliases_spec p r :
  AInv r →
  associated_uris (prune_aliases_to p r) = associated_uris r ∧
  ∀ a q, aliases (prune_aliases_to p r) !! a = Some q ↔ aliases r !! a = Some q ∧ q ≠ p.
Proof.
  intros Hi. unfold prune_aliases_to. destruct (associated_uris r !! p) as [uris|] eqn:Hu.
  - split; [done|]. intros a q. cbn [aliases set_aliases set_aux]. rewrite prune_lookup. split.
    + intros [Ha Hn]. split; [done|]. intros ->. apply Hn. split; [done|].
      destruct (Hi _ _ Ha) as (Hne & uris' & Hu' & Hin). simplify_eq. by apply list_elem_of_filter.
    + naive_solver.
  - split; [done|]. intros a q. split; [|naive_solver]. intros Ha. split; [done|]. intros ->.
    destruct (Hi _ _ Ha) as (_ & uris' & Hu' & _). congruence.
Qed.

(** A list stored for an identity whose aliases were installed from it. *)
Lemma AInv_install p uris r r' :
  AInv r →
  aliases r' = aliases (install_aliases p uris r) →
  associated_uris r' = (match uris with
                        | [] => delete p (associated_uris r)
                        | _ => <[p := uris]> (associated_uris r)
                        end) →
  AInv r'.
Proof.
  intros Hi Hal Hau a q Ha. destruct (prune_aliases_spec p r Hi) as [_ Hp].
  rewrite Hal in Ha. unfold install_aliases in Ha. cbn [aliases set_aliases set_aux] in Ha.
  apply install_lookup in Ha as [(-> & Hne & Hin)|Ha].
  - split; [done|]. exists uris. split; [|done]. rewrite Hau.
    destruct uris; [by apply elem_of_nil in Hin|by rewrite lookup_insert_eq].
  - apply Hp in Ha as [Ha Hq]. destruct (Hi _ _ Ha) as (Hne & uris' & Hu' & Hin).
    split; [done|]. exists uris'. split; [|done]. rewrite Hau.
    destruct uris; [by rewrite lookup_delete_ne|by rewrite lookup_insert_ne].
Qed.

Lemma install_assoc p uris r : associated_uris (install_aliases p uris r) = associated_uris r.
Proof. unfold install_aliases, prune_aliases_to. by destruct (associated_uris r !! p). Qed.

(** The auxiliary state of an identity dropped: what is left, and that nothing
    points at it. *)
Lemma remove_entries_AInv p r :
  AInv r →
  let r' := (remove_aor_state_entries p (prune_aliases_to p r)).2 in
  AInv r' ∧ associated_uris r' !! p = None ∧ ∀ a, aliases r' !! a ≠ Some p.
Proof.
  intros Hi. destruct (prune_aliases_spec p r Hi) as [Hu Hp]. cbn.
  split_and!.
  - intros a q. cbn. intros [Ha Hq]%Hp. destruct (Hi _ _ Ha) as (Hne & uris & Hur & Hin).
    split; [done|]. exists uris. by rewrite lookup_delete_ne, Hu.
  - by rewrite lookup_delete_eq.
  - by intros a [_ Hq]%Hp.
Qed.

Lemma drop_aor_state_spec p r :
  AInv r →
  let r' := drop_aor_state p r in
  AInv r' ∧ associated_uris r' !! p = None ∧ ∀ a, aliases r' !! a ≠ Some p.
Proof.
  intros Hi. pose proof (remove_entries_AInv p r Hi) as Hr. cbv zeta in Hr |- *. unfold drop_aor_state.
  destruct (remove_aor_state_entries p (prune_aliases_to p r)) as [b r1]. cbn [snd] in Hr.
  destruct b; [|done]. destruct Hr as (Hr & Hn & Ha).
  pose proof (implicit_view _ _ (view_persist_aor_state p r1)) as Hs.
  split; [by eapply AInv_implicit|]. apply pair_equal_spec in Hs as [-> ->]. done.
Qed.

Lemma AInv_drop p r : AInv r → AInv (drop_aor_state p r).
Proof. by intros [? _]%(drop_aor_state_spec p). Qed.

Lemma implicit_unindex aor contacts r : implicit (unindex aor contacts r) = implicit r.
Proof.
  unfold unindex. etransitivity; [apply (foldl_invariant _ implicit)|done].
  intros r' c. destruct (stream_connection c) as [id|];
    [etransitivity; [apply implicit_view, view_deindex_connection|]|]; by destruct (c_flow_token c).
Qed.

Lemma implicit_commit key h l r : implicit (commit key h l r) = implicit r.
Proof. done. Qed.

Lemma AInv_release_cleared aor cleared n r : AInv r → AInv (release_cleared aor cleared n r).
Proof.
  intros Hi. apply AInv_drop. eapply AInv_view; [apply view_enqueue|]. revert Hi.
  apply AInv_implicit. destruct cleared; [apply implicit_unindex|done].
Qed.

Lemma implicit_take_bindings aor r removed n r' :
  take_bindings aor r = (removed, n, r') → implicit r' = implicit r.
Proof.
  unfold take_bindings. pose proof (implicit_view _ _ (view_write_sequence r)) as Hv.
  destruct (write_sequence r) as [m r1]. by intros [= <- <- <-].
Qed.

Lemma AInv_clear_bindings aor r : AInv r → AInv (clear_bindings aor r).
Proof.
  intros Hi. unfold clear_bindings. destruct (take_bindings _ r) as [[removed n] r'] eqn:Ht.
  apply AInv_release_cleared. by eapply AInv_implicit; [by eapply implicit_take_bindings|].
Qed.

Lemma AInv_carry_out aor n s e : AInv s.2 → AInv (carry_out aor n s e).2.
Proof.
  destruct s as [h r]. cbn [snd]. intros Hi.
  destruct e as [stale remaining emptied|stale stored token conn stream refreshed]; cbn [carry_out].
  - eapply AInv_view; [apply view_announce|]. cbn [snd].
    assert (AInv (persist_aor aor remaining n (forget aor stale r))) as Hf.
    { eapply AInv_view; [etransitivity; [apply view_persist_aor|apply view_forget]|done]. }
    destruct emptied; [by apply AInv_drop|done].
  - revert Hi. apply AInv_implicit.
    set (r1 := foldl _ r stale.1). assert (implicit r1 = implicit r) as <-.
    { apply (foldl_invariant _ implicit). intros. by case_decide. }
    set (r2 := match token with Some _ => _ | None => _ end).
    assert (implicit r2 = implicit r1) as <- by (by destruct token).
    set (r3 := foldl _ r2 stale.2). assert (implicit r3 = implicit r2) as <-.
    { apply (foldl_invariant _ implicit). intros. apply implicit_view, view_deindex_connection. }
    assert (implicit (persist_aor aor stored n (index_connection conn stream aor r3)) = implicit r3) as <-.
    { apply implicit_view. etransitivity; [apply view_persist_aor|apply view_index_connection]. }
    destruct refreshed; apply implicit_view; by rewrite view_announce.
Qed.

Lemma AInv_apply_register_in now aor updates force hold r s :
  apply_register_in now aor updates force hold r = Ok s → AInv r → AInv s.2.
Proof.
  intros Hok Hi. destruct updates as [|u us]; unfold apply_register_in in Hok.
  { injection Hok as <-. destruct force; [by apply AInv_clear_bindings|done]. }
  set (key := if force && alias_retired_by_clearing _ _ r then _ else _) in Hok. clearbody key.
  destruct (negb (is_aor_key_safe key)); [done|]. cbv zeta in Hok.
  apply bind_Ok in Hok as ([contacts effects] & _ & Hok).
  pose proof (AInv_view _ _ (view_write_sequence r) Hi) as Hi1.
  destruct (write_sequence r) as [n r1]. cbn [snd] in Hi1. injection Hok as <-.
  apply (foldl_preserves (λ s : option RegisterEventHold * Registrar, AInv s.2));
    [intros; by apply AInv_carry_out|]. cbn [snd].
  destruct force; [|done]. set (r2 := commit key _ contacts r1). assert (AInv r2) as Hi2 by done.
  clearbody r2. destruct (true && _).
  - by apply AInv_release_cleared.
  - destruct (take_bindings _ r2) as [[removed m] r3] eqn:Ht. apply AInv_release_cleared.
    by eapply AInv_implicit; [by eapply implicit_take_bindings|].
Qed.

(** What [remove_all_in] leaves before it announces the change. *)
Lemma remove_all_AInv aor hold r :
  AInv r →
  let r' := (remove_all_in aor hold r).2 in
  let primary := resolve_alias aor r in
  AInv r' ∧ associated_uris r' !! primary = None ∧ ∀ a, aliases r' !! a ≠ Some primary.
Proof.
  intros Hi. cbv zeta. unfold remove_all_in.
  destruct (take_bindings _ r) as [[removed n] r1] eqn:Ht.
  apply implicit_take_bindings in Ht. set (primary := resolve_alias aor r).
  set (r2 := enqueue primary Remove n _).
  assert (AInv r2) as Hi2.
  { eapply AInv_view; [apply view_enqueue|]. eapply AInv_implicit; [|done]. rewrite <- Ht.
    destruct removed; [apply implicit_unindex|done]. }
  pose proof (drop_aor_state_spec primary r2 Hi2) as Hd. cbv zeta in Hd.
  set (r3 := announce _ _). assert (implicit r3.2 = implicit (drop_aor_state primary r2)) as Hs.
  { etransitivity; [apply implicit_view, view_announce|]. by destruct removed. }
  destruct Hd as (Hd & Hn & Ha). split; [by eapply AInv_implicit|].
  apply pair_equal_spec in Hs as [-> ->]. done.
Qed.

Lemma AInv_remove_contact now aor uri r : AInv r → AInv (remove_contact now aor uri r).2.
Proof.
  intros Hi. unfold remove_contact. destruct (bindings r !! _) as [contacts|]; [|done].
  destruct (existsb _ contacts); [|done]. cbv zeta.
  pose proof (AInv_view _ _ (view_write_sequence r) Hi) as Hi1.
  destruct (write_sequence r) as [n r1]. by apply (AInv_carry_out _ n (None, _)).
Qed.

Lemma set_associated_uris_aliases aor uris r :
  aliases (set_associated_uris aor uris r) = aliases (install_aliases (resolve_alias aor r) uris r).
Proof. exact (f_equal snd (implicit_view _ _ (view_persist_aor_state (resolve_alias aor r) _))). Qed.

Lemma AInv_set_associated_uris aor uris r : AInv r → AInv (set_associated_uris aor uris r).
Proof.
  intros Hi. unfold set_associated_uris. eapply AInv_view; [apply view_persist_aor_state|].
  eapply (AInv_install (resolve_alias aor r) uris r); [done|done|].
  cbn [associated_uris set_aux]. by rewrite install_assoc.
Qed.

Lemma AInv_apply_aor_state aor st r : AInv r → AInv (apply_aor_state aor st r).
Proof.
  intros Hi. unfold apply_aor_state. set (r1 := match s_service_routes st with [] => _ | _ => _ end).
  assert (AInv r1) as Hi1 by (by subst r1; destruct (s_service_routes st)).
  set (r2 := match s_asserted_identity st with Some _ => _ | None => _ end).
  assert (AInv r2) as Hi2 by (by subst r2; destruct (s_asserted_identity st)).
  cbv zeta. clearbody r2. destruct (s_associated_uris st) as [|u us]; [done|].
  eapply (AInv_install aor (u :: us) r2); [done|done|]. cbn [associated_uris set_aux].
  by rewrite install_assoc.
Qed.

Lemma AInv_close_flow now id keep r : AInv r → AInv (close_flow now id keep r).2.
Proof.
  intros Hi. unfold close_flow. destruct (connection_index r !! id) as [aors|]; [|done]. cbn [snd].
  set (s := foldl (close_flow_of now id keep) _ aors). revert Hi. apply AInv_implicit.
  assert (implicit (cl_registrar s) = implicit r) as <-.
  { etransitivity; [apply (foldl_invariant _ (λ s, implicit (cl_registrar s)))|done].
    intros s' a. unfold close_flow_of. case_decide; [done|].
    destruct (bindings (cl_registrar s') !! a) as [contacts|]; [|done].
    pose proof (implicit_view _ _ (view_write_sequence (cl_registrar s'))) as Hv.
    destruct (write_sequence (cl_registrar s')) as [n r1]. cbn [snd] in Hv. rewrite <- Hv.
    cbn [cl_registrar]. destruct (_ || _); [|done].
    etransitivity; [apply implicit_view, view_persist_aor|done]. }
  rewrite (foldl_invariant _ implicit) by done.
  destruct (0 <? cl_emptied s)%Z; apply (implicit_view _ _ (view_remove_tokens
    (omap (λ m, c_flow_token m.2) (cl_removed s)) (cl_registrar s))).
Qed.

Lemma AInv_expire_stale now r : AInv r → AInv (expire_stale now r).2.
Proof.
  intros Hi. unfold expire_stale. cbn [snd]. set (r1 := gauge_add _ _).
  assert (AInv r1) as Hi1.
  { revert Hi. apply AInv_implicit. etransitivity; [apply (implicit_view _ _ (view_deindex_all _ _))|].
    etransitivity; [apply (implicit_view _ _ (view_remove_tokens _ _))|]. done. }
  apply (foldl_preserves AInv); [|done]. intros r' a Hr'.
  by apply (remove_entries_AInv a (set_bindings (delete a (bindings r')) (contact_index r') r')).
Qed.

Lemma implicit_evict_of s aor : implicit (evict_of s aor).2 = implicit s.2.
Proof.
  destruct s as [[ev dropped] r]. unfold evict_of. destruct (bindings r !! aor) as [contacts|]; [|done].
  case_bool_decide; [done|]. pose proof (implicit_view _ _ (view_write_sequence r)) as Hv.
  destruct (write_sequence r) as [n r1]. cbn [snd] in Hv |- *. rewrite <- Hv.
  etransitivity; [apply implicit_view, (view_persist_aor aor)|]. by destruct (is_nil _).
Qed.

Lemma implicit_evict r : implicit (evict_connection_oriented r).2 = implicit r.
Proof.
  unfold evict_connection_oriented.
  pose proof (foldl_invariant evict_of (λ s : nat * list (string * Contact) * Registrar, implicit s.2)
    (map_to_list (bindings r)).*1 (0, [], r) (λ s a, implicit_evict_of s a)) as He.
  destruct (foldl evict_of _ _) as [[ev dropped] r1]. cbn [snd] in He |- *. rewrite <- He.
  etransitivity; [apply (implicit_view _ _ (view_deindex_all _ _))|].
  apply (implicit_view _ _ (view_remove_tokens _ _)).
Qed.

Lemma AInv_evict_restored now select r : AInv r → AInv (evict_restored now select r).2.
Proof.
  intros Hi. apply (foldl_preserves (λ s : list (string * Contact * bool) * Registrar, AInv s.2));
    [|done]. clear. intros [ev r] aor. cbn [snd]. intros Hi. unfold evict_restored_of.
  destruct (bindings r !! aor) as [contacts|]; [|done]. cbv zeta.
  destruct (filter (λ c, select c = true) contacts) as [|t taken]; [done|].
  generalize (t :: taken). clear t taken. intros taken. set (kept := cascade now _). clearbody kept.
  pose proof (AInv_view _ _ (view_write_sequence r) Hi) as Hi1.
  destruct (write_sequence r) as [n r1]. cbn [snd] in Hi1 |- *.
  set (r2 := forget aor _ _). assert (AInv r2) as Hi2 by (eapply AInv_view; [apply view_forget|done]).
  clearbody r2. set (r3 := if existsb _ _ then _ else _).
  assert (AInv r3) as Hi3.
  { subst r3. destruct (existsb _ _); [|done]. by eapply AInv_view; [apply view_persist_aor|]. }
  clearbody r3. destruct (is_nil kept); [|done].
  destruct (_ && _); [by apply AInv_drop|by apply (remove_entries_AInv aor r3)].
Qed.

Lemma implicit_save_as now aor uri e q ps r :
  implicit (save_as_contact now aor uri e q ps r).2 = implicit r.
Proof.
  unfold save_as_contact. set (r1 := set_bindings _ _ r). set (r2 := foldl _ r1 _).
  assert (implicit r2 = implicit r) as <-.
  { etransitivity; [apply (foldl_invariant _ implicit)|done]. intros.
    apply implicit_view, view_deindex_connection. }
  cbv zeta. clearbody r2. pose proof (implicit_view _ _ (view_write_sequence r2)) as Hv.
  destruct (write_sequence r2) as [n r3]. cbn [snd] in Hv.
  destruct (e =? 0)%N; [case_bool_decide|destruct (negb _)]; try done; cbn [snd]; rewrite <- Hv;
    (etransitivity; [apply implicit_view, view_persist_aor|done]).
Qed.

Lemma AInv_step r r' : step r r' → AInv r → AInv r'.
Proof.
  destruct 1; intros Hi.
  - by eapply AInv_apply_register_in.
  - by eapply AInv_view; [apply view_flush|].
  - by apply AInv_clear_bindings.
  - by apply remove_all_AInv.
  - by apply AInv_remove_contact.
  - apply (foldl_preserves (λ s : nat * Registrar, AInv s.2)); [|done]. intros [n r'] u Hr'.
    pose proof (AInv_remove_contact now aor u r' Hr') as Hc. cbn [snd] in Hc |- *.
    by destruct (remove_contact now aor u r').
  - revert Hi. apply AInv_implicit. apply implicit_save_as.
  - done.
  - unfold confirm_pending. by destruct (bindings r !! _).
  - by eapply AInv_view; [apply view_persist_aor_state|].
  - by apply AInv_set_associated_uris.
  - by eapply AInv_view; [apply view_persist_aor_state|].
  - by apply AInv_close_flow.
  - by apply AInv_expire_stale.
  - by eapply AInv_implicit; [apply implicit_evict|].
  - by apply AInv_evict_restored.
  - done.
  - by apply AInv_apply_aor_state.
  - done.
Qed.

Lemma reachable_AInv r : reachable r → AInv r.
Proof.
  intros (r0 & H0 & Hs). assert (AInv r0) as Hi by (intros a p; rewrite H0; cbn; by rewrite lookup_empty).
  clear H0. induction Hs; [done|]. eauto using AInv_step.
Qed.

(** ** What a removed identity leaves *)

Lemma remove_all_store aor hold r :
  store (remove_all_in aor hold r).2 =
    (delete (resolve_alias aor r) (bindings r),
     match bindings r !! resolve_alias aor r with
     | Some cleared => Index.remove_all (resolve_alias aor r) cleared (contact_index r)
     | None => contact_index r
     end).
Proof.
  unfold remove_all_in. destruct (take_bindings _ r) as [[removed n] r1] eqn:Ht.
  apply store_take_bindings in Ht as [-> [Hb Hc]%pair_equal_spec].
  etransitivity; [apply store_view, view_announce|]. cbn [snd].
  etransitivity; [|rewrite <- Hb, <- Hc; apply (store_release_cleared _ _ n r1)].
  unfold release_cleared. by destruct (bindings r !! _).
Qed.

(** No key of the index leads to an identity without bindings. *)
Lemma Inv_unindexed r aor key : Inv r → bindings r !! aor = None → aor ∉ Index.aors key (contact_index r).
Proof.
  intros [Hw Hc] Hn. rewrite (elem_of_aors key aor _ Hw), Hc, (list_of_None _ _ Hn).
  change (keys_of []) with (@nil N). rewrite occ_nil. lia.
Qed.

End aliases.

(** C27: in every reachable state an alias resolves to the identity whose
    implicit registration set lists it, and never to itself; and a set that is
    stored makes each of its other members resolve to its identity. *)
Theorem aliases_reflect_implicit_sets
    `{U : Unicode, P : Nom, F : Float32, O : !Float32Order, R : RandomState} (r : Registrar) :
  reachable r →
  (∀ alias primary, aliases r !! alias = Some primary →
     alias ≠ primary ∧ ∃ uris, associated_uris r !! primary = Some uris ∧
       alias ∈ normalize_aor <$> uris) ∧
  (∀ aor uris uri, uri ∈ uris → normalize_aor uri ≠ resolve_alias aor r →
     resolve_alias uri (set_associated_uris aor uris r) = resolve_alias aor r).
Proof.
  intros Hr. split; [by apply reachable_AInv|]. intros aor uris uri Hin Hne.
  unfold resolve_alias at 1. rewrite set_associated_uris_aliases.
  unfold install_aliases. cbn [aliases set_aliases set_aux].
  rewrite (installed (resolve_alias aor r) uris); [done|done|]. left. by apply list_elem_of_fmap_2.
Qed.

Import Running.

(** The registrar with Alice's devices, and an implicit set with her number. *)
Definition implicit_set : Registrar :=
  set_associated_uris Sample.aor ["<sip:+15551234@example.org;user=phone>"; Sample.aor] Sample.two.

Lemma implicit_set_reachable : reachable implicit_set.
Proof.
  destruct Sample.two_reachable as (r0 & H0 & Hr). exists r0. split; [exact H0|].
  eapply rtc_r; [exact Hr|]. apply step_associated_uris.
Qed.

Lemma aliases_reflect_implicit_sets_witness :
  aliases implicit_set !! "sip:+15551234@example.org" = Some Sample.aor ∧
  "sip:+15551234@example.org" ≠ Sample.aor.
Proof.
  assert (aliases implicit_set !! "sip:+15551234@example.org" = Some Sample.aor) as Ha
    by (vm_compute; reflexivity).
  split; [exact Ha|].
  exact (proj1 (proj1 (aliases_reflect_implicit_sets implicit_set implicit_set_reachable) _ _ Ha)).
Defined.

(** C26: a wildcard de-registration in any reachable state leaves nothing of the
    identity: no binding, no key of the contact index, no implicit set and no
    alias; and it touches no other identity's bindings. *)
Theorem deregistration_leaves_nothing
    `{U : Unicode, P : Nom, F : Float32, O : !Float32Order, R : RandomState}
    (r : Registrar) (aor : string) (hold : option RegisterEventHold) :
  reachable r →
  let primary := resolve_alias aor r in
  let r' := (remove_all_in aor hold r).2 in
  bindings r' !! primary = None ∧
  (∀ key, primary ∉ Index.aors key (contact_index r')) ∧
  associated_uris r' !! primary = None ∧
  (∀ alias, aliases r' !! alias ≠ Some primary) ∧
  (∀ other, other ≠ primary → bindings r' !! other = bindings r !! other).
Proof.
  intros Hr primary r'. pose proof (Inv_remove_all_in aor hold r (reachable_Inv r Hr)) as Hi.
  pose proof (remove_all_AInv aor hold r (reachable_AInv r Hr)) as (_ & Hau & Hal).
  pose proof (remove_all_store aor hold r) as [Hb _]%pair_equal_spec. fold primary r' in Hb, Hi, Hau, Hal.
  assert (bindings r' !! primary = None) as Hn by (by rewrite Hb, lookup_delete_eq).
  split_and!; [done| |done|done|].
  - intros key. by apply Inv_unindexed.
  - intros other Ho. by rewrite Hb, lookup_delete_ne.
Qed.

Lemma deregistration_leaves_nothing_witness :
  bindings implicit_set !! Sample.aor ≠ None ∧
  bindings (remove_all_in "sip:+15551234@example.org" None implicit_set).2 !!
    resolve_alias "sip:+15551234@example.org" implicit_set = None.
Proof.
  split; [vm_compute; discriminate|].
  exact (proj1 (deregistration_leaves_nothing implicit_set "sip:+15551234@example.org" None implicit_set_reachable)).
Defined.

End RegAliases.
