(* ===== verification/RegistrarBindings.v ===== *)
(** * What the operations of the registrar do to the bindings

    The outcome of a REGISTER on every branch, the bounds on what is stored and
    answered, the order of a lookup, the expiry sweep and the close of a
    connection. *)

From stdpp Require Import sorting.
From S2P Require Import Prelude Str Nom Headers Uri Message Parser Transport Via NameAddr.
From S2P Require Import Binding ContactIndex Registrar RegistrarProofs.

Module RegBindings.
Import Holders Index Reg RegProofs.

Section outcomes.
Context {U : Unicode} {P : Nom} {F : Float32} {O : Float32Order} {R : RandomState}.

Definition unexpired_of (now : instant) (aor : string) (r : Registrar) : list Contact :=
  filter (λ c, is_expired now c = false) (list_of (bindings r) aor).

(** The bindings a request can be routed to. *)
Definition live (now : instant) (aor : string) (r : Registrar) : list Contact :=
  filter (λ c, live_ue now c = true) (list_of (bindings r) aor).

(** ** Lists of bindings *)

Lemma filter_none {A} (p : A → bool) (l : list A) : existsb p l = false → filter (λ x, p x = true) l = [].
Proof.
  induction l as [|x l IH]; [done|]. cbn [existsb]. rewrite orb_false_iff. intros [Hx Hl].
  rewrite filter_cons, decide_False by congruence. by apply IH.
Qed.

Lemma live_cascade now l :
  filter (λ c, live_ue now c = true) (cascade now l) = filter (λ c, live_ue now c = true) l.
Proof.
  unfold cascade. destruct (existsb (live_ue now) l) eqn:He; [done|]. symmetry. by apply filter_none.
Qed.

(** The bindings [expires=0] leaves routable. *)
Lemma live_removed now (same : Contact → bool) (l : list Contact) :
  filter (λ c, live_ue now c = true)
    (filter (λ c, bool_decide (kind c = Ue) && same c = false)
       (filter (λ c, is_expired now c = false) l)) =
  filter (λ c, same c = false) (filter (λ c, live_ue now c = true) l).
Proof.
  induction l as [|c l IH]; [done|].
  rewrite (filter_cons (λ c, is_expired now c = false)), (filter_cons (λ c, live_ue now c = true) c l).
  destruct (is_expired now c) eqn:He.
  - rewrite decide_False by done. rewrite (decide_False (P := live_ue now c = true)); [done|].
    rewrite live_ue_true, He. by intros [_ ?].
  - rewrite decide_True by done. rewrite (filter_cons _ c (filter _ l)).
    destruct (kind c) eqn:Hk.
    + rewrite (decide_True (P := live_ue now c = true)) by (by apply live_ue_true).
      rewrite (filter_cons (λ c, same c = false)), bool_decide_eq_true_2 by done. cbn [andb].
      case_decide; [|done]. rewrite filter_cons, decide_True, IH; [done|by apply live_ue_true].
    + rewrite (decide_False (P := live_ue now c = true)) by (rewrite live_ue_true, Hk; by intros [? _]).
      rewrite (bool_decide_eq_false_2 (As = Ue)) by done. cbn [andb].
      rewrite decide_True, filter_cons, decide_False; [done| |done]. rewrite live_ue_true, Hk. by intros [? _].
Qed.

Lemma cascade_nil now (l : list Contact) : cascade now l = [] ↔ filter (λ c, live_ue now c = true) l = [].
Proof.
  split; [intros Hc; by rewrite <- live_cascade, Hc|]. intros Hf. unfold cascade.
  destruct (existsb (live_ue now) l) eqn:He; [|done].
  apply existsb_exists in He as (c & Hc%list_elem_of_In & Hl).
  assert (c ∈ filter (λ c, live_ue now c = true) l) as Hin by (by apply list_elem_of_filter).
  rewrite Hf in Hin. by apply elem_of_nil in Hin.
Qed.

(** ** One Contact of a REGISTER *)

Definition matches_update (u : ContactUpdate) (c : Contact) : Prop :=
  (c_sip_instance c ≠ None ∧ c_sip_instance c = u_sip_instance u) ∨
  show_uri (c_uri c) = show_uri (u_uri u).

Lemma replace_index_Some r now u l i :
  replace_index (binding_of r now u) l = Some i →
  ∃ l1 old l2, l = l1 ++ old :: l2 ∧ length l1 = i ∧ matches_update u old.
Proof.
  unfold replace_index. destruct (_ ≫= _) as [j|] eqn:Hj.
  - intros [= ->]. apply bind_Some in Hj as (inst & Hinst & Hp).
    apply position_Some in Hp as (l1 & x & l2 & -> & <- & Hx%bool_decide_eq_true & _).
    exists l1, x, l2. split_and!; [done|done|]. left. cbn in Hinst. by rewrite Hx, Hinst.
  - intros (l1 & x & l2 & -> & <- & Hx%bool_decide_eq_true & _)%position_Some.
    exists l1, x, l2. split_and!; [done|done|]. by right.
Qed.

Lemma replace_index_None r now u l :
  replace_index (binding_of r now u) l = None → Forall (λ c, ¬ matches_update u c) l.
Proof.
  unfold replace_index. destruct (_ ≫= _) as [j|] eqn:Hj; [done|]. intros Hp%position_None.
  rewrite Forall_forall in Hp |- *. intros c Hc [[Hs Hi]|Hu].
  - cbn in Hj. destruct (u_sip_instance u) as [inst|]; [|done]. cbn in Hj.
    apply position_None in Hj. rewrite Forall_forall in Hj.
    specialize (Hj c Hc). by rewrite bool_decide_eq_false in Hj.
  - specialize (Hp c Hc). unfold same_uri in Hp. by rewrite bool_decide_eq_false in Hp.
Qed.

(** What one staged Contact does to the list, or why it is refused. *)
Definition staged (r : Registrar) (now : instant) (l : list Contact) (u : ContactUpdate)
    (res : result RegistrarError (list Contact)) : Prop :=
  let held := filter (λ c, is_expired now c = false) l in
  match res with
  | Ok l' =>
      if decide (u_expires_secs u = 0%N) then
        filter (λ c, live_ue now c = true) l' =
          filter (λ c, same_uri (show_uri (u_uri u)) c = false)
            (filter (λ c, live_ue now c = true) l) ∧
        (filter (λ c, live_ue now c = true) l' = [] → l' = [])
      else
        (min_expires (config r) ≤ u_expires_secs u)%N ∧
        ∃ old kept, held ≡ₚ old ++ kept ∧ l' ≡ₚ binding_of r now u :: kept ∧
          Forall (matches_update u) old ∧
          (length old = 1 ∨ old = [] ∧ length held < max_contacts (config r))
  | Err (IntervalTooBrief m) => m = min_expires (config r) ∧ (0 < u_expires_secs u < m)%N
  | Err (TooManyContacts m) =>
      m = max_contacts (config r) ∧ m ≤ length held ∧ Forall (λ c, ¬ matches_update u c) held
  | Err InvalidAor => False
  end.

Lemma stage_spec r now l u : staged r now l u (fst <$> stage r now l u).
Proof.
  unfold stage. destruct (N.ltb_spec 0 (u_expires_secs u)) as [Hpos|Hz]; cbn [andb].
  2:{ assert (u_expires_secs u = 0%N) as Hu by lia. rewrite (proj2 (N.eqb_eq _ 0%N) Hu).
      unfold staged. rewrite Hu. cbn. split; [by rewrite live_cascade, live_removed|].
      rewrite live_cascade. by rewrite cascade_nil. }
  destruct (N.ltb_spec (u_expires_secs u) (min_expires (config r))) as [Hlt|Hge]; [done|].
  destruct (N.eqb_spec (u_expires_secs u) 0) as [?|Hne]; [lia|].
  unfold staged. set (held := filter (λ c, is_expired now c = false) l).
  destruct (replace_index (binding_of r now u) held) as [i|] eqn:Hi.
  - apply replace_index_Some in Hi as (l1 & old & l2 & -> & <- & Hm). cbn.
    rewrite decide_False by done. split; [done|]. exists [old], (l1 ++ l2). split_and!.
    + by rewrite <- Permutation_middle.
    + rewrite sort_by_perm, <- (Nat.add_0_r (length l1)), insert_app_r. cbn.
      by rewrite <- Permutation_middle.
    + by constructor.
    + by left.
  - case_bool_decide as Hlen; [by split_and!; [| |eapply replace_index_None]|]. cbn.
    rewrite decide_False by done. split; [done|]. exists [], held. split_and!; [done| |done|].
    + by rewrite sort_by_perm, <- Permutation_cons_append.
    + right. split; [done|lia].
Qed.

(** ** A REGISTER with one Contact *)

Lemma apply_one now aor u r :
  apply_register now aor [u] false r =
    let key := resolve_alias aor r in
    if negb (is_aor_key_safe key) then Err InvalidAor else
    '(contacts, effect) ← stage r now (list_of (bindings r) key) u;
    let '(n, r1) := write_sequence r in
    Ok (carry_out key n (None, commit key (list_of (bindings r) key) contacts r1) effect).2.
Proof.
  unfold apply_register, apply_register_in. cbn [andb]. cbv zeta.
  destruct (negb (is_aor_key_safe _)); [done|]. unfold list_of. cbn [stage_all].
  destruct (stage r now _ u) as [[contacts effect]|]; [|done]. cbn.
  by destruct (write_sequence r) as [n r1].
Qed.

(** The committed list is the list stored. *)
Lemma committed key h contacts r n effect hold a :
  list_of (bindings (carry_out key n (hold, commit key h contacts (write_sequence r).2) effect).2) a =
    if decide (key = a) then contacts else list_of (bindings r) a.
Proof.
  pose proof (store_carry_out key n (hold, commit key h contacts (write_sequence r).2) effect) as Hs.
  cbn [snd] in Hs. rewrite commit_put in Hs. apply pair_equal_spec in Hs as [-> _].
  pose proof (view_write_sequence r) as Hv. apply store_view, store_eq in Hv as [-> _].
  apply list_of_put.
Qed.

(** ** Bounds *)

Lemma cascade_length now l : length (cascade now l) ≤ length l.
Proof. unfold cascade. destruct (existsb _ l); cbn; lia. Qed.

Lemma stage_length r now l u l' e :
  stage r now l u = Ok (l', e) → length l' ≤ Nat.max (length l) (max_contacts (config r)).
Proof.
  intros Hok. pose proof (stage_spec r now l u) as Hs. rewrite Hok in Hs. cbn in Hs.
  case_decide as Hz.
  - unfold stage in Hok. rewrite Hz in Hok. cbn in Hok. injection Hok as <- _.
    etransitivity; [|apply Nat.le_max_l]. etransitivity; [apply cascade_length|].
    by rewrite !length_filter.
  - destruct Hs as (_ & old & kept & Hh & Hl & _ & Hlen).
    apply Permutation_length in Hl as ->. apply Permutation_length in Hh as Hlh.
    pose proof (length_filter (λ c, is_expired now c = false) l).
    rewrite length_app in Hlh. cbn. destruct Hlen as [Ho|[-> Hm]]; [lia|]. cbn in Hlh. lia.
Qed.

Lemma stage_all_length r now l us l' es :
  stage_all r now l us = Ok (l', es) → length l' ≤ Nat.max (length l) (max_contacts (config r)).
Proof.
  revert l es. induction us as [|u us IH]; intros l es; cbn [stage_all].
  { intros [= <- <-]. lia. }
  intros ([l1 e] & H1 & H2)%bind_Ok. apply bind_Ok in H2 as ([l2 es'] & H2 & [= <- _]).
  apply stage_length in H1. apply IH in H2. lia.
Qed.

(** What a REGISTER makes of each list: nothing, no list, or the staged one. *)
Lemma register_lists now aor updates force hold r s a :
  apply_register_in now aor updates force hold r = Ok s →
  list_of (bindings s.2) a = list_of (bindings r) a ∨ list_of (bindings s.2) a = [] ∨
  ∃ held effects, (held = [] ∨ held = list_of (bindings r) a) ∧
    stage_all r now held updates = Ok (list_of (bindings s.2) a, effects).
Proof.
  intros Hok. destruct updates as [|u us]; unfold apply_register_in in Hok.
  { injection Hok as <-. cbn [snd]. destruct force; [|by left]. unfold clear_bindings.
    destruct (take_bindings _ r) as [[removed n] r'] eqn:Ht.
    apply store_take_bindings in Ht as [_ [Hb _]%pair_equal_spec].
    pose proof (store_release_cleared (resolve_alias aor r) removed n r') as [-> _]%pair_equal_spec.
    rewrite Hb, list_of_delete. case_decide; auto. }
  set (primary := resolve_alias aor r) in Hok.
  set (key := if force && alias_retired_by_clearing _ _ r then _ else _) in Hok. clearbody key.
  destruct (negb (is_aor_key_safe key)); [done|]. cbv zeta in Hok.
  apply bind_Ok in Hok as ([contacts effects] & Hst & Hok).
  pose proof (view_write_sequence r) as Hv. apply store_view, store_eq in Hv as [Hb1 _].
  destruct (write_sequence r) as [n r1]. cbn [snd] in Hb1. injection Hok as <-.
  set (r2 := commit key _ contacts r1) in *. set (r3 := if force then _ else r2).
  assert (store (foldl (carry_out key n) (hold, r3) effects).2 = store r3) as [-> _]%pair_equal_spec.
  { apply (foldl_invariant _ (λ s : option RegisterEventHold * Registrar, store s.2)).
    intros. apply store_carry_out. }
  assert (bindings r3 = bindings r2 ∨ bindings r3 = delete primary (bindings r2)) as Hb3.
  { subst r3. destruct force; [|by left]. destruct (true && _).
    - left. by pose proof (store_release_cleared primary (bindings r !! key) n r2) as [-> _]%pair_equal_spec.
    - right. destruct (take_bindings primary r2) as [[removed m] r4] eqn:Ht.
      apply store_take_bindings in Ht as [_ [Hb4 _]%pair_equal_spec].
      by pose proof (store_release_cleared primary removed m r4) as [-> _]%pair_equal_spec. }
  assert (list_of (bindings r2) a = if decide (key = a) then contacts else list_of (bindings r) a) as Hl2.
  { subst r2. pose proof (commit_put key (if force && bool_decide (key = primary) then []
      else default [] (bindings r !! key)) contacts r1) as [-> _]%pair_equal_spec.
    rewrite Hb1. apply list_of_put. }
  assert (list_of (bindings r3) a = list_of (bindings r2) a ∨ list_of (bindings r3) a = []) as [->| ->].
  { destruct Hb3 as [-> | ->]; [by left|]. rewrite list_of_delete. destruct (decide (primary = a)); auto. }
  - rewrite Hl2. case_decide as Ha; [|by left]. subst a. right; right.
    eexists _, effects. split; [|exact Hst]. destruct (force && _); auto.
  - by right; left.
Qed.

Lemma foldl_min_le n ns x : x ∈ n :: ns → (foldl N.min n ns ≤ x)%N.
Proof.
  revert n x. induction ns as [|m ns IH]; intros n x; cbn.
  - intros ->%list_elem_of_singleton. lia.
  - rewrite !elem_of_cons. intros [->|[->|Hx]].
    + etransitivity; [apply IH; by left|lia].
    + etransitivity; [apply IH; by left|lia].
    + apply IH. by right.
Qed.

Lemma retry_after_bounds now aor r :
  (1 ≤ retry_after_secs now aor r ≤ N.max 1 (max_expires (config r)))%N ∧
  ∀ c, c ∈ unexpired_of now (resolve_alias aor r) r →
    (retry_after_secs now aor r ≤ N.max 1 (remaining_seconds now c))%N.
Proof.
  unfold retry_after_secs, unexpired_of, list_of. set (l := filter _ _).
  destruct (remaining_seconds now <$> l) as [|n ns] eqn:Hl; cbn [clamp_retry_after].
  - split; [lia|]. intros c Hc. apply fmap_nil_inv in Hl. rewrite Hl in Hc. by apply elem_of_nil in Hc.
  - split; [lia|]. intros c Hc.
    assert (foldl N.min n ns ≤ remaining_seconds now c)%N; [|lia].
    apply foldl_min_le. rewrite <- Hl. by apply list_elem_of_fmap_2.
Qed.

(** ** The order of a lookup *)

(** Before: a higher q, or the same and registered no earlier. *)
Definition preferred (now : instant) (a b : Contact) : Prop :=
  ∃ qa qb, f32_order (c_q a) = Some qa ∧ f32_order (c_q b) = Some qb ∧
    ((qb < qa)%Z ∨ qa = qb ∧ (age_seconds now a ≤ age_seconds now b)%N).

Lemma preference_cmp now a b qa qb :
  f32_order (c_q a) = Some qa → f32_order (c_q b) = Some qb →
  preference now a b = then_with (qb ?= qa)%Z (age_seconds now a ?= age_seconds now b)%N.
Proof. intros Ha Hb. unfold preference, partial_cmp. by rewrite Ha, Hb. Qed.

Lemma sort_by_preference_sorted now l :
  Forall (λ c, is_Some (f32_order (c_q c))) l → StronglySorted (preferred now) (sort_by_preference now l).
Proof.
  apply sort_by_sorted.
  - intros x y [qx Hx] [qy Hy]. rewrite (preference_cmp _ _ _ _ _ Hx Hy). unfold then_with.
    destruct (Z.compare_spec qy qx); try done; intros Hc; exists qx, qy; split_and!; try done;
      [right|by left]. rewrite N.compare_lt_iff in Hc. split; [done|lia].
  - intros x y [qx Hx] [qy Hy]. rewrite (preference_cmp _ _ _ _ _ Hx Hy). unfold then_with.
    destruct (Z.compare_spec qy qx); try done; intros Hc; exists qy, qx; split_and!; try done;
      [right|by left]. rewrite N.compare_lt_iff in Hc. split; [done|lia].
  - intros x y z _ _ _ (qx & qy & Hx & Hy & Hxy) (qy' & qz & Hy' & Hz & Hyz). simplify_eq.
    exists qx, qz. split_and!; [done|done|]. destruct Hxy as [?|[-> ?]], Hyz as [?|[-> ?]]; lia.
Qed.

End outcomes.

(** C23: the outcome of a REGISTER with one Contact, on every branch.  Accepted,
    it changes the bindings of one identity only: a Contact with no lifetime
    leaves exactly the routable bindings with another URI, and no record at all
    once none is left; any other becomes a binding, in the place of at most one
    unexpired binding, which had its URI or its instance.  Refused, it names the
    reason that held. *)
Theorem register_outcome
    `{U : Unicode, P : Nom, F : Float32, O : !Float32Order, R : RandomState}
    (r : Registrar) (now : instant) (aor : string) (u : ContactUpdate) :
  let key := resolve_alias aor r in
  let held := unexpired_of now key r in
  match apply_register now aor [u] false r with
  | Ok r' =>
      (∀ other, other ≠ key → list_of (bindings r') other = list_of (bindings r) other) ∧
      if decide (u_expires_secs u = 0%N) then
        live now key r' = filter (λ c, same_uri (show_uri (u_uri u)) c = false) (live now key r) ∧
        (live now key r' = [] → list_of (bindings r') key = [])
      else
        (min_expires (config r) ≤ u_expires_secs u)%N ∧
        ∃ old kept, held ≡ₚ old ++ kept ∧ list_of (bindings r') key ≡ₚ binding_of r now u :: kept ∧
          Forall (matches_update u) old ∧
          (length old = 1 ∨ old = [] ∧ length held < max_contacts (config r))
  | Err InvalidAor => is_aor_key_safe key = false
  | Err (IntervalTooBrief m) => m = min_expires (config r) ∧ (0 < u_expires_secs u < m)%N
  | Err (TooManyContacts m) =>
      m = max_contacts (config r) ∧ m ≤ length held ∧ Forall (λ c, ¬ matches_update u c) held
  end.
Proof.
  intros key held. rewrite apply_one. cbv zeta. fold key.
  destruct (is_aor_key_safe key); cbn [negb]; [|done].
  pose proof (stage_spec r now (list_of (bindings r) key) u) as Hs.
  destruct (stage r now (list_of (bindings r) key) u) as [[contacts effect]|e]; cbn in Hs |- *;
    [|by destruct e].
  pose proof (λ n a, committed key (list_of (bindings r) key) contacts r n effect None a) as Hc.
  destruct (write_sequence r) as [n r1]. cbn [snd] in Hc.
  split; [intros other Ho; by rewrite (Hc n), decide_False|].
  unfold live. rewrite !(Hc n), !(decide_True (P := key = key)) by done. exact Hs.
Qed.

(** An accepted REGISTER, forced or not, never makes a list longer than the
    configured maximum or than it was; and the [Retry-After] of a refused one is
    at least a second, at most the longest lifetime granted, and no later than
    any binding's expiry. *)
Theorem register_bounded
    `{U : Unicode, P : Nom, F : Float32, O : !Float32Order, R : RandomState}
    (r : Registrar) (now : instant) (aor : string) (updates : list ContactUpdate) (force : bool)
    (hold : option RegisterEventHold) (s : option RegisterEventHold * Registrar) :
  apply_register_in now aor updates force hold r = Ok s →
  (∀ a, length (list_of (bindings s.2) a) ≤
     Nat.max (length (list_of (bindings r) a)) (max_contacts (config r))) ∧
  (1 ≤ retry_after_secs now aor r ≤ N.max 1 (max_expires (config r)))%N ∧
  ∀ c, c ∈ unexpired_of now (resolve_alias aor r) r →
    (retry_after_secs now aor r ≤ N.max 1 (remaining_seconds now c))%N.
Proof.
  intros Hok. split; [|apply retry_after_bounds]. intros a.
  destruct (register_lists _ _ _ _ _ _ _ a Hok) as [->|[->|(held & es & Hh & Hst)]]; [lia|cbn; lia|].
  apply stage_all_length in Hst. destruct Hh as [->| ->]; cbn in *; lia.
Qed.

Import Running.

Lemma ok_default {E A} (x : result E A) d : is_ok x = true → x = Ok (default d (ok x)).
Proof. by destruct x. Qed.

Definition sample_outcome : option RegisterEventHold * Registrar :=
  default (None, Sample.empty) (ok (apply_register_in 0 Sample.aor
    [Sample.update "10.0.0.1" 600; Sample.update "10.0.0.2" 600] false None Sample.empty)).

Lemma register_bounded_witness :
  length (list_of (bindings sample_outcome.2) Sample.aor) ≤
    Nat.max (length (list_of (bindings Sample.empty) Sample.aor)) (max_contacts (config Sample.empty)) ∧
  length (list_of (bindings sample_outcome.2) Sample.aor) = 2.
Proof.
  split; [|vm_compute; reflexivity].
  assert (apply_register_in 0 Sample.aor [Sample.update "10.0.0.1" 600; Sample.update "10.0.0.2" 600]
    false None Sample.empty = Ok sample_outcome) as Hs by (apply ok_default; vm_compute; reflexivity).
  exact (proj1 (register_bounded _ _ _ _ _ _ _ Hs) Sample.aor).
Defined.

(** A lookup returns exactly the unexpired UE bindings of the identity its
    argument resolves to, and where no q is a NaN, in order of preference: by q,
    and for the same q the latest registered first. *)
Theorem lookup_ordered
    `{U : Unicode, P : Nom, F : Float32, O : !Float32Order, R : RandomState}
    (r : Registrar) (now : instant) (aor : string) :
  Forall (λ c, is_Some (f32_order (c_q c))) (live now (resolve_alias aor r) r) →
  lookup now aor r ≡ₚ live now (resolve_alias aor r) r ∧
  StronglySorted (preferred now) (lookup now aor r) ∧
  is_registered now aor r = negb (is_nil (lookup now aor r)).
Proof.
  intros Hq. assert (lookup now aor r ≡ₚ live now (resolve_alias aor r) r) as Hp.
  { apply sort_by_perm. }
  split_and!; [done|by apply sort_by_preference_sorted|].
  unfold is_registered. fold (list_of (bindings r) (resolve_alias aor r)).
  destruct (existsb (live_ue now) _) eqn:He.
  - destruct (lookup now aor r); [|done]. apply Permutation_nil in Hp.
    apply existsb_exists in He as (c & Hc%list_elem_of_In & Hl).
    assert (c ∈ live now (resolve_alias aor r) r) as Hin by (by apply list_elem_of_filter).
    rewrite Hp in Hin. by apply elem_of_nil in Hin.
  - apply filter_none in He. unfold live in Hp. rewrite He in Hp. symmetry in Hp.
    apply Permutation_nil in Hp. by rewrite Hp.
Qed.

Lemma lookup_ordered_witness :
  StronglySorted (preferred 0) (lookup 0 "sip:alice@example.org:5060" Sample.two) ∧
  length (lookup 0 "sip:alice@example.org:5060" Sample.two) = 2.
Proof.
  split; [|vm_compute; reflexivity].
  refine (proj1 (proj2 (lookup_ordered Sample.two 0 "sip:alice@example.org:5060" _))).
  apply Forall_forall. intros c _. vm_compute. by eexists.
Defined.

End RegBindings.
