(* ===== verification/RegistrarSweeps.v ===== *)
(** * The expiry sweep and the close of a connection

    What the two maintenance operations of the registrar remove, and that they
    leave the other bindings alone. *)

From S2P Require Import Prelude Str Nom Headers Uri Message Parser Transport Via NameAddr.
From S2P Require Import Binding ContactIndex Registrar RegistrarProofs RegistrarAliases RegistrarBindings.

Module RegSweeps.
Import Holders Index Reg RegProofs RegAliases RegBindings.

Section sweeps.
Context {U : Unicode} {P : Nom} {F : Float32} {O : Float32Order} {R : RandomState}.

(** ** The sweep *)

Lemma live_unexpired now (l : list Contact) :
  filter (λ c, live_ue now c = true) (unexpired now l) = filter (λ c, live_ue now c = true) l.
Proof.
  unfold unexpired. set (k := filter (λ c, is_expired now c = false) l).
  assert (filter (λ c, live_ue now c = true) k = filter (λ c, live_ue now c = true) l) as <-.
  { apply list_filter_filter_l. by intros c [_ ?]%live_ue_true. }
  destruct (existsb _ k) eqn:He; [done|]. symmetry. apply filter_none.
  rewrite <- not_true_iff_false, existsb_exists in He |- *. intros (c & Hc & [Hk _]%live_ue_true).
  apply He. exists c. by rewrite bool_decide_eq_true.
Qed.

(** Nothing is left of a list whose UE bindings have all expired. *)
Lemma unexpired_nil now (l : list Contact) :
  unexpired now l = [] ↔ Forall (λ c, kind c = Ue → is_expired now c = true) l.
Proof.
  unfold unexpired. set (k := filter (λ c, is_expired now c = false) l).
  rewrite Forall_forall. destruct (existsb _ k) eqn:He.
  - apply existsb_exists in He as (c & Hc%list_elem_of_In & Hk%bool_decide_eq_true). split.
    + intros Hn. rewrite Hn in Hc. by apply elem_of_nil in Hc.
    + intros Hall. apply list_elem_of_filter in Hc as [Hx Hin]. rewrite (Hall c Hin Hk) in Hx. done.
  - split; [|done]. intros _ c Hc Hk. destruct (is_expired now c) eqn:Hx; [done|].
    rewrite <- not_true_iff_false, existsb_exists in He. destruct He. exists c.
    rewrite bool_decide_eq_true, <- list_elem_of_In. split; [|done]. by apply list_elem_of_filter.
Qed.

(** The identities the sweep removes. *)
Definition drained (now : instant) (r : Registrar) : list string :=
  (filter (λ e, unexpired now e.2 = [] ∧ e.2 ≠ []) (map_to_list (bindings r))).*1.

Lemma drained_NoDup now r : NoDup (drained now r).
Proof.
  eapply sublist_NoDup; [apply (NoDup_fst_map_to_list (bindings r))|].
  apply fmap_sublist, sublist_filter.
Qed.

Lemma elem_of_drained now r a :
  a ∈ drained now r ↔
  ∃ l, bindings r !! a = Some l ∧ l ≠ [] ∧ Forall (λ c, kind c = Ue → is_expired now c = true) l.
Proof.
  unfold drained. rewrite list_elem_of_fmap. setoid_rewrite list_elem_of_filter. split.
  - intros ([a' l] & -> & [Hu Hl] & Hin%elem_of_map_to_list). exists l.
    split_and!; [done|done|]. by apply unexpired_nil.
  - intros (l & Hl & Hne & Hall%unexpired_nil). exists (a, l). by rewrite elem_of_map_to_list.
Qed.

Lemma events_deindex id aor r : events (deindex_connection id aor r) = events r.
Proof. unfold deindex_connection. destruct (connection_index r !! id); [|done]. by case_match. Qed.

Lemma events_prune a r : events (prune_aliases_to a r) = events r.
Proof. unfold prune_aliases_to. by destruct (associated_uris r !! a). Qed.

(** The auxiliary state of an identity. *)
Definition aux_of (a : string) (r : Registrar)
    : option (list string) * option string * option (list string) :=
  (service_routes r !! a, asserted_identities r !! a, associated_uris r !! a).

Definition aux_maps (r : Registrar) := (service_routes r, asserted_identities r, associated_uris r).

Lemma aux_of_maps a r r' : aux_maps r' = aux_maps r → aux_of a r' = aux_of a r.
Proof. unfold aux_of. by intros [= -> -> ->]. Qed.

Lemma aux_prune a r : aux_maps (prune_aliases_to a r) = aux_maps r.
Proof. unfold prune_aliases_to. by destruct (associated_uris r !! a). Qed.

Lemma tokens_prune a r : tokens (prune_aliases_to a r) = tokens r.
Proof. unfold prune_aliases_to. by destruct (associated_uris r !! a). Qed.

Lemma aux_deindex id aor r : aux_maps (deindex_connection id aor r) = aux_maps r.
Proof. unfold deindex_connection. destruct (connection_index r !! id); [|done]. by case_match. Qed.

Lemma tokens_deindex id aor r : tokens (deindex_connection id aor r) = tokens r.
Proof. unfold deindex_connection. destruct (connection_index r !! id); [|done]. by case_match. Qed.

Lemma tokens_removed l r t : t ∈ l → tokens (foldl (λ r t, remove_token t r) r l) !! t = None.
Proof.
  revert r. induction l as [|x l IH]; intros r; [by intros ?%elem_of_nil|].
  intros [->|Ht]%elem_of_cons; [|by apply IH]. cbn [foldl].
  destruct (decide (x ∈ l)) as [Hx|Hx]; [by apply IH|]. clear IH.
  assert (∀ r, tokens r !! x = None → tokens (foldl (λ r t, remove_token t r) r l) !! x = None) as H.
  { clear Hx r. induction l as [|y l IH]; intros r Hr; [done|]. cbn [foldl]. apply IH. cbn.
    destruct (decide (x = y)) as [->|]; [apply lookup_delete_eq|by rewrite lookup_delete_ne]. }
  apply H. cbn. apply lookup_delete_eq.
Qed.

(** The loop over the drained identities. *)
Lemma drain_step a r :
  let r' := emit_event (Expired a) (remove_aor_state_entries a (prune_aliases_to a
              (set_bindings (delete a (bindings r)) (contact_index r) r))).2 in
  bindings r' = delete a (bindings r) ∧ events r' = events r ++ [Expired a] ∧ tokens r' = tokens r ∧
  ∀ a', aux_of a' r' = if decide (a' = a) then (None, None, None) else aux_of a' r.
Proof.
  set (r0 := set_bindings _ _ r). cbv zeta. split_and!.
  - pose proof (store_prune a r0) as [Hp _]%pair_equal_spec. exact Hp.
  - cbn. by rewrite events_prune.
  - cbn. by rewrite tokens_prune.
  - intros a'. pose proof (aux_prune a r0) as H. injection H as H1 H2 H3. unfold aux_of. cbn.
    rewrite H1, H2, H3. case_decide as Ha; [subst; by rewrite !lookup_delete_eq|by rewrite !lookup_delete_ne].
Qed.

Lemma drain_spec as_ r :
  let r' := foldl (λ r aor, let r := set_bindings (delete aor (bindings r)) (contact_index r) r in
              let r := (remove_aor_state_entries aor (prune_aliases_to aor r)).2 in
              emit_event (Expired aor) r) r as_ in
  (∀ a, bindings r' !! a = if decide (a ∈ as_) then None else bindings r !! a) ∧
  (∀ a, aux_of a r' = if decide (a ∈ as_) then (None, None, None) else aux_of a r) ∧
  events r' = events r ++ (Expired <$> as_) ∧ tokens r' = tokens r.
Proof.
  cbv zeta. revert r. induction as_ as [|a as_ IH]; intros r; cbn [foldl].
  { split_and!; [intros; by rewrite decide_False by apply not_elem_of_nil..|by rewrite app_nil_r|done]. }
  destruct (drain_step a r) as (Hb1 & He1 & Ht1 & Ha1). set (r1 := emit_event _ _) in *.
  destruct (IH r1) as (Hb & Ha & He & Ht). split_and!.
  - intros a'. rewrite Hb, Hb1. destruct (decide (a' ∈ as_)).
    + by rewrite decide_True by (by right).
    + destruct (decide (a' = a)) as [->|Hne].
      * by rewrite decide_True, lookup_delete_eq by left.
      * rewrite lookup_delete_ne, decide_False; [done| |done]. by rewrite elem_of_cons; intros [?|?].
  - intros a'. rewrite Ha, Ha1. destruct (decide (a' ∈ as_)); [by rewrite decide_True by (by right)|].
    destruct (decide (a' = a)) as [->|Hne]; [by rewrite decide_True by left|].
    rewrite decide_False; [done|]. by rewrite elem_of_cons; intros [?|?].
  - by rewrite He, He1, fmap_cons, <- app_assoc.
  - by rewrite Ht, Ht1.
Qed.

Lemma expire_stale_spec now r :
  let r' := (expire_stale now r).2 in
  (∀ a, bindings r' !! a = if decide (a ∈ drained now r) then None else unexpired now <$> bindings r !! a) ∧
  (∀ a, aux_of a r' = if decide (a ∈ drained now r) then (None, None, None) else aux_of a r) ∧
  events r' = events r ++ (Expired <$> drained now r) ∧
  (∀ a c token, c ∈ list_of (bindings r) a → is_expired now c = true → c_flow_token c = Some token →
     tokens r' !! token = None) ∧
  (expire_stale now r).1 = length (drained now r).
Proof.
  unfold expire_stale. cbn [fst snd]. fold (drained now r).
  set (dropped := e ← map_to_list (bindings r); _). set (r0 := set_bindings _ _ r).
  set (r2 := foldl (λ r token, remove_token token r) r0 _).
  set (r1 := gauge_add _ _). destruct (drain_spec (drained now r) r1) as (Hb & Ha & He & Ht).
  assert (bindings r1 = unexpired now <$> bindings r) as Hb1.
  { assert (store r1 = store r0) as [-> _]%pair_equal_spec; [|done].
    etransitivity; [apply (store_view _ _ (view_deindex_all _ _))|].
    apply (store_view _ _ (view_remove_tokens _ _)). }
  assert (∀ T (g : Registrar → T), (∀ id a r, g (deindex_connection id a r) = g r) →
            (∀ n r, g (gauge_add n r) = g r) → g r1 = g r2) as Hg.
  { intros T g Hd Hn. unfold r1. rewrite Hn. apply (foldl_invariant _ g).
    intros r' m. by destruct (stream_connection m.2). }
  assert (events r1 = events r ∧ aux_maps r1 = aux_maps r) as [He1 Ha1].
  { rewrite (Hg _ events (λ id a r, events_deindex id a r) (λ _ _, eq_refl)).
    rewrite (Hg _ aux_maps (λ id a r, aux_deindex id a r) (λ _ _, eq_refl)).
    unfold r2. by rewrite (foldl_invariant _ events), (foldl_invariant _ aux_maps). }
  split_and!; [| |etransitivity; [exact He|by rewrite He1]| |done].
  - intros a. etransitivity; [exact (Hb a)|]. by rewrite Hb1, lookup_fmap.
  - intros a. etransitivity; [exact (Ha a)|]. by rewrite (aux_of_maps a r r1).
  - intros a c token Hc Hx Htok. etransitivity; [exact (f_equal (λ m : gmap string string, m !! token) Ht)|]. cbv beta.
    rewrite (Hg _ tokens (λ id a r, tokens_deindex id a r) (λ _ _, eq_refl)). apply tokens_removed.
    apply list_elem_of_omap. exists (a, c). split; [|done]. unfold list_of in Hc.
    destruct (bindings r !! a) as [l|] eqn:Hl; [|by apply elem_of_nil in Hc].
    apply list_elem_of_bind. exists (a, l). split; [|by apply elem_of_map_to_list].
    apply list_elem_of_fmap_2. by apply list_elem_of_filter.
Qed.

(** ** Closing a connection *)

Section closing.
Context (now : instant) (id : ConnectionId) (keep : gset string).

Definition gone (c : Contact) : bool := on_flow id c && bool_decide (show_uri (c_uri c) ∉ keep).

(** What is left of a list, and of its entry. *)
Definition left_of (l : list Contact) : list Contact :=
  cascade now ((λ c, if on_flow id c then detach c else c) <$> filter (λ c, gone c = false) l).

Definition closed (b : gmap string (list Contact)) (a : string) : option (list Contact) :=
  l ← b !! a; match left_of l with [] => None | l' => Some l' end.

Lemma close_flow_of_spec s a :
  a ∉ cl_seen s →
  let s' := close_flow_of now id keep s a in
  let b := bindings (cl_registrar s) in
  cl_seen s' = {[a]} ∪ cl_seen s ∧
  cl_removed s' = cl_removed s ++ (pair a <$> filter (λ c, gone c = true) (list_of b a)) ∧
  bindings (cl_registrar s') !! a = closed b a ∧
  ∀ a', a' ≠ a → bindings (cl_registrar s') !! a' = b !! a'.
Proof.
  intros Hs. cbv zeta. unfold close_flow_of. rewrite decide_False by done. unfold closed, list_of.
  destruct (bindings (cl_registrar s) !! a) as [l|] eqn:Hl; cbn [default option_bind mbind].
  2:{ cbn. rewrite app_nil_r. done. }
  fold gone. cbv zeta. fold (left_of l).
  pose proof (view_write_sequence (cl_registrar s)) as Hv. apply store_view, store_eq in Hv as [Hb _].
  destruct (write_sequence (cl_registrar s)) as [n r1]. cbn [snd] in Hb.
  cbn [cl_seen cl_removed cl_registrar]. set (r2 := if _ : bool then _ else _).
  assert (bindings r2 = put a (left_of l) (bindings (cl_registrar s))) as Hb2.
  { rewrite <- Hb. assert (store r2 = store (commit a l (left_of l) r1)) as [-> _]%pair_equal_spec.
    { subst r2. destruct (_ || _); [|done]. apply store_view, view_persist_aor. }
    by destruct (left_of l). }
  split_and!; [done|done| |]; rewrite Hb2.
  - destruct (left_of l); cbn [put]; [by rewrite lookup_delete_eq|by rewrite lookup_insert_eq].
  - intros a' Ha'. destruct (left_of l); cbn [put]; [by rewrite lookup_delete_ne|by rewrite lookup_insert_ne].
Qed.

Lemma first_seen_fresh seen l a : a ∈ first_seen seen l → a ∉ seen.
Proof.
  revert seen. induction l as [|x l IH]; intros seen; cbn; [by intros ?%elem_of_nil|].
  case_decide; [apply IH|]. rewrite elem_of_cons. intros [->|Ha%IH]; [done|]. set_solver.
Qed.

Lemma close_loop_spec aors s :
  let s' := foldl (close_flow_of now id keep) s aors in
  let b := bindings (cl_registrar s) in
  cl_removed s' = cl_removed s ++
    (first_seen (cl_seen s) aors ≫= λ a, pair a <$> filter (λ c, gone c = true) (list_of b a)) ∧
  ∀ a, bindings (cl_registrar s') !! a =
    if decide (a ∈ aors ∧ a ∉ cl_seen s) then closed b a else b !! a.
Proof.
  cbv zeta. revert s. induction aors as [|x aors IH]; intros s; cbn [foldl first_seen].
  { split; [by rewrite app_nil_r|]. intros a. rewrite decide_False; [done|].
    intros [Ha _]. by apply elem_of_nil in Ha. }
  destruct (decide (x ∈ cl_seen s)) as [Hx|Hx].
  - assert (close_flow_of now id keep s x = s) as -> by (unfold close_flow_of; by rewrite decide_True).
    destruct (IH s) as [Hr Hb]. split; [done|]. intros a. rewrite Hb.
    destruct (decide (a ∈ aors ∧ a ∉ cl_seen s)); [rewrite decide_True by set_solver; done|].
    rewrite decide_False by set_solver. done.
  - destruct (close_flow_of_spec s x Hx) as (Hseen & Hrem & Hbx & Hbo).
    destruct (IH (close_flow_of now id keep s x)) as [Hr Hb]. rewrite Hseen in Hr, Hb. split.
    + rewrite Hr, Hrem, bind_cons, <- app_assoc. do 2 f_equal. apply Forall_bind_ext, Forall_forall.
      intros a Ha%first_seen_fresh. unfold list_of. by rewrite Hbo by set_solver.
    + intros a. rewrite Hb. destruct (decide (a = x)) as [->|Hne].
      * rewrite decide_False, decide_True by set_solver. exact Hbx.
      * unfold closed. rewrite Hbo by done.
        destruct (decide (a ∈ aors ∧ a ∉ {[x]} ∪ cl_seen s)), (decide (a ∈ x :: aors ∧ a ∉ cl_seen s));
          try done; set_solver.
Qed.

Lemma list_of_closed b a : default [] (closed b a) = left_of (list_of b a).
Proof.
  unfold closed, list_of. destruct (b !! a) as [l|]; cbn; [by destruct (left_of l)|done].
Qed.

Lemma gone_true c : gone c = true ↔ on_flow id c = true ∧ show_uri (c_uri c) ∉ keep.
Proof. unfold gone. by rewrite andb_true_iff, bool_decide_eq_true. Qed.

(** What goes is what is on the flow and not to keep. *)
Lemma gone_filter (a : string) (cs : list Contact) :
  pair a <$> filter (λ c, gone c = true) cs =
    filter (λ m : string * Contact, show_uri (c_uri m.2) ∉ keep)
      (pair a <$> filter (λ c, on_flow id c = true) cs).
Proof.
  induction cs as [|c cs IH]; [done|]. rewrite !filter_cons.
  destruct (decide (gone c = true)) as [Hg|Hg], (decide (on_flow id c = true)) as [Ho|Ho];
    rewrite gone_true in Hg.
  - rewrite !fmap_cons, filter_cons, decide_True by apply Hg. by rewrite IH.
  - by destruct Hg.
  - rewrite fmap_cons, filter_cons, decide_False; [done|]. cbn. by intros Hk; apply Hg.
  - done.
Qed.

Lemma on_flow_detach c : on_flow id (detach c) = false.
Proof.
  unfold on_flow, stream_connection. apply bool_decide_eq_false_2. cbn. by case_match.
Qed.

(** Nothing on the flow is left; what was not on it, or is kept, is. *)
Lemma left_of_off_flow l c : c ∈ left_of l → on_flow id c = false.
Proof.
  unfold left_of, cascade. destruct (existsb _ _); [|by intros ?%elem_of_nil].
  intros (c' & -> & _)%list_elem_of_fmap. destruct (on_flow id c') eqn:Ho; [apply on_flow_detach|done].
Qed.

Lemma left_of_live l c :
  gone c = false → c ∈ filter (λ c, live_ue now c = true) l →
  (if on_flow id c then detach c else c) ∈ filter (λ c, live_ue now c = true) (left_of l).
Proof.
  intros Hg [Hl Hin]%list_elem_of_filter. unfold left_of. rewrite live_cascade.
  apply list_elem_of_filter. split; [by destruct (on_flow id c)|].
  apply (list_elem_of_fmap_2 (λ c, if on_flow id c then detach c else c)).
  by apply list_elem_of_filter.
Qed.

(** An entry of the list is there exactly if a routable UE binding is left. *)
Lemma closed_spec b a :
  let kept := (λ c, if on_flow id c then detach c else c) <$> filter (λ c, gone c = false) (list_of b a) in
  closed b a = if existsb (live_ue now) kept then Some kept else None.
Proof.
  cbv zeta. unfold closed, list_of. destruct (b !! a) as [l|]; [|done]. cbn. unfold left_of, cascade.
  set (kept := _ <$> filter _ l). destruct (existsb (live_ue now) kept) eqn:He; [|done].
  by destruct kept.
Qed.

Lemma close_flow_of_index s a :
  connection_index (cl_registrar (close_flow_of now id keep s a)) = connection_index (cl_registrar s).
Proof.
  unfold close_flow_of. case_decide; [done|]. destruct (bindings (cl_registrar s) !! a); [|done]. cbv zeta.
  assert (connection_index (write_sequence (cl_registrar s)).2 = connection_index (cl_registrar s)) as <-
    by (unfold write_sequence; by destruct (backend_writer _)).
  destruct (write_sequence (cl_registrar s)) as [n r1]. cbn [snd cl_registrar].
  destruct (_ || _); [|done]. unfold persist_aor, enqueue. by destruct (backend_writer _).
Qed.

(** The bindings, the indexes and the answer of [close_flow]. *)
Lemma close_flow_spec r :
  let index := default [] (connection_index r !! id) in
  let r' := (close_flow now id keep r).2 in
  let removed := (close_flow now id keep r).1 in
  removed = (first_seen ∅ index ≫= λ a, pair a <$> filter (λ c, gone c = true) (list_of (bindings r) a)) ∧
  (∀ a, bindings r' !! a = if decide (a ∈ index) then closed (bindings r) a else bindings r !! a) ∧
  connection_index r' !! id = None ∧
  (∀ m token, m ∈ removed → c_flow_token m.2 = Some token → tokens r' !! token = None).
Proof.
  cbv zeta. unfold close_flow. destruct (connection_index r !! id) as [aors|] eqn:Hid.
  2:{ split_and!; [done| |done|by intros ?? ?%elem_of_nil]. intros a. rewrite decide_False; [done|apply not_elem_of_nil]. }
  change (default [] (Some aors)) with aors.
  set (s0 := mkClosing _ [] [] 0 ∅). destruct (close_loop_spec aors s0) as [Hr Hb].
  set (s := foldl (close_flow_of now id keep) s0 aors) in *. cbn [fst snd].
  set (r2 := foldl (λ r token, remove_token token r) (cl_registrar s) _).
  set (r1 := foldl _ _ (cl_deregistered s)).
  assert (∀ T (g : Registrar → T), (∀ n r, g (gauge_add n r) = g r) → (∀ e r, g (emit_event e r) = g r) →
            g r1 = g r2) as Hg.
  { intros T g Hn He. unfold r1. rewrite (foldl_invariant _ g) by done. by destruct (0 <? cl_emptied s)%Z. }
  split_and!; [done| | |].
  - intros a. rewrite (Hg _ bindings) by done.
    assert (store r2 = store (cl_registrar s)) as [-> _]%pair_equal_spec
      by apply (store_view _ _ (view_remove_tokens _ _)).
    rewrite Hb. cbn [cl_seen s0 cl_registrar].
    destruct (decide (a ∈ aors)) as [Ha|Ha]; [by rewrite decide_True by set_solver|].
    by rewrite decide_False by (by intros [? _]).
  - rewrite (Hg _ connection_index) by done. unfold r2. rewrite (foldl_invariant _ connection_index) by done.
    pose proof (foldl_invariant (close_flow_of now id keep) (λ s, connection_index (cl_registrar s)) aors s0
      close_flow_of_index) as Hx. cbv beta in Hx. fold s in Hx. rewrite Hx. apply lookup_delete_eq.
  - intros m token Hm Ht. rewrite (Hg _ tokens) by done. apply tokens_removed.
    apply list_elem_of_omap. by exists m.
Qed.

End closing.
End sweeps.

(** C25: The expiry sweep, exactly. The identities that had bindings but no
    unexpired UE binding are removed, each once and with one [Expired] event:
    their entry is gone and so are their Service-Route, asserted identity and
    implicit set and, in any reachable state, every key of the contact index and
    every alias that led to them. Every other entry keeps exactly its unexpired
    bindings, in order, and its auxiliary state. The flow tokens of all expired
    bindings are gone, and no routable binding is lost. *)
Theorem expire_stale_exact
    `{U : Unicode, P : Nom, F : Float32, O : !Float32Order, R : RandomState}
    (r : Registrar) (now : instant) :
  let r' := (expire_stale now r).2 in
  ∃ removed, NoDup removed ∧ length removed = (expire_stale now r).1 ∧
    events r' = events r ++ (Expired <$> removed) ∧
    (∀ aor, aor ∈ removed ↔
       ∃ l, bindings r !! aor = Some l ∧ l ≠ [] ∧
            Forall (λ c, kind c = Ue → is_expired now c = true) l) ∧
    (∀ aor, bindings r' !! aor =
       if decide (aor ∈ removed) then None else filter (λ c, is_expired now c = false) <$> bindings r !! aor) ∧
    (∀ aor, aux_of aor r' = if decide (aor ∈ removed) then (None, None, None) else aux_of aor r) ∧
    (∀ aor c token, c ∈ list_of (bindings r) aor → is_expired now c = true → c_flow_token c = Some token →
       tokens r' !! token = None) ∧
    (∀ aor, live now aor r' = live now aor r) ∧
    (reachable r → ∀ aor, aor ∈ removed →
       (∀ key, aor ∉ Index.aors key (contact_index r')) ∧ ∀ alias, aliases r' !! alias ≠ Some aor).
Proof.
  intros r'. destruct (expire_stale_spec now r) as (Hb & Ha & He & Ht & Hn). fold r' in Hb, Ha, He, Ht.
  exists (drained now r). split_and!; [apply drained_NoDup|done|done|apply elem_of_drained| |exact Ha|exact Ht| |].
  - intros aor. rewrite Hb. destruct (decide (aor ∈ drained now r)) as [|Hd]; [done|].
    destruct (bindings r !! aor) as [l|] eqn:Hl; [|done]. cbn. f_equal. unfold unexpired.
    destruct (existsb _ _) eqn:Hx; [done|]. destruct l as [|c l]; [done|]. destruct Hd.
    apply elem_of_drained. exists (c :: l). split_and!; [done..|]. apply unexpired_nil. unfold unexpired. by rewrite Hx.
  - intros aor. unfold live. assert (list_of (bindings r') aor = unexpired now (list_of (bindings r) aor)) as ->;
      [|apply live_unexpired].
    unfold list_of. rewrite Hb. destruct (decide (aor ∈ drained now r)) as [Hd|_].
    + apply elem_of_drained in Hd as (l & -> & _ & Hall%unexpired_nil). exact (eq_sym Hall).
    + by destruct (bindings r !! aor).
  - intros Hr aor Hd. assert (reachable r') as Hr'.
    { destruct Hr as (r0 & H0 & Hs). exists r0. split; [done|]. eapply rtc_r; [exact Hs|apply step_expire]. }
    split.
    + intros key. apply Inv_unindexed; [by apply reachable_Inv|]. by rewrite Hb, decide_True.
    + intros alias (_ & uris & Hu & _)%(reachable_AInv r' Hr').
      pose proof (Ha aor) as Hx. rewrite decide_True in Hx by done. unfold aux_of in Hx. congruence.
Qed.

(** C24: Closing a connection, exactly, for the identities the connection index
    lists under it. The answer is the bindings the read-only peek at the
    connection lists, less the URIs to keep. Of a listed identity the bindings
    on the connection whose URI is not to be kept are removed, those to be kept
    stay without the connection, and those elsewhere stay as they are; if no
    routable UE binding is then left the identity has no entry any more and, in
    any reachable state, no key of the contact index. The flow tokens of the
    removed bindings and the index row of the connection are gone. An identity
    the index does not list is untouched; the index can miss one whose other
    binding on the connection was removed before
    ([shared_connection_forgotten]). *)
Theorem close_flow_exact
    `{U : Unicode, P : Nom, F : Float32, O : !Float32Order, R : RandomState}
    (r : Registrar) (now : instant) (id : ConnectionId) (keep : gset string) :
  let index := default [] (connection_index r !! id) in
  let r' := (close_flow now id keep r).2 in
  let removed := (close_flow now id keep r).1 in
  removed = filter (λ m, show_uri (c_uri m.2) ∉ keep) (bindings_for_connection id r) ∧
  (∀ aor, aor ∈ index →
     let kept := (λ c, if on_flow id c then detach c else c) <$>
       filter (λ c, ¬ (on_flow id c = true ∧ show_uri (c_uri c) ∉ keep)) (list_of (bindings r) aor) in
     bindings r' !! aor = if existsb (live_ue now) kept then Some kept else None) ∧
  (∀ aor, aor ∉ index → bindings r' !! aor = bindings r !! aor) ∧
  (∀ aor c, aor ∈ index → c ∈ list_of (bindings r') aor → on_flow id c = false) ∧
  connection_index r' !! id = None ∧
  (∀ m token, m ∈ removed → c_flow_token m.2 = Some token → tokens r' !! token = None) ∧
  (reachable r → ∀ aor key, bindings r' !! aor = None → aor ∉ Index.aors key (contact_index r')).
Proof.
  intros index r' removed. destruct (close_flow_spec now id keep r) as (Hrem & Hb & Hi & Ht).
  fold index r' removed in Hrem, Hb, Hi, Ht.
  split_and!; [| | | |exact Hi|exact Ht|].
  - rewrite Hrem. clear Hrem Hb Ht. unfold bindings_for_connection. fold index.
    induction (first_seen ∅ index) as [|a l IH]; [done|]. rewrite !bind_cons, filter_app, IH. f_equal.
    apply gone_filter.
  - intros aor Ha. cbv zeta. rewrite Hb, decide_True, closed_spec by done. cbv zeta.
    rewrite (list_filter_iff _ (λ c, ¬ (on_flow id c = true ∧ show_uri (c_uri c) ∉ keep))); [done|].
    intros c. by rewrite <-gone_true, not_true_iff_false.
  - intros aor Ha. by rewrite Hb, decide_False.
  - intros aor c Ha Hc. unfold list_of in Hc. rewrite Hb, decide_True in Hc by done.
    rewrite list_of_closed in Hc. by eapply left_of_off_flow.
  - intros Hr aor key Hn. apply Inv_unindexed; [|done]. apply reachable_Inv.
    destruct Hr as (r0 & H0 & Hs). exists r0. split; [done|]. eapply rtc_r; [exact Hs|apply step_close_flow].
Qed.

(** ** Where the indexes fall short

    Concrete runs of a registrar, on what the theorems above leave out. *)
Import Running.

(** The connection index counts identities, not bindings: when one of two
    bindings on a connection is removed, the other is no longer found by the
    close of that connection, and stays registered. *)
Example shared_connection_forgotten :
  let r := Sample.run 0 [Sample.update "10.0.0.1" 0] Sample.two in
  let '(removed, r') := close_flow 0 7 ∅ r in
  removed = [] ∧ (on_flow 7 <$> lookup 0 Sample.aor r') = [true].
Proof. vm_compute. done. Qed.

(** Saving an AS contact drops the expired bindings of an identity without the
    rest of the expiry: the sweep then finds an empty list, sends no [Expired]
    and keeps the auxiliary state, and the empty entry stays for good. *)
Example expiry_lost :
  let r := Sample.run 0 [Sample.update "10.0.0.1" 600] Sample.empty in
  let r := set_service_routes Sample.aor ["<sip:scscf.example.org;lr>"] r in
  let now := 700000000000%Z in
  let r := (save_as_contact now Sample.aor (uri_new "as.example.org") 600 1%N [] r).2 in
  let '(n, r') := expire_stale now r in
  n = 0 ∧ (Expired Sample.aor ∉ events r') ∧ bindings r' !! Sample.aor = Some [] ∧
  service_routes r' !! Sample.aor = Some ["<sip:scscf.example.org;lr>"].
Proof. vm_compute. split_and!; [done|set_solver|done|done]. Qed.

(** The gauge goes up once per binding and down once per identity. *)
Example gauge_drifts :
  let r := (remove_all_in Sample.aor None Sample.two).2 in
  bindings r = ∅ ∧ registrations_active r = 1%Z.
Proof. vm_compute. done. Qed.

(** A REGISTER that replaces a binding by its instance can leave two bindings
    with one URI. *)
Example duplicate_uri :
  let with_instance u i := mkUpdate (u_uri u) (u_expires_secs u) (u_q u) (u_call_id u) (u_cseq u)
    (u_source_addr u) (u_source_transport u) i (u_reg_id u) (u_path u) (u_flow u) (u_params u)
    (u_auth_user u) in
  let a := with_instance (Sample.update "10.0.0.1" 600) (Some "urn:uuid:1") in
  let b := with_instance (Sample.update "10.0.0.2" 600) (Some "urn:uuid:1") in
  let r := Sample.run 0 [a; Sample.update "10.0.0.2" 600; b] Sample.empty in
  (λ c, show_uri (c_uri c)) <$> lookup 0 Sample.aor r =
    ["sip:alice@10.0.0.2"; "sip:alice@10.0.0.2"].
Proof. vm_compute. done. Qed.

(** A name-addr with parameters after its brackets keeps a bracket. *)
Example normalized_bracket :
  normalize_aor "<sip:alice@example.org>;tag=1" = "sip:alice@example.org>".
Proof. vm_compute. done. Qed.

End RegSweeps.
