(* ===== verification/WriteQueue.v ===== *)
(** * The write-behind queue ([src/src/registrar/backend/coalesce.rs])

    The queue between the registrar and its backend: the latest write per key,
    drained in batches to a sink that may refuse them.  The handle touches only
    the pending map, the drainer takes that map whole and then works on its own
    backlog, so one attempt of the drainer is one step ([attempt]); an enqueue
    in the middle of it commutes with the rest.  [since] of a write, [held] and
    the capacity of a map are left out: they feed gauges and memory use only.
    An attempt reads the clock several times: [clock 0] in [absorb],
    [clock (1 + i)] after its [i]-th batch. *)

From S2P Require Import Prelude.

Module Queue.

Abbreviation instant := Z (only parsing).

(** The error texts are left out. *)
Inductive BackendError := Connection | Serialization | Query | Timeout.

#[global] Instance backend_error_eq : EqDecision BackendError.
Proof. solve_decision. Defined.

(** What a drainer writes to: a batch of writes for distinct keys, one result
    per write.  [stored] is the write a key holds. *)
Class WriteSink (S K W : Type) := {
  apply_batch : S → list (K * W) → S * list (result BackendError ());
  stored : S → K → option W;
  apply_other s l k : k ∉ l.*1 → stored (apply_batch s l).1 k = stored s k;
  apply_ok s l i k w :
    NoDup l.*1 → l !! i = Some (k, w) → (apply_batch s l).2 !! i = Some (Ok ()) →
    stored (apply_batch s l).1 k = Some w;
}.

Abbreviation WRITE_CONCURRENCY := 128 (only parsing).
Abbreviation INITIAL_BACKOFF := 100000000%Z (only parsing).
Abbreviation MAX_BACKOFF := 5000000000%Z (only parsing).
Abbreviation APPLIED_RETENTION := 5000000000%Z (only parsing).

Section queue.
Context {K W S : Type} `{Countable K} `{!WriteSink S K W}.

Record PendingWrite := mkPending { write : W; sequence : N (* u64 *) }.

(** [Shared] and [Drainer]; [dropped] logs what the dropped counter counts: the
    writes given up, unencodable or left when the drainer is gone. *)
Record Queue := mkQueue {
  pending : gmap K PendingWrite;
  closed : bool;
  backlog : gmap K PendingWrite;
  applied : gmap K (N * instant);
  pruned_at : instant;
  backoff : Z;
  retry_at : option instant;
  dropped : list (K * PendingWrite);
}.

Definition queue (now : instant) : Queue := mkQueue ∅ false ∅ ∅ now INITIAL_BACKOFF None [].

(** The newer of the write held for a key and one that arrives. *)
Definition supersede (held : option PendingWrite) (p : PendingWrite) : PendingWrite :=
  match held with
  | Some h => if (sequence h <=? sequence p)%N then p else h
  | None => p
  end.

(** The part of [enqueue] under the lock. *)
Definition insert_pending (key : K) (p : PendingWrite) (q : Queue) : Queue :=
  mkQueue (<[key := supersede (pending q !! key) p]> (pending q)) (closed q) (backlog q)
    (applied q) (pruned_at q) (backoff q) (retry_at q) (dropped q).

Definition enqueue (key : K) (p : PendingWrite) (q : Queue) : Queue :=
  if closed q
  then mkQueue (pending q) (closed q) (backlog q) (applied q) (pruned_at q)
         (backoff q) (retry_at q) (dropped q ++ [(key, p)])
  else insert_pending key p q.

(** The applied sequences still remembered. *)
Definition remembered (now : instant) (q : Queue) : gmap K (N * instant) :=
  if (1000000000 <=? now - pruned_at q)%Z
  then filter (λ e, (now - e.2.2 < APPLIED_RETENTION)%Z) (applied q) else applied q.

Definition absorb (now : instant) (q : Queue) : Queue :=
  let applied := remembered now q in
  let backlog := foldl (λ b e,
    match applied !! e.1 with
    | Some (n, _) => if (sequence e.2 <? n)%N then b else <[e.1 := supersede (b !! e.1) e.2]> b
    | None => <[e.1 := supersede (b !! e.1) e.2]> b
    end) (backlog q) (map_to_list (pending q)) in
  mkQueue ∅ (closed q) backlog applied
    (if (1000000000 <=? now - pruned_at q)%Z then now else pruned_at q) (backoff q) (retry_at q)
    (dropped q).

(** The variables of [flush]'s loop. *)
Record Drain := mkDrain {
  d_sink : S;
  d_backlog : gmap K PendingWrite;
  d_applied : gmap K (N * instant);
  d_refused : list (K * PendingWrite);
  d_dropped : list (K * PendingWrite);
  d_error : option BackendError;
}.

(** One result of a batch; the count is of the writes that succeeded. *)
Definition settle (now : instant) (s : Drain * nat)
    (e : K * PendingWrite * result BackendError ()) : Drain * nat :=
  let '(d, succeeded) := s in
  let '(key, held, res) := e in
  match res with
  | Ok _ => (mkDrain (d_sink d) (d_backlog d) (<[key := (sequence held, now)]> (d_applied d))
               (d_refused d) (d_dropped d) (d_error d), Datatypes.S succeeded)
  | Err Serialization => (mkDrain (d_sink d) (d_backlog d) (d_applied d) (d_refused d)
                            (d_dropped d ++ [(key, held)]) (d_error d), succeeded)
  | Err error => (mkDrain (d_sink d) (d_backlog d) (d_applied d) (d_refused d ++ [(key, held)])
                    (d_dropped d) (Some error), succeeded)
  end.

(** One batch, and whether the attempt goes on. *)
Definition drain_batch (now : instant) (d : Drain) : Drain * bool :=
  let batch := take WRITE_CONCURRENCY (map_to_list (d_backlog d)) in
  let '(sink, results) := apply_batch (d_sink d) ((λ e, (e.1, write e.2)) <$> batch) in
  let results := resize (length batch) (Err Query) results in
  let backlog := foldl (λ b e, delete e.1 b) (d_backlog d) batch in
  let '(d, succeeded) :=
    foldl (settle now) (mkDrain sink backlog (d_applied d) (d_refused d) (d_dropped d) (d_error d), 0)
      (zip batch results) in
  (d, negb (bool_decide (succeeded = 0) && bool_decide (d_error d ≠ None))).

Fixpoint drain_loop (fuel : nat) (clock : nat → instant) (d : Drain) : Drain :=
  match fuel with
  | O => d
  | Datatypes.S fuel =>
      if decide (d_backlog d = ∅) then d else
      let '(d, again) := drain_batch (clock 0) d in
      if again then drain_loop fuel (λ i, clock (Datatypes.S i)) d else d
  end.

(** [flush] after [absorb]. *)
Definition flush_backlog (clock : nat → instant) (sink : S) (q : Queue) : S * Queue * option BackendError :=
  let d := drain_loop (size (backlog q)) clock (mkDrain sink (backlog q) (applied q) [] [] None) in
  let backlog := foldl (λ b e, <[e.1 := e.2]> b) (d_backlog d) (d_refused d) in
  (d_sink d,
   mkQueue (pending q) (closed q) backlog (d_applied d) (pruned_at q) (backoff q)
     (retry_at q) (dropped q ++ d_dropped d), d_error d).

Definition flush (clock : nat → instant) (sink : S) (q : Queue) : S * Queue * option BackendError :=
  flush_backlog (λ i, clock (Datatypes.S i)) sink (absorb (clock 0) q).

(** [now] is the time the flush ends. *)
Definition attempt (clock : nat → instant) (now : instant) (sink : S) (q : Queue) : S * Queue :=
  if decide (retry_at q ≠ None) then (sink, q) else
  let '(sink, q, error) := flush clock sink q in
  match error with
  | None => (sink, mkQueue (pending q) (closed q) (backlog q) (applied q)
                     (pruned_at q) INITIAL_BACKOFF (retry_at q) (dropped q))
  | Some _ => (sink, mkQueue (pending q) (closed q) (backlog q) (applied q)
                       (pruned_at q) (Z.min (backoff q * 2) MAX_BACKOFF) (Some (now + backoff q)%Z)
                       (dropped q))
  end.

(** [next_event] with a retry due. *)
Definition retry_due (q : Queue) : Queue :=
  mkQueue (pending q) (closed q) (backlog q) (applied q) (pruned_at q) (backoff q)
    None (dropped q).

(** Every handle is gone. *)
Definition finish (clock : nat → instant) (now : instant) (sink : S) (q : Queue) : S * Queue :=
  attempt clock now sink (retry_due q).

(** [Drop for Drainer]. *)
Definition stop (q : Queue) : Queue :=
  mkQueue ∅ true ∅ (applied q) (pruned_at q) (backoff q) (retry_at q)
    (dropped q ++ map_to_list (pending q) ++ map_to_list (backlog q)).

End queue.

#[global] Arguments PendingWrite : clear implicits.
#[global] Arguments Queue K W {_ _}.
#[global] Arguments Drain K W S {_ _}.
End Queue.
