(* ===== verification/WriteQueueProofs.v ===== *)
(** * No write is lost by the write-behind queue

    A run is any sequence of enqueues, attempts of the drainer against a sink
    that accepts or refuses what it likes, due retries and the drainer's end.
    [Located] says where the newest write of a key is: pending, in the backlog,
    in the sink, or counted as dropped; every step keeps it. *)

From S2P Require Import Prelude WriteQueue.
Import Queue.

Module QueueProofs.

(** ** The answers of a sink *)

Lemma NoDup_key_unique {A B} (f : A → B) (l : list A) x y :
  NoDup (f <$> l) → x ∈ l → y ∈ l → f x = f y → x = y.
Proof.
  intros Hnd [i Hi]%list_elem_of_lookup [j Hj]%list_elem_of_lookup Hf.
  assert (i = j) as ->; [|congruence].
  eapply NoDup_lookup; [done|rewrite list_lookup_fmap, Hi; done|].
  rewrite list_lookup_fmap, Hj. simpl. congruence.
Qed.

Abbreviation answer K W := (K * PendingWrite W * result BackendError ())%type (only parsing).

Section answers.
Context {K W : Type}.
Implicit Types (k : K) (p : PendingWrite W).

Definition is_refused (e : answer K W) : option (K * PendingWrite W) :=
  match e.2 with Err Serialization | Ok _ => None | Err _ => Some e.1 end.

Definition is_dropped (e : answer K W) : option (K * PendingWrite W) :=
  match e.2 with Err Serialization => Some e.1 | _ => None end.

Definition is_applied (e : answer K W) : option (K * PendingWrite W) :=
  match e.2 with Ok _ => Some e.1 | _ => None end.

Lemma elem_of_refused (l : list (answer K W)) k p :
  (k, p) ∈ omap is_refused l ↔ ∃ e, (k, p, Err e) ∈ l ∧ e ≠ Serialization.
Proof.
  rewrite list_elem_of_omap. split.
  - intros ([[k' p'] [|[]]]&?&[= -> ->]); by eexists.
  - intros (e&?&?). exists (k, p, Err e). by destruct e.
Qed.

Lemma elem_of_dropped (l : list (answer K W)) k p :
  (k, p) ∈ omap is_dropped l ↔ (k, p, Err Serialization) ∈ l.
Proof.
  rewrite list_elem_of_omap. split; [|by eexists].
  by intros ([[k' p'] [|[]]]&?&[= -> ->]).
Qed.

Lemma elem_of_applied (l : list (answer K W)) k p :
  (k, p) ∈ omap is_applied l ↔ (k, p, Ok ()) ∈ l.
Proof.
  rewrite list_elem_of_omap. split; [|by eexists].
  by intros ([[k' p'] [[]|[]]]&?&[= -> ->]).
Qed.

Lemma applied_NoDup (l : list (answer K W)) : NoDup (l.*1).*1 → NoDup (omap is_applied l).*1.
Proof.
  induction l as [|[[k p] res] l IH]; [by constructor|]. intros [Hk Hnd]%NoDup_cons.
  destruct res; [|by apply IH]. apply NoDup_cons. split; [|by apply IH].
  intros ([k' p']&Heq&Hin%elem_of_applied)%list_elem_of_fmap. simpl in *. subst k'. apply Hk.
  apply list_elem_of_fmap. exists (k, p'). split; [done|].
  apply list_elem_of_fmap. by exists (k, p', Ok ()).
Qed.

End answers.

(** ** One attempt, key by key *)

Section drain.
Context {K W S : Type} `{Countable K} `{!WriteSink S K W}.
Implicit Types (k : K) (p : PendingWrite W) (q : Queue K W) (d : Drain K W S).

#[local] Ltac fold_omap :=
  repeat match goal with
    |- context [list_omap _ _ ?f ?l] => change (list_omap _ _ f l) with (omap f l) end.

(** What a batch's answers do to the variables of the loop. *)
Lemma settle_fold now (l : list (answer K W)) d n :
  let '(d', n') := foldl (settle now) (d, n) l in
  d_sink d' = d_sink d ∧ d_backlog d' = d_backlog d ∧
  d_refused d' = d_refused d ++ omap is_refused l ∧
  d_dropped d' = d_dropped d ++ omap is_dropped l ∧
  d_applied d' = foldl (λ m e, <[e.1 := (sequence e.2, now)]> m) (d_applied d) (omap is_applied l) ∧
  n' = n + length (omap is_applied l) ∧
  (d_error d' = None ↔ d_error d = None ∧ omap is_refused l = []).
Proof.
  revert d n. induction l as [|[[k p] res] l IH]; intros d n.
  { simpl. rewrite !app_nil_r. repeat split; try done; first [lia|tauto]. }
  simpl. destruct res as [[]|error].
  - specialize (IH (mkDrain (d_sink d) (d_backlog d) (<[k:=(sequence p, now)]> (d_applied d))
      (d_refused d) (d_dropped d) (d_error d)) (Datatypes.S n)).
    destruct (foldl _ _ l). simpl in *. destruct_and!. fold_omap. repeat split; try done; first [lia|tauto].
  - set (d1 := (settle now (d, n) (k, p, Err error)).1).
    assert (settle now (d, n) (k, p, Err error) = (d1, n)) as Hd by (by destruct error).
    specialize (IH d1 n). simpl in Hd. rewrite Hd. destruct (foldl _ _ l).
    destruct IH as (E1&E2&E3&E4&E5&E6&E7). rewrite E1, E2, E3, E4, E5, E6, E7.
    subst d1. destruct error; simpl; fold_omap; rewrite <-?app_assoc; naive_solver.
Qed.

Lemma inserts_other (l : list (K * PendingWrite W)) now k (m : gmap K (N * Z)) :
  k ∉ l.*1 → foldl (λ m e, <[e.1 := (sequence e.2, now)]> m) m l !! k = m !! k.
Proof.
  revert m. induction l as [|[k' p] l IH]; intros m Hk; [done|].
  simpl in *. apply not_elem_of_cons in Hk as [? Hk]. by rewrite IH, lookup_insert_ne.
Qed.

Lemma inserts_in (l : list (K * PendingWrite W)) now k p (m : gmap K (N * Z)) :
  NoDup l.*1 → (k, p) ∈ l →
  foldl (λ m e, <[e.1 := (sequence e.2, now)]> m) m l !! k = Some (sequence p, now).
Proof.
  revert m. induction l as [|[k' p'] l IH]; intros m Hnd Hin; [by apply elem_of_nil in Hin|].
  simpl in *. apply NoDup_cons in Hnd as [Hni Hnd]. apply elem_of_cons in Hin as [[= -> ->]|Hin].
  - by rewrite inserts_other, lookup_insert_eq.
  - by apply IH.
Qed.

Lemma deletes (l : list (K * PendingWrite W)) k (m : gmap K (PendingWrite W)) :
  foldl (λ b e, delete e.1 b) m l !! k = if decide (k ∈ l.*1) then None else m !! k.
Proof.
  revert m. induction l as [|[k' p] l IH]; intros m; [done|]. simpl. rewrite IH.
  destruct (decide (k ∈ l.*1)); [by rewrite decide_True by by right|].
  destruct (decide (k = k')) as [->|].
  - rewrite decide_True by by left. apply lookup_delete_eq.
  - rewrite decide_False by (rewrite elem_of_cons; tauto). by apply lookup_delete_ne.
Qed.

(** Nothing happened to [k] between two states of the loop. *)
Definition kept k d d' : Prop :=
  d_backlog d' !! k = d_backlog d !! k ∧ (∀ p, (k, p) ∈ d_refused d' ↔ (k, p) ∈ d_refused d) ∧
  stored (d_sink d') k = stored (d_sink d) k ∧ d_applied d' !! k = d_applied d !! k.

(** The sink was offered [p] for [k] and answered, no earlier than [from]. *)
Definition answered (from : Z) k p d d' : Prop :=
  d_backlog d !! k = Some p ∧ d_backlog d' !! k = None ∧
  (((∀ p', (k, p') ∈ d_refused d' ↔ p' = p ∨ (k, p') ∈ d_refused d) ∧
    d_applied d' !! k = d_applied d !! k) ∨
   (∀ p', (k, p') ∈ d_refused d' ↔ (k, p') ∈ d_refused d) ∧
   (stored (d_sink d') k = Some (write p) ∧
      (∃ at_, (from ≤ at_)%Z ∧ d_applied d' !! k = Some (sequence p, at_)) ∨
    (k, p) ∈ d_dropped d' ∧ d_applied d' !! k = d_applied d !! k)).

Definition fate (from : Z) k d d' : Prop :=
  d_dropped d ⊆ d_dropped d' ∧ (kept k d d' ∨ ∃ p, answered from k p d d').

Lemma fate_trans from k d1 d2 d3 : fate from k d1 d2 → fate from k d2 d3 → fate from k d1 d3.
Proof.
  unfold fate, kept, answered. intros [Hd1 [(E1&E2&E3&E4)|(p&E1&E2&E3)]] [Hd2 [(F1&F2&F3&F4)|(p'&F1&F2&F3)]];
    (split; [by etrans|]); try congruence.
  - left. split_and!; [congruence|intros; by rewrite F2, E2|congruence|congruence].
  - right. exists p'. split_and!; [congruence|done|]. destruct F3 as [[F3 F4]|[F3 F4]].
    + left. split; [|congruence]. intros. by rewrite F3, E2.
    + right. rewrite <-E4. split; [|done]. intros. by rewrite F3, E2.
  - right. exists p. split_and!; [done|congruence|]. rewrite F3, F4.
    destruct E3 as [[E3 E4]|[E3 E4]]; [left|right]; (split; [|try done]).
    + intros. by rewrite F2, E3.
    + intros. by rewrite F2, E3.
    + destruct E4 as [?|[??]]; [by left|right; split; [by apply Hd2|done]].
Qed.

(** A batch is keyed by distinct keys of the backlog, one answer for each. *)
Lemma batch_keys d :
  NoDup (take WRITE_CONCURRENCY (map_to_list (d_backlog d))).*1.
Proof. rewrite fmap_take. eapply sublist_NoDup, sublist_take. apply NoDup_fst_map_to_list. Qed.

Lemma batch_elem d k p :
  (k, p) ∈ take WRITE_CONCURRENCY (map_to_list (d_backlog d)) → d_backlog d !! k = Some p.
Proof. intros (i&Hi&_)%elem_of_take. apply elem_of_map_to_list, list_elem_of_lookup. by exists i. Qed.

Lemma resize_answer n (l : list (result BackendError ())) i :
  resize n (Err Query) l !! i = Some (Ok ()) → l !! i = Some (Ok ()).
Proof.
  intros Hi. destruct (decide (i < n)); [|by rewrite lookup_resize_old in Hi by lia].
  destruct (decide (i < length l)); [by rewrite lookup_resize in Hi|].
  by rewrite lookup_resize_new in Hi by lia.
Qed.

Section batch.
Context (now : Z) (d : Drain K W S).

Let batch := take WRITE_CONCURRENCY (map_to_list (d_backlog d)).
Let offered := (λ e : K * PendingWrite W, (e.1, write e.2)) <$> batch.
Let answers := zip batch (resize (length batch) (Err Query) (apply_batch (d_sink d) offered).2).

#[local] Lemma answers_fst : answers.*1 = batch.
Proof. apply fst_zip. by rewrite length_resize. Qed.

#[local] Lemma offered_fst : offered.*1 = batch.*1.
Proof. unfold offered. rewrite <-list_fmap_compose. by apply list_fmap_ext. Qed.

(** The state after a batch. *)
Lemma drain_batch_eq :
  let d' := (drain_batch now d).1 in
  d_sink d' = (apply_batch (d_sink d) offered).1 ∧
  (∀ k, d_backlog d' !! k = if decide (k ∈ batch.*1) then None else d_backlog d !! k) ∧
  d_refused d' = d_refused d ++ omap is_refused answers ∧
  d_dropped d' = d_dropped d ++ omap is_dropped answers ∧
  d_applied d' =
    foldl (λ m e, <[e.1 := (sequence e.2, now)]> m) (d_applied d) (omap is_applied answers) ∧
  (d_error d' = None ↔ d_error d = None ∧ omap is_refused answers = []) ∧
  ((drain_batch now d).2 = false → d_error d' ≠ None).
Proof.
  unfold drain_batch. fold batch offered. unfold answers.
  destruct (apply_batch _ _) as [sink results]. simpl.
  match goal with |- context [foldl _ (?d0, 0) ?l] => pose proof (settle_fold now l d0 0) as Hf end.
  destruct (foldl _ _ _) as [d' n']. simpl in *. destruct Hf as (F1&F2&F3&F4&F5&_&F6).
  rewrite F2. split_and!; try done; [intros; apply deletes|].
  intros [_ Hb%bool_decide_eq_true]%negb_false_iff%andb_true_iff. done.
Qed.

Lemma batch_kept k : k ∉ batch.*1 → kept k d (drain_batch now d).1.
Proof.
  intros Hk. destruct drain_batch_eq as (E1&E2&E3&_&E4&_&_).
  assert (∀ p r, (k, p, r) ∉ answers) as Hno.
  { intros p r Hin. apply Hk. rewrite <-answers_fst. apply list_elem_of_fmap. exists (k, p).
    split; [done|]. apply list_elem_of_fmap. by exists (k, p, r). }
  split_and!.
  - by rewrite E2, decide_False.
  - intros p. rewrite E3, elem_of_app, elem_of_refused.
    split; [intros [?|(e&?&_)]; [done|by edestruct Hno]|by left].
  - rewrite E1. apply apply_other. by rewrite offered_fst.
  - rewrite E4. apply inserts_other. intros ([k' p]&Heq&Hin%elem_of_applied)%list_elem_of_fmap.
    simpl in *. subst k'. by eapply Hno.
Qed.

(** The answer to one write of the batch, and no other for its key. *)
#[local] Lemma batch_answer k p :
  (k, p) ∈ batch →
  ∃ i r, batch !! i = Some (k, p) ∧ answers !! i = Some (k, p, r) ∧
    ∀ p' r', (k, p', r') ∈ answers ↔ p' = p ∧ r' = r.
Proof.
  intros [i Hi]%list_elem_of_lookup.
  assert (NoDup (answers.*1).*1) as Hnd by (rewrite answers_fst; apply batch_keys).
  destruct (lookup_lt_is_Some_2 answers i) as [[kp r] Hr].
  { rewrite <-(length_fmap fst), answers_fst. by eapply lookup_lt_Some. }
  assert (kp = (k, p)) as -> by (apply lookup_zip_Some in Hr as [Hb _]; congruence).
  exists i, r. split_and!; [done..|]. intros p' r'.
  apply list_elem_of_lookup_2 in Hr. rewrite <-list_fmap_compose in Hnd. split; [|by intros [-> ->]].
  intros Hin. pose proof (NoDup_key_unique _ _ _ _ Hnd Hin Hr eq_refl). by simplify_eq.
Qed.

Lemma batch_answered k p : (k, p) ∈ batch → answered now k p d (drain_batch now d).1.
Proof.
  intros Hin. destruct drain_batch_eq as (E1&E2&E3&E5&E4&_&_).
  destruct (batch_answer k p Hin) as (i&r&Hi&Hr&Huniq).
  split_and!; [by apply batch_elem|rewrite E2, decide_True; [done|]|].
  { apply list_elem_of_fmap. by exists (k, p). }
  assert (∀ p', (k, p') ∈ d_refused (drain_batch now d).1 ↔
    (k, p') ∈ d_refused d ∨ ∃ e, (p' = p ∧ Err e = r) ∧ e ≠ Serialization) as Href.
  { intros. rewrite E3, elem_of_app, elem_of_refused. by setoid_rewrite Huniq. }
  destruct r as [[]|e].
  - right. split; [intros; rewrite Href; split; [by intros [?|(?&[??]&?)]|by left]|left]. split.
    + rewrite E1. apply (apply_ok _ _ i); [rewrite offered_fst; apply batch_keys| |].
      * unfold offered. by rewrite list_lookup_fmap, Hi.
      * apply (resize_answer (length batch)). by apply lookup_zip_Some in Hr as [_ ?].
    + exists now. split; [done|]. rewrite E4. apply inserts_in; [apply applied_NoDup; rewrite answers_fst; apply batch_keys|].
      by apply elem_of_applied, Huniq.
  - assert (d_applied (drain_batch now d).1 !! k = d_applied d !! k).
    { rewrite E4. apply inserts_other.
      intros ([k' p']&Heq&Hin'%elem_of_applied)%list_elem_of_fmap. simpl in *. subst k'.
      by apply Huniq in Hin' as [_ ?]. }
    destruct (decide (e = Serialization)) as [->|He]; [right|left]; (split; [|try done]).
    + intros; rewrite Href; split; [by intros [?|(?&[? [= ->]]&?)]|by left].
    + right. split; [|done]. rewrite E5. apply elem_of_app. right. by apply elem_of_dropped, Huniq.
    + intros. rewrite Href. split; [intros [?|(?&[? _]&_)]; by auto|].
      intros [->|?]; [right; by exists e|by left].
Qed.

End batch.

Lemma drain_batch_key now d k : fate now k d (drain_batch now d).1.
Proof.
  split.
  - destruct (drain_batch_eq now d) as (_&_&_&->&_). by apply list_subseteq_app_l.
  - destruct (decide (k ∈ (take WRITE_CONCURRENCY (map_to_list (d_backlog d))).*1)) as [Hk|Hk].
    + right. apply list_elem_of_fmap in Hk as ([k' p]&->&Hk). exists p. by apply batch_answered.
    + left. by apply batch_kept.
Qed.

Lemma fate_refl from k d : fate from k d d.
Proof. split; [done|]. by left. Qed.

Lemma fate_from from from' k d d' : (from' ≤ from)%Z → fate from k d d' → fate from' k d d'.
Proof.
  intros Hle [Hd [Hk|(p&H1&H2&[H3|(H3&[(H4&at_&?&H5)|H4])])]]; (split; [done|]); [by left|..];
    right; exists p; (split_and!; [done..|]); [by left|right; split; [done|left]|right; by auto].
  split; [done|]. exists at_. split; [lia|done].
Qed.

Lemma drain_loop_key from fuel (clock : nat → Z) d k :
  (∀ i, from ≤ clock i)%Z → fate from k d (drain_loop fuel clock d).
Proof.
  revert clock d. induction fuel as [|fuel IH]; intros clock d Hc; [apply fate_refl|]. simpl.
  case_decide; [apply fate_refl|].
  pose proof (fate_from _ _ k _ _ (Hc 0) (drain_batch_key (clock 0) d k)) as Hb.
  destruct (drain_batch (clock 0) d) as [d' []]; [|done]. eapply fate_trans; [done|]. by apply IH.
Qed.

(** A batch takes something out of a backlog that is not empty. *)
Lemma drain_batch_size now d :
  d_backlog d ≠ ∅ → size (d_backlog (drain_batch now d).1) < size (d_backlog d).
Proof.
  intros Hne. destruct (drain_batch_eq now d) as (_&Hb&_).
  destruct (map_to_list (d_backlog d)) as [|[k p] l] eqn:Hl; [by apply map_to_list_empty_iff in Hl|].
  assert (d_backlog d !! k = Some p) as Hk by (apply elem_of_map_to_list; rewrite Hl; by left).
  apply (Nat.le_lt_trans _ (size (delete k (d_backlog d)))).
  - apply map_subseteq_size, map_subseteq_spec. intros k' p'. rewrite Hb. case_decide as Hin; [done|].
    rewrite lookup_delete_ne; [done|]. intros <-. apply Hin. by left.
  - rewrite map_size_delete_Some by by eexists. apply Nat.lt_pred_l.
    intros Hz%map_size_empty_inv. set_solver.
Qed.

(** The loop ends with the backlog or on an error; the fuel is enough. *)
Lemma drain_loop_end fuel clock d :
  size (d_backlog d) ≤ fuel → (d_error d = None → d_refused d = []) →
  let d' := drain_loop fuel clock d in
  d_error d' = None → d_backlog d' = ∅ ∧ d_refused d' = [].
Proof.
  revert clock d. induction fuel as [|fuel IH]; intros clock d Hs Hr; simpl.
  { intros He. split; [apply map_size_empty_inv; lia|by apply Hr]. }
  case_decide as Hb; [by auto|]. pose proof (drain_batch_size (clock 0) d Hb).
  destruct (drain_batch_eq (clock 0) d) as (_&_&E3&_&_&E6&E7).
  destruct (drain_batch (clock 0) d) as [d' again]. simpl in *.
  destruct again; [|intros; by destruct E7]. apply IH; [lia|].
  intros [He Ho]%E6. by rewrite E3, Hr, Ho.
Qed.

Lemma extend_other (l : list (K * PendingWrite W)) k (m : gmap K (PendingWrite W)) :
  (∀ p, (k, p) ∉ l) → foldl (λ b e, <[e.1 := e.2]> b) m l !! k = m !! k.
Proof.
  revert m. induction l as [|[k' p'] l IH]; intros m Hk; [done|]. simpl. rewrite IH.
  - apply lookup_insert_ne. intros ->. apply (Hk p'). by left.
  - intros p Hp. apply (Hk p). by right.
Qed.

Lemma extend_in (l : list (K * PendingWrite W)) k p (m : gmap K (PendingWrite W)) :
  (∀ p', (k, p') ∈ l → p' = p) → (k, p) ∈ l ∨ m !! k = Some p →
  foldl (λ b e, <[e.1 := e.2]> b) m l !! k = Some p.
Proof.
  revert m. induction l as [|[k' p'] l IH]; intros m Hl [Hin|Hm].
  - by apply elem_of_nil in Hin.
  - done.
  - simpl. apply IH; [intros; apply Hl; by right|].
    apply elem_of_cons in Hin as [[= -> ->]|?]; [right; apply lookup_insert_eq|by left].
  - simpl. apply IH; [intros; apply Hl; by right|right].
    destruct (decide (k = k')) as [->|]; [|by rewrite lookup_insert_ne].
    rewrite lookup_insert_eq. f_equal. apply Hl. by left.
Qed.

(** What a flush did to a key of the backlog it started with. *)
Lemma flush_backlog_key from clock s q k :
  (∀ i, from ≤ clock i)%Z →
  let '(s', q', _) := flush_backlog clock s q in
  pending q' = pending q ∧ dropped q ⊆ dropped q' ∧
  match backlog q !! k with
  | None => backlog q' !! k = None ∧ stored s' k = stored s k ∧ applied q' !! k = applied q !! k
  | Some p =>
      backlog q' !! k = Some p ∧ applied q' !! k = applied q !! k ∨
      backlog q' !! k = None ∧
      (stored s' k = Some (write p) ∧
         (∃ at_, (from ≤ at_)%Z ∧ applied q' !! k = Some (sequence p, at_)) ∨
       (k, p) ∈ dropped q' ∧ applied q' !! k = applied q !! k)
  end.
Proof.
  intros Hc. unfold flush_backlog. set (d0 := mkDrain s (backlog q) (applied q) [] [] None).
  pose proof (drain_loop_key from (size (backlog q)) clock d0 k Hc) as [_ Hf].
  set (d := drain_loop _ _ _) in *. simpl. split_and!; [done|by apply list_subseteq_app_l|].
  destruct Hf as [(E1&E2&E3&E4)|(p&E1&E2&E3)]; simpl in *.
  - rewrite extend_other, E1 by (intros p Hp%E2; by apply elem_of_nil in Hp).
    destruct (backlog q !! k); [by left|done].
  - rewrite E1. destruct E3 as [[E3 E4]|[E3 E4]].
    + left. split; [|done].
      apply extend_in; [intros p' [->|Hp]%E3; [done|by apply elem_of_nil in Hp]|left; apply E3; by left].
    + right. rewrite extend_other, E2 by (intros p' Hp%E3; by apply elem_of_nil in Hp).
      split; [done|]. destruct E4 as [?|[??]]; [by left|right; split; [|done]].
      apply elem_of_app. by right.
Qed.

(** A flush that reports no error leaves nothing. *)
Lemma flush_backlog_done clock s q :
  let '(_, q', error) := flush_backlog clock s q in error = None → backlog q' = ∅.
Proof.
  unfold flush_backlog. simpl. intros He.
  destruct (drain_loop_end (size (backlog q)) clock (mkDrain s (backlog q) (applied q) [] [] None))
    as [Hb Hr]; try done.
  by rewrite Hb, Hr.
Qed.

(** An enqueue in the middle of a flush commutes with the rest of it. *)
Lemma flush_insert_pending clock s k p q :
  flush_backlog clock s (insert_pending k p q) =
  let '(s', q', e) := flush_backlog clock s q in (s', insert_pending k p q', e).
Proof. done. Qed.

(** [absorb], key by key. *)
Lemma absorb_fold (m : gmap K (N * Z)) (l : list (K * PendingWrite W)) (b : gmap K (PendingWrite W)) k :
  NoDup l.*1 →
  foldl (λ b e,
    match m !! e.1 with
    | Some (n, _) => if (sequence e.2 <? n)%N then b else <[e.1 := supersede (b !! e.1) e.2]> b
    | None => <[e.1 := supersede (b !! e.1) e.2]> b
    end) b l !! k =
  match (list_to_map l : gmap K (PendingWrite W)) !! k with
  | Some p =>
      match m !! k with
      | Some (n, _) => if (sequence p <? n)%N then b !! k else Some (supersede (b !! k) p)
      | None => Some (supersede (b !! k) p)
      end
  | None => b !! k
  end.
Proof.
  revert b. induction l as [|[k' p] l IH]; intros b Hnd; [by simpl; rewrite lookup_empty|].
  apply NoDup_cons in Hnd as [Hk' Hnd]. simpl in *. rewrite IH by done.
  destruct (decide (k = k')) as [->|Hne].
  - rewrite lookup_insert_eq, (not_elem_of_list_to_map_1 _ _ Hk').
    destruct (m !! k') as [[n ?]|]; [destruct (_ <? _)%N|]; by rewrite ?lookup_insert_eq.
  - rewrite lookup_insert_ne by done.
    assert (∀ x, <[k':=x]> b !! k = b !! k) as Hb by (intros; by apply lookup_insert_ne).
    destruct (m !! k') as [[n ?]|]; [destruct (_ <? _)%N|]; by rewrite ?Hb.
Qed.

Lemma absorb_key now q k :
  backlog (absorb now q) !! k =
  match pending q !! k with
  | Some p =>
      match remembered now q !! k with
      | Some (n, _) =>
          if (sequence p <? n)%N then backlog q !! k else Some (supersede (backlog q !! k) p)
      | None => Some (supersede (backlog q !! k) p)
      end
  | None => backlog q !! k
  end.
Proof.
  simpl. rewrite absorb_fold by apply NoDup_fst_map_to_list. by rewrite list_to_map_to_list.
Qed.

Lemma remembered_applied now q k x : remembered now q !! k = Some x → applied q !! k = Some x.
Proof. unfold remembered. destruct (_ <=? _)%Z; [by intros [? _]%map_lookup_filter_Some|done]. Qed.

(** ** Where the newest write of a key is *)

(** [newest] is the newest write handed to the queue for each key: the one with
    the highest sequence, the last to arrive of two with the same. *)
Implicit Types (newest : gmap K (PendingWrite W)).

(** How late an older write may be taken up and still be told from a new one,
    in nanoseconds: the five seconds of the source's documentation. *)
Definition LATENESS : Z := 5000000000.

(** [tried] gives for each key the start of the last attempt that found its
    newest write waiting.  An older write that is taken up when that write waits
    no more is taken up within [LATENESS] of it. *)
Definition timely (now : Z) (tried : K → Z) q newest : Prop :=
  ∀ k p pn, pending q !! k = Some p → newest !! k = Some pn → (sequence p < sequence pn)%N →
    backlog q !! k ≠ Some pn → (now - tried k < LATENESS)%Z.

(** The newest write of [k] waits. *)
Definition waiting q newest k : bool :=
  match newest !! k with
  | Some pn => match pending q !! k with
               | Some p => (sequence pn <=? sequence p)%N
               | None => false
               end || match backlog q !! k with
                      | Some p => (sequence pn <=? sequence p)%N
                      | None => false
                      end
  | None => false
  end.

(** [tried] after an attempt that starts at [now]. *)
Definition try_at (now : Z) q newest (tried : K → Z) : K → Z := λ k,
  if waiting q newest k then now else tried k.

(** What the environment does: clocks do not run backwards, and late writes are
    [timely].  [t] is the start of the last attempt. *)
Inductive reached : Z → (K → Z) → S → Queue K W → gmap K (PendingWrite W) → Prop :=
  | reached_queue s now : reached now (λ _, now) s (queue now) ∅
  (* the sink goes away or comes back *)
  | reached_sink t tried s s' q newest :
      reached t tried s q newest → (∀ k, stored s' k = stored s k) → reached t tried s' q newest
  | reached_enqueue t tried s q newest k p :
      reached t tried s q newest →
      reached t tried s (enqueue k p q) (<[k := supersede (newest !! k) p]> newest)
  (* an enqueue that looked before the drainer closed the queue *)
  | reached_insert t tried s q newest k p :
      reached t tried s q newest →
      reached t tried s (insert_pending k p q) (<[k := supersede (newest !! k) p]> newest)
  | reached_attempt t tried s q newest (clock : nat → Z) now :
      reached t tried s q newest → retry_at q = None →
      (t ≤ clock 0%nat)%Z → (∀ i, clock 0%nat ≤ clock i)%Z → timely (clock 0) tried q newest →
      reached (clock 0) (try_at (clock 0) q newest tried)
        (attempt clock now s q).1 (attempt clock now s q).2 newest
  (* an attempt while a retry is scheduled *)
  | reached_backing_off t tried s q newest clock now :
      reached t tried s q newest → retry_at q ≠ None →
      reached t tried (attempt clock now s q).1 (attempt clock now s q).2 newest
  | reached_retry t tried s q newest :
      reached t tried s q newest → reached t tried s (retry_due q) newest
  | reached_stop t tried s q newest :
      reached t tried s q newest → reached t tried s (stop q) newest.

(** No sequence the queue knows of is above the newest. *)
Definition Below q newest k : Prop :=
  (∀ p, pending q !! k = Some p ∨ backlog q !! k = Some p →
     ∃ pn, newest !! k = Some pn ∧ (sequence p ≤ sequence pn)%N) ∧
  (∀ n at_, applied q !! k = Some (n, at_) → ∃ pn, newest !! k = Some pn ∧ (n ≤ sequence pn)%N).

(** What is known of the sequence of a write the sink took: it is remembered, as
    applied no earlier than the attempt, or that was [LATENESS] ago. *)
Definition Memory (t since : Z) q k (pn : PendingWrite W) : Prop :=
  match applied q !! k with
  | Some (n, at_) => n = sequence pn ∧ (since ≤ at_)%Z
  | None => (since + LATENESS ≤ t)%Z
  end.

Definition Located t since s q k (pn : PendingWrite W) : Prop :=
  pending q !! k = Some pn ∨
  (∀ p, pending q !! k = Some p → (sequence p < sequence pn)%N) ∧
  (backlog q !! k = Some pn ∨
   backlog q !! k = None ∧ stored s k = Some (write pn) ∧ Memory t since q k pn) ∨
  (k, pn) ∈ dropped q.

Definition QInv t (tried : K → Z) s q newest : Prop :=
  ∀ k, Below q newest k ∧ ∀ pn, newest !! k = Some pn → Located t (tried k) s q k pn.

Lemma supersede_below (h : option (PendingWrite W)) p :
  (sequence p ≤ sequence (supersede h p))%N.
Proof. destruct h as [h|]; simpl; [destruct (N.leb_spec (sequence h) (sequence p))|]; lia. Qed.

Lemma supersede_held (h : PendingWrite W) p :
  (sequence h ≤ sequence (supersede (Some h) p))%N.
Proof. simpl. destruct (N.leb_spec (sequence h) (sequence p)); lia. Qed.

Lemma supersede_le (h : option (PendingWrite W)) p :
  (∀ h', h = Some h' → (sequence h' ≤ sequence p)%N) → supersede h p = p.
Proof. destruct h as [h|]; [|done]. intros Hh. simpl. by rewrite (proj2 (N.leb_le _ _) (Hh _ eq_refl)). Qed.

Lemma supersede_gt (h p : PendingWrite W) :
  (sequence p < sequence h)%N → supersede (Some h) p = h.
Proof. intros Hh. simpl. by rewrite (proj2 (N.leb_gt _ _) Hh). Qed.

(** The newest write after an arrival: the one that arrived or the one before. *)
Lemma newest_arrival newest k p :
  (supersede (newest !! k) p = p ∧ ∀ pn, newest !! k = Some pn → (sequence pn ≤ sequence p)%N) ∨
  (∃ pn, newest !! k = Some pn ∧ supersede (newest !! k) p = pn ∧ (sequence p < sequence pn)%N).
Proof.
  destruct (newest !! k) as [pn|]; [|by left]. simpl.
  destruct (N.leb_spec (sequence pn) (sequence p)).
  - left. split; [done|]. by intros ? [= <-].
  - right. by exists pn.
Qed.

Lemma Below_arrival q newest k k' p :
  Below q newest k → Below q (<[k' := supersede (newest !! k') p]> newest) k.
Proof.
  intros [Hq Ha]. destruct (decide (k = k')) as [->|]; [|by unfold Below; rewrite lookup_insert_ne].
  split.
  - intros p' (pn&Hn&?)%Hq. rewrite lookup_insert_eq, Hn. eexists. split; [done|].
    pose proof (supersede_held pn p). lia.
  - intros n at_ (pn&Hn&?)%Ha. rewrite lookup_insert_eq, Hn. eexists. split; [done|].
    pose proof (supersede_held pn p). lia.
Qed.

Lemma insert_pending_inv t tried s q newest k p :
  QInv t tried s q newest → QInv t tried s (insert_pending k p q) (<[k := supersede (newest !! k) p]> newest).
Proof.
  intros Hinv k'. destruct (Hinv k') as [Hb Hl]. pose proof (Below_arrival _ _ _ k p Hb) as Hb'.
  destruct (decide (k' = k)) as [->|Hne].
  2: { rewrite (lookup_insert_ne newest) by done. split.
    - destruct Hb' as [Hq Ha]. split; [|done]. simpl. intros p'. rewrite lookup_insert_ne by done. apply Hq.
    - intros pn Hn. unfold Located. simpl. rewrite lookup_insert_ne by done. by apply Hl. }
  destruct Hb' as [Hq Ha]. split; [split; [|done]|].
  - simpl. intros p' [Hp|Hp]; [|apply Hq; by right]. rewrite lookup_insert_eq in Hp. simplify_eq.
    rewrite lookup_insert_eq. eexists. split; [done|].
    destruct (pending q !! k) as [h|] eqn:Hh; [|apply supersede_below].
    simpl. destruct (sequence h <=? sequence p)%N; [apply supersede_below|].
    destruct (Hq h) as (pn&Hn&?); [by left|]. rewrite lookup_insert_eq in Hn. by simplify_eq.
  - intros pn'. rewrite lookup_insert_eq. intros [= <-].
    destruct (newest_arrival newest k p) as [[-> Hle]|(pn&Hn&->&Hlt)].
    + left. simpl. rewrite lookup_insert_eq. f_equal. apply supersede_le. intros h Hh.
      destruct Hb as [Hq' _]. destruct (Hq' h) as (pn&Hn&?); [by left|]. specialize (Hle _ Hn). lia.
    + destruct (Hl _ Hn) as [Hp|[[Hp Hr]|Hd]]; [left|right; left|by right; right].
      * simpl. by rewrite lookup_insert_eq, Hp, supersede_gt.
      * split; [|done]. simpl. intros p'. rewrite lookup_insert_eq. intros [= <-].
        destruct (pending q !! k) as [h|]; [|done]. simpl.
        destruct (sequence h <=? sequence p)%N; [done|by apply Hp].
Qed.

Lemma enqueue_inv t tried s q newest k p :
  QInv t tried s q newest → QInv t tried s (enqueue k p q) (<[k := supersede (newest !! k) p]> newest).
Proof.
  unfold enqueue. destruct (closed q); [|apply insert_pending_inv].
  intros Hinv k'. destruct (Hinv k') as [Hb Hl]. split; [by apply Below_arrival|].
  assert (∀ pn, Located t (tried k') s q k' pn → Located t (tried k') s (mkQueue (pending q) true (backlog q) (applied q)
    (pruned_at q) (backoff q) (retry_at q) (dropped q ++ [(k, p)])) k' pn) as Hmono.
  { intros pn [?|[?|?]]; [by left|by right; left|right; right]. apply elem_of_app. by left. }
  intros pn'. destruct (decide (k' = k)) as [->|Hne]; [|rewrite lookup_insert_ne by done; by auto].
  rewrite lookup_insert_eq. intros [= <-].
  destruct (newest_arrival newest k p) as [[-> _]|(pn&Hn&->&_)]; [|by auto].
  right; right. apply elem_of_app. right. by left.
Qed.

Lemma stop_inv t tried s q newest : QInv t tried s q newest → QInv t tried s (stop q) newest.
Proof.
  intros Hinv k. destruct (Hinv k) as [[Hq Ha] Hl]. split; [split; [|done]|].
  - intros p. simpl. by rewrite lookup_empty; intros [?|?].
  - intros pn Hn. unfold Located. simpl. rewrite !elem_of_app, !elem_of_map_to_list, lookup_empty.
    destruct (Hl pn Hn) as [Hp|[[Hp [Hb|(Hb&Hs&Hm)]]|Hd]]; [by right; right; auto..| |by auto].
    right. left. split; [done|]. by right.
Qed.

Lemma absorb_below now q newest k : Below q newest k → Below (absorb now q) newest k.
Proof.
  intros [Hq Ha]. split; [|intros n at_ Hm%remembered_applied; by eapply Ha].
  intros p. rewrite absorb_key. intros [Hp|Hp]; [by simpl in Hp; rewrite lookup_empty in Hp|].
  assert (∀ p', pending q !! k = Some p' → Some (supersede (backlog q !! k) p') = Some p →
    ∃ pn, newest !! k = Some pn ∧ (sequence p ≤ sequence pn)%N) as Hs.
  { intros p' Hp' [= <-]. destruct (backlog q !! k) as [h|] eqn:Hh; simpl; [|by apply Hq; left].
    destruct (_ <=? _)%N; apply Hq; [by left|by right]. }
  destruct (pending q !! k) as [p'|] eqn:Hp'; [|by apply Hq; right].
  destruct (remembered now q !! k) as [[n at_]|]; [|by eapply Hs].
  destruct (_ <? _)%N; [by apply Hq; right|by eapply Hs].
Qed.

(** A sequence applied within [LATENESS] is remembered. *)
Lemma remembered_kept now q k n at_ :
  applied q !! k = Some (n, at_) → (now - at_ < LATENESS)%Z → remembered now q !! k = Some (n, at_).
Proof.
  intros Ha Hat. unfold remembered. destruct (_ <=? _)%Z; [|done].
  by apply map_lookup_filter_Some.
Qed.

Lemma Memory_absorb t since now q k pn :
  (t ≤ now)%Z → Memory t since q k pn → Memory now since (absorb now q) k pn.
Proof.
  unfold Memory. cbn [applied absorb]. intros Ht Hm.
  destruct (remembered now q !! k) as [[n at_]|] eqn:Hr; [by apply remembered_applied in Hr; rewrite Hr in Hm|].
  destruct (applied q !! k) as [[n at_]|] eqn:Ha; [|lia]. destruct Hm as [_ Hm].
  destruct (decide (now - at_ < LATENESS)%Z) as [Hl|]; [|lia].
  by rewrite (remembered_kept _ _ _ _ _ Ha Hl) in Hr.
Qed.

(** A write taken up in time meets the sequence that makes it stale. *)
Lemma Memory_timely t since now q k pn :
  (t ≤ now)%Z → (now - since < LATENESS)%Z → Memory t since q k pn →
  ∃ at_, remembered now q !! k = Some (sequence pn, at_).
Proof.
  unfold Memory. intros Ht Hn. destruct (applied q !! k) as [[n at_]|] eqn:Ha; [|lia].
  intros [-> ?]. exists at_. apply remembered_kept; [done|lia].
Qed.

Lemma waiting_stored q newest k pn :
  newest !! k = Some pn → (∀ p, pending q !! k = Some p → (sequence p < sequence pn)%N) →
  backlog q !! k = None → waiting q newest k = false.
Proof.
  intros Hn Hp Hb. unfold waiting. rewrite Hn, Hb, orb_false_r.
  destruct (pending q !! k) as [p|]; [|done]. by apply N.leb_gt, Hp.
Qed.

Lemma absorb_inv now t tried s q newest :
  (t ≤ now)%Z → timely now tried q newest → QInv t tried s q newest →
  QInv now (try_at now q newest tried) s (absorb now q) newest.
Proof.
  intros Ht Htime Hinv k. destruct (Hinv k) as [Hb Hl]. split; [by apply absorb_below|].
  intros pn Hn. destruct Hb as [Hq Ha].
  assert (∀ p, pending (absorb now q) !! k = Some p → (sequence p < sequence pn)%N)
    by (intros p; simpl; by rewrite lookup_empty).
  destruct (Hl pn Hn) as [Hp|[[Hp Hr]|Hd]]; [|right; left; split; [done|]|by right; right].
  - right; left. split; [done|left]. rewrite absorb_key, Hp.
    assert (supersede (backlog q !! k) pn = pn) as ->.
    { apply supersede_le. intros h Hh. destruct (Hq h) as (pn'&?&?); [by right|]. by simplify_eq. }
    destruct (remembered now q !! k) as [[n at_]|] eqn:Hm; [|done].
    apply remembered_applied in Hm. destruct (Ha n at_ Hm) as (pn'&?&?). simplify_eq.
    by rewrite (proj2 (N.ltb_ge _ _)).
  - rewrite absorb_key. destruct Hr as [Hr|(Hr&Hs&Hm)]; [left|right].
    + rewrite Hr. destruct (pending q !! k) as [p|]; [|done]. rewrite supersede_gt by by apply Hp.
      destruct (remembered now q !! k) as [[n ?]|]; [|done]. by destruct (_ <? _)%N.
    + unfold try_at. rewrite (waiting_stored _ _ _ _ Hn Hp Hr).
      split_and!; [|done|by eapply Memory_absorb].
      destruct (pending q !! k) as [p|] eqn:Hpk; [|done]. specialize (Hp p eq_refl).
      assert (now - tried k < LATENESS)%Z as Hin by (eapply Htime; [done..|by rewrite Hr]).
      destruct (Memory_timely _ _ _ _ _ _ Ht Hin Hm) as [at_ ->]. by rewrite (proj2 (N.ltb_lt _ _) Hp).
Qed.

Lemma flush_backlog_inv t tried clock s q newest :
  (∀ i, t ≤ clock i)%Z → (∀ k, tried k ≤ t)%Z → QInv t tried s q newest →
  QInv t tried (flush_backlog clock s q).1.1 (flush_backlog clock s q).1.2 newest.
Proof.
  intros Hc Ht Hinv k. destruct (Hinv k) as [[Hq Ha] Hl].
  pose proof (flush_backlog_key t clock s q k Hc) as Hf.
  destruct (flush_backlog clock s q) as [[s' q'] e]. simpl. destruct Hf as (Hp&Hd&Hk).
  split; [split|].
  - intros p. rewrite Hp. intros [?|Hb]; [apply Hq; by left|].
    destruct (backlog q !! k) as [p'|] eqn:Hbk; [|by destruct Hk as [? _]; simplify_eq].
    destruct Hk as [[? _]|[? _]]; simplify_eq. apply Hq. by right.
  - intros n at_ Hn. destruct (backlog q !! k) as [p'|] eqn:Hbk.
    + destruct Hk as [[_ He]|[_ [(_&at'&_&He)|[_ He]]]]; rewrite He in Hn; [by eapply Ha| |by eapply Ha].
      simplify_eq. apply Hq. by right.
    + destruct Hk as (_&_&He). rewrite He in Hn. by eapply Ha.
  - intros pn Hn. unfold Located, Memory. rewrite Hp.
    destruct (Hl pn Hn) as [?|[[Hlt [Hb|(Hb&Hs&Hm)]]|?]]; [by left|right|right; left|right; right; by apply Hd].
    + rewrite Hb in Hk. destruct Hk as [[He _]|(He&[(Hs&at'&?&Hm)|[Hdr _]])]; [left|left|by right].
      * split; [done|by left].
      * split; [done|right]. rewrite Hm. split_and!; [done..|]. specialize (Ht k). lia.
    + rewrite Hb in Hk. destruct Hk as (He&Hst&Hap). split; [done|right].
      rewrite Hap. split_and!; [done|congruence|done].
Qed.

(** [attempt] changes what an absorb and a flush do, and the retry's timers. *)
Lemma attempt_eq clock now s q :
  retry_at q = None →
  let '(s', q', e) := flush clock s q in
  attempt clock now s q =
  (s', mkQueue (pending q') (closed q') (backlog q') (applied q') (pruned_at q')
         (match e with None => INITIAL_BACKOFF | Some _ => Z.min (backoff q' * 2) MAX_BACKOFF end)
         (match e with None => retry_at q' | Some _ => Some (now + backoff q')%Z end) (dropped q')).
Proof.
  intros Hr. unfold attempt. rewrite decide_False by (intros ?; done).
  by destruct (flush clock s q) as [[s' q'] []].
Qed.

Lemma try_at_le t now q newest tried k :
  (t ≤ now)%Z → (∀ k, tried k ≤ t)%Z → (try_at now q newest tried k ≤ now)%Z.
Proof. intros Ht Htr. unfold try_at. destruct (waiting _ _ _); [lia|]. specialize (Htr k). lia. Qed.

Lemma attempt_inv t tried (clock : nat → Z) now s q newest :
  retry_at q = None → (t ≤ clock 0%nat)%Z → (∀ i, clock 0%nat ≤ clock i)%Z → (∀ k, tried k ≤ t)%Z →
  timely (clock 0) tried q newest → QInv t tried s q newest →
  QInv (clock 0) (try_at (clock 0) q newest tried)
    (attempt clock now s q).1 (attempt clock now s q).2 newest.
Proof.
  intros Hr Ht Hc Htr Htime Hinv. pose proof (attempt_eq clock now s q Hr) as He.
  pose proof (flush_backlog_inv _ _ (λ i, clock (Datatypes.S i)) s _ newest (λ i, Hc _)
    (λ k, try_at_le _ _ q newest tried k Ht Htr) (absorb_inv _ t tried s q newest Ht Htime Hinv)) as Hf.
  change (flush_backlog _ s (absorb _ q)) with (flush clock s q) in Hf.
  destruct (flush clock s q) as [[s' q'] e]. by rewrite He.
Qed.

Lemma attempt_backing_off clock now s q : retry_at q ≠ None → attempt clock now s q = (s, q).
Proof. intros. unfold attempt. by rewrite decide_True. Qed.

Lemma reached_inv t tried s q newest :
  reached t tried s q newest → (∀ k, tried k ≤ t)%Z ∧ QInv t tried s q newest.
Proof.
  induction 1; try destruct IHreached as [Htr Hinv]; (split; [try done|]).
  - intros k. split; [split|]; intros ?; simpl; rewrite ?lookup_empty; try done. by intros [?|?].
  - intros k. unfold Located. rewrite H1. apply Hinv.
  - by apply enqueue_inv.
  - by apply insert_pending_inv.
  - intros k. by apply (try_at_le t).
  - by apply (attempt_inv t).
  - by rewrite attempt_backing_off.
  - done.
  - by apply stop_inv.
Qed.

(** The delay before a retry stays between the first and the longest. *)
Theorem backoff_bounds t tried s q newest :
  reached t tried s q newest → (INITIAL_BACKOFF ≤ backoff q ≤ MAX_BACKOFF)%Z.
Proof.
  induction 1 as [| | | |t tried s q newest clock now _ IH Hr| | |]; try done;
    [unfold enqueue; by destruct (closed q)| |by rewrite attempt_backing_off].
  pose proof (attempt_eq clock now s q Hr) as He.
  assert (backoff (flush clock s q).1.2 = backoff q) as Hb by done.
  destruct (flush clock s q) as [[s' q'] []]; rewrite He; simpl in *; lia.
Qed.

(** C29: Whatever order writes reach the queue in, whatever the sink refuses, and
    through retries and the drainer's end, the newest write handed to the queue
    for a key is not lost: it is pending, or in the drainer's backlog, or it is
    what the sink holds for the key, or it is counted as dropped.  The clock does
    not run backwards, and a write older than the newest of its key, when that
    one waits no more, is taken up less than five seconds after the start of the
    attempt that last found it waiting. *)
Theorem newest_write_kept t tried s q newest k pn :
  reached t tried s q newest → newest !! k = Some pn →
  pending q !! k = Some pn ∨ backlog q !! k = Some pn ∨ stored s k = Some (write pn) ∨
  (k, pn) ∈ dropped q.
Proof.
  intros Hr Hn. destruct (reached_inv t tried s q newest Hr) as [_ Hinv].
  destruct (Hinv k) as [_ Hl]. destruct (Hl pn Hn) as [?|[[_ [?|(_&?&_)]]|?]]; auto.
Qed.

(** A sink that takes every write, and goes on to. *)
Definition accepts (up : S → Prop) : Prop :=
  ∀ s l, up s → (apply_batch s l).2 = replicate (length l) (Ok ()) ∧ up (apply_batch s l).1.

Lemma all_ok (b : list (K * PendingWrite W)) n :
  omap is_refused (zip b (replicate n (Ok ()))) = [] ∧ omap is_dropped (zip b (replicate n (Ok ()))) = [].
Proof.
  revert n. induction b as [|e b IH]; intros [|n]; try done. apply IH.
Qed.

Lemma drain_loop_up up fuel clock d :
  accepts up → up (d_sink d) → d_error d = None →
  let d' := drain_loop fuel clock d in d_error d' = None ∧ d_dropped d' = d_dropped d.
Proof.
  intros Hup. revert clock d. induction fuel as [|fuel IH]; intros clock d Hs He; [done|]. simpl.
  case_decide; [done|]. destruct (drain_batch_eq (clock 0) d) as (E1&_&_&E4&_&E6&E7).
  match type of E1 with _ = (apply_batch _ ?l).1 => destruct (Hup (d_sink d) l Hs) as [Hok Hs'] end.
  rewrite Hok, length_fmap, resize_all_alt in E4, E6 by by rewrite length_replicate.
  destruct (all_ok (take 128 (map_to_list (d_backlog d))) (length (take 128 (map_to_list (d_backlog d)))))
    as [Hr Hd].
  rewrite Hd, app_nil_r in E4. rewrite <-E1 in Hs'.
  destruct (drain_batch (clock 0) d) as [d' again]. simpl in *. rewrite <-E4.
  assert (d_error d' = None) by by apply E6.
  destruct again; [by apply IH|done].
Qed.

Lemma attempt_drains (up : S → Prop) (clock : nat → Z) now t tried s q newest :
  accepts up → up s → reached t tried s q newest → retry_at q = None →
  (t ≤ clock 0%nat)%Z → (∀ i, clock 0%nat ≤ clock i)%Z → timely (clock 0) tried q newest →
  let '(s', q') := attempt clock now s q in
  pending q' = ∅ ∧ backlog q' = ∅ ∧ retry_at q' = None ∧ dropped q' = dropped q ∧
  ∀ k pn, newest !! k = Some pn → stored s' k = Some (write pn) ∨ (k, pn) ∈ dropped q.
Proof.
  intros Hup Hs Hreach Hr Ht Hc Htime. pose proof (attempt_eq clock now s q Hr) as He.
  destruct (reached_inv _ _ _ _ _ (reached_attempt t tried s q newest clock now Hreach Hr Ht Hc Htime))
    as [_ Hinv].
  pose proof (flush_backlog_done (λ i, clock (Datatypes.S i)) s (absorb (clock 0) q)) as Hb.
  assert ((flush clock s q).2 = None ∧ dropped (flush clock s q).1.2 = dropped q) as [Herr Hd].
  { unfold flush, flush_backlog. simpl.
    match goal with |- context [drain_loop ?n ?c ?d] =>
      destruct (drain_loop_up up n c d Hup Hs eq_refl) as [-> ->] end. by rewrite app_nil_r. }
  change (flush_backlog _ s (absorb _ q)) with (flush clock s q) in Hb.
  assert (pending (flush clock s q).1.2 = ∅ ∧ retry_at (flush clock s q).1.2 = None) as [Hp Hr'] by done.
  destruct (flush clock s q) as [[s' q'] e]. simpl in *. subst e. rewrite He in *. simpl in *.
  rewrite (Hb eq_refl). split_and!; try done. intros k pn Hn.
  destruct (Hinv k) as [_ Hl]. specialize (Hl pn Hn). unfold Located in Hl. simpl in Hl.
  rewrite Hp, (Hb eq_refl), !lookup_empty, Hd in Hl. destruct Hl as [?|[[_ [?|(_&?&_)]]|?]]; by auto.
Qed.

(** C30: Once the sink takes writes again and the retry is due (or none is
    scheduled), one attempt catches up: nothing is left pending or in the backlog,
    no retry is scheduled, nothing more is dropped, and the sink holds the newest
    write of every key not dropped before.  The clock does not run backwards, and
    a write older than the newest of its key, when that one waits no more, is
    taken up less than five seconds after the start of the attempt that last
    found it waiting. *)
Theorem attempt_catches_up (up : S → Prop) (clock : nat → Z) now t tried s q newest :
  accepts up → up s → reached t tried s q newest →
  (t ≤ clock 0%nat)%Z → (∀ i, clock 0%nat ≤ clock i)%Z → timely (clock 0) tried q newest →
  let '(s', q') := attempt clock now s (retry_due q) in
  pending q' = ∅ ∧ backlog q' = ∅ ∧ retry_at q' = None ∧ dropped q' = dropped q ∧
  ∀ k pn, newest !! k = Some pn → stored s' k = Some (write pn) ∨ (k, pn) ∈ dropped q.
Proof.
  intros Hup Hs Hr Ht Hc Htime.
  by apply (attempt_drains up clock now t tried s (retry_due q) newest Hup Hs (reached_retry _ _ _ _ _ Hr)).
Qed.

(** [timely] of a concrete queue. *)
Definition timely_check (now : Z) (tried : K → Z) q newest : bool :=
  bool_decide (map_Forall (λ k p,
    match newest !! k with
    | Some pn => (sequence pn <=? sequence p)%N || (now - tried k <? LATENESS)%Z
    | None => true
    end = true) (pending q)).

Lemma timely_check_timely now tried q newest :
  timely_check now tried q newest = true → timely now tried q newest.
Proof.
  intros Hc%bool_decide_eq_true k p pn Hp Hn Hlt _. specialize (Hc k p Hp). simpl in Hc.
  rewrite Hn, (proj2 (N.leb_gt _ _) Hlt) in Hc. by apply Z.ltb_lt in Hc.
Qed.

End drain.

(** ** A sink in memory, up or down *)

Section memory.
Context {K W : Type} `{Countable K}.

Abbreviation memory := (bool * gmap K W)%type (only parsing).

Definition memory_apply (s : memory) (l : list (K * W)) : memory * list (result BackendError ()) :=
  if s.1 then ((true, foldl (λ m e, <[e.1 := e.2]> m) s.2 l), replicate (length l) (Ok ()))
  else (s, replicate (length l) (Err Connection)).

Lemma memory_other (l : list (K * W)) k (m : gmap K W) :
  k ∉ l.*1 → foldl (λ m e, <[e.1 := e.2]> m) m l !! k = m !! k.
Proof.
  revert m. induction l as [|[k' w] l IH]; intros m Hk; [done|]. simpl in *.
  apply not_elem_of_cons in Hk as [? Hk]. by rewrite IH, lookup_insert_ne.
Qed.

Lemma memory_ok (l : list (K * W)) i k w (m : gmap K W) :
  NoDup l.*1 → l !! i = Some (k, w) → foldl (λ m e, <[e.1 := e.2]> m) m l !! k = Some w.
Proof.
  revert i m. induction l as [|[k' w'] l IH]; intros i m Hnd Hi; [done|]. simpl in *.
  apply NoDup_cons in Hnd as [Hk Hnd]. destruct i as [|i]; simplify_eq/=; [|by eapply IH].
  by rewrite memory_other, lookup_insert_eq.
Qed.

#[local] Lemma memory_apply_other s l k :
  k ∉ l.*1 → (memory_apply s l).1.2 !! k = s.2 !! k.
Proof. intros Hk. unfold memory_apply. destruct s as [[] m]; [by apply memory_other|done]. Qed.

#[local] Lemma memory_apply_ok s l i k w :
  NoDup l.*1 → l !! i = Some (k, w) → (memory_apply s l).2 !! i = Some (Ok ()) →
  (memory_apply s l).1.2 !! k = Some w.
Proof.
  unfold memory_apply. destruct s as [[] m]; simpl; [intros; by eapply memory_ok|].
  by intros _ _ [? _]%lookup_replicate.
Qed.

Definition memory_sink : WriteSink memory K W := {|
  apply_batch := memory_apply;
  stored s k := s.2 !! k;
  apply_other := memory_apply_other;
  apply_ok := memory_apply_ok;
|}.

End memory.

(** ** A run *)

#[local] Existing Instance memory_sink.

(** The write of sequence 2 meets a sink that is down, waits and is applied on
    the retry; the write of sequence 1 for the same key is late. *)
Definition down : bool * gmap string nat := (false, ∅).
Definition newer : PendingWrite nat := mkPending 22 2.
Definition older : PendingWrite nat := mkPending 11 1.

Definition run0 : Queue string nat := enqueue "a" newer (queue 0).
Definition run1 := attempt (λ _, 1%Z) 2%Z down run0.
Definition run2 := attempt (λ _, 200000000%Z) 200000000%Z (true, run1.1.2) (retry_due run1.2).
Definition run3 := enqueue "a" older run2.2.
Definition newest1 : gmap string (PendingWrite nat) := 
  <[ "a" := supersede ((∅ : gmap string (PendingWrite nat)) !! "a") newer ]> ∅.
Definition newest3 : gmap string (PendingWrite nat) :=
  <[ "a" := supersede (newest1 !! "a") older ]> newest1.
Definition tried1 : string → Z := try_at 1 run0 newest1 (λ _, 0%Z).
Definition tried2 : string → Z := try_at 200000000 (retry_due run1.2) newest1 tried1.

#[local] Lemma run_reached : reached 200000000 tried2 run2.1 run3 newest3.
Proof.
  apply (reached_enqueue _ _ run2.1 run2.2 newest1).
  refine (reached_attempt 1 tried1 _ _ _ (λ _, 200000000%Z) _ _ _ _ _ _); [|done|lia|lia|].
  - apply reached_retry. apply (reached_sink _ _ run1.1); [|done].
    refine (reached_attempt 0 (λ _, 0%Z) _ _ _ (λ _, 1%Z) _ _ _ _ _ _); [|done|lia|lia|].
    + apply (reached_enqueue _ _ down (queue 0) ∅ "a" newer). apply reached_queue.
    + apply timely_check_timely. by vm_compute.
  - apply timely_check_timely. by vm_compute.
Qed.

(** The late write does not replace the newer one in the sink. *)
Lemma newest_write_kept_witness :
  retry_at run1.2 = Some 100000002%Z ∧
  (pending run3 !! "a" = Some newer ∨ backlog run3 !! "a" = Some newer ∨
   stored run2.1 "a" = Some 22 ∨ ("a", newer) ∈ dropped run3).
Proof.
  split; [by vm_compute|].
  apply (newest_write_kept 200000000 tried2 run2.1 run3 newest3 "a" newer); [apply run_reached|].
  by vm_compute.
Defined.

Lemma attempt_catches_up_witness :
  let '(s, q) := attempt (λ _, 300000000%Z) 300000000%Z run2.1 (retry_due run3) in
  pending q = ∅ ∧ backlog q = ∅ ∧ retry_at q = None ∧ dropped q = dropped run3 ∧
  ∀ k pn, newest3 !! k = Some pn → stored s k = Some (write pn) ∨ (k, pn) ∈ dropped run3.
Proof.
  apply (attempt_catches_up (λ s : bool * gmap string nat, s.1 = true) (λ _, 300000000%Z) _ 200000000 tried2).
  - intros [[] m] l; [|done]. intros _. by split.
  - by vm_compute.
  - apply run_reached.
  - lia.
  - lia.
  - apply timely_check_timely. by vm_compute.
Defined.

(** A write taken up late by more than that is taken for a new one. *)
Example late_write_overwrites :
  stored run2.1 "a" = Some 22 ∧
  stored (attempt (λ _, 5300000000%Z) 5300000000%Z run2.1 run3).1 "a" = Some 11.
Proof. by vm_compute. Qed.

(** ** Late by microseconds, during a backoff *)

(** A sink that refuses the writes of one key, ["b"]. *)
Definition picky_apply (m : gmap string nat) (l : list (string * nat))
    : gmap string nat * list (result BackendError ()) :=
  (foldl (λ m e, if decide (e.1 = "b") then m else <[e.1 := e.2]> m) m l,
   (λ e, if decide (e.1 = "b") then Err Connection else Ok ()) <$> l).

#[local] Lemma picky_other m l k : k ∉ l.*1 → (picky_apply m l).1 !! k = m !! k.
Proof.
  revert m. induction l as [|[k' w] l IH]; intros m Hk; [done|]. simpl in *.
  apply not_elem_of_cons in Hk as [? Hk]. case_decide; [by apply IH|]. etrans; [by apply IH|].
  by apply lookup_insert_ne.
Qed.

#[local] Lemma picky_ok m l i k w :
  NoDup l.*1 → l !! i = Some (k, w) → (picky_apply m l).2 !! i = Some (Ok ()) →
  (picky_apply m l).1 !! k = Some w.
Proof.
  revert i m. induction l as [|[k' w'] l IH]; intros i m Hnd Hi Hok; [done|]. simpl in *.
  apply NoDup_cons in Hnd as [Hk Hnd]. destruct i as [|i]; simplify_eq/=; [|by eapply IH].
  case_decide; [done|]. etrans; [by apply picky_other|]. apply lookup_insert_eq.
Qed.

Definition picky_sink : WriteSink (gmap string nat) string nat := {|
  apply_batch := picky_apply;
  stored s k := s !! k;
  apply_other := picky_other;
  apply_ok := picky_ok;
|}.

#[local] Existing Instance picky_sink.

(** An attempt when the retry is due, and the time of the next. *)
Definition next_retry (x : Z * gmap string nat * Queue string nat) : Z * gmap string nat * Queue string nat :=
  let '(now, s, q) := x in
  let '(s, q) := attempt (λ _, now) now s (retry_due q) in (default now (retry_at q), s, q).

(** The seventh attempt writes ["a"] and is refused ["b"] again; the older write
    of ["a"] reaches the queue a microsecond later.  The retry is due five
    seconds on, when the sequence of the newer one is forgotten. *)
Definition sixth := Nat.iter 6 next_retry (0%Z, ∅, enqueue "b" (mkPending 33 3) (queue 0)).
Definition seventh := next_retry (sixth.1, enqueue "a" newer sixth.2).
Definition eighth := next_retry (seventh.1, enqueue "a" older seventh.2).

Example backoff_outlives_retention :
  (seventh.1.1 - sixth.1.1)%Z = MAX_BACKOFF ∧
  stored seventh.1.2 "a" = Some 22 ∧ stored eighth.1.2 "a" = Some 11.
Proof. by vm_compute. Qed.

End QueueProofs.
