(* ===== verification/WriteThrough.v ===== *)
(** * The backend mirrors the bindings

    The writes the registrar issues, composed with the queue that carries them:
    after any sequence of the operations that write through, the newest write
    issued for an address of record is its stored list ([Owed]), and once the
    queue has caught up the backend holds it.  The operations that can
    change bindings without a write, or with a write of another list, are not
    among them: pending bindings, an AS record refused (expired bindings go
    unwritten), the expiry sweep, an installed or an evicted restore, a
    connection closed with bindings to keep. *)

From S2P Require Import Prelude Str Nom Headers Uri Message Parser Transport Via NameAddr.
From S2P Require Import Binding ContactIndex Registrar RegistrarProofs RegistrarBindings.
From S2P Require Import WriteQueue WriteQueueProofs.

Module WriteThrough.
Import Holders Index Reg RegProofs RegBindings.

Inductive Keyspace := Bindings | State.

#[global] Instance keyspace_eq : EqDecision Keyspace.
Proof. solve_decision. Defined.

#[global] Instance keyspace_countable : Countable Keyspace.
Proof.
  refine (inj_countable' (λ k, match k with Bindings => true | State => false end)
    (λ b : bool, if b then Bindings else State) _). by intros [].
Defined.

Abbreviation WriteKey := (Keyspace * string)%type (only parsing).

Section mirror.
Context {U : Unicode} {P : Nom} {F : Float32} {O : Float32Order} {R : RandomState}.

Definition keyspace (w : BackendWrite) : Keyspace :=
  match w with Save _ | Remove => Bindings | SaveState _ | RemoveState => State end.

(** The newest write of each key among those handed to the queue. *)
Definition arrive (m : gmap WriteKey (Queue.PendingWrite BackendWrite))
    (e : string * BackendWrite * N) : gmap WriteKey (Queue.PendingWrite BackendWrite) :=
  let '(aor, w, n) := e in
  <[(keyspace w, aor) := Queue.supersede (m !! (keyspace w, aor)) (Queue.mkPending w n)]> m.

Definition arrivals (q : list (string * BackendWrite * N)) := foldl arrive ∅ q.

(** The write of a list of bindings. *)
Definition persisted (l : list Contact) : BackendWrite := match l with [] => Remove | _ => Save l end.

(** A newest write that says what is stored. *)
Definition mirrored (stored : option (list Contact)) (w : option BackendWrite) : Prop :=
  match stored with
  | Some (c :: l) => w = Some (Save (c :: l))
  | _ => w = None ∨ w = Some Remove
  end.

Definition newest_write (w : BackendWriter) (aor : string) : option (Queue.PendingWrite BackendWrite) :=
  arrivals (w_queue w) !! (Bindings, aor).

(** No sequence above the last one handed out. *)
Definition Fresh (w : BackendWriter) : Prop :=
  ∀ k p, arrivals (w_queue w) !! k = Some p → (Queue.sequence p ≤ w_sequence w)%N.

(** Everything is mirrored but the addresses of record in [X], whose write is
    still to come, with the sequence [X] gives. *)
Definition Owed (X : gmap string N) (r : Registrar) : Prop :=
  ∀ w, backend_writer r = Some w →
    Fresh w ∧
    (∀ a n, X !! a = Some n → (n ≤ w_sequence w)%N ∧
       ∀ p, newest_write w a = Some p → (Queue.sequence p ≤ n)%N) ∧
    (∀ a, X !! a = None → mirrored (bindings r !! a) (Queue.write <$> newest_write w a)).

(** The newest write for [a] is the one of [l]. *)
Definition Paid (a : string) (l : list Contact) (r : Registrar) : Prop :=
  ∀ w, backend_writer r = Some w → Queue.write <$> newest_write w a = Some (persisted l).

(** ** Steps that keep what is owed *)

(** The bindings and the writes for them are untouched. *)
Definition keeps (r r' : Registrar) : Prop :=
  bindings r' = bindings r ∧
  ∀ w', backend_writer r' = Some w' → ∃ w, backend_writer r = Some w ∧
    (w_sequence w ≤ w_sequence w')%N ∧ (Fresh w → Fresh w') ∧
    ∀ a, newest_write w' a = newest_write w a.

#[global] Instance keeps_preorder : PreOrder keeps.
Proof.
  split.
  - intros r. split; [done|]. intros w Hw. by exists w.
  - intros r1 r2 r3 [H1 K1] [H2 K2]. split; [congruence|]. intros w3 (w2&E2&?&?&N2)%K2.
    destruct (K1 w2 E2) as (w1&E1&?&?&N1). exists w1. split_and!; [done|lia|auto|].
    intros a. by rewrite N2, N1.
Qed.

(** What most of the bookkeeping leaves alone. *)
Definition trace (r : Registrar) := (bindings r, backend_writer r).

Lemma keeps_trace r r' : trace r' = trace r → keeps r r'.
Proof.
  intros [Hb Hw]%pair_equal_spec. split; [done|]. intros w'. rewrite Hw. intros ?. by exists w'.
Qed.

Lemma Owed_keeps X r r' : keeps r r' → Owed X r → Owed X r'.
Proof.
  intros [Hb Hk] Ho w' (w&Hw&?&Hf&Hn)%Hk. destruct (Ho w Hw) as (H1&H2&H3). split_and!; [auto| |].
  - intros a n Ha. rewrite Hn. destruct (H2 a n Ha). split; [lia|done].
  - intros a Ha. rewrite Hn, Hb. by apply H3.
Qed.

Lemma Paid_keeps a l r r' : keeps r r' → Paid a l r → Paid a l r'.
Proof. intros [_ Hk] Hp w' (w&Hw&_&_&Hn)%Hk. rewrite Hn. by apply Hp. Qed.

Lemma trace_announce make s : trace (announce make s).2 = trace s.2.
Proof. destruct s as [[h|] r]; cbn; [|done]. by destruct (deferring h). Qed.

Lemma trace_index_connection id b aor r : trace (index_connection id b aor r) = trace r.
Proof. unfold index_connection. by destruct b, id. Qed.

Lemma trace_deindex_connection id aor r : trace (deindex_connection id aor r) = trace r.
Proof. unfold deindex_connection. destruct (connection_index r !! id); [|done]. by case_match. Qed.

Lemma trace_forget aor stale r : trace (forget aor stale r) = trace r.
Proof.
  unfold forget. rewrite (foldl_invariant _ trace); [by apply (foldl_invariant _ trace)|].
  intros. apply trace_deindex_connection.
Qed.

Lemma trace_unindex aor contacts r : trace (unindex aor contacts r) = trace r.
Proof.
  unfold unindex. rewrite (foldl_invariant _ trace); [done|].
  intros r' c. destruct (stream_connection c); [rewrite trace_deindex_connection|];
    by destruct (c_flow_token c).
Qed.

Lemma trace_prune primary r : trace (prune_aliases_to primary r) = trace r.
Proof. unfold prune_aliases_to. by destruct (associated_uris r !! primary). Qed.

Lemma arrivals_app q e : arrivals (q ++ [e]) = arrive (arrivals q) e.
Proof. unfold arrivals. by rewrite foldl_app. Qed.

(** A write of the other keyspace. *)
Lemma keeps_persist_aor_state aor r : keeps r (persist_aor_state aor r).
Proof.
  unfold persist_aor_state, write_sequence. destruct (backend_writer r) as [w|] eqn:Hw; [|done].
  set (r1 := set_out _ _ _ r). assert (∀ write, keyspace write = State →
    keeps r (enqueue aor write (w_sequence w + 1) r1)) as Hk; [|repeat case_match; by apply Hk].
  intros write Hs. split; [by unfold enqueue|]. cbn. intros w' [= <-]. exists w.
  unfold Fresh, newest_write. cbn. rewrite arrivals_app. cbn. rewrite Hs. split_and!; [done|lia| |].
  - intros Hf k p. destruct (decide (k = (State, aor))) as [->|]; [|rewrite lookup_insert_ne by done].
    + rewrite lookup_insert_eq. intros [= <-]. destruct (arrivals (w_queue w) !! _) as [h|] eqn:Hh; cbn; [|lia].
      apply Hf in Hh. destruct (_ <=? _)%N; cbn; lia.
    + intros Hp%Hf. lia.
  - intros a. by rewrite lookup_insert_ne.
Qed.

Lemma keeps_drop_aor_state aor r : keeps r (drop_aor_state aor r).
Proof.
  unfold drop_aor_state, remove_aor_state_entries. set (r1 := set_aux _ _ _ _ _).
  assert (keeps r r1) as Hk by (apply keeps_trace; rewrite <-(trace_prune aor r); done).
  destruct (_ || _); [|done]. etrans; [done|apply keeps_persist_aor_state].
Qed.

(** ** Owing and paying *)

(** A list changes under a sequence just taken. *)
Lemma Owed_take X r a b ci n r' :
  Owed X r → X !! a = None → write_sequence r = (n, r') →
  (∀ a', a' ≠ a → b !! a' = bindings r !! a') → Owed (<[a := n]> X) (set_bindings b ci r').
Proof.
  intros Ho Ha. unfold write_sequence. destruct (backend_writer r) as [w|] eqn:Hw.
  2: { intros [= <- <-] _ w Hw'. cbn in Hw'. congruence. }
  intros [= <- <-] Hb w' [= <-]. destruct (Ho w Hw) as (H1&H2&H3). cbn. split_and!.
  - intros k p Hp. cbn in *. specialize (H1 k p Hp). lia.
  - intros a' n. destruct (decide (a' = a)) as [->|]; [|rewrite lookup_insert_ne by done].
    + rewrite lookup_insert_eq. intros [= <-]. split; [cbn; lia|]. intros p Hp.
      specialize (H1 _ p Hp). lia.
    + intros Hn. destruct (H2 a' n Hn) as [? Hp]. split; [cbn; lia|]. apply Hp.
  - intros a'. destruct (decide (a' = a)) as [->|]; [by rewrite lookup_insert_eq|].
    rewrite lookup_insert_ne, Hb by done. apply H3.
Qed.

(** The write of a list owed, under the sequence owed. *)
Lemma Owed_write X a n w r :
  keyspace w = Bindings → X !! a = Some n → Owed X r →
  Owed X (enqueue a w n r) ∧
  ∀ w', backend_writer (enqueue a w n r) = Some w' → Queue.write <$> newest_write w' a = Some w.
Proof.
  intros Hk Ha Ho. unfold enqueue. destruct (backend_writer r) as [w0|] eqn:Hw.
  2: { split; [done|]. rewrite Hw. done. }
  destruct (Ho w0 Hw) as (H1&H2&H3). destruct (H2 a n Ha) as [Hn Hp].
  assert (newest_write (mkWriter (w_sequence w0) (w_queue w0 ++ [(a, w, n)])) a =
    Some (Queue.mkPending w n)) as Hnew.
  { unfold newest_write. cbn. rewrite arrivals_app. cbn. rewrite Hk, lookup_insert_eq. f_equal.
    apply QueueProofs.supersede_le. intros h Hh. by apply Hp. }
  assert (∀ k, k ≠ (Bindings, a) →
    arrivals (w_queue w0 ++ [(a, w, n)]) !! k = arrivals (w_queue w0) !! k) as Hother.
  { intros k Hne. rewrite arrivals_app. cbn. rewrite Hk. by apply lookup_insert_ne. }
  split; [|by intros w' [= <-]; rewrite Hnew]. intros w' [= <-]. split_and!.
  - intros k p. cbn. destruct (decide (k = (Bindings, a))) as [->|]; [|rewrite Hother by done; apply H1].
    unfold newest_write in Hnew. cbn in Hnew. rewrite Hnew. by intros [= <-].
  - intros a' n' Ha'. destruct (H2 a' n' Ha') as [? Hp']. split; [done|].
    destruct (decide (a' = a)) as [->|]; [rewrite Hnew; intros p [= <-]; by simplify_eq|].
    unfold newest_write. cbn. by rewrite Hother by congruence.
  - intros a' Ha'. assert (a' ≠ a) by congruence. unfold newest_write. cbn.
    rewrite Hother by congruence. by apply H3.
Qed.

Lemma Owed_pay X a r l :
  Owed X r → Paid a l r → bindings r !! a = (match l with [] => None | _ => Some l end) →
  Owed (delete a X) r.
Proof.
  intros Ho Hp Hb w Hw. destruct (Ho w Hw) as (H1&H2&H3). split_and!; [done| |].
  - intros a' n [_ ?]%lookup_delete_Some. by apply H2.
  - intros a'. destruct (decide (a' = a)) as [->|]; [|rewrite lookup_delete_ne by done; apply H3].
    intros _. rewrite Hb, (Hp w Hw). destruct l; cbn; [by right|done].
Qed.

(** ** The operations *)

Definition effect_list (e : Effect) : list Contact :=
  match e with Removed _ l _ => l | Stored _ l _ _ _ _ => l end.

Lemma carry_out_bindings a n s e : bindings (carry_out a n s e).2 = bindings s.2.
Proof. pose proof (store_carry_out a n s e) as [? _]%store_eq. done. Qed.

(** An effect of a REGISTER writes its list. *)
Lemma carry_out_pays X a n s e :
  X !! a = Some n → Owed X s.2 →
  Owed X (carry_out a n s e).2 ∧ Paid a (effect_list e) (carry_out a n s e).2.
Proof.
  intros Ha Ho.
  assert (∀ l r r', keeps s.2 r → keeps (persist_aor a l n r) r' → Owed X r' ∧ Paid a l r') as Hpay.
  { intros l r r' Hr Hr'. destruct (Owed_write X a n (persisted l) r) as [Ho' Hp]; [by destruct l|done| |].
    - by eapply Owed_keeps.
    - split; [by eapply Owed_keeps|by eapply Paid_keeps]. }
  destruct s as [h r], e as [stale l emptied|stale l token conn stream refreshed]; cbn [carry_out effect_list].
  - eapply Hpay; [apply keeps_trace, trace_forget|].
    etrans; [|apply keeps_trace, trace_announce]. cbn [snd]. destruct emptied; [|done].
    etrans; [apply keeps_drop_aor_state|by apply keeps_trace].
  - set (r1 := foldl _ r stale.1). assert (trace r1 = trace r) as H1.
    { apply (foldl_invariant _ trace). intros. by case_decide. }
    set (r2 := match token with Some _ => _ | None => _ end).
    assert (trace r2 = trace r) as H2 by (by destruct token).
    set (r3 := foldl _ r2 stale.2). assert (trace r3 = trace r) as H3.
    { rewrite <-H2. apply (foldl_invariant _ trace). intros. apply trace_deindex_connection. }
    apply (Hpay l (index_connection conn stream a r3)).
    { apply keeps_trace. by rewrite trace_index_connection. }
    destruct refreshed; (etrans; [|apply keeps_trace, trace_announce]); [done|by apply keeps_trace].
Qed.

Lemma carry_out_all X a n s es :
  X !! a = Some n → Owed X s.2 →
  Owed X (foldl (carry_out a n) s es).2 ∧
  bindings (foldl (carry_out a n) s es).2 = bindings s.2 ∧
  ∀ e, last es = Some e → Paid a (effect_list e) (foldl (carry_out a n) s es).2.
Proof.
  intros Ha Ho. induction es as [|e es IH] using rev_ind; [done|].
  rewrite foldl_app. cbn [foldl]. destruct IH as (Ho'&Hb&_).
  destruct (carry_out_pays X a n _ e Ha Ho') as [Ho'' Hp].
  split_and!; [done|by rewrite carry_out_bindings|]. intros e'. rewrite last_snoc. by intros [= <-].
Qed.

Lemma stage_effect r now l u l' e : stage r now l u = Ok (l', e) → effect_list e = l'.
Proof.
  unfold stage. destruct (_ && _); [done|]. destruct (_ =? 0)%N; [by intros [= <- <-]|].
  destruct (replace_index _ _); [by intros [= <- <-]|]. case_bool_decide; [done|]. by intros [= <- <-].
Qed.

(** The last effect of a REGISTER carries the list it stores. *)
Lemma stage_all_last r now l us l' es :
  stage_all r now l us = Ok (l', es) →
  match last es with Some e => effect_list e = l' | None => us = [] ∧ l' = l end.
Proof.
  revert l es. induction us as [|u us IH]; intros l es; cbn [stage_all]; [by intros [= <- <-]|].
  intros ([l1 e] & H1 & H2)%bind_Ok. apply bind_Ok in H2 as ([l2 es'] & H2 & [= <- <-]).
  apply IH in H2. rewrite last_cons. destruct (last es') as [e'|]; [done|].
  destruct H2 as [_ ->]. by eapply stage_effect.
Qed.

(** The list of an address of record is taken and its removal written. *)
Lemma release_taken X r a removed n r' :
  Owed X r → X !! a = None → take_bindings a r = (removed, n, r') →
  Owed X (release_cleared a removed n r') ∧
  bindings (release_cleared a removed n r') = delete a (bindings r).
Proof.
  unfold take_bindings. destruct (write_sequence r) as [m r1] eqn:Hs. intros Ho Ha [= <- <- <-].
  pose proof (view_write_sequence r) as [[Hb _]%store_eq _]%view_eq. rewrite Hs in Hb. cbn in Hb.
  set (r2 := set_bindings _ _ r1). unfold release_cleared.
  set (r3 := match bindings r !! a with Some _ => _ | None => _ end).
  assert (trace r3 = trace r2) as Ht by (subst r3; destruct (bindings r !! a); [apply trace_unindex|done]).
  assert (Owed (<[a := m]> X) r2) as Ho2.
  { eapply Owed_take; [done..|]. intros a' Hne. rewrite Hb. by apply lookup_delete_ne. }
  apply (Owed_keeps _ r2 r3) in Ho2; [|by apply keeps_trace].
  destruct (Owed_write (<[a := m]> X) a m Remove r3) as [Ho3 Hp]; [done|apply lookup_insert_eq|done|].
  set (r4 := enqueue a Remove m r3) in *.
  assert (bindings r4 = delete a (bindings r)) as Hb4.
  { pose proof (view_enqueue a Remove m r3) as [[Hb4 _]%store_eq _]%view_eq.
    apply pair_equal_spec in Ht as [Hb3 _]. unfold r4. by rewrite Hb4, Hb3, <-Hb. }
  pose proof (keeps_drop_aor_state a r4) as Hk. split.
  - apply (Owed_keeps _ _ _ Hk). rewrite <-(delete_insert_id X a m Ha). apply (Owed_pay _ _ _ []); [done|done|].
    rewrite Hb4. apply lookup_delete_eq.
  - by rewrite (proj1 Hk).
Qed.

Lemma Owed_clear_bindings X aor r :
  X !! resolve_alias aor r = None → Owed X r → Owed X (clear_bindings aor r).
Proof.
  intros Ha Ho. unfold clear_bindings. destruct (take_bindings _ r) as [[removed n] r'] eqn:Ht.
  by apply (release_taken X _ _ _ _ _ Ho Ha Ht).
Qed.

Lemma Owed_remove_all aor h r : Owed ∅ r → Owed ∅ (remove_all_in aor h r).2.
Proof.
  intros Ho. unfold remove_all_in. set (a := resolve_alias aor r).
  destruct (take_bindings a r) as [[removed n] r'] eqn:Ht.
  apply (release_taken ∅ _ _ _ _ _ Ho (lookup_empty _)) in Ht as [Ho' _].
  revert Ho'. apply Owed_keeps. etrans; [|apply keeps_trace, trace_announce]. cbn [snd].
  unfold release_cleared. destruct removed; by apply keeps_trace.
Qed.

Lemma Owed_commit X r key held l n r' :
  Owed X r → X !! key = None → write_sequence r = (n, r') →
  Owed (<[key := n]> X) (commit key held l r') ∧
  bindings (commit key held l r') !! key = (match l with [] => None | _ => Some l end).
Proof.
  intros Ho Ha Hs. pose proof (view_write_sequence r) as [[Hb _]%store_eq _]%view_eq.
  rewrite Hs in Hb. cbn in Hb. split.
  - eapply Owed_take; [done..|]. intros a' Hne. rewrite Hb.
    destruct l; [by apply lookup_delete_ne|by apply lookup_insert_ne].
  - cbn. destruct l; [apply lookup_delete_eq|apply lookup_insert_eq].
Qed.

(** The effects of an operation end with the write of the list committed. *)
Lemma Owed_effects key n s es l :
  Owed {[key := n]} s.2 → bindings s.2 !! key = (match l with [] => None | _ => Some l end) →
  (∃ e, last es = Some e ∧ effect_list e = l) → Owed ∅ (foldl (carry_out key n) s es).2.
Proof.
  intros Ho Hb (e&He&<-).
  destruct (carry_out_all {[key := n]} key n s es) as (Ho'&Hb'&Hp); [apply lookup_singleton_eq|done|].
  rewrite <-(delete_singleton_eq key n). eapply Owed_pay; [done|by apply Hp|]. by rewrite Hb'.
Qed.

(** The removal of a list whose own write is still to come. *)
Lemma release_owed X r a contacts n :
  Owed X r → X !! a = Some n →
  Owed X (release_cleared a contacts n r) ∧ bindings (release_cleared a contacts n r) = bindings r.
Proof.
  intros Ho Ha. unfold release_cleared. set (r1 := match contacts with Some _ => _ | None => _ end).
  assert (trace r1 = trace r) as Ht by (subst r1; destruct contacts; [apply trace_unindex|done]).
  apply (Owed_keeps _ r r1) in Ho; [|by apply keeps_trace].
  destruct (Owed_write X a n Remove r1) as [Ho' _]; [done..|].
  pose proof (keeps_drop_aor_state a (enqueue a Remove n r1)) as Hk. split; [by eapply Owed_keeps|].
  pose proof (view_enqueue a Remove n r1) as [[Hb _]%store_eq _]%view_eq.
  rewrite (proj1 Hk), Hb. by apply pair_equal_spec in Ht as [? _].
Qed.

Lemma Owed_apply_register now aor updates force h r s :
  apply_register_in now aor updates force h r = Ok s → Owed ∅ r → Owed ∅ s.2.
Proof.
  intros Hok Ho. destruct updates as [|u us]; unfold apply_register_in in Hok.
  { injection Hok as <-. destruct force; [by apply Owed_clear_bindings|done]. }
  set (primary := resolve_alias aor r) in Hok.
  set (key := if force && alias_retired_by_clearing aor primary r then _ else _) in Hok.
  clearbody key. destruct (negb (is_aor_key_safe key)); [done|]. cbv zeta in Hok.
  apply bind_Ok in Hok as ([l es] & Hst & Hok). apply stage_all_last in Hst.
  assert (∃ e, last es = Some e ∧ effect_list e = l) as Hlast
    by (destruct (last es) as [e|]; [by exists e|by destruct Hst]).
  destruct (write_sequence r) as [n r1] eqn:Hs. injection Hok as <-.
  set (held := if force && bool_decide (key = primary) then [] else _).
  destruct (Owed_commit ∅ r key held l n r1 Ho (lookup_empty _) Hs) as [Hoc Hbc].
  set (r2 := commit key held l r1) in *. rewrite insert_empty in Hoc.
  apply (Owed_effects key n (h, _) es l); [| |done]; cbn [snd]; destruct force; try done; cbn [andb];
    case_bool_decide as Hk; try subst key.
  - by apply release_owed; [|apply lookup_singleton_eq].
  - destruct (take_bindings primary r2) as [[removed m] r3] eqn:Ht.
    by apply (release_taken _ _ _ _ _ _ Hoc (lookup_singleton_ne _ _ _ Hk) Ht).
  - by destruct (release_owed {[primary := n]} r2 primary (bindings r !! primary) n Hoc (lookup_singleton_eq _ _))
      as [_ ->].
  - destruct (take_bindings primary r2) as [[removed m] r3] eqn:Ht.
    destruct (release_taken _ _ _ _ _ _ Hoc (lookup_singleton_ne _ _ _ Hk) Ht) as [_ ->].
    by rewrite lookup_delete_ne.
Qed.

Lemma Owed_remove_contact now aor uri r : Owed ∅ r → Owed ∅ (remove_contact now aor uri r).2.
Proof.
  intros Ho. unfold remove_contact. set (removed := λ c : Contact, _ && (_ || _)).
  set (a := resolve_alias aor r). destruct (bindings r !! a) as [contacts|] eqn:Ha; [|done].
  destruct (existsb removed contacts); [|done]. cbv zeta.
  destruct (write_sequence r) as [n r1] eqn:Hs. cbn [snd]. set (l := cascade now _).
  destruct (Owed_commit ∅ r a contacts l n r1 Ho (lookup_empty _) Hs) as [Hoc Hbc].
  rewrite insert_empty in Hoc.
  by apply (Owed_effects a n (None, _) [Removed _ l (is_nil l)] l); [..|eexists].
Qed.

(** A list committed and written. *)
Lemma Owed_persist r a held l n r1 :
  Owed ∅ r → write_sequence r = (n, r1) → Owed ∅ (persist_aor a l n (commit a held l r1)).
Proof.
  intros Ho Hs. destruct (Owed_commit ∅ r a held l n r1 Ho (lookup_empty _) Hs) as [Hoc Hbc].
  rewrite insert_empty in Hoc. set (r2 := commit a held l r1) in *.
  destruct (Owed_write {[a := n]} a n (persisted l) r2) as [Ho' Hp];
    [by destruct l|apply lookup_singleton_eq|done|].
  rewrite <-(delete_singleton_eq a n). apply (Owed_pay _ a _ l); [done|done|].
  pose proof (view_persist_aor a l n r2) as [[Hb _]%store_eq _]%view_eq. by rewrite Hb.
Qed.

(** A sequence taken and the same bindings put back. *)
Lemma Owed_unchanged r n r1 b ci :
  Owed ∅ r → write_sequence r = (n, r1) → b = bindings r → Owed ∅ (set_bindings b ci r1).
Proof.
  intros Ho Hs Hb. apply (Owed_keeps _ r); [|done]. split; [done|]. intros w' Hw'. cbn in Hw'.
  unfold write_sequence in Hs. destruct (backend_writer r) as [w|] eqn:Hw; [|congruence].
  injection Hs as <- <-. cbn in Hw'. injection Hw' as <-. exists w.
  split_and!; [done|cbn; lia| |done]. intros Hf k p Hp. specialize (Hf k p Hp). cbn. lia.
Qed.

Lemma filter_length_id (l : list Contact) (f : Contact → bool) :
  length l ≤ length (filter (λ c, f c = false) l) → filter (λ c, f c = false) l = l.
Proof.
  induction l as [|c l IH]; [done|]. rewrite filter_cons. case_decide; cbn.
  - intros. f_equal. apply IH. lia.
  - pose proof (length_filter (λ c, f c = false) l). lia.
Qed.

(** With no binding to keep, the close of a connection detaches none. *)
Lemma Owed_close_flow_of now id s a :
  Owed ∅ (cl_registrar s) → Owed ∅ (cl_registrar (close_flow_of now id ∅ s a)).
Proof.
  intros Ho. unfold close_flow_of. case_decide; [done|].
  destruct (bindings (cl_registrar s) !! a) as [contacts|] eqn:Ha; [|done].
  set (gone := λ c : Contact, on_flow id c && bool_decide (show_uri (c_uri c) ∉ (∅ : gset string))).
  assert (∀ c, gone c = on_flow id c) as Hg
    by (intros c; unfold gone; rewrite bool_decide_eq_true_2 by set_solver; apply andb_true_r).
  set (left := (λ c : Contact, if on_flow id c then detach c else c) <$> _).
  assert (left = filter (λ c, gone c = false) contacts) as Hleft.
  { rewrite <-(list_fmap_id (filter _ contacts)). apply list_fmap_ext. intros i c Hc.
    apply list_elem_of_lookup_2, list_elem_of_filter in Hc as [Hc _]. rewrite Hg in Hc. by rewrite Hc. }
  cbv zeta. destruct (write_sequence (cl_registrar s)) as [n r1] eqn:Hs. cbn [cl_registrar].
  destruct (_ || _) eqn:Hc; [by eapply Owed_persist|].
  apply orb_false_iff in Hc as [Hlen%bool_decide_eq_false Hnil].
  rewrite Hleft in Hlen. apply Nat.nlt_ge, filter_length_id in Hlen. rewrite Hleft, Hlen in *.
  assert (cascade now contacts = contacts) as Hcas.
  { unfold cascade in *. by destruct (existsb _ contacts). }
  unfold commit. rewrite Hcas in *. eapply Owed_unchanged; [done|done|].
  destruct contacts; [done|]. pose proof (view_write_sequence (cl_registrar s)) as [[Hb _]%store_eq _]%view_eq.
  rewrite Hs in Hb. cbn in Hb. rewrite Hb. by apply insert_id.
Qed.

Lemma Owed_close_flow now id r : Owed ∅ r → Owed ∅ (close_flow now id ∅ r).2.
Proof.
  intros Ho. unfold close_flow. destruct (connection_index r !! id) as [aors|]; [|done]. cbn [snd].
  set (s := foldl _ _ aors). assert (Owed ∅ (cl_registrar s)) as Hs.
  { apply (foldl_preserves (λ s, Owed ∅ (cl_registrar s))); [intros; by apply Owed_close_flow_of|].
    revert Ho. by apply Owed_keeps, keeps_trace. }
  revert Hs. apply Owed_keeps, keeps_trace. rewrite (foldl_invariant _ trace) by done.
  set (r1 := foldl _ (cl_registrar s) _).
  assert (trace r1 = trace (cl_registrar s)) as <- by by apply (foldl_invariant _ trace).
  by destruct (0 <? _)%Z.
Qed.

Lemma Owed_evict_of s a : Owed ∅ s.2 → Owed ∅ (evict_of s a).2.
Proof.
  destruct s as [[k dropped] r]. cbn [snd]. intros Ho. unfold evict_of.
  destruct (bindings r !! a) as [contacts|]; [|done]. cbv zeta. case_bool_decide; [done|].
  destruct (write_sequence r) as [n r1] eqn:Hs. cbn [snd]. set (l := filter _ contacts).
  set (r2 := commit a contacts l r1). set (r3 := if is_nil l then _ else r2).
  pose proof (Owed_persist r a contacts l n r1 Ho Hs) as Ho'. fold r2 in Ho'.
  revert Ho'. apply Owed_keeps, keeps_trace. clearbody r2. subst r3.
  destruct (is_nil l); [|done]. unfold trace, emit_event, persist_aor, enqueue. cbn.
  destruct (backend_writer r2) eqn:Hw; cbn; by rewrite ?Hw.
Qed.

Lemma Owed_evict r : Owed ∅ r → Owed ∅ (evict_connection_oriented r).2.
Proof.
  intros Ho. unfold evict_connection_oriented. set (s := foldl evict_of _ _).
  assert (Owed ∅ s.2) as Hs by (apply (foldl_preserves (λ s, Owed ∅ s.2)); [apply Owed_evict_of|done]).
  destruct s as [[k dropped] r']. cbn [snd] in *. revert Hs. apply Owed_keeps, keeps_trace.
  rewrite (foldl_invariant _ trace); [by apply (foldl_invariant _ trace)|].
  intros r1 m. destruct (stream_connection m.2); [apply trace_deindex_connection|done].
Qed.

(** The list of [a] replaced and written, the sequence taken in between. *)
Lemma Owed_replaced r a l b0 ci n r1 r2 :
  Owed ∅ r → trace r1 = (b0, backend_writer r) → write_sequence r1 = (n, r2) →
  (∀ a', a' ≠ a → b0 !! a' = bindings r !! a') →
  Owed ∅ (persist_aor a l n (set_bindings (match l with
                                            | [] => delete a (bindings r2)
                                            | _ => <[a := l]> (bindings r2)
                                            end) ci r2)).
Proof.
  intros Ho Ht Hs Hb0. set (b := match l with [] => _ | _ => _ end).
  pose proof (view_write_sequence r1) as [[Hb _]%store_eq _]%view_eq. rewrite Hs in Hb. cbn in Hb.
  apply pair_equal_spec in Ht as [Ht Hw].
  assert (b !! a = match l with [] => None | _ => Some l end) as Hba
    by (subst b; destruct l; [apply lookup_delete_eq|apply lookup_insert_eq]).
  assert (∀ a', a' ≠ a → b !! a' = bindings r !! a') as Hbo.
  { intros a' Hne. rewrite <-Hb0, <-Ht, <-Hb by done. subst b.
    destruct l; [by apply lookup_delete_ne|by apply lookup_insert_ne]. }
  destruct (write_sequence r) as [m r'] eqn:Hs'.
  assert (n = m ∧ backend_writer r2 = backend_writer r') as [-> Hw2].
  { clear -Hw Hs Hs'. unfold write_sequence in *. rewrite Hw in Hs.
    destruct (backend_writer r) eqn:Hr; simplify_eq/=; [done|]. split; [done|congruence]. }
  pose proof (Owed_take ∅ r a b ci m r' Ho (lookup_empty _) Hs' Hbo) as Hoc. rewrite insert_empty in Hoc.
  set (r3 := set_bindings b ci r2).
  apply (Owed_keeps _ _ r3) in Hoc; [|apply keeps_trace; unfold trace; cbn; by rewrite Hw2].
  destruct (Owed_write {[a := m]} a m (persisted l) r3) as [Ho' Hp];
    [by destruct l|apply lookup_singleton_eq|done|].
  rewrite <-(delete_singleton_eq a m). apply (Owed_pay _ a _ l); [done|done|].
  pose proof (view_persist_aor a l m r3) as [[Hb3 _]%store_eq _]%view_eq. by rewrite Hb3.
Qed.

(** An AS record accepted. *)
Lemma Owed_save_as now aor uri expires q params r r' :
  save_as_contact now aor uri expires q params r = (true, r') → Owed ∅ r → Owed ∅ r'.
Proof.
  unfold save_as_contact. set (a := resolve_alias aor r). set (all := default [] (bindings r !! a)).
  set (contacts := filter _ all). set (r1 := foldl _ _ (omap _ _)).
  assert (trace r1 = (<[a := contacts]> (bindings r), backend_writer r)) as Ht.
  { subst r1. rewrite (foldl_invariant _ trace); [done|]. intros. apply trace_deindex_connection. }
  assert (∀ a', a' ≠ a → <[a := contacts]> (bindings r) !! a' = bindings r !! a') as Hb
    by (intros; by apply lookup_insert_ne).
  clearbody r1. destruct (write_sequence r1) as [n r2] eqn:Hs.
  destruct (expires =? 0)%N.
  - case_bool_decide; [done|]. intros [= <-] Ho. by eapply Owed_replaced.
  - destruct (existsb (live_ue now) contacts) eqn:Hlive; cbn [negb]; [|done]. intros [= <-] Ho.
    set (l := match position _ _ with Some _ => _ | None => _ end).
    pose proof (Owed_replaced r a l _ (contact_index r2) n r1 r2 Ho Ht Hs Hb) as Hr.
    destruct l as [|c l'] eqn:Hl; [|done]. exfalso. subst l. apply (f_equal length) in Hl.
    destruct (position _ contacts); rewrite ?length_insert, ?length_app in Hl; cbn in Hl; [|lia].
    apply nil_length_inv in Hl. by rewrite Hl in Hlive.
Qed.

(** ** Over a run *)

(** The operations that write through: an AS record that is accepted, and a
    connection closed without a binding to keep. *)
Inductive writes_through : Registrar → Registrar → Prop :=
  | wt_register now aor updates force hold r s :
      apply_register_in now aor updates force hold r = Ok s → writes_through r s.2
  | wt_flush hold r : writes_through r (flush hold r).2
  | wt_clear aor r : writes_through r (clear_bindings aor r)
  | wt_remove_all aor hold r : writes_through r (remove_all_in aor hold r).2
  | wt_remove_contact now aor uri r : writes_through r (remove_contact now aor uri r).2
  | wt_remove_contacts_from now aor source uris r :
      writes_through r (remove_contacts_from now aor source uris r).2
  | wt_service_routes aor routes r : writes_through r (set_service_routes aor routes r)
  | wt_associated_uris aor uris r : writes_through r (set_associated_uris aor uris r)
  | wt_asserted_identity aor identity r : writes_through r (set_asserted_identity aor identity r)
  | wt_close_flow now id r : writes_through r (close_flow now id ∅ r).2
  | wt_save_as now aor uri expires q params r r' :
      save_as_contact now aor uri expires q params r = (true, r') → writes_through r r'
  | wt_evict r : writes_through r (evict_connection_oriented r).2
  | wt_rebuild_tokens now r : writes_through r (rebuild_token_index now r).

Lemma Owed_remove_contacts_from now aor source uris r :
  Owed ∅ r → Owed ∅ (remove_contacts_from now aor source uris r).2.
Proof.
  intros Ho. unfold remove_contacts_from. apply (foldl_preserves (λ s, Owed ∅ s.2)); [|done].
  intros [k r'] uri Ho'. cbn [snd] in *. pose proof (Owed_remove_contact now aor uri r' Ho').
  by destruct (remove_contact now aor uri r') as [[] r''].
Qed.

Lemma Owed_step r r' : writes_through r r' → Owed ∅ r → Owed ∅ r'.
Proof.
  destruct 1; intros Ho.
  - by eapply Owed_apply_register.
  - revert Ho. apply Owed_keeps, keeps_trace. by apply (foldl_invariant _ trace).
  - by apply Owed_clear_bindings.
  - by apply Owed_remove_all.
  - by apply Owed_remove_contact.
  - by apply Owed_remove_contacts_from.
  - revert Ho. apply Owed_keeps. etrans; [|apply keeps_persist_aor_state]. by apply keeps_trace.
  - revert Ho. apply Owed_keeps. etrans; [|apply keeps_persist_aor_state]. apply keeps_trace.
    exact (trace_prune _ r).
  - revert Ho. apply Owed_keeps. etrans; [|apply keeps_persist_aor_state]. by apply keeps_trace.
  - by apply Owed_close_flow.
  - by eapply Owed_save_as.
  - by apply Owed_evict.
  - revert Ho. by apply Owed_keeps, keeps_trace.
Qed.

Lemma Owed_initial r : initial r → backend_writer r = Some (mkWriter 0 []) → Owed ∅ r.
Proof.
  intros -> Hw w Hw'. cbn in *. rewrite Hw in Hw'. injection Hw' as <-.
  unfold Fresh, newest_write. cbn. split_and!.
  - intros k p. by rewrite lookup_empty.
  - intros a n. by rewrite lookup_empty.
  - intros a _. rewrite !lookup_empty. by left.
Qed.

(** The newest write issued for an address of record says what is stored. *)
Theorem newest_write_mirrors r0 r w aor :
  initial r0 → backend_writer r0 = Some (mkWriter 0 []) → rtc writes_through r0 r →
  backend_writer r = Some w →
  mirrored (bindings r !! aor) (Queue.write <$> newest_write w aor).
Proof.
  intros Hi Hw Hr Hw'. assert (Owed ∅ r) as Ho.
  { pose proof (Owed_initial r0 Hi Hw) as Ho. clear -Hr Ho. induction Hr; eauto using Owed_step. }
  apply (Ho w Hw'). apply lookup_empty.
Qed.

End mirror.

(** C28: After any sequence of REGISTERs, removals and clearings of bindings,
    AS records accepted, evictions of connection-oriented bindings, closes of
    connections with no binding to keep, and updates of the auxiliary state, and
    once the queue has taken what they issued and its retry is due with a backend
    that is up, one attempt makes the backend hold for every address of record
    the list the registrar holds, and a removal where it holds none (or was never
    told of it), unless that very write was counted as dropped.  The clock does
    not run backwards, and a write that reaches the queue behind a newer one of
    its key is taken up less than five seconds after the start of the attempt
    that last found that one waiting. *)
Theorem backend_holds_bindings
    `{U : Unicode, P : Nom, F : Float32, O : !Float32Order, R : RandomState}
    {S : Type} `{!Queue.WriteSink S WriteKey BackendWrite} (up : S → Prop)
    (clock : nat → Z) (now t : Z) tried (s : S) q (r0 r : Registrar) (w : BackendWriter) (aor : string) :
  initial r0 → backend_writer r0 = Some (mkWriter 0 []) → rtc writes_through r0 r →
  backend_writer r = Some w →
  QueueProofs.accepts up → up s → QueueProofs.reached t tried s q (arrivals (w_queue w)) →
  (t ≤ clock 0%nat)%Z → (∀ i, clock 0%nat ≤ clock i)%Z →
  QueueProofs.timely (clock 0) tried q (arrivals (w_queue w)) →
  let told l := Queue.stored (Queue.attempt clock now s (Queue.retry_due q)).1 (Bindings, aor) =
                  Some (persisted l) ∨
                ∃ n, ((Bindings, aor), Queue.mkPending (persisted l) n) ∈ Queue.dropped q in
  match bindings r !! aor with
  | Some (c :: l) => told (c :: l)
  | _ => newest_write w aor = None ∨ told []
  end.
Proof.
  intros Hi Hw0 Hr Hw Hup Hs Hq Ht Hc Htime told.
  pose proof (newest_write_mirrors r0 r w aor Hi Hw0 Hr Hw) as Hm.
  pose proof (QueueProofs.attempt_drains up clock now t tried s (Queue.retry_due q) _ Hup Hs
    (QueueProofs.reached_retry _ _ _ _ _ Hq) eq_refl Ht Hc Htime) as Hd.
  assert (∀ l, Queue.write <$> newest_write w aor = Some (persisted l) → told l) as Htold.
  { intros l (p&Hn&Hp)%fmap_Some. unfold told. destruct (Queue.attempt clock now s _) as [s' q'].
    destruct Hd as (_&_&_&_&Hd). rewrite Hp. destruct (Hd _ p Hn) as [?|?]; [by left|right].
    exists (Queue.sequence p). by destruct p. }
  destruct (bindings r !! aor) as [[|c l]|]; cbn in Hm; [|by apply Htold|];
    (destruct Hm as [Hm|Hm]; [left; by apply fmap_None in Hm|right; by apply Htold]).
Qed.

(** ** Alice registers two devices, then logs out one *)

Import Running.

Definition backed : Registrar :=
  mkRegistrar ∅ ∅ ∅ ∅ ∅ ∅ ∅ ∅ default_config [] (Some (mkWriter 0 [])) None 0.

Definition registered : Registrar :=
  (default (None, backed) (ok (apply_register_in 0 Sample.aor
    [Sample.update "10.0.0.1" 600; Sample.update "10.0.0.2" 600] false None backed))).2.

Definition logged_out : Registrar := (remove_contact 0 Sample.aor "sip:alice@10.0.0.1" registered).2.

Definition issued : BackendWriter := default (mkWriter 0 []) (backend_writer logged_out).

(** The queue takes what was issued, in order. *)
Definition feed (l : list (string * BackendWrite * N)) (q : Queue.Queue WriteKey BackendWrite) :=
  foldl (λ q e, let '(aor, w, n) := e in Queue.enqueue (keyspace w, aor) (Queue.mkPending w n) q) q l.

#[local] Existing Instance QueueProofs.memory_sink.

Lemma feed_reached (s : bool * gmap WriteKey BackendWrite) (l : list (string * BackendWrite * N))
    (q : Queue.Queue WriteKey BackendWrite) (m : gmap WriteKey (Queue.PendingWrite BackendWrite)) :
  QueueProofs.reached 0 (λ _, 0%Z) s q m → QueueProofs.reached 0 (λ _, 0%Z) s (feed l q) (foldl arrive m l).
Proof.
  revert q m. induction l as [|[[aor w] n] l IH]; intros q m Hr; [done|]. cbn. apply IH.
  by apply QueueProofs.reached_enqueue.
Qed.

Lemma some_default {A} (x : option A) d : 
  match x with Some _ => true | None => false end = true → x = Some (default d x).
Proof. by destruct x. Qed.

Lemma backend_holds_bindings_witness :
  let s := (true, ∅) : bool * gmap WriteKey BackendWrite in
  let q := feed (w_queue issued) (Queue.queue 0) in
  length (w_queue issued) = 3 ∧ length (default [] (bindings logged_out !! Sample.aor)) = 1 ∧
  match bindings logged_out !! Sample.aor with
  | Some (c :: l) =>
      Queue.stored (Queue.attempt (λ _, 1%Z) 2%Z s (Queue.retry_due q)).1 (Bindings, Sample.aor) = Some (persisted (c :: l)) ∨
      ∃ n, ((Bindings, Sample.aor), Queue.mkPending (persisted (c :: l)) n) ∈ Queue.dropped q
  | _ => newest_write issued Sample.aor = None ∨
      (Queue.stored (Queue.attempt (λ _, 1%Z) 2%Z s (Queue.retry_due q)).1 (Bindings, Sample.aor) = Some (persisted []) ∨
       ∃ n, ((Bindings, Sample.aor), Queue.mkPending (persisted []) n) ∈ Queue.dropped q)
  end.
Proof.
  cbv zeta. split; [by vm_compute|]. split; [by vm_compute|].
  refine (backend_holds_bindings (λ s : bool * gmap WriteKey BackendWrite, s.1 = true)
    (λ _, 1%Z) 2%Z 0%Z (λ _, 0%Z) (true, ∅) (feed (w_queue issued) (Queue.queue 0)) backed logged_out issued
    Sample.aor _ _ _ _ _ _ _ _ _ _).
  - done.
  - done.
  - eapply rtc_l; [|apply rtc_once, wt_remove_contact]. eapply (wt_register 0 Sample.aor _ false None).
    apply ok_default. by vm_compute.
  - apply some_default. by vm_compute.
  - intros [[] m] l; [|done]. intros _. by split.
  - done.
  - apply feed_reached, QueueProofs.reached_queue.
  - done.
  - done.
  - apply QueueProofs.timely_check_timely. by vm_compute.
Defined.

End WriteThrough.
